(* ===== verification/_CoqProject ===== *)
-Q . S2P
Prelude.v
Types.v
BufferProvider.v
BufferPool.v
BufferPoolSpec.v
BufferPoolProps.v
Buffer.v
BufferSpec.v
BufferProps.v
Kernel.v
Epoll.v
Controller.v
ControllerSpec.v
ControllerProps.v
BlockQueue.v
BlockQueueSpec.v
BlockQueueProps.v
BlockQueueWait.v
QueueObjects.v
QueueObjectsProps.v
TaskPool.v
ThreadPool.v
ThreadPoolSpec.v
ThreadPoolInv.v
ThreadPoolProps.v
Task.v
TaskSpec.v
TaskProps.v
TaskStack.v
TaskStackProps.v
State.v
Tcp.v
TcpSpec.v
TcpIo.v
TcpToken.v
TcpMain.v
TcpFrame.v
Callback.v
CallbackSpec.v
Stream.v
StreamSpec.v
Server.v
ServerSpec.v
ServerInv.v
ServerLive.v
ServerStop.v
TcpLoops.v
TcpProps.v
IoProps.v
ServerStart.v
ServerProps.v
StreamProps.v
Udp.v
UdpServer.v
UdpProps.v
UdpServerProps.v
Clients.v
ClientsProps.v
ClientsUdpProps.v
