(* ===== verification/Prelude.v ===== *)
(** * SPSock: a verification library for the epoll networking library HSLL/SPSock

    HSLL/SPSock is a C++ library for TCP and UDP servers on Linux.  This
    development translates its implementation and the programs that come with
    it into Rocq and proves what makes them correct, or shows where they are not.

    ** The program

    A TCP server ([SPSockTcp], SPSock.cpp) has three kinds of threads.  The
    main thread ([MainEventLoop]) accepts connections, assigns each to the IO
    thread with the fewest, and every 50 ms closes the connections in the close
    list.  An IO thread ([IOEventLoop]) waits on its [epoll] descriptor,
    receives into or sends from the connection's buffers, and hands the
    connection to the worker pool through a submission utility (SPTask.hpp).  A
    worker (base/ThreadPool.hpp) takes tasks from its queue
    (base/TPBlockQueue.hpp), or steals them, and runs the user's callback, which
    uses the controller (SPController.cpp) to read, write, arm or close.  A
    controller's two ring buffers (SPBuffer.cpp) live in blocks of a pooled
    allocator (SPBufferPool.hpp).  Descriptors are watched with [EPOLLONESHOT]:
    a connection belongs to one thread at a time, from the report of an event
    until it is armed again, queued, or given to the close list.  A UDP server
    ([SPSockUdp]) serves one socket per processor with a receive loop each.

    ** The files

    For each component: the data and operations, one definition per function
    of the source under the source's name; then [...Spec] (invariants, the
    abstract view, one lemma per operation); then [...Props] (the theorems and
    their witnesses, concrete runs at which the hypotheses hold).

    - [Types]: SPTypes.h, and [Config] of both servers (SPSock.cpp).
    - [BufferProvider] is the interface of the allocator to the buffers;
      [BufferPool], [-Spec], [-Props]: SPBufferPool.hpp, pointer by pointer,
      with the proof that it keeps the interface ([pool_laws]).
    - [Buffer], [-Spec], [-Props]: SPBuffer.h, SPBuffer.cpp.
    - [Kernel]: system calls and their trace.  [Epoll]: a second interface of
      the kernel, what [epoll] promises: which descriptors are open, which are
      watched, and that one armed with [EPOLLONESHOT] is reported once.
      [Controller], [-Spec], [-Props]:
      SPController.h, SPController.cpp, SPDeferred.h, SPDeferred.cpp.
    - [BlockQueue], [-Spec], [-Props]: base/TPBlockQueue.hpp.
      [BlockQueueWait]: its condition variable, the threads that sleep on it
      and those that wake them.  [QueueObjects], [-Props]: the objects in its
      nodes and at its callers.
    - [TaskPool] is the interface of the thread pool to the submission;
      [ThreadPool], [-Spec], [-Inv], [-Props]: base/ThreadPool.hpp, as
      interleaved actions, with the proof that it keeps the interface
      ([thread_pool_laws], [thread_pool_room]).
    - [Task], [-Spec], [-Props]: SPTask.hpp.
    - [TaskStack], [-Props]: base/TPTask.h.
    - [State], [Tcp]: [SPSockTcp] of SPSock.h and SPSock.cpp, [SOCKADDR_IN].
      [TcpSpec]: accepting and closing.  [TcpIo]: the IO threads.  [TcpToken]:
      what becomes of a reported connection.  [TcpMain]: the main thread.
      [TcpFrame]: what an operation leaves alone.  [TcpLoops]: descriptors
      opened and closed.  [TcpProps], [IoProps]: the theorems.
    - [Callback], [-Spec]: a callback as a program of calls to the members of
      SOCKController, and the rule it has to keep.
    - [Server], [-Spec], [-Inv], [-Live], [-Stop], [-Start], [-Props]: the threads of the TCP
      server together, as one transition system that takes its steps from
      [Tcp], [ThreadPool] and [Callback]; [owners] says who has which
      connection.  [ServerSpec]: what each operation does to the owners;
      [ServerInv]: the invariant, action by action; [ServerLive]: that what is
      there to do can be finished; [ServerStop]: that the pool is stopped and
      joined on every schedule; [ServerStart]: that [EventLoop] establishes the
      invariant.
    - [Stream], [-Spec], [-Props]: what goes through a connection from end to
      end, when the callbacks only relay.
    - [Udp], [UdpProps]: [SPSockUdp] of SPSock.h and SPSock.cpp.  [UdpServer],
      [UdpServerProps]: its threads together, with the user's function as a
      program over [SendTo].
    - [Clients]: the programs of src/example and src/test, callbacks and
      [main].  [ClientsProps], [ClientsUdpProps]: those programs from the
      start of the process to every state the threads of the server can reach.

    ** How the code is modelled

    - State is passed explicitly.  The server's functions are written in the
      monad [st] of [State] over the state of the process: the members of the
      instance, the globals, the heap of controllers, the kernel, the two pools
      and the user's own state.
    - [None] is undefined behaviour: an access outside a block or past an
      array, a null or dangling pointer, a double free, a remainder by zero, a
      failed [assert].  That a theorem says [= Some] is part of its claim.
    - [unsigned int] and [int] are 32 bits wide and wrap ([u32], [i32]); [int]
      overflow is stated where it can happen ([pool_size_overflow]).  [float]
      and [double] are the standard library's [spec_float].
    - The operating system is the class [Kernel]: it answers a call and moves
      on.  [KernelLaws] is what the code relies on ([recv] and [send] move at
      most what they were asked to); [Patient] says no call is interrupted by
      signals for ever.  Every call and its answer is recorded; what was sent,
      received, opened, closed and armed is read off that trace.
    - The functions called on opening and closing a connection are the class
      [Callbacks] (they change the user's state), the functions in tasks
      [UserTask]; a read or write callback is a [Callback.prog], a language
      for clients that translates no code: what its calls do, [user_call], does.  [new] and [malloc] may fail:
      [grant], [alloc], [fresh] say when.
    - Memory that is read before it was written has arbitrary contents
      ([uninit], [w_garbage]).  What an access to a destroyed controller comes
      to is the parameter [stale]: [None] is undefined behaviour, as the C++
      standard has it, [Some] the outcome that the memory is still as it was.
      The theorems on the whole server hold for every choice of one or the
      other for each controller ([faithful]), undefined behaviour throughout
      ([fun _ => None]) among them; the witnesses take that one.
    - Concurrency.  The thread pool is a system of interleaved atomic actions
      ([ThreadPool.act]): every access to shared state is one.  A thread's loop
      in the servers takes an argument [others], what the other threads and
      signal handlers do between two of its turns; a turn itself is not
      interleaved, the code holding a lock or owning the connection meanwhile.
      The exit flag is read through the kernel, since others may clear it.
    - The whole server ([Server.act]) is interleaved more finely: a step is a
      turn of the main loop, after it one step of [pool.exit()] (one queue is
      stopped, or the workers are joined), one [epoll_wait], one event or the flush at the
      end of a batch of an IO thread, one action of [ThreadPool.process] of a
      worker, or one call of a callback; [enableEvents] is two steps and more,
      the arming and each write to the member [events].  [io_round_steps] says
      that the steps of an IO thread make up [io_round].  Not interleaved are
      the accesses within one of these steps.
    - Fuel.  Loops that retry on [EINTR] take [ifuel] attempts; under [Patient]
      that is enough.  Event loops take a number of turns, since they do not
      end by themselves; a result [None] inside [Some] says the loop still
      runs.  [commit] of a batch needs two rounds, the ring being gone round at
      most once, and is proved never to run out.  The loops over a buffer are
      bounded by its size.

    ** What the theorems show

    - Allocator: outstanding buffers are disjoint and inside live blocks,
      every operation is defined in every reachable state, [reset] frees all.
    - Buffer, controller: a buffer is a bounded byte queue; what is received is
      appended and what is sent was pending, in order, nothing lost or doubled,
      on every outcome of every call.
    - Queue, thread pool: the queue is a bounded FIFO; under every interleaving
      each accepted task is executed, held by one worker or queued, exactly
      once; a graceful exit terminates and has executed all (in batch mode).
      No wake-up of the queue's condition variable is lost, whatever the order
      of operations, time-outs and spurious wake-ups ([no_lost_wakeup]), and
      the wake-ups under way arrive ([wakeups_arrive]): the reason why
      elsewhere a wait is a step that is not possible yet.  As a container of
      objects it neither leaks nor destroys twice, whether elements are copied
      or moved in, assigned or placed out ([objects_refine_fifo]), provided
      they do not throw ([bulk_throw_loses_element]); a worker's storage is raw
      again after each batch ([worker_batch]).
    - Submission: the exact outcome of a commit; batches of one are the same as
      single submission.
    - TCP server: accepting and closing keep the map, the controllers, the
      buffers and the counts consistent ([conn_inv]) on every outcome of every
      call; an IO thread is never undefined, keeps [conn_inv], closes nothing,
      and, when the pool has room, sends each reported connection to exactly
      one of pool, [epoll], close list ([io_round_conserves]); which
      descriptors accepting opens and closes, and which one it loses
      ([handle_connect]); what a read and a write event come to, on every
      answer of the kernel ([handle_read], [handle_write]).
    - The threads together: from the state in which [EventLoop] enters the main
      loop ([event_loop_launches]), in every run of any length, each connection
      has exactly one owner ([one_owner]), no two callbacks run for one
      connection and nobody touches it meanwhile ([callback_exclusive]),
      and every next step is defined but for two accesses to controllers that
      were destroyed, which are listed ([server_defined]).  From every state
      before the first queue is stopped the threads can finish all the work
      there is, after which each connection is watched or about to be closed,
      unless a callback has still to make the second of these accesses
      ([server_drains]).  When the main loop has ended, the pool can always be
      stopped further, and once its queues are stopped every schedule of the
      threads comes to an end with the workers joined, unless it comes to that
      same access ([server_stops]).  The hypotheses ([ServerProps.setting],
      [set_up], [admissible]) are a valid configuration, memory that suffices,
      a server with both a read and a write callback (with one only, the tests
      at SPSock.cpp:596 and 635 are the wrong way round,
      [read_event_write_only]), callbacks that end and that arm or close their
      connection once on every path, and turns of the main loop taken only
      while there are fewer connections than a queue of the pool has places
      (so that no submission fails) and buffers for one more.
      [enable_events_late_write] and [close_list_use_after_free] show that the
      two accesses happen and are undefined; [task_commit_drops] and
      [task_double_dispatch] what comes of failed submissions.
      When the callbacks relay, as the echo server's does, what was sent on a
      connection is a prefix of what was received on it, and the rest waits in
      its buffers in order, whichever threads did the work ([echo_stream]).
      [client_programs] puts all of this together for the programs of the
      examples and tests: from [main] on, in a new process, with nothing
      assumed of the server's state.
    - UDP server: the threads of the echo server send on each socket exactly the
      answers to what came in, in order, each to its own sender ([udp_echo]);
      each datagram is delivered once, in order; sockets are closed
      when not all could be opened.  [udp_program] starts from [main].
    - Tasks: whatever a program does with [TaskStack]s, each object is
      destroyed at most once and fits its storage, and a call or destruction
      misses its object only after a copy assignment threw
      ([task_objects_once], [copy_assign_outcome]).
    - Defects of the code are theorems too, of the kind "under these conditions
      the outcome is this": [close_list_use_after_free], [task_commit_drops],
      [task_double_dispatch], [single_exit_loses_task], [submit_after_exit],
      [accept_error_stops_server], [read_event_write_only], [udp_bind],
      [pool_size_overflow], [copy_assign_outcome], [enable_events_late_write],
      [enable_events_lost].  Where a correctness theorem
      has a hypothesis that the code does not ensure (room in the pool, no
      failed submission, no late write), one of these says why.

    ** What is not modelled

    - Output: the logging of SPLog.hpp, and the minimum level it looks at.
    - The weak memory model: unlocked reads see the current value.
    - Alignment: of the node pointers inside a block of the allocator (the
      offsets of a block are exact under [pool_config]), and of tasks whose
      type asks for more than the storage of a [TaskStack] gives.
    - Binding of workers to processors, and both [emplaceBulk], which do not
      compile when used.
    - Locks themselves: an operation under a lock is one step (the condition
      variable of the queue is modelled, in [BlockQueueWait]).
    - The last part of the shutdown of the threads together: the transition
      system follows the server until the workers are joined; from there on an
      IO thread that reports anything is undefined ([submit_after_exit]).  The end
      of [EventLoop] ([leave_loop]) is modelled as a whole on its own, with the
      other threads as [others].
    - What the compiler enforces alone: [noncopyable], deleted functions,
      templates other than the two address families.
    - [src/include] (copies of the declarations); test/MemoryTracer.h, which
      counts the bytes of [new] and [delete], and the mains of memory_test and
      udp_test, which print that count. *)

From Stdlib Require Export ZArith Lia Init.Byte.
From stdpp Require Export base tactics numbers list gmap strings pretty.
#[global] Open Scope Z_scope.

(** ** Machine integers *)

(** [unsigned int] is 32 bits wide on the platforms the library is built for:
    arithmetic on it is reduced modulo 2^32. *)
Definition u32 (z : Z) : Z := z mod 2 ^ 32.

(** [int] arithmetic that leaves the range wraps on the machine (two's
    complement); C++ calls it undefined behaviour, so the places where it can
    happen are stated as findings. *)
Definition i32 (z : Z) : Z := (z + 2 ^ 31) mod 2 ^ 32 - 2 ^ 31.

Lemma u32_small z : 0 <= z < 2 ^ 32 -> u32 z = z.
Proof. intros ?. unfold u32. by apply Z.mod_small. Qed.

Lemma u32_range z : 0 <= u32 z < 2 ^ 32.
Proof. unfold u32. apply Z.mod_pos_bound. lia. Qed.

Lemma i32_small z : - 2 ^ 31 <= z < 2 ^ 31 -> i32 z = z.
Proof. intros ?. unfold i32. rewrite Z.mod_small; lia. Qed.

(** Unsigned division and remainder by zero are undefined behaviour. *)
Definition u32_mod (a b : Z) : option Z :=
  if b =? 0 then None else Some (a mod b).

Lemma u32_mod_pos a b : 0 < b -> u32_mod a b = Some (a mod b).
Proof. intros. unfold u32_mod. by rewrite (proj2 (Z.eqb_neq _ _)) by lia. Qed.

(** [(b < a) ? b : a], the source's way to write a minimum. *)
Lemma ltb_min a b : (if b <? a then b else a) = Z.min a b.
Proof. destruct (Z.ltb_spec b a); lia. Qed.

(** The two cases of a ring index that moved forward by at most one lap. *)
Lemma ring_mod_lo a b c : 0 <= a -> 0 <= b -> a + b < c -> (a + b) mod c = a + b.
Proof. intros. apply Z.mod_small. lia. Qed.

Lemma ring_mod_hi a b c :
  0 <= a < c -> 0 <= b <= c -> c <= a + b -> (a + b) mod c = a + b - c.
Proof.
  intros. symmetry. apply (Z.mod_unique_pos _ _ 1); lia.
Qed.

Create HintDb spsock.
Create Rewrite HintDb machine_int.
#[export] Hint Rewrite u32_small i32_small using lia : machine_int.

Tactic Notation "int_simpl" := autorewrite with machine_int in *.

(** ** Memory blocks: checked [memcpy] *)

(** [mem_load m off n] is what [memcpy] reads from [m + off] over [n] bytes,
    [mem_store m off d] the block after [memcpy (m + off, d, |d|)].  An access
    that leaves the block is undefined behaviour: the result is [None]. *)
Section memory.
Context {A : Type}.
Implicit Types (m d : list A) (off n : Z).

Definition mem_load m off n : option (list A) :=
  if (0 <=? off) && (0 <=? n) && (off + n <=? Z.of_nat (length m))
  then Some (take (Z.to_nat n) (drop (Z.to_nat off) m))
  else None.

Definition mem_store m off d : option (list A) :=
  if (0 <=? off) && (off + Z.of_nat (length d) <=? Z.of_nat (length m))
  then Some (list_inserts (Z.to_nat off) d m)
  else None.

Lemma mem_load_in m off n :
  0 <= off -> 0 <= n -> off + n <= Z.of_nat (length m) ->
  mem_load m off n = Some (take (Z.to_nat n) (drop (Z.to_nat off) m)).
Proof.
  intros. unfold mem_load.
  by rewrite !(proj2 (Z.leb_le _ _)) by lia.
Qed.

Lemma mem_store_in m off d :
  0 <= off -> off + Z.of_nat (length d) <= Z.of_nat (length m) ->
  mem_store m off d = Some (list_inserts (Z.to_nat off) d m).
Proof.
  intros. unfold mem_store.
  by rewrite !(proj2 (Z.leb_le _ _)) by lia.
Qed.

Lemma mem_load_length m off n d :
  mem_load m off n = Some d -> Z.of_nat (length d) = n.
Proof.
  unfold mem_load. case_match eqn:E; [|done]. intros [= <-].
  rewrite !andb_true_iff, !Z.leb_le in E.
  rewrite length_take, length_drop. lia.
Qed.
End memory.

(** ** Rings *)

(** The position [i] cells after [s] in a ring of [L] cells ([s < L], [i <= L]). *)
Definition ring_idx (L s i : nat) : nat :=
  if decide (s + i < L)%nat then (s + i)%nat else (s + i - L)%nat.

Lemma ring_idx_lt L s i : (s < L)%nat -> (i <= L)%nat -> (ring_idx L s i < L)%nat.
Proof. intros. unfold ring_idx. case_decide; lia. Qed.

Lemma ring_idx_add L s i j :
  (s < L)%nat -> (i + j <= L)%nat ->
  ring_idx L (ring_idx L s i) j = ring_idx L s (i + j).
Proof. intros. unfold ring_idx. repeat case_decide; lia. Qed.

Lemma ring_idx_inj L s i j :
  (s < L)%nat -> (i < L)%nat -> (j < L)%nat -> ring_idx L s i = ring_idx L s j -> i = j.
Proof. intros ???. unfold ring_idx. repeat case_decide; lia. Qed.

Lemma ring_idx_mod L s i :
  (s < L)%nat -> (i <= L)%nat -> ring_idx L s i = ((s + i) mod L)%nat.
Proof.
  intros. unfold ring_idx. case_decide.
  - by rewrite Nat.mod_small.
  - apply (Nat.mod_unique _ _ 1%nat); lia.
Qed.

Lemma ring_idx_Z L s i :
  (s < L)%nat -> (i <= L)%nat ->
  Z.of_nat (ring_idx L s i) = (Z.of_nat s + Z.of_nat i) mod Z.of_nat L.
Proof. intros. rewrite ring_idx_mod, Nat2Z.inj_mod, Nat2Z.inj_add by done. done. Qed.

(** [ring_read m s n]: the [n] cells of the ring [m] from position [s],
    going round the end at most once. *)
Section ring.
Context {A : Type}.
Implicit Types (m d : list A) (s n : nat).

Definition ring_read m s n : list A := take n (drop s m ++ take s m).

Lemma ring_read_lookup m s n i :
  (s <= length m)%nat -> (n <= length m)%nat -> (i < n)%nat ->
  ring_read m s n !! i = m !! ring_idx (length m) s i.
Proof.
  intros Hs Hn Hi. unfold ring_read, ring_idx.
  rewrite lookup_take_lt by done. case_decide.
  - rewrite lookup_app_l by (rewrite length_drop; lia). by rewrite lookup_drop.
  - rewrite lookup_app_r by (rewrite length_drop; lia).
    rewrite length_drop, lookup_take_lt by lia. f_equal. lia.
Qed.

Lemma ring_read_length m s n :
  (s <= length m)%nat -> (n <= length m)%nat -> length (ring_read m s n) = n.
Proof.
  intros. unfold ring_read.
  rewrite length_take, length_app, length_drop, length_take. lia.
Qed.

(** Two lists of the length of a ring read, equal cell by cell. *)
Lemma ring_read_eq m s n d :
  (s <= length m)%nat -> (n <= length m)%nat -> length d = n ->
  (forall i, (i < n)%nat -> d !! i = m !! ring_idx (length m) s i) ->
  ring_read m s n = d.
Proof.
  intros Hs Hn Hd Hi. apply list_eq_same_length with (n := n);
    [done|by apply ring_read_length|].
  intros i x y Hlt. rewrite ring_read_lookup, Hi by done. congruence.
Qed.

(** Reading [n1 + n2] cells is reading [n1] and then [n2] from where the
    first read stopped. *)
Lemma ring_read_split m s n1 n2 :
  (s < length m)%nat -> (n1 + n2 <= length m)%nat ->
  ring_read m s (n1 + n2)
    = ring_read m s n1 ++ ring_read m (ring_idx (length m) s n1) n2.
Proof.
  intros Hs Hn.
  pose proof (ring_idx_lt (length m) s n1 Hs ltac:(lia)).
  apply ring_read_eq; [lia|lia|by rewrite length_app, !ring_read_length by lia|].
  intros i Hi. case (decide (i < n1)%nat) as [Hi1|Hi1].
  - rewrite lookup_app_l by (rewrite ring_read_length; lia).
    by rewrite ring_read_lookup by lia.
  - rewrite lookup_app_r; rewrite ring_read_length by lia; [|lia].
    rewrite ring_read_lookup, ring_idx_add by lia. do 2 f_equal. lia.
Qed.

(** A contiguous read does not go round. *)
Lemma ring_read_linear m s n :
  (s + n <= length m)%nat -> ring_read m s n = take n (drop s m).
Proof.
  intros. unfold ring_read. apply take_app_le. rewrite length_drop. lia.
Qed.

Lemma ring_read_take m s n k :
  (k <= n)%nat -> take k (ring_read m s n) = ring_read m s k.
Proof. intros. unfold ring_read. rewrite take_take. f_equal. lia. Qed.

Lemma ring_read_drop m s n k :
  (s < length m)%nat -> (k <= n <= length m)%nat ->
  drop k (ring_read m s n) = ring_read m (ring_idx (length m) s k) (n - k).
Proof.
  intros Hs Hk. replace n with (k + (n - k))%nat at 1 by lia.
  rewrite ring_read_split by lia. apply drop_app_length'. by rewrite ring_read_length by lia.
Qed.

(** A read that goes round is two contiguous ones. *)
Lemma ring_read_two m s n :
  (s <= length m)%nat -> (n <= length m <= s + n)%nat ->
  ring_read m s n = take (length m - s) (drop s m) ++ take (n - (length m - s)) m.
Proof.
  intros. unfold ring_read. rewrite take_app, length_drop, take_take.
  rewrite !(take_ge (drop s m)) by (rewrite length_drop; lia).
  by rewrite Nat.min_l by lia.
Qed.

(** [ring_store m pos d]: [d] stored from [pos], going round the end. *)
Definition ring_store m pos d : list A :=
  list_inserts 0 (drop (length m - pos) d) (list_inserts pos (take (length m - pos) d) m).

Lemma ring_store_length m pos d : length (ring_store m pos d) = length m.
Proof. unfold ring_store. by rewrite !length_inserts. Qed.

Lemma ring_store_linear m pos d :
  (pos + length d <= length m)%nat -> ring_store m pos d = list_inserts pos d m.
Proof. intros. unfold ring_store. by rewrite drop_ge, take_ge by lia. Qed.

Lemma ring_store_in m pos d j :
  (pos < length m)%nat -> (length d <= length m)%nat -> (j < length d)%nat ->
  ring_store m pos d !! ring_idx (length m) pos j = d !! j.
Proof.
  intros Hp Hd Hj. unfold ring_store, ring_idx. case_decide.
  - rewrite list_lookup_inserts_ge by (rewrite length_drop; lia).
    rewrite list_lookup_inserts by (rewrite ?length_take; lia).
    rewrite lookup_take_lt by lia. f_equal. lia.
  - rewrite list_lookup_inserts by (rewrite ?length_inserts, ?length_drop; lia).
    rewrite lookup_drop. f_equal. lia.
Qed.

Lemma ring_store_out m pos d i :
  (pos < length m)%nat -> (length d <= length m)%nat -> (i < length m)%nat ->
  (forall j, (j < length d)%nat -> i <> ring_idx (length m) pos j) ->
  ring_store m pos d !! i = m !! i.
Proof.
  intros Hp Hd Hi Hne. unfold ring_store.
  assert (i < length d - (length m - pos) -> False)%nat as Hlo.
  { intros ?. apply (Hne (i + (length m - pos))%nat); [lia|].
    unfold ring_idx. rewrite decide_False by lia. lia. }
  rewrite list_lookup_inserts_ge by (rewrite length_drop; lia).
  destruct (decide (i < pos)%nat); [by rewrite list_lookup_inserts_lt by lia|].
  rewrite list_lookup_inserts_ge; [done|]. rewrite length_take.
  destruct (decide (pos + Nat.min (length m - pos) (length d) <= i)%nat); [done|].
  exfalso. apply (Hne (i - pos)%nat); [lia|]. unfold ring_idx. rewrite decide_True by lia. lia.
Qed.

(** Storing right after what a read covers extends the read. *)
Lemma ring_read_append m s n d :
  (s < length m)%nat -> (n + length d <= length m)%nat ->
  ring_read (ring_store m (ring_idx (length m) s n) d) s (n + length d)
    = ring_read m s n ++ d.
Proof.
  intros Hs Hn. pose proof (ring_idx_lt (length m) s n Hs ltac:(lia)) as Hpos.
  apply ring_read_eq; rewrite ?ring_store_length; [lia|lia| |].
  { rewrite length_app, ring_read_length; lia. }
  intros i Hi. destruct (decide (i < n)%nat).
  - rewrite lookup_app_l by (rewrite ring_read_length; lia).
    rewrite ring_read_lookup by lia. rewrite ring_store_out; [done|lia|lia| |].
    + apply ring_idx_lt; lia.
    + intros j Hj. rewrite ring_idx_add by lia. intros E.
      apply ring_idx_inj in E; lia.
  - rewrite lookup_app_r; rewrite ring_read_length by lia; [|lia].
    replace (ring_idx (length m) s i)
      with (ring_idx (length m) (ring_idx (length m) s n) (i - n))
      by (rewrite ring_idx_add by lia; f_equal; lia).
    by rewrite ring_store_in by lia.
Qed.

(** A store after the read's last cell and before its first leaves it alone. *)
Lemma ring_read_store_other m s n d :
  (s < length m)%nat -> (n + length d <= length m)%nat ->
  ring_read (ring_store m (ring_idx (length m) s n) d) s n = ring_read m s n.
Proof.
  intros Hs Hn. rewrite <- (ring_read_take _ s (n + length d)) by lia.
  rewrite ring_read_append by lia. apply take_app_length'.
  by rewrite ring_read_length by lia.
Qed.
End ring.

(** ** Maps and lists *)

(** A list of lists, one of which is singled out. *)
Lemma bind_insert {A B} (f : A -> list B) (l : list A) k x y :
  l !! k = Some x -> (<[k := y]> l ≫= f) ≡ₚ f y ++ (delete k l ≫= f).
Proof.
  intros Hk. assert (Hlt : (k < length l)%nat) by (by apply lookup_lt_is_Some; exists x).
  rewrite insert_take_drop, delete_take_drop by done. rewrite !bind_app. simpl. solve_Permutation.
Qed.

Lemma bind_delete {A B} (f : A -> list B) (l : list A) k x :
  l !! k = Some x -> (l ≫= f) ≡ₚ f x ++ (delete k l ≫= f).
Proof. intros Hk. rewrite <- (bind_insert f l k x x Hk). by rewrite list_insert_id. Qed.

Lemma lookup_filter_same `{Countable K} {A} (P : K * A -> Prop)
    `{!forall x, Decision (P x)} (m : gmap K A) i :
  (forall x, m !! i = Some x -> P (i, x)) -> filter P m !! i = m !! i.
Proof.
  intros HP. rewrite map_lookup_filter. destruct (m !! i) eqn:E; simpl; [|done].
  by rewrite option_guard_True by auto.
Qed.

(** A list of distinct keys of a map is no longer than the map is large. *)
Lemma NoDup_keys_size `{Countable K} {A} (m : gmap K A) (l : list K) :
  NoDup l -> (forall k, k ∈ l -> is_Some (m !! k)) -> (length l <= size m)%nat.
Proof.
  intros Hl Hk. rewrite <- size_dom, <- (size_list_to_set (C := gset K)) by done.
  apply subseteq_size. intros k. rewrite elem_of_list_to_set, elem_of_dom. auto.
Qed.
