(* ===== verification/Types.v ===== *)
(** * Types: the library's shared data (SPTypes.h) and the validation of its
    configurations (the [Config] functions of SPSock.cpp).

    Records and enumerations of SPTypes.h with the source's field names, the
    [epoll] event bits the code tests, the global variables of namespace
    [DEFER] and the two [Config] functions that fill them. *)

From Stdlib Require Export Floats.SpecFloat.
From S2P Require Import Prelude.

(** ** Enumerations *)

Inductive ADDRESS_FAMILY := ADDRESS_FAMILY_INET | ADDRESS_FAMILY_INET6.

Inductive LOG_LEVEL :=
  | LOG_LEVEL_INFO | LOG_LEVEL_WARNING | LOG_LEVEL_CRUCIAL | LOG_LEVEL_ERROR
  | LOG_LEVEL_NONE.

Inductive BUFFER_TYPE := BUFFER_TYPE_READ | BUFFER_TYPE_WRITE.

#[export] Instance ADDRESS_FAMILY_eq_dec : EqDecision ADDRESS_FAMILY.
Proof. solve_decision. Defined.
#[export] Instance LOG_LEVEL_eq_dec : EqDecision LOG_LEVEL.
Proof. solve_decision. Defined.
#[export] Instance BUFFER_TYPE_eq_dec : EqDecision BUFFER_TYPE.
Proof. solve_decision. Defined.

(** ** The [epoll] event mask (Linux values) *)

Definition EPOLLIN : Z := 0x1.
Definition EPOLLOUT : Z := 0x4.
Definition EPOLLERR : Z := 0x8.
Definition EPOLLHUP : Z := 0x10.
Definition EPOLLRDHUP : Z := 0x2000.
Definition EPOLLONESHOT : Z := Z.shiftl 1 30.

(** [events & mask] used as a condition. *)
Definition has_event (events mask : Z) : bool := negb (Z.land events mask =? 0).

(** ** Structures *)

Record SPWaterMark := mkWaterMark { readMark : Z; writeMark : Z }.

(** User callbacks are function pointers: [None] is [nullptr]. *)
Record SPSockProc := mkProc {
  rdp : option Z;
  wtp : option Z;
  cnp : option Z;
  csp : option Z }.

Record SPSockAlive := mkAlive {
  keepAlive : Z;
  aliveSeconds : Z;
  detectTimes : Z;
  detectInterval : Z }.

Record linger := mkLinger { l_onoff : Z; l_linger : Z }.

Record IOThreadInfo := mkIOThreadInfo { count : Z; epollfd : Z; exitfd : Z }.

Record SPTcpConfig := mkTcpConfig {
  READ_BSIZE : Z;
  WRITE_BSIZE : Z;
  BUFFER_POOL_PEER_ALLOC_NUM : Z;
  BUFFER_POOL_MIN_BLOCK_NUM : Z;
  EPOLL_MAX_EVENT_BSIZE : Z;
  EPOLL_DEFAULT_EVENT : Z;
  THREADPOOL_QUEUE_LENGTH : Z;
  THREADPOOL_BATCH_SIZE_SUBMIT : Z;
  THREADPOOL_BATCH_SIZE_PROCESS : Z;
  WORKER_THREAD_RATIO : spec_float;
  MIN_LOG_LEVEL : LOG_LEVEL }.

Record SPUdpConfig := mkUdpConfig {
  RECV_BSIZE : Z;
  MAX_PAYLOAD_SIZE : Z;
  UDP_MIN_LOG_LEVEL : LOG_LEVEL }.

(** ** Globals of namespace [DEFER] *)

(** The function pointers [renableProc], [funcClose] and [funcEvent] are set
    once, by [Config], to the functions the components name directly; [hooks]
    records that they have been set. *)
Record Globals := mkGlobals {
  tcpConfig : SPTcpConfig;
  udpConfig : SPUdpConfig;
  markGlobal : SPWaterMark;
  minLevel : LOG_LEVEL;
  hooks : bool }.

(** ** Configuration of the TCP side *)

Definition float_lt (a b : spec_float) : bool :=
  match SFcompare a b with Some Lt => true | _ => false end.

Definition float_zero : spec_float := S754_zero false.
Definition float_one : spec_float := S754_finite false (2 ^ 23) (-23).

(** The [assert]s of [SPSockTcp::Config], in order. *)
Definition tcp_config_ok (config : SPTcpConfig) : bool :=
  (1024 <=? READ_BSIZE config) && (Z.rem (READ_BSIZE config) 1024 =? 0) &&
  ((1024 <=? WRITE_BSIZE config) && (Z.rem (WRITE_BSIZE config) 1024 =? 0)) &&
  ((1 <=? BUFFER_POOL_PEER_ALLOC_NUM config) &&
   (BUFFER_POOL_PEER_ALLOC_NUM config <=? 1024)) &&
  (BUFFER_POOL_PEER_ALLOC_NUM config <=? BUFFER_POOL_MIN_BLOCK_NUM config) &&
  ((0 <? EPOLL_MAX_EVENT_BSIZE config) && (EPOLL_MAX_EVENT_BSIZE config <=? 65535)) &&
  (Z.land (EPOLL_DEFAULT_EVENT config) (Z.lnot (Z.lor EPOLLIN EPOLLOUT)) =? 0) &&
  ((0 <? THREADPOOL_QUEUE_LENGTH config) &&
   (THREADPOOL_QUEUE_LENGTH config <=? 1048576)) &&
  ((0 <? THREADPOOL_BATCH_SIZE_SUBMIT config) &&
   (THREADPOOL_BATCH_SIZE_SUBMIT config <=? THREADPOOL_QUEUE_LENGTH config)) &&
  ((0 <? THREADPOOL_BATCH_SIZE_PROCESS config) &&
   (THREADPOOL_BATCH_SIZE_PROCESS config <=? 1024)) &&
  (float_lt float_zero (WORKER_THREAD_RATIO config) &&
   float_lt (WORKER_THREAD_RATIO config) float_one).

(** [SPSockTcp::Config]: [None] is a failed [assert]. *)
Definition TcpConfig (config : SPTcpConfig) (g : Globals) : option Globals :=
  if tcp_config_ok config
  then Some (mkGlobals config (udpConfig g) (mkWaterMark 0 0)
               (MIN_LOG_LEVEL config) true)
  else None.

(** [0.6f], the default of [WORKER_THREAD_RATIO]. *)
Definition float_0_6 : spec_float := S754_finite false 10066330 (-24).

(** The default argument of [SPSockTcp::Config]. *)
Definition default_tcp_config : SPTcpConfig :=
  mkTcpConfig (16 * 1024) (32 * 1024) 16 64 5000 EPOLLIN 10000 10 5
    float_0_6 LOG_LEVEL_WARNING.

(** ** Configuration of the UDP side *)

Definition udp_config_ok (config : SPUdpConfig) : bool :=
  (200 * 1024 <=? RECV_BSIZE config) && (Z.rem (RECV_BSIZE config) 1024 =? 0) &&
  ((1452 <=? MAX_PAYLOAD_SIZE config) && (MAX_PAYLOAD_SIZE config <=? 65507)).

(** [SPSockUdp::Config]: [None] is a failed [assert]. *)
Definition UdpConfig (config : SPUdpConfig) (g : Globals) : option Globals :=
  if udp_config_ok config
  then Some (mkGlobals (tcpConfig g) config (markGlobal g)
               (UDP_MIN_LOG_LEVEL config) (hooks g))
  else None.

(** The default argument of [SPSockUdp::Config]. *)
Definition default_udp_config : SPUdpConfig :=
  mkUdpConfig (4 * 1024 * 1024) 1452 LOG_LEVEL_WARNING.

(** ** What a validated configuration gives the components *)

(** [int] fields hold [int] values. *)
Definition tcp_config_int (c : SPTcpConfig) : Prop :=
  READ_BSIZE c < 2 ^ 31 /\ WRITE_BSIZE c < 2 ^ 31 /\
  BUFFER_POOL_MIN_BLOCK_NUM c < 2 ^ 31.

(** The numeric content of [tcp_config_ok]. *)
Record tcp_config_bounds (c : SPTcpConfig) : Prop := {
  tb_read : 1024 <= READ_BSIZE c;
  tb_read_k : READ_BSIZE c mod 1024 = 0;
  tb_write : 1024 <= WRITE_BSIZE c;
  tb_write_k : WRITE_BSIZE c mod 1024 = 0;
  tb_alloc : 1 <= BUFFER_POOL_PEER_ALLOC_NUM c <= 1024;
  tb_min : BUFFER_POOL_PEER_ALLOC_NUM c <= BUFFER_POOL_MIN_BLOCK_NUM c;
  tb_events : 0 < EPOLL_MAX_EVENT_BSIZE c <= 65535;
  tb_queue : 0 < THREADPOOL_QUEUE_LENGTH c <= 1048576;
  tb_submit : 0 < THREADPOOL_BATCH_SIZE_SUBMIT c <= THREADPOOL_QUEUE_LENGTH c;
  tb_process : 0 < THREADPOOL_BATCH_SIZE_PROCESS c <= 1024 }.

Lemma tcp_config_ok_bounds c : tcp_config_ok c = true -> tcp_config_bounds c.
Proof.
  unfold tcp_config_ok. rewrite !andb_true_iff, !Z.leb_le, !Z.ltb_lt, !Z.eqb_eq.
  intros H. destruct_and!.
  constructor; try lia; rewrite <- Z.rem_mod_nonneg by lia; done.
Qed.

#[export] Hint Resolve tcp_config_ok_bounds : spsock.

Example default_tcp_config_ok : tcp_config_ok default_tcp_config = true.
Proof. vm_compute. reflexivity. Qed.

Example default_udp_config_ok : udp_config_ok default_udp_config = true.
Proof. vm_compute. reflexivity. Qed.
