(* ===== verification/BufferProvider.v ===== *)
(** * BufferProvider: the interface between SPBuffer and the buffer pool

    SPBuffer only uses [SPTcpBufferPool::GetBuffer] and [FreeBuffer].  This is
    what it may rely on: a buffer that is handed out is disjoint from every
    other outstanding one, and one that is outstanding can be given back. *)

From S2P Require Import Prelude Types.

(** A buffer address: block and byte offset. *)
Abbreviation buf_addr := (Z * Z)%type.

Class BufferProvider (P : Type) := {
  get_buffer : BUFFER_TYPE -> P -> option (option buf_addr * P);
  free_buffer : buf_addr -> BUFFER_TYPE -> P -> option P }.

(** Two buffers, of [cap ty] bytes each, share no byte. *)
Definition apart (cap : BUFFER_TYPE -> Z) (x y : BUFFER_TYPE * buf_addr) : Prop :=
  x.2.1 = y.2.1 -> x.2.2 + cap x.1 <= y.2.2 \/ y.2.2 + cap y.1 <= x.2.2.

(** [lent s out]: the buffers out of the pool are those of [out], each one
    [cap] bytes long; [can_lend n s]: the pool can take [n] more requests (it
    may still refuse them for want of memory). *)
Class BufferProviderLaws (P : Type) `{BufferProvider P} (cap : BUFFER_TYPE -> Z) := {
  lent : P -> list (BUFFER_TYPE * buf_addr) -> Prop;
  can_lend : nat -> P -> Prop;
  lent_perm s : Proper ((≡ₚ) ==> iff) (lent s);
  get_buffer_law n ty s out :
    lent s out -> can_lend (S n) s ->
    exists r s', get_buffer ty s = Some (r, s') /\ can_lend n s' /\
      match r with
      | None => lent s' out
      | Some b => lent s' ((ty, b) :: out) /\ Forall (apart cap (ty, b)) out
      end;
  free_buffer_law ty b s out :
    lent s ((ty, b) :: out) ->
    exists s', free_buffer b ty s = Some s' /\ lent s' out /\
      forall n, can_lend n s -> can_lend n s' }.

#[export] Existing Instance lent_perm.
