(* ===== verification/BufferPool.v ===== *)
(** * BufferPool: the pooled allocator of SPBufferPool.hpp

    A pointer-level model: the C heap is a map of [malloc]ed blocks (with their
    reference count, the first word of a block) and of the node headers (block
    pointer, next pointer) written in front of each buffer.  Dereferencing what
    is not there, writing outside a block and freeing twice are undefined
    behaviour, the result [None]. *)

From S2P Require Import Prelude Types.

Module SPTcpBufferPool.

(** ** State *)

(** A pointer into the heap: block and byte offset. *)
Abbreviation ptr := (Z * Z)%type.

(** [node[0]], the block the node belongs to, and [node[1]], the next node. *)
Record Node := mkNode { node_block : Z; node_next : option ptr }.

(** A [malloc]ed block: its size and the reference count in its header. *)
Record Block := mkBlock { blk_size : Z; blk_ref : Z }.

(** [h_calls] counts the calls of [malloc]; it also names the next block. *)
Record Heap := mkHeap {
  h_blocks : gmap Z Block;
  h_nodes : gmap ptr Node;
  h_calls : Z }.

Record t := mk {
  rBuffers : option ptr;
  wBuffers : option ptr;
  rbSize : Z;
  wbSize : Z }.

Definition state : Type := Heap * t.

(** [SPTcpBufferPool()]. *)
Definition init : t := mk None None 0 0.

(** The read and the write list, selected by the buffer type. *)
Definition head (ty : BUFFER_TYPE) (p : t) : option ptr :=
  match ty with BUFFER_TYPE_READ => rBuffers p | BUFFER_TYPE_WRITE => wBuffers p end.
Definition psize (ty : BUFFER_TYPE) (p : t) : Z :=
  match ty with BUFFER_TYPE_READ => rbSize p | BUFFER_TYPE_WRITE => wbSize p end.
Definition set_list (ty : BUFFER_TYPE) (hd : option ptr) (n : Z) (p : t) : t :=
  match ty with
  | BUFFER_TYPE_READ => mk hd (wBuffers p) n (wbSize p)
  | BUFFER_TYPE_WRITE => mk (rBuffers p) hd (rbSize p) n
  end.

(** ** The C heap *)

Definition set_node (q : ptr) (n : Node) (h : Heap) : Heap :=
  mkHeap (h_blocks h) (<[q := n]> (h_nodes h)) (h_calls h).
Definition set_block (b : Z) (B : Block) (h : Heap) : Heap :=
  mkHeap (<[b := B]> (h_blocks h)) (h_nodes h) (h_calls h).

(** [free (b)]. *)
Definition free (b : Z) (h : Heap) : option Heap :=
  match h_blocks h !! b with
  | None => None
  | Some _ => Some (mkHeap (delete b (h_blocks h))
                           (filter (fun kv => kv.1.1 <> b) (h_nodes h)) (h_calls h))
  end.

(** [node[0] = b; node[1] = next] at offset [off] of block [b]. *)
Definition store_node (b off : Z) (next : option ptr) (h : Heap) : option Heap :=
  match h_blocks h !! b with
  | None => None
  | Some B => if (0 <=? off) && (off + 16 <=? blk_size B)
              then Some (set_node (b, off) (mkNode b next) h) else None
  end.

(** [--refCount; if (refCount == 0) free(nodePtr[0])]. *)
Definition unref (b : Z) (h : Heap) : option Heap :=
  B ← h_blocks h !! b;
  let r := u32 (blk_ref B - 1) in
  let h := set_block b (mkBlock (blk_size B) r) h in
  if r =? 0 then free b h else Some h.

Section pool.
(** [malloc] of the C library: whether the [k]-th call, for [n] bytes,
    succeeds is the environment's choice. *)
Context (grant : Z -> Z -> bool) (cfg : SPTcpConfig).

Definition malloc (n : Z) (h : Heap) : option Z * Heap :=
  let k := h_calls h in
  if grant k n
  then (Some k, mkHeap (<[k := mkBlock n 0]> (h_blocks h)) (h_nodes h) (k + 1))
  else (None, mkHeap (h_blocks h) (h_nodes h) (k + 1)).

(** ** tryAlloc *)

Definition peerReadBSize : Z := READ_BSIZE cfg + 2 * 8.
Definition peerWriteBSize : Z := WRITE_BSIZE cfg + 2 * 8.
Definition totalSize (num : Z) : Z :=
  i32 (4 + i32 (i32 (peerReadBSize + peerWriteBSize) * num)).

(** One of the two [for] loops: [num] nodes of [peer] bytes from offset
    [base], chained in order, the last one to [tail]. *)
Fixpoint link_nodes (b base peer num : Z) (tail : option ptr) (idx : list Z)
    (h : Heap) : option Heap :=
  match idx with
  | [] => Some h
  | i :: idx =>
      let off := base + i * peer in
      h ← store_node b off (if i <? num - 1 then Some (b, off + peer) else tail) h;
      link_nodes b base peer num tail idx h
  end.

Definition tryAlloc (num : Z) (s : state) : option (bool * state) :=
  let '(h, p) := s in
  match malloc (totalSize num mod 2 ^ 64) h with
  | (None, h) => Some (false, (h, p))
  | (Some b, h) =>
      let h := set_block b (mkBlock (totalSize num mod 2 ^ 64) (u32 (num * 2))) h in
      let pReadBuf := 4 in
      h ← link_nodes b pReadBuf peerReadBSize num (rBuffers p) (seqZ 0 num) h;
      let p := set_list BUFFER_TYPE_READ (Some (b, pReadBuf)) (u32 (rbSize p + num)) p in
      let pWriteBuf := pReadBuf + peerReadBSize * num in
      h ← link_nodes b pWriteBuf peerWriteBSize num (wBuffers p) (seqZ 0 num) h;
      let p := set_list BUFFER_TYPE_WRITE (Some (b, pWriteBuf)) (u32 (wbSize p + num)) p in
      Some (true, (h, p))
  end.

(** ** Alloc: [while (num > 0) { if (tryAlloc(num)) return true; num /= 2; }] *)

Fixpoint Alloc_loop (fuel : nat) (num : Z) (s : state) : option (bool * state) :=
  if num <=? 0 then Some (false, s) else
  match fuel with
  | O => None
  | S fuel =>
      '(ok, s) ← tryAlloc num s;
      if (ok : bool) then Some (true, s) else Alloc_loop fuel (Z.quot num 2) s
  end.

(** [num] halves: as many iterations as its value are enough. *)
Definition Alloc (s : state) : option (bool * state) :=
  let num := BUFFER_POOL_PEER_ALLOC_NUM cfg in Alloc_loop (Z.to_nat num) num s.

(** ** GetReadBufferInner, GetWriteBufferInner *)

(** [ensure]: [!buffers && !Alloc()], whose negation lets the function go on. *)
Definition ensure (ty : BUFFER_TYPE) (s : state) : option (bool * state) :=
  match head ty s.2 with None => Alloc s | Some _ => Some (true, s) end.

Definition GetInner (ty : BUFFER_TYPE) (s : state) : option (option ptr * state) :=
  '(ok, (h, p)) ← ensure ty s;
  if negb ok then Some (None, (h, p)) else
  node ← head ty p;
  n ← h_nodes h !! node;
  Some (Some (node.1, node.2 + 2 * 8),
        (h, set_list ty (node_next n) (u32 (psize ty p - 1)) p)).

Definition GetReadBufferInner := GetInner BUFFER_TYPE_READ.
Definition GetWriteBufferInner := GetInner BUFFER_TYPE_WRITE.

(** ** FreeReadBuffferInner, FreeWriteBufferInner *)

Definition FreeInner (ty : BUFFER_TYPE) (buf : ptr) (s : state) : option state :=
  let '(h, p) := s in
  let node := (buf.1, buf.2 - 2 * 8) in
  n ← h_nodes h !! node;
  if u32 (BUFFER_POOL_MIN_BLOCK_NUM cfg) <=? psize ty p
  then h ← unref (node_block n) h; Some (h, p)
  else Some (set_node node (mkNode (node_block n) (head ty p)) h,
             set_list ty (Some node) (u32 (psize ty p + 1)) p).

Definition FreeReadBuffferInner := FreeInner BUFFER_TYPE_READ.
Definition FreeWriteBufferInner := FreeInner BUFFER_TYPE_WRITE.

(** ** GetBuffer, FreeBuffer *)

Definition GetBuffer (ty : BUFFER_TYPE) (s : state) : option (option ptr * state) :=
  if decide (ty = BUFFER_TYPE_READ) then GetReadBufferInner s else GetWriteBufferInner s.

Definition FreeBuffer (buf : ptr) (ty : BUFFER_TYPE) (s : state) : option state :=
  if decide (ty = BUFFER_TYPE_READ)
  then FreeReadBuffferInner buf s else FreeWriteBufferInner buf s.
End pool.

(** ** releaseAllBlocks, reset *)

(** One of the two [while (buffers)] loops, with as much fuel as nodes. *)
Fixpoint release_list (fuel : nat) (ty : BUFFER_TYPE) (s : state) : option state :=
  match head ty s.2 with
  | None => Some s
  | Some node =>
      match fuel with
      | O => None
      | S fuel =>
          n ← h_nodes s.1 !! node;
          h ← unref (node_block n) s.1;
          release_list fuel ty (h, set_list ty (node_next n) (psize ty s.2) s.2)
      end
  end.

Definition releaseAllBlocks (s : state) : option state :=
  s ← release_list (size (h_nodes s.1)) BUFFER_TYPE_READ s;
  release_list (size (h_nodes s.1)) BUFFER_TYPE_WRITE s.

Definition reset (s : state) : option state :=
  '(h, _) ← releaseAllBlocks s; Some (h, init).

End SPTcpBufferPool.
