(* ===== verification/BufferPoolSpec.v ===== *)
(** * BufferPoolSpec: what the buffer pool promises, and that it keeps it

    The abstract view of the pool is two free lists and the slots handed out.
    [pool_inv] relates it to the pointer-level state; every operation of
    [SPTcpBufferPool] is shown to be defined (no dangling dereference, no write
    outside a block, no double free) and to act on the view as its name says. *)

From S2P Require Import Prelude Types BufferProvider BufferPool.
Import SPTcpBufferPool.

(** ** The abstract view *)

(** A buffer slot: its kind and the address of its node. *)
Abbreviation slot := (BUFFER_TYPE * ptr)%type.

Record view := mkView { v_r : list ptr; v_w : list ptr; v_out : list slot }.

Definition v_free (ty : BUFFER_TYPE) (v : view) : list ptr :=
  match ty with BUFFER_TYPE_READ => v_r v | BUFFER_TYPE_WRITE => v_w v end.

Definition set_free (ty : BUFFER_TYPE) (l : list ptr) (v : view) : view :=
  match ty with
  | BUFFER_TYPE_READ => mkView l (v_w v) (v_out v)
  | BUFFER_TYPE_WRITE => mkView (v_r v) l (v_out v)
  end.

Definition set_out (l : list slot) (v : view) : view := mkView (v_r v) (v_w v) l.

(** Every slot the pool accounts for. *)
Definition slots (v : view) : list slot :=
  (pair BUFFER_TYPE_READ <$> v_r v) ++ (pair BUFFER_TYPE_WRITE <$> v_w v) ++ v_out v.

(** The chain of nodes from [hd] is exactly [l]. *)
Fixpoint chain (nodes : gmap ptr Node) (hd : option ptr) (l : list ptr) : Prop :=
  match l with
  | [] => hd = None
  | p :: l =>
      hd = Some p /\
      exists n, nodes !! p = Some n /\ node_block n = p.1 /\ chain nodes (node_next n) l
  end.

(** The number of slots of [l] in block [b]. *)
Definition cnt (b : Z) (l : list slot) : nat :=
  length (filter (fun x : slot => x.2.1 = b) l).

(** ** Layout of a block: header, read nodes, write nodes *)

Section spec.
Context (cfg : SPTcpConfig).

Definition peer (ty : BUFFER_TYPE) : Z :=
  match ty with BUFFER_TYPE_READ => peerReadBSize cfg | BUFFER_TYPE_WRITE => peerWriteBSize cfg end.

Definition base (ty : BUFFER_TYPE) (num : Z) : Z :=
  match ty with BUFFER_TYPE_READ => 4 | BUFFER_TYPE_WRITE => 4 + peerReadBSize cfg * num end.

Definition block_bytes (num : Z) : Z := 4 + (peerReadBSize cfg + peerWriteBSize cfg) * num.

(** The slot is the [i]-th node of its kind in a live block of [num] pairs. *)
Definition placed (blocks : gmap Z Block) (x : slot) : Prop :=
  exists B num i, blocks !! x.2.1 = Some B /\ blk_size B = block_bytes num /\
    0 <= i < num /\ x.2.2 = base x.1 num + i * peer x.1.

Record owned (h : Heap) (l : list slot) : Prop := {
  ow_nodup : NoDup l.*2;
  ow_node : forall x, x ∈ l -> exists n, h_nodes h !! x.2 = Some n /\ node_block n = x.2.1;
  ow_placed : forall x, x ∈ l -> placed (h_blocks h) x;
  ow_ref : forall b B, h_blocks h !! b = Some B ->
    blk_ref B = Z.of_nat (cnt b l) /\ (0 < cnt b l)%nat;
  ow_fresh : forall b, is_Some (h_blocks h !! b) -> b < h_calls h;
  ow_small : Z.of_nat (length l) < 2 ^ 32 }.

Record pool_inv (s : state) (v : view) : Prop := {
  pi_chain : forall ty, chain (h_nodes s.1) (head ty s.2) (v_free ty v);
  pi_size : forall ty, psize ty s.2 = Z.of_nat (length (v_free ty v));
  pi_owned : owned s.1 (slots v) }.

(** The sizes the configuration asks for fit an [int] for a block of [num] pairs. *)
Definition fits (num : Z) : Prop :=
  0 <= READ_BSIZE cfg /\ 0 <= WRITE_BSIZE cfg /\ block_bytes num < 2 ^ 31.

(** ** Counting slots *)

Lemma cnt_perm b l l' : l ≡ₚ l' -> cnt b l = cnt b l'.
Proof. intros H. unfold cnt. by rewrite H. Qed.

Lemma cnt_app b l l' : cnt b (l ++ l') = (cnt b l + cnt b l')%nat.
Proof. unfold cnt. by rewrite filter_app, length_app. Qed.

Lemma cnt_cons b x l : cnt b (x :: l) = ((if decide (x.2.1 = b) then 1 else 0) + cnt b l)%nat.
Proof. unfold cnt. rewrite filter_cons. by case_decide. Qed.

Lemma cnt_zero b l : (forall x, x ∈ l -> x.2.1 <> b) <-> cnt b l = 0%nat.
Proof.
  unfold cnt. rewrite length_zero_iff_nil. split.
  - intros H. destruct (filter _ l) as [|x k] eqn:E; [done|].
    assert (Hx : x ∈ x :: k) by left. rewrite <- E, list_elem_of_filter in Hx.
    destruct Hx as [Hb Hx]. by destruct (H x Hx).
  - intros H x Hx Hb. assert (Hf : x ∈ filter (fun x : slot => x.2.1 = b) l)
      by (by apply list_elem_of_filter).
    rewrite H in Hf. by apply not_elem_of_nil in Hf.
Qed.

Lemma cnt_le b l : (cnt b l <= length l)%nat.
Proof. unfold cnt. apply length_filter. Qed.

Lemma cnt_all b l : (forall x, x ∈ l -> x.2.1 = b) -> cnt b l = length l.
Proof.
  induction l as [|x l IH]; intros H; [done|]. rewrite cnt_cons.
  rewrite decide_True by (apply H; by left). simpl. f_equal. apply IH.
  intros y Hy. apply H. by right.
Qed.

(** Ownership does not depend on the order of the slots. *)
#[export] Instance owned_perm h : Proper ((≡ₚ) ==> iff) (owned h).
Proof.
  assert (forall l l', l ≡ₚ l' -> owned h l -> owned h l').
  { intros l l' Hp [Hnd Hn Hpl Hr Hf Hs]. constructor.
    - by rewrite <- Hp.
    - intros x. rewrite <- Hp. apply Hn.
    - intros x. rewrite <- Hp. apply Hpl.
    - intros b B Hb. rewrite <- (cnt_perm b _ _ Hp). by apply Hr.
    - done.
    - by rewrite <- Hp. }
  intros l l' Hp. split; eauto. intros. apply (H l'); [by symmetry|done].
Qed.

(** ** Chains *)

Lemma chain_frame nodes nodes' hd l :
  (forall p, p ∈ l -> nodes' !! p = nodes !! p) -> chain nodes hd l -> chain nodes' hd l.
Proof.
  revert hd. induction l as [|p l IH]; intros hd Heq; [done|].
  intros (-> & n & Hn & Hb & Hc). split; [done|].
  exists n. split_and!; [by rewrite Heq by left|done|].
  apply IH; [|done]. intros q Hq. apply Heq. by right.
Qed.

Lemma chain_nil nodes hd l : chain nodes hd l -> (hd = None <-> l = []).
Proof. destruct l; simpl; [naive_solver|]. intros (-> & _). naive_solver. Qed.

Lemma elem_of_slots ty p v : p ∈ v_free ty v -> (ty, p) ∈ slots v.
Proof.
  intros Hp. unfold slots. destruct ty; simpl in Hp;
    [apply elem_of_app; left | apply elem_of_app; right; apply elem_of_app; left];
    by apply list_elem_of_fmap_2.
Qed.

(** The slots with the free list of one kind put in front. *)
Lemma slots_free ty v :
  slots v ≡ₚ (pair ty <$> v_free ty v) ++ slots (set_free ty [] v).
Proof.
  unfold slots. destruct ty; simpl; [done|].
  rewrite (app_assoc _ _ (v_out v)), (Permutation_app_comm (pair _ <$> v_r v)).
  by rewrite <- app_assoc.
Qed.

Lemma slots_out v : slots v ≡ₚ v_out v ++ slots (set_out [] v).
Proof.
  unfold slots. simpl. rewrite app_nil_r, app_assoc. apply Permutation_app_comm.
Qed.

(** ** Dropping one reference *)

Lemma owned_node_ne h x l y : owned h (x :: l) -> y ∈ l -> y.2 <> x.2.
Proof.
  intros [Hnd _ _ _ _ _] Hy Heq. simpl in Hnd. apply NoDup_cons in Hnd as [Hx _].
  apply Hx. rewrite <- Heq. by apply list_elem_of_fmap_2.
Qed.

(** [--refCount], and [free] at zero: the other slots keep their nodes, and
    the block is gone exactly when none of them lives in it. *)
Lemma unref_owned h x l :
  owned h (x :: l) ->
  exists h', unref x.2.1 h = Some h' /\ owned h' l /\ h_calls h' = h_calls h /\
    (forall y, y ∈ l -> h_nodes h' !! y.2 = h_nodes h !! y.2) /\
    (cnt x.2.1 l = 0%nat -> h_blocks h' !! x.2.1 = None).
Proof.
  intros Ho. pose proof Ho as [Hnd Hn Hpl Hr Hf Hs].
  destruct (Hpl x) as (B & num & i & HB & Hsz & Hi & Hoff); [by left|].
  destruct (Hr _ _ HB) as [Href _]. rewrite cnt_cons, decide_True in Href by done.
  pose proof (cnt_le x.2.1 l). simpl in Hs.
  assert (Hu : u32 (blk_ref B - 1) = Z.of_nat (cnt x.2.1 l)) by (rewrite u32_small; lia).
  assert (Hnd' : NoDup l.*2) by (simpl in Hnd; by apply NoDup_cons in Hnd as [_ ?]).
  assert (Href' : forall b C, b <> x.2.1 -> h_blocks h !! b = Some C ->
            blk_ref C = Z.of_nat (cnt b l) /\ (0 < cnt b l)%nat).
  { intros b C Hb HC. destruct (Hr _ _ HC) as [H1 H2].
    rewrite cnt_cons, decide_False in H1, H2 by done. done. }
  unfold unref. rewrite HB. simpl. rewrite Hu. case_match eqn:E; simpl.
  - apply Z.eqb_eq in E. unfold free, set_block. simpl. rewrite lookup_insert_eq.
    rewrite delete_insert_eq.
    assert (Hne : forall y, y ∈ l -> y.2.1 <> x.2.1) by (apply cnt_zero; lia).
    eexists; split_and!; [done| |done| |]; simpl.
    + constructor; simpl; [done| | | | |lia].
      * intros y Hy. destruct (Hn y) as (n & Hy1 & Hy2); [by right|].
        exists n. split; [|done]. apply map_lookup_filter_Some. split; [done|]. by apply Hne.
      * intros y Hy. destruct (Hpl y) as (C & num' & j & HC & ?); [by right|].
        exists C, num', j. by rewrite lookup_delete_ne by (symmetry; auto).
      * intros b C. rewrite lookup_delete_Some. intros [Hb HC]. by apply Href'.
      * intros b [C HC]. apply lookup_delete_Some in HC as [_ HC]. eauto.
    + intros y Hy. apply lookup_filter_same. intros ? _. by apply Hne.
    + intros _. apply lookup_delete_eq.
  - apply Z.eqb_neq in E.
    eexists; split_and!; [done| |done|done|lia]; simpl.
    constructor; simpl; [done| | | | |lia].
    + intros y Hy. apply Hn. by right.
    + intros y Hy. destruct (Hpl y) as (C & num' & j & HC & Hsz' & ?); [by right|].
      destruct (decide (y.2.1 = x.2.1)) as [Heq|Hne].
      * rewrite Heq in HC. simplify_eq. eexists _, num', j.
        rewrite Heq, lookup_insert_eq. simpl. done.
      * exists C, num', j. by rewrite lookup_insert_ne.
    + intros b C. rewrite lookup_insert. case_decide as Hb.
      * intros [= <-]. simpl. subst b. lia.
      * by apply Href', not_eq_sym.
    + intros b. rewrite lookup_insert. case_decide; [subst; intros _; eauto|apply Hf].
Qed.

(** Two different slots of the pool never overlap, and every slot lies inside
    its block. *)
Definition slot_end (x : slot) : Z := x.2.2 + peer x.1.

Lemma placed_disjoint blocks x y :
  0 <= READ_BSIZE cfg -> 0 <= WRITE_BSIZE cfg ->
  placed blocks x -> placed blocks y -> x.2.1 = y.2.1 -> x.2 <> y.2 ->
  slot_end x <= y.2.2 \/ slot_end y <= x.2.2.
Proof.
  intros HR HW (B & num & i & HB & Hsz & Hi & Hx) (C & num' & j & HC & Hsz' & Hj & Hy) Hb Hne.
  rewrite Hb in HB. assert (num = num') as <-.
  { simplify_eq. unfold block_bytes, peerReadBSize, peerWriteBSize in *. nia. }
  assert (x.2.2 <> y.2.2) by (intros ?; apply Hne; by apply injective_projections).
  unfold slot_end. rewrite Hx, Hy in *.
  destruct (x.1), (y.1); simpl in *; unfold peerReadBSize, peerWriteBSize in *;
    assert (i < j \/ i = j \/ j < i) as [?|[->|?]] by lia; nia.
Qed.

Lemma placed_in_block blocks x :
  0 <= READ_BSIZE cfg -> 0 <= WRITE_BSIZE cfg -> placed blocks x ->
  exists B, blocks !! x.2.1 = Some B /\ 4 <= x.2.2 /\ slot_end x <= blk_size B.
Proof.
  intros HR HW (B & num & i & HB & Hsz & Hi & Hx). exists B. split; [done|].
  unfold slot_end. rewrite Hx, Hsz.
  destruct (x.1); simpl; unfold block_bytes, peerReadBSize, peerWriteBSize; nia.
Qed.

(** ** Building a block *)

(** The nodes one [for] loop of [tryAlloc] creates. *)
Definition fresh_ptrs (b off pr k num : Z) : list ptr :=
  (fun i => (b, off + i * pr)) <$> seqZ k (num - k).

Lemma fresh_ptrs_cons b off pr k num :
  k < num -> fresh_ptrs b off pr k num = (b, off + k * pr) :: fresh_ptrs b off pr (k + 1) num.
Proof.
  intros. unfold fresh_ptrs. rewrite seqZ_cons by lia.
  by replace (Z.pred (num - k)) with (num - (k + 1)) by lia.
Qed.

Lemma fresh_ptrs_nil b off pr k num : num <= k -> fresh_ptrs b off pr k num = [].
Proof. intros. unfold fresh_ptrs. by rewrite seqZ_nil by lia. Qed.

Lemma elem_of_fresh_ptrs b off pr k num p :
  p ∈ fresh_ptrs b off pr k num <->
  p.1 = b /\ exists i, k <= i < num /\ p.2 = off + i * pr.
Proof.
  unfold fresh_ptrs. rewrite list_elem_of_fmap. setoid_rewrite elem_of_seqZ. split.
  - intros (i & -> & ?). split; [done|]. exists i. simpl. split; [lia|done].
  - intros (<- & i & ? & ?). exists i. split; [by destruct p; simplify_eq/=|lia].
Qed.

Lemma fresh_ptrs_NoDup b off pr k num : 0 < pr -> NoDup (fresh_ptrs b off pr k num).
Proof.
  intros. apply NoDup_fmap_2_strong; [|apply NoDup_seqZ].
  intros i j _ _ [= ?]. nia.
Qed.

Lemma fresh_ptrs_length b off pr num :
  0 <= num -> Z.of_nat (length (fresh_ptrs b off pr 0 num)) = num.
Proof. intros. unfold fresh_ptrs. rewrite length_fmap, length_seqZ. lia. Qed.

Lemma link_nodes_spec b off pr num tail l h B m k :
  Z.of_nat m = num - k -> 0 <= k -> 16 <= pr -> 0 <= off ->
  h_blocks h !! b = Some B -> off + num * pr <= blk_size B ->
  chain (h_nodes h) tail l -> (forall p, p ∈ l -> p.1 <> b) ->
  exists h', link_nodes b off pr num tail (seqZ k (num - k)) h = Some h' /\
    h_blocks h' = h_blocks h /\ h_calls h' = h_calls h /\
    (forall p, p ∉ fresh_ptrs b off pr k num -> h_nodes h' !! p = h_nodes h !! p) /\
    chain (h_nodes h') (if k <? num then Some (b, off + k * pr) else tail)
      (fresh_ptrs b off pr k num ++ l).
Proof.
  revert h k. induction m as [|m IH]; intros h k Hm Hk Hpr Hoff HB Hsz Hc Hl.
  { rewrite seqZ_nil, fresh_ptrs_nil, (proj2 (Z.ltb_ge _ _)) by lia. by exists h. }
  rewrite seqZ_cons, fresh_ptrs_cons, (proj2 (Z.ltb_lt _ _)) by lia. simpl.
  unfold store_node. rewrite HB.
  rewrite !(proj2 (Z.leb_le _ _)) by nia. simpl.
  set (nk := mkNode b _). set (h1 := set_node _ nk h).
  replace (Z.pred (num - k)) with (num - (k + 1)) by lia.
  replace (Z.succ k) with (k + 1) by lia.
  destruct (IH h1 (k + 1)) as (h' & Hrun & Hbl & Hcl & Hfr & Hch);
    [lia|lia|done|done|done|done| |done|].
  { apply (chain_frame (h_nodes h)); [|done]. intros p Hp. simpl.
    apply lookup_insert_ne. intros <-. by apply (Hl _ Hp). }
  exists h'. rewrite Hrun. split_and!; [done|done|done| |done|].
  - intros p Hp. apply not_elem_of_cons in Hp as [Hp1 Hp2].
    rewrite Hfr by done. simpl. by apply lookup_insert_ne, not_eq_sym.
  - exists nk. split_and!; [|done|].
    + rewrite Hfr; [by apply lookup_insert_eq|].
      rewrite elem_of_fresh_ptrs. simpl. intros (_ & i & ? & ?). nia.
    + unfold nk. simpl.
      replace (off + (k + 1) * pr) with (off + k * pr + pr) in Hch by lia.
      by destruct (Z.ltb_spec k (num - 1)), (Z.ltb_spec (k + 1) num); try lia.
Qed.

(** ** tryAlloc *)

(** The slots of a fresh block [b] of [num] pairs. *)
Definition fresh_slots (b num : Z) (ty : BUFFER_TYPE) : list ptr :=
  fresh_ptrs b (base ty num) (peer ty) 0 num.

Definition fresh_all (b num : Z) : list slot :=
  (pair BUFFER_TYPE_READ <$> fresh_slots b num BUFFER_TYPE_READ) ++
  (pair BUFFER_TYPE_WRITE <$> fresh_slots b num BUFFER_TYPE_WRITE).

Lemma elem_of_fresh_all b num x :
  x ∈ fresh_all b num <->
  x.2.1 = b /\ exists i, 0 <= i < num /\ x.2.2 = base x.1 num + i * peer x.1.
Proof.
  unfold fresh_all. rewrite elem_of_app, !list_elem_of_fmap. split.
  - intros [(p & -> & Hp)|(p & -> & Hp)]; by apply elem_of_fresh_ptrs in Hp.
  - intros Hx. destruct x as [[] p]; [left|right]; exists p; (split; [done|]);
      by apply elem_of_fresh_ptrs.
Qed.

Lemma fresh_all_length b num : 0 <= num -> Z.of_nat (length (fresh_all b num)) = 2 * num.
Proof.
  intros. unfold fresh_all, fresh_slots. rewrite length_app, !length_fmap.
  rewrite Nat2Z.inj_add, !fresh_ptrs_length by done. lia.
Qed.

Lemma fresh_all_NoDup b num :
  0 <= READ_BSIZE cfg -> 0 <= WRITE_BSIZE cfg -> NoDup (fresh_all b num).*2.
Proof.
  intros. unfold fresh_all. rewrite fmap_app, <- !list_fmap_compose.
  rewrite !(list_fmap_ext (snd ∘ pair _) id) by done. rewrite !list_fmap_id.
  apply NoDup_app. split_and!.
  - apply fresh_ptrs_NoDup. simpl. unfold peerReadBSize. lia.
  - intros p Hp Hq. apply elem_of_fresh_ptrs in Hp as (_ & i & ? & Hp).
    apply elem_of_fresh_ptrs in Hq as (_ & j & ? & Hq).
    simpl in *. unfold peerReadBSize, peerWriteBSize in *. nia.
  - apply fresh_ptrs_NoDup. simpl. unfold peerWriteBSize. lia.
Qed.

Lemma owned_live h l x : owned h l -> x ∈ l -> x.2.1 < h_calls h.
Proof.
  intros Ho Hx. destruct (ow_placed _ _ Ho _ Hx) as (B & ? & ? & HB & _).
  by apply (ow_fresh _ _ Ho); exists B.
Qed.

(** A block added to the heap, with all its slots accounted for. *)
Lemma owned_extend h h' l num :
  let b := h_calls h in
  owned h l -> 0 < num -> fits num -> Z.of_nat (length l) + 2 * num < 2 ^ 32 ->
  h_blocks h' = <[b := mkBlock (block_bytes num) (2 * num)]> (h_blocks h) ->
  h_calls h' = b + 1 ->
  (forall x, x ∈ l -> h_nodes h' !! x.2 = h_nodes h !! x.2) ->
  (forall x, x ∈ fresh_all b num ->
     exists n, h_nodes h' !! x.2 = Some n /\ node_block n = x.2.1) ->
  owned h' (fresh_all b num ++ l).
Proof.
  intros b Ho Hnum (HR & HW & Hfit) Hlen Hbl Hcl Hold Hnew.
  assert (Hb : forall x, x ∈ l -> x.2.1 <> b)
    by (intros x Hx; pose proof (owned_live _ _ _ Ho Hx); subst b; lia).
  pose proof Ho as [Hnd Hn Hpl Hr Hf _]. constructor.
  - rewrite fmap_app. apply NoDup_app. split_and!; [by apply fresh_all_NoDup| |done].
    intros p Hp Hq. apply list_elem_of_fmap in Hp as (x & -> & Hx).
    apply list_elem_of_fmap in Hq as (y & Hxy & Hy).
    apply elem_of_fresh_all in Hx as [Hx _]. apply (Hb _ Hy). by rewrite <- Hxy, Hx.
  - intros x [Hx|Hx]%elem_of_app; [by apply Hnew|]. rewrite Hold by done. by apply Hn.
  - intros x [Hx|Hx]%elem_of_app.
    + apply elem_of_fresh_all in Hx as (Hxb & i & Hi & Hoff).
      eexists _, num, i. rewrite Hbl, Hxb, lookup_insert_eq. done.
    + destruct (Hpl x Hx) as (B & num' & i & HB & ?). exists B, num', i.
      rewrite Hbl, lookup_insert_ne by (apply not_eq_sym; auto). done.
  - intros c C. rewrite Hbl, lookup_insert, cnt_app. case_decide as Hbc.
    + intros [= <-]. simpl. subst c.
      rewrite (proj1 (cnt_zero b l)) by done.
      assert (cnt b (fresh_all b num) = length (fresh_all b num)) as ->.
      { apply cnt_all. intros x Hx. by apply elem_of_fresh_all in Hx as [? _]. }
      pose proof (fresh_all_length b num). lia.
    + rewrite (proj1 (cnt_zero c (fresh_all b num))); [apply Hr|].
      intros x Hx. apply elem_of_fresh_all in Hx as [-> _]. done.
  - intros c. rewrite Hbl, Hcl, lookup_insert. case_decide; [lia|].
    intros Hc%Hf. subst b. lia.
  - rewrite length_app. pose proof (fresh_all_length b num). lia.
Qed.

Lemma totalSize_fits num :
  0 < num -> fits num ->
  totalSize cfg num = block_bytes num /\ totalSize cfg num mod 2 ^ 64 = block_bytes num.
Proof.
  intros Hnum (HR & HW & Hfit).
  unfold totalSize, block_bytes, peerReadBSize, peerWriteBSize in *.
  set (pr := READ_BSIZE cfg + 2 * 8 + (WRITE_BSIZE cfg + 2 * 8)) in *.
  assert (0 <= pr <= pr * num) by (subst pr; nia).
  rewrite (i32_small pr), (i32_small (pr * num)), i32_small by lia.
  split; [lia|]. apply Z.mod_small. lia.
Qed.

Lemma chain_node nodes hd l p :
  chain nodes hd l -> p ∈ l -> exists n, nodes !! p = Some n /\ node_block n = p.1.
Proof.
  revert hd. induction l as [|q l IH]; intros hd; [by intros _ ?%not_elem_of_nil|].
  intros (_ & n & Hn & Hb & Hc) [->|Hp]%elem_of_cons; [by exists n|by eapply IH].
Qed.

(** Both [for] loops of [tryAlloc] on a fresh block. *)
Lemma link_both h b B num hr hw lr lw :
  0 < num -> fits num -> h_blocks h !! b = Some B -> blk_size B = block_bytes num ->
  chain (h_nodes h) hr lr -> chain (h_nodes h) hw lw ->
  (forall q, q ∈ lr ++ lw -> q.1 <> b) ->
  exists h1 h2,
    link_nodes b 4 (peerReadBSize cfg) num hr (seqZ 0 num) h = Some h1 /\
    link_nodes b (4 + peerReadBSize cfg * num) (peerWriteBSize cfg) num hw (seqZ 0 num) h1
      = Some h2 /\
    h_blocks h2 = h_blocks h /\ h_calls h2 = h_calls h /\
    (forall q, q.1 <> b -> h_nodes h2 !! q = h_nodes h !! q) /\
    chain (h_nodes h2) (Some (b, 4)) (fresh_slots b num BUFFER_TYPE_READ ++ lr) /\
    chain (h_nodes h2) (Some (b, 4 + peerReadBSize cfg * num))
      (fresh_slots b num BUFFER_TYPE_WRITE ++ lw).
Proof.
  intros Hnum (HR & HW & _) HB Hsz Hcr Hcw Hl.
  assert (Hlr : forall q, q ∈ lr -> q.1 <> b) by (intros; apply Hl, elem_of_app; auto).
  assert (Hlw : forall q, q ∈ lw -> q.1 <> b) by (intros; apply Hl, elem_of_app; auto).
  destruct (link_nodes_spec b 4 (peerReadBSize cfg) num hr lr h B (Z.to_nat num) 0)
    as (h1 & Hrun1 & Hbl1 & Hcl1 & Hfr1 & Hch1);
    [lia|lia|unfold peerReadBSize; lia|lia|done
    |rewrite Hsz; unfold block_bytes, peerReadBSize, peerWriteBSize; nia|done..|].
  assert (Hother : forall off pr k q, q.1 <> b -> q ∉ fresh_ptrs b off pr k num)
    by (intros off pr k q Hq; rewrite elem_of_fresh_ptrs; by intros [? _]).
  destruct (link_nodes_spec b (4 + peerReadBSize cfg * num) (peerWriteBSize cfg) num
              hw lw h1 B (Z.to_nat num) 0)
    as (h2 & Hrun2 & Hbl2 & Hcl2 & Hfr2 & Hch2);
    [lia|lia|unfold peerWriteBSize; lia|unfold peerReadBSize; nia|by rewrite Hbl1
    |rewrite Hsz; unfold block_bytes, peerReadBSize, peerWriteBSize; nia| |done|].
  { eapply chain_frame, Hcw. intros q Hq. by apply Hfr1, Hother, Hlw. }
  rewrite Z.sub_0_r in Hrun1, Hrun2.
  rewrite (proj2 (Z.ltb_lt 0 num)), Z.mul_0_l, Z.add_0_r in Hch1, Hch2 by done.
  exists h1, h2. split_and!; [done|done|congruence|congruence| | |done].
  { intros q Hq. by rewrite Hfr2, Hfr1 by (by apply Hother). }
  eapply chain_frame, Hch1. intros q [Hq|Hq]%elem_of_app.
  - apply Hfr2. intros Hw. apply elem_of_fresh_ptrs in Hq as (_ & i & ? & Hi).
    apply elem_of_fresh_ptrs in Hw as (_ & j & ? & Hj).
    rewrite Hi in Hj. simpl in Hj. unfold peerReadBSize, peerWriteBSize in *. nia.
  - by apply Hfr2, Hother, Hlr.
Qed.

Lemma slots_fresh b num v :
  slots (mkView (fresh_slots b num BUFFER_TYPE_READ ++ v_r v)
                (fresh_slots b num BUFFER_TYPE_WRITE ++ v_w v) (v_out v))
    ≡ₚ fresh_all b num ++ slots v.
Proof.
  unfold slots, fresh_all. simpl. rewrite !fmap_app. solve_Permutation.
Qed.

Lemma fresh_free_size b num v ty :
  0 < num -> Z.of_nat (length (slots v)) + 2 * num < 2 ^ 32 ->
  u32 (Z.of_nat (length (v_free ty v)) + num)
    = Z.of_nat (length (fresh_slots b num ty ++ v_free ty v)).
Proof.
  intros. unfold fresh_slots. rewrite length_app, Nat2Z.inj_add, fresh_ptrs_length by lia.
  assert (length (v_free ty v) <= length (slots v))%nat.
  { rewrite (slots_free ty v), length_app, length_fmap. lia. }
  rewrite u32_small; lia.
Qed.

Lemma tryAlloc_spec grant s v num :
  pool_inv s v -> 0 < num -> fits num ->
  Z.of_nat (length (slots v)) + 2 * num < 2 ^ 32 ->
  let b := h_calls s.1 in
  exists s', tryAlloc grant cfg num s = Some (grant b (block_bytes num), s') /\
    pool_inv s'
      (if grant b (block_bytes num)
       then mkView (fresh_slots b num BUFFER_TYPE_READ ++ v_r v)
                   (fresh_slots b num BUFFER_TYPE_WRITE ++ v_w v) (v_out v)
       else v).
Proof.
  intros [Hch Hsz Ho] Hnum Hfit Hlen b. destruct s as [h p]; simpl in *.
  destruct (totalSize_fits num Hnum Hfit) as [_ Htot].
  unfold tryAlloc, malloc. fold b. rewrite Htot.
  destruct (grant b (block_bytes num)) eqn:Hg.
  2:{ eexists. split; [done|]. split; [done|done|]. destruct Ho.
      constructor; simpl; try done. intros c ?%ow_fresh0. lia. }
  assert (Hl : forall x, x ∈ slots v -> x.2.1 <> b).
  { intros x Hx. pose proof (owned_live _ _ _ Ho Hx). subst b. lia. }
  cbv zeta. unfold set_block; simpl. rewrite insert_insert_eq.
  rewrite (u32_small (num * 2)), (Z.mul_comm num) by lia.
  set (B := mkBlock _ (2 * num)). set (h0 := mkHeap _ _ _).
  destruct (link_both h0 b B num (rBuffers p) (wBuffers p) (v_r v) (v_w v))
    as (h1 & h2 & Hrun1 & Hrun2 & Hbl & Hcl & Hfr & Hcr & Hcw);
    [done|done|by apply lookup_insert_eq|done|apply (Hch BUFFER_TYPE_READ)
    |apply (Hch BUFFER_TYPE_WRITE)| |].
  { intros q [Hq|Hq]%elem_of_app;
      [apply (Hl (BUFFER_TYPE_READ, q)), (elem_of_slots BUFFER_TYPE_READ)
      |apply (Hl (BUFFER_TYPE_WRITE, q)), (elem_of_slots BUFFER_TYPE_WRITE)]; done. }
  rewrite Hrun1. simpl. rewrite Hrun2. simpl.
  eexists. split; [done|]. split; simpl.
  - by intros [].
  - intros ty. pose proof (fresh_free_size b num v ty Hnum Hlen).
    pose proof (Hsz ty). destruct ty; simpl in *; congruence.
  - rewrite slots_fresh.
    eapply (owned_extend h h2); [done..| |].
    + intros x Hx. by apply Hfr, Hl.
    + intros [ty q] Hx. simpl. apply elem_of_app in Hx as [Hx|Hx];
        apply list_elem_of_fmap in Hx as (q' & [= -> ->] & Hq); simpl;
        eapply chain_node; [apply Hcr| |apply Hcw|]; apply elem_of_app; by left.
Qed.

(** ** Alloc *)

Lemma fits_mono n m : fits m -> 0 <= n <= m -> fits n.
Proof.
  intros (HR & HW & Hf) Hn. split_and!; [done|done|].
  unfold block_bytes, peerReadBSize, peerWriteBSize in *. nia.
Qed.

(** [v'] has at most the slots of [v] and those of [num] more pairs. *)
Definition grown (num : Z) (v v' : view) : Prop :=
  Z.of_nat (length (slots v')) <= Z.of_nat (length (slots v)) + 2 * num.

Lemma grown_refl num v : 0 <= num -> grown num v v.
Proof. unfold grown. lia. Qed.

Lemma grown_fresh b num v :
  0 <= num ->
  grown num v (mkView (fresh_slots b num BUFFER_TYPE_READ ++ v_r v)
                      (fresh_slots b num BUFFER_TYPE_WRITE ++ v_w v) (v_out v)).
Proof.
  intros Hnum. unfold grown, slots. simpl. rewrite !length_app, !length_fmap, !length_app.
  unfold fresh_slots. rewrite !Nat2Z.inj_add, !fresh_ptrs_length by done. lia.
Qed.

(** There is room for one more block in the slot counters. *)
Definition roomy (v : view) : Prop :=
  Z.of_nat (length (slots v)) + 2 * BUFFER_POOL_PEER_ALLOC_NUM cfg < 2 ^ 32.

Lemma Alloc_loop_spec grant s v fuel num :
  pool_inv s v -> fits num -> Z.of_nat (length (slots v)) + 2 * num < 2 ^ 32 ->
  (Z.to_nat num <= fuel)%nat ->
  exists ok s' v', Alloc_loop grant cfg fuel num s = Some (ok, s') /\ pool_inv s' v' /\
    v_out v' = v_out v /\ grown (Z.max 0 num) v v' /\
    (if ok then forall ty, v_free ty v' <> [] else v' = v).
Proof.
  revert s num. induction fuel as [|fuel IH]; intros s num Hinv Hfit Hlen Hfuel; simpl.
  { rewrite (proj2 (Z.leb_le _ _)) by lia. exists false, s, v. split_and!; try done. apply grown_refl. lia. }
  case_match eqn:E; [exists false, s, v; split_and!; try done; apply grown_refl; lia|]. apply Z.leb_gt in E.
  destruct (tryAlloc_spec grant s v num Hinv E Hfit Hlen) as (s1 & Hrun & Hinv1).
  rewrite Hrun. simpl. case_match.
  - eexists true, s1, _. split_and!; [done|done|done|rewrite Z.max_r by lia; apply grown_fresh; lia|].
    intros []; simpl; unfold fresh_slots; rewrite fresh_ptrs_cons by lia; done.
  - pose proof (Z.quot_div_nonneg num 2 ltac:(lia) ltac:(lia)) as Hq.
    pose proof (Z.div_lt num 2 ltac:(lia) ltac:(lia)).
    pose proof (Z.div_pos num 2 ltac:(lia) ltac:(lia)).
    destruct (IH s1 (Z.quot num 2)) as (ok & s2 & v2 & Hrun2 & Hinv2 & Hout & Hgr & Hok);
      [done|apply (fits_mono _ num); [done|lia]|lia|lia|].
    exists ok, s2, v2. split_and!; try done. unfold grown in *. lia.
Qed.

(** ** GetReadBufferInner, GetWriteBufferInner *)

(** The slot a buffer pointer belongs to: its node is 16 bytes before it. *)
Definition buf_slot (ty : BUFFER_TYPE) (buf : ptr) : slot := (ty, (buf.1, buf.2 - 2 * 8)).

Lemma ensure_spec grant ty s v :
  pool_inv s v -> fits (BUFFER_POOL_PEER_ALLOC_NUM cfg) -> roomy v ->
  exists ok s' v', ensure grant cfg ty s = Some (ok, s') /\ pool_inv s' v' /\
    v_out v' = v_out v /\ grown (Z.max 0 (BUFFER_POOL_PEER_ALLOC_NUM cfg)) v v' /\
    (if ok then v_free ty v' <> [] else v' = v).
Proof.
  intros Hinv Hfit Hroom. unfold ensure. case_match eqn:E.
  - exists true, s, v. split_and!; [done|done|done|apply grown_refl; lia|].
    intros Hnil. pose proof (pi_chain _ _ Hinv ty) as Hc. rewrite Hnil, E in Hc. done.
  - destruct (Alloc_loop_spec grant s v (Z.to_nat (BUFFER_POOL_PEER_ALLOC_NUM cfg))
                (BUFFER_POOL_PEER_ALLOC_NUM cfg))
      as (ok & s' & v' & Hrun & Hinv' & Hout & Hgr & Hok); [done|done|done|done|].
    exists ok, s', v'. split_and!; [done|done|done|done|]. by destruct ok.
Qed.

(** Moving the first free slot of one kind to the slots handed out. *)
Lemma slots_take ty q l v :
  v_free ty v = q :: l ->
  slots v ≡ₚ slots (set_out ((ty, q) :: v_out v) (set_free ty l v)).
Proof.
  intros Hl. unfold slots. destruct ty; simpl in *; rewrite Hl; simpl; solve_Permutation.
Qed.

Lemma GetInner_spec grant ty s v :
  pool_inv s v -> fits (BUFFER_POOL_PEER_ALLOC_NUM cfg) -> roomy v ->
  exists r s' v', GetInner grant cfg ty s = Some (r, s') /\ pool_inv s' v' /\
    grown (Z.max 0 (BUFFER_POOL_PEER_ALLOC_NUM cfg)) v v' /\
    match r with
    | None => v' = v
    | Some buf => v_out v' = buf_slot ty buf :: v_out v
    end.
Proof.
  intros Hinv Hfit Hroom. unfold GetInner.
  destruct (ensure_spec grant ty s v Hinv Hfit Hroom) as (ok & [h p] & v' & -> & Hinv' & Hout & Hgr & Hok).
  simpl. destruct ok; simpl; [|subst v'; by exists None, (h, p), v].
  destruct Hinv' as [Hch Hsz Ho]. simpl in *.
  destruct (v_free ty v') as [|q l] eqn:Hl; [done|].
  pose proof (Hch ty) as Hc. rewrite Hl in Hc. destruct Hc as (Hhd & n & Hn & Hb & Hc).
  rewrite Hhd. simpl. rewrite Hn. simpl.
  eexists _, _, (set_out ((ty, q) :: v_out v') (set_free ty l v')).
  assert (Hs : slots v' ≡ₚ slots (set_out ((ty, q) :: v_out v') (set_free ty l v')))
    by (by apply slots_take).
  split; [done|]. split; [split; simpl|split].
  - intros ty'. destruct ty, ty'; simpl in *; try done; apply (Hch BUFFER_TYPE_WRITE)
      || apply (Hch BUFFER_TYPE_READ).
  - assert (Hs' : Z.of_nat (length (v_free ty v')) < 2 ^ 32).
    { pose proof (ow_small _ _ Ho) as Hsm.
      rewrite (slots_free ty v'), length_app, length_fmap in Hsm. lia. }
    intros ty'. pose proof (Hsz ty) as H1. pose proof (Hsz ty') as H2.
    rewrite Hl in Hs', H1. simpl in Hs', H1.
    destruct ty, ty'; simpl in *; rewrite ?u32_small by lia; lia.
  - by rewrite <- Hs.
  - unfold grown in *. by rewrite <- Hs.
  - simpl. rewrite Hout. unfold buf_slot. simpl. do 2 f_equal.
    destruct q as [? off]; simpl. f_equal. lia.
Qed.

(** ** FreeReadBuffferInner, FreeWriteBufferInner *)

(** A buffer given back goes to the free list, unless that list already holds
    [BUFFER_POOL_MIN_BLOCK_NUM] buffers: then its reference is dropped. *)
Definition put_back (ty : BUFFER_TYPE) (buf : ptr) (out : list slot) (v : view) : view :=
  if BUFFER_POOL_MIN_BLOCK_NUM cfg <=? Z.of_nat (length (v_free ty v))
  then set_out out v
  else set_out out (set_free ty ((buf_slot ty buf).2 :: v_free ty v) v).

Lemma pool_inv_unref h p v ty buf out :
  pool_inv (h, p) v -> v_out v ≡ₚ buf_slot ty buf :: out ->
  exists h', unref buf.1 h = Some h' /\ pool_inv (h', p) (set_out out v).
Proof.
  intros [Hch Hsz Ho] Hout. simpl in *.
  assert (Hp : slots v ≡ₚ buf_slot ty buf :: slots (set_out out v)).
  { unfold slots. simpl. rewrite Hout. solve_Permutation. }
  rewrite Hp in Ho. destruct (unref_owned _ _ _ Ho) as (h' & Hrun & Ho' & _ & Hfr & _).
  exists h'. split; [done|]. split; simpl; [|done|done].
  intros ty'. apply (chain_frame (h_nodes h)); [|by destruct ty'; apply Hch].
  intros q Hq. apply (Hfr (ty', q)), elem_of_slots. by destruct ty'.
Qed.

Lemma pool_inv_push h p v ty buf out n :
  pool_inv (h, p) v -> v_out v ≡ₚ buf_slot ty buf :: out ->
  node_block n = buf.1 -> Z.of_nat (length (v_free ty v)) + 1 < 2 ^ 32 ->
  let q := (buf_slot ty buf).2 in
  pool_inv (set_node q (mkNode (node_block n) (head ty p)) h,
            set_list ty (Some q) (u32 (psize ty p + 1)) p)
    (set_out out (set_free ty (q :: v_free ty v) v)).
Proof.
  intros [Hch Hsz Ho] Hout Hn Hlen q. simpl in *.
  assert (Hp : slots v ≡ₚ slots (set_out out (set_free ty (q :: v_free ty v) v))).
  { unfold slots. destruct ty; simpl; rewrite Hout; solve_Permutation. }
  assert (Hframe : forall ty', chain (h_nodes (set_node q (mkNode (node_block n) (head ty p)) h))
                           (head ty' p) (v_free ty' v)).
  { intros ty'. apply (chain_frame (h_nodes h)); [|apply Hch]. intros q' Hq'.
    apply lookup_insert_ne. intros <-.
    assert (Hp' : slots v ≡ₚ buf_slot ty buf :: slots (set_out out v))
      by (unfold slots; simpl; rewrite Hout; solve_Permutation).
    rewrite Hp' in Ho. apply (owned_node_ne _ _ _ (ty', q) Ho); [|done].
    apply elem_of_slots. by destruct ty'. }
  split; simpl.
  - intros ty'. destruct (decide (ty' = ty)) as [->|Hne].
    + assert (chain (<[q:=mkNode (node_block n) (head ty p)]> (h_nodes h)) (Some q)
                (q :: v_free ty v)) as Hc.
      { split; [done|]. eexists. split; [apply lookup_insert_eq|]. split; [done|].
        apply Hframe. }
      by destruct ty.
    + by specialize (Hframe ty'); destruct ty, ty'.
  - intros ty'. pose proof (Hsz ty) as H1. pose proof (Hsz ty') as H2.
    rewrite H1, u32_small by lia. destruct ty, ty'; simpl in *; lia.
  - rewrite <- Hp. pose proof Ho as [Hnd Hnode Hpl Hr Hf Hs]. constructor; simpl; try done.
    intros x Hx. rewrite lookup_insert. case_decide as Heq; [|by apply Hnode].
    eexists. split; [done|]. simpl. by rewrite <- Heq.
Qed.

Lemma FreeInner_spec ty buf s v out :
  pool_inv s v -> v_out v ≡ₚ buf_slot ty buf :: out ->
  0 <= BUFFER_POOL_MIN_BLOCK_NUM cfg < 2 ^ 31 ->
  exists s', FreeInner cfg ty buf s = Some s' /\ pool_inv s' (put_back ty buf out v).
Proof.
  intros Hinv Hout Hmin. destruct s as [h p]. unfold FreeInner, put_back.
  assert (Hx : buf_slot ty buf ∈ slots v).
  { rewrite slots_out, Hout. by left. }
  destruct (ow_node _ _ (pi_owned _ _ Hinv) _ Hx) as (n & Hn & Hb). simpl in Hn, Hb.
  rewrite Hn. simpl. rewrite (u32_small (BUFFER_POOL_MIN_BLOCK_NUM cfg)) by lia.
  pose proof (pi_size _ _ Hinv ty) as Hsz. simpl in Hsz. rewrite Hsz.
  case_match eqn:E.
  - destruct (pool_inv_unref _ _ _ _ _ _ Hinv Hout) as (h' & Hrun & Hinv').
    rewrite Hb, Hrun. simpl. by eexists.
  - eexists. split; [done|]. rewrite <- Hsz. apply pool_inv_push; [done..|].
    apply Z.leb_gt in E. lia.
Qed.

(** ** releaseAllBlocks, reset *)

Definition chains (h : Heap) (p : t) (v : view) : Prop :=
  forall ty, chain (h_nodes h) (head ty p) (v_free ty v).

Lemma v_free_set ty ty' l v :
  v_free ty' (set_free ty l v) = if decide (ty' = ty) then l else v_free ty' v.
Proof. by destruct ty, ty'. Qed.

Lemma head_set ty ty' hd n p :
  head ty' (set_list ty hd n p) = if decide (ty' = ty) then hd else head ty' p.
Proof. by destruct ty, ty'. Qed.

Lemma set_list_idem ty hd hd' n p :
  set_list ty hd n (set_list ty hd' n p) = set_list ty hd n p.
Proof. by destruct ty. Qed.

Lemma set_free_idem ty l l' v : set_free ty l (set_free ty l' v) = set_free ty l v.
Proof. by destruct ty. Qed.

Lemma psize_set ty hd n p : psize ty (set_list ty hd n p) = n.
Proof. by destruct ty. Qed.

(** Releasing the first slot of a free list. *)
Lemma release_one ty h p v q l :
  chains h p v -> owned h (slots v) -> v_free ty v = q :: l ->
  exists n h', head ty p = Some q /\ h_nodes h !! q = Some n /\
    unref (node_block n) h = Some h' /\
    chains h' (set_list ty (node_next n) (psize ty p) p) (set_free ty l v) /\
    owned h' (slots (set_free ty l v)).
Proof.
  intros Hch Ho Hl. pose proof (Hch ty) as Hc. rewrite Hl in Hc.
  destruct Hc as (Hhd & n & Hn & Hb & Hc).
  assert (Hp : slots v ≡ₚ (ty, q) :: slots (set_free ty l v)).
  { unfold slots. destruct ty; simpl in *; rewrite Hl; simpl; solve_Permutation. }
  rewrite Hp in Ho. destruct (unref_owned _ _ _ Ho) as (h' & Hrun & Ho' & _ & Hfr & _).
  simpl in Hrun. exists n, h'. rewrite Hb. split_and!; try done.
  intros ty'. rewrite head_set. apply (chain_frame (h_nodes h)).
  - intros q' Hq'. by apply (Hfr (ty', q')), elem_of_slots.
  - rewrite v_free_set. case_decide; [done|apply Hch].
Qed.

Lemma release_list_spec fuel ty h p v :
  chains h p v -> owned h (slots v) -> (length (v_free ty v) <= fuel)%nat ->
  exists h', release_list fuel ty (h, p) = Some (h', set_list ty None (psize ty p) p) /\
    chains h' (set_list ty None (psize ty p) p) (set_free ty [] v) /\
    owned h' (slots (set_free ty [] v)).
Proof.
  remember (v_free ty v) as l eqn:Hl. symmetry in Hl. revert fuel h p v Hl.
  induction l as [|q l IH]; intros fuel h p v Hl Hch Ho Hfuel.
  - assert (set_free ty [] v = v) as -> by (destruct v, ty; simpl in *; by subst).
    assert (Hnil : head ty p = None).
    { pose proof (Hch ty) as Hc. by rewrite Hl in Hc. }
    assert (set_list ty None (psize ty p) p = p) as ->
      by (destruct p, ty; simpl in *; by subst).
    exists h. by destruct fuel; simpl; rewrite Hnil.
  - destruct (release_one _ _ _ _ _ _ Hch Ho Hl) as (n & h1 & Hhd & Hn & Hrun & Hch1 & Ho1).
    destruct fuel as [|fuel]; simpl in Hfuel; [lia|]. simpl. rewrite Hhd, Hn. simpl.
    rewrite Hrun. simpl.
    destruct (IH fuel h1 _ _ ltac:(by rewrite v_free_set, decide_True) Hch1 Ho1 ltac:(lia))
      as (h' & Hrec & Hch' & Ho').
    rewrite psize_set, set_list_idem, set_free_idem in *. by exists h'.
Qed.

(** The fuel of a release loop: there are at least as many nodes as slots. *)
Lemma release_fuel h v ty :
  owned h (slots v) -> (length (v_free ty v) <= size (h_nodes h))%nat.
Proof.
  intros Ho. apply NoDup_keys_size.
  - pose proof (ow_nodup _ _ Ho) as Hnd. rewrite (slots_free ty v), fmap_app in Hnd.
    apply NoDup_app in Hnd as [Hnd _].
    by rewrite <- list_fmap_compose, (list_fmap_ext (snd ∘ pair ty) id), list_fmap_id in Hnd.
  - intros q Hq. destruct (ow_node _ _ Ho (ty, q)) as (n & Hn & _); [by apply elem_of_slots|].
    by exists n.
Qed.

Lemma owned_nil_blocks h : owned h [] -> h_blocks h = ∅.
Proof.
  intros Ho. apply map_eq. intros b. rewrite lookup_empty.
  destruct (h_blocks h !! b) as [B|] eqn:E; [|done].
  by destruct (ow_ref _ _ Ho _ _ E) as [_ ?%Nat.lt_irrefl].
Qed.

Lemma releaseAllBlocks_spec s v :
  pool_inv s v -> v_out v = [] ->
  exists h p, releaseAllBlocks s = Some (h, p) /\ h_blocks h = ∅ /\
    rBuffers p = None /\ wBuffers p = None.
Proof.
  intros [Hch _ Ho] Hout. destruct s as [h p]. simpl in *. unfold releaseAllBlocks.
  destruct (release_list_spec (size (h_nodes h)) BUFFER_TYPE_READ h p v Hch Ho)
    as (h1 & Hrun1 & Hch1 & Ho1); [by apply release_fuel|].
  simpl fst. rewrite Hrun1. simpl. simpl in Hch1, Ho1.
  destruct (release_list_spec (size (h_nodes h1)) BUFFER_TYPE_WRITE h1 _ _ Hch1 Ho1)
    as (h2 & Hrun2 & Hch2 & Ho2); [by apply (release_fuel _ _ BUFFER_TYPE_WRITE Ho1)|].
  simpl in *. rewrite Hrun2. eexists _, _. split; [done|]. simpl.
  unfold slots in Ho2. simpl in Ho2. rewrite Hout in Ho2.
  by rewrite (owned_nil_blocks _ Ho2).
Qed.
End spec.

(** ** The interface, discharged *)

#[export] Instance pool_provider (grant : Z -> Z -> bool) (cfg : SPTcpConfig) :
    BufferProvider state := {|
  get_buffer := GetBuffer grant cfg;
  free_buffer := FreeBuffer cfg |}.

(** The bytes a buffer holds. *)
Definition buf_cap (cfg : SPTcpConfig) (ty : BUFFER_TYPE) : Z :=
  match ty with BUFFER_TYPE_READ => READ_BSIZE cfg | BUFFER_TYPE_WRITE => WRITE_BSIZE cfg end.

Definition buf_slots (out : list (BUFFER_TYPE * buf_addr)) : list slot :=
  (fun x => buf_slot x.1 x.2) <$> out.

(** The configurations for which a block of the pool fits an [int]. *)
Definition pool_config (cfg : SPTcpConfig) : Prop :=
  fits cfg (BUFFER_POOL_PEER_ALLOC_NUM cfg) /\
  0 <= BUFFER_POOL_MIN_BLOCK_NUM cfg < 2 ^ 31 /\ 1 <= BUFFER_POOL_PEER_ALLOC_NUM cfg.

Definition pool_lent (cfg : SPTcpConfig) (s : state) (out : list (BUFFER_TYPE * buf_addr)) : Prop :=
  pool_config cfg /\ exists v, pool_inv cfg s v /\ v_out v ≡ₚ buf_slots out.

(** The slots of all live blocks, read off the reference counts. *)
Definition total_refs (blocks : gmap Z Block) : Z :=
  map_fold (fun _ B n => blk_ref B + n) 0 blocks.

(** [n] more blocks do not overflow the slot counters. *)
Definition pool_can_lend (cfg : SPTcpConfig) (n : nat) (s : state) : Prop :=
  total_refs (h_blocks s.1) + 2 * BUFFER_POOL_PEER_ALLOC_NUM cfg * Z.of_nat n < 2 ^ 32.

Lemma cnt_split b (l : list slot) :
  length l = (cnt b l + length (filter (fun x : slot => x.2.1 <> b) l))%nat.
Proof.
  induction l as [|x l IH]; [done|]. rewrite cnt_cons, filter_cons. simpl.
  repeat case_decide; simpl; lia || done.
Qed.

Lemma cnt_filter_ne b c (l : list slot) :
  c <> b -> cnt c (filter (fun x : slot => x.2.1 <> b) l) = cnt c l.
Proof.
  intros Hne. induction l as [|x l IH]; [done|]. rewrite filter_cons, cnt_cons.
  repeat case_decide; rewrite ?cnt_cons, ?decide_True, ?decide_False by done; congruence || lia.
Qed.

Lemma total_refs_length blocks (l : list slot) :
  (forall b B, blocks !! b = Some B -> blk_ref B = Z.of_nat (cnt b l)) ->
  (forall x, x ∈ l -> is_Some (blocks !! x.2.1)) ->
  total_refs blocks = Z.of_nat (length l).
Proof.
  revert l. induction blocks as [|b B blocks Hb IH] using map_ind; intros l Hr Hl.
  - destruct l as [|x l]; [done|]. destruct (Hl x) as [? E]; [by left|].
    by rewrite lookup_empty in E.
  - unfold total_refs. rewrite map_fold_insert_L; [|intros; lia|done].
    rewrite (Hr b B), (cnt_split b l) by apply lookup_insert_eq.
    rewrite Nat2Z.inj_add. f_equal. apply IH.
    + intros c C HC. assert (c <> b) by congruence. rewrite cnt_filter_ne by done.
      apply Hr. by rewrite lookup_insert_ne.
    + intros x [Hx1 Hx2]%list_elem_of_filter. specialize (Hl x Hx2).
      by rewrite lookup_insert_ne in Hl.
Qed.

Lemma inv_total_refs cfg s v :
  pool_inv cfg s v -> total_refs (h_blocks s.1) = Z.of_nat (length (slots v)).
Proof.
  intros Hinv. pose proof (pi_owned _ _ _ Hinv) as Ho. apply total_refs_length.
  - intros b B HB. by apply (ow_ref _ _ _ Ho).
  - intros x Hx. destruct (ow_placed _ _ _ Ho _ Hx) as (B & ? & ? & ? & _). by exists B.
Qed.

Lemma can_lend_roomy cfg n s v :
  pool_config cfg -> pool_can_lend cfg (S n) s -> pool_inv cfg s v -> roomy cfg v.
Proof.
  intros (_ & _ & Hnum) Hc Hinv. unfold pool_can_lend, roomy in *.
  rewrite (inv_total_refs _ _ _ Hinv) in Hc. nia.
Qed.

Lemma can_lend_grown cfg n s v s' v' :
  pool_config cfg -> pool_can_lend cfg (S n) s -> pool_inv cfg s v -> pool_inv cfg s' v' ->
  grown (Z.max 0 (BUFFER_POOL_PEER_ALLOC_NUM cfg)) v v' -> pool_can_lend cfg n s'.
Proof.
  intros (_ & _ & Hnum) Hc Hinv Hinv' Hgr. unfold pool_can_lend, grown in *.
  rewrite (inv_total_refs _ _ _ Hinv) in Hc. rewrite (inv_total_refs _ _ _ Hinv'). nia.
Qed.

Lemma GetBuffer_inner grant cfg ty s : GetBuffer grant cfg ty s = GetInner grant cfg ty s.
Proof. unfold GetBuffer. by destruct ty. Qed.

Lemma FreeBuffer_inner cfg buf ty s : FreeBuffer cfg buf ty s = FreeInner cfg ty buf s.
Proof. unfold FreeBuffer. by destruct ty. Qed.

(** Distinct slots of the pool are apart as buffers. *)
Lemma slots_apart cfg s v ty b out :
  fits cfg (BUFFER_POOL_PEER_ALLOC_NUM cfg) ->
  pool_inv cfg s v -> v_out v ≡ₚ buf_slot ty b :: buf_slots out ->
  Forall (apart (buf_cap cfg) (ty, b)) out.
Proof.
  intros (HR & HW & _) Hinv Hout. apply Forall_forall. intros y Hy Hblk.
  pose proof (pi_owned _ _ _ Hinv) as Ho.
  assert (Hp : slots v ≡ₚ buf_slot ty b :: buf_slots out ++ slots (set_out [] v)).
  { by rewrite slots_out, Hout. }
  rewrite Hp in Ho.
  assert (Hin : buf_slot y.1 y.2 ∈ buf_slots out ++ slots (set_out [] v)).
  { apply elem_of_app. left. by apply list_elem_of_fmap_2'  with y. }
  pose proof (owned_node_ne _ _ _ _ _ Ho Hin) as Hne.
  destruct (placed_disjoint cfg _ (buf_slot ty b) (buf_slot y.1 y.2) HR HW
              (ow_placed _ _ _ Ho _ ltac:(by left))
              (ow_placed _ _ _ Ho _ ltac:(by right)) Hblk (not_eq_sym Hne)) as [Hd|Hd];
    unfold slot_end in Hd; simpl in *; [left|right]; destruct ty, (y.1); simpl in *;
    unfold peerReadBSize, peerWriteBSize in *; lia.
Qed.

(** Giving a buffer back makes no new slot. *)
Lemma put_back_slots cfg ty buf out v :
  v_out v ≡ₚ buf_slot ty buf :: out ->
  (length (slots (put_back cfg ty buf out v)) <= length (slots v))%nat.
Proof.
  intros Hout. rewrite (slots_out v), Hout. unfold put_back.
  case_match; destruct ty; unfold slots; simpl; rewrite ?length_app, ?length_fmap; simpl;
    rewrite ?length_app, ?length_fmap; simpl; lia.
Qed.

#[export] Program Instance pool_laws (grant : Z -> Z -> bool) (cfg : SPTcpConfig) :
    BufferProviderLaws state (H := pool_provider grant cfg) (buf_cap cfg) := {|
  lent := pool_lent cfg;
  can_lend := pool_can_lend cfg |}.
Next Obligation.
  intros grant cfg s l l' Hp. unfold pool_lent, buf_slots. by setoid_rewrite Hp.
Qed.
Next Obligation.
  intros grant cfg n ty s out [Hc (v & Hinv & Hout)] Hcan. simpl. rewrite GetBuffer_inner.
  destruct (GetInner_spec cfg grant ty s v Hinv (proj1 Hc) (can_lend_roomy _ _ _ _ Hc Hcan Hinv))
    as (r & s' & v' & -> & Hinv' & Hgr & Hr).
  exists r, s'. split; [done|]. split; [by apply (can_lend_grown _ _ _ _ _ _ Hc Hcan Hinv Hinv')|].
  destruct r as [b|].
  - assert (Hv' : v_out v' ≡ₚ buf_slots ((ty, b) :: out)) by (rewrite Hr, Hout; done).
    split; [by split; [|exists v']|]. by apply (slots_apart cfg s' v'); [apply Hc|..].
  - subst v'. by split; [|exists v].
Qed.
Next Obligation.
  intros grant cfg ty b s out [Hc (v & Hinv & Hout)]. simpl. destruct Hc as (Hfit & Hmin & Hnum).
  rewrite FreeBuffer_inner.
  destruct (FreeInner_spec cfg ty b s v _ Hinv Hout Hmin) as (s' & -> & Hinv').
  exists s'. split; [done|]. split.
  - split; [done|]. eexists. split; [done|]. unfold put_back. by case_match; destruct ty.
  - intros n. unfold pool_can_lend. rewrite (inv_total_refs _ _ _ Hinv), (inv_total_refs _ _ _ Hinv').
    pose proof (put_back_slots cfg ty b _ v Hout). lia.
Qed.
