(* ===== verification/BufferPoolProps.v ===== *)
(** * BufferPoolProps: the correctness theorems of the buffer pool *)

From S2P Require Import Prelude Types BufferProvider BufferPool BufferPoolSpec.
Import SPTcpBufferPool.

(** ** Use of the pool by clients *)

(** A client takes buffers and gives back buffers it holds. *)
Inductive pool_step (grant : Z -> Z -> bool) (cfg : SPTcpConfig) :
    state * list (BUFFER_TYPE * buf_addr) -> state * list (BUFFER_TYPE * buf_addr) -> Prop :=
  | pool_step_get ty s out b s' :
      pool_can_lend cfg 1 s ->
      GetBuffer grant cfg ty s = Some (Some b, s') ->
      pool_step grant cfg (s, out) (s', (ty, b) :: out)
  | pool_step_null ty s out s' :
      pool_can_lend cfg 1 s ->
      GetBuffer grant cfg ty s = Some (None, s') ->
      pool_step grant cfg (s, out) (s', out)
  | pool_step_free ty b s out out' s' :
      out ≡ₚ (ty, b) :: out' ->
      FreeBuffer cfg b ty s = Some s' ->
      pool_step grant cfg (s, out) (s', out').

Definition pool_start : state * list (BUFFER_TYPE * buf_addr) := ((mkHeap ∅ ∅ 0, init), []).

(** The bytes of a buffer lie in a live block. *)
Definition in_live_block (cfg : SPTcpConfig) (s : state) (x : BUFFER_TYPE * buf_addr) : Prop :=
  exists B, h_blocks s.1 !! x.2.1 = Some B /\ 0 <= x.2.2 /\
    x.2.2 + buf_cap cfg x.1 <= blk_size B.

(** Buffers of 128 MiB, sixteen pairs to a block. *)
Definition overflow_config : SPTcpConfig :=
  mkTcpConfig (2 ^ 27) (2 ^ 27) 16 64 5000 EPOLLIN 10000 10 5 float_0_6 LOG_LEVEL_WARNING.

(** ** Lemmas *)

Lemma owned_start cfg : owned cfg (mkHeap ∅ ∅ 0) [].
Proof.
  constructor; simpl; [constructor|by intros ? ?%not_elem_of_nil..| | |done].
  - intros b B. by rewrite lookup_empty.
  - intros b [B HB]. by rewrite lookup_empty in HB.
Qed.

Lemma pool_lent_start cfg : pool_config cfg -> pool_lent cfg pool_start.1 [].
Proof.
  intros Hc. split; [done|]. exists (mkView [] [] []). split; [|done].
  split; [by intros []|by intros []|apply owned_start].
Qed.

Lemma pool_step_lent grant cfg s out s' out' :
  pool_step grant cfg (s, out) (s', out') -> pool_lent cfg s out -> pool_lent cfg s' out'.
Proof.
  intros Hstep Hl. inversion Hstep as [ty ? ? b ? Hcan Hget|ty ? ? ? Hcan Hget
                                      |ty b ? ? ? ? Hp Hfree]; subst.
  - destruct (get_buffer_law (BufferProviderLaws := pool_laws grant cfg) 0%nat ty s out Hl Hcan)
      as (r & s1 & Hrun & _ & Hr).
    change (GetBuffer grant cfg ty s = Some (r, s1)) in Hrun.
    rewrite Hget in Hrun. injection Hrun as <- <-. by destruct Hr.
  - destruct (get_buffer_law (BufferProviderLaws := pool_laws grant cfg) 0%nat ty s out' Hl Hcan)
      as (r & s1 & Hrun & _ & Hr).
    change (GetBuffer grant cfg ty s = Some (r, s1)) in Hrun.
    rewrite Hget in Hrun. by injection Hrun as <- <-.
  - assert (Hl' : pool_lent cfg s ((ty, b) :: out')).
    { destruct Hl as [Hc (v & Hinv & Hout)]. split; [done|]. exists v. split; [done|].
      unfold buf_slots in *. by rewrite Hout, Hp. }
    destruct (free_buffer_law (BufferProviderLaws := pool_laws grant cfg) ty b s out' Hl')
      as (s1 & Hrun & Hr & _).
    change (FreeBuffer cfg b ty s = Some s1) in Hrun.
    rewrite Hfree in Hrun. by injection Hrun as <-.
Qed.

Lemma pool_reach_lent grant cfg s out :
  pool_config cfg -> rtc (pool_step grant cfg) pool_start (s, out) -> pool_lent cfg s out.
Proof.
  intros Hc Hr.
  apply (rtc_ind_r (R := pool_step grant cfg) (fun x => pool_lent cfg x.1 x.2) pool_start)
    with (z := (s, out)); [by apply pool_lent_start| |done].
  intros [s1 out1] [s2 out2] _ Hstep. by apply pool_step_lent with grant.
Qed.

Lemma lent_in_live_block cfg s out x :
  pool_lent cfg s out -> x ∈ out -> in_live_block cfg s x.
Proof.
  intros [((HR & HW & _) & _) (v & Hinv & Hout)] Hx.
  assert (Hs : buf_slot x.1 x.2 ∈ slots v).
  { rewrite slots_out, Hout. apply elem_of_app. left. by apply list_elem_of_fmap_2' with x. }
  pose proof (ow_placed _ _ _ (pi_owned _ _ _ Hinv) _ Hs) as Hp.
  destruct (placed_in_block cfg _ _ HR HW Hp) as (B & HB & Hlo & Hhi).
  exists B. split; [done|]. unfold slot_end in Hhi. simpl in *.
  destruct (x.1); simpl in *; unfold peerReadBSize, peerWriteBSize in *; lia.
Qed.

Lemma pairwise_apart cfg s out i j x y :
  pool_lent cfg s out -> out !! i = Some x -> out !! j = Some y -> i <> j ->
  apart (buf_cap cfg) x y.
Proof.
  intros [[Hfit _] (v & Hinv & Hout)] Hi Hj Hne.
  assert (Hp : out ≡ₚ x :: delete i out) by (by apply delete_Permutation).
  assert (Hy : y ∈ delete i out).
  { destruct (decide (j < i)%nat).
    - apply list_elem_of_lookup_2 with j. by rewrite list_lookup_delete_lt.
    - apply list_elem_of_lookup_2 with (pred j).
      rewrite list_lookup_delete_ge by lia. by replace (S (pred j)) with j by lia. }
  assert (Hout' : v_out v ≡ₚ buf_slot x.1 x.2 :: buf_slots (delete i out)).
  { rewrite Hout. unfold buf_slots. by rewrite Hp at 1. }
  pose proof (slots_apart cfg s v x.1 x.2 _ Hfit Hinv Hout') as Hall.
  rewrite Forall_forall in Hall. specialize (Hall y Hy). by destruct x.
Qed.

Lemma Alloc_loop_grants grant cfg s v fuel num :
  pool_inv cfg s v -> fits cfg num -> Z.of_nat (length (slots v)) + 2 * num < 2 ^ 32 ->
  (Z.to_nat num <= fuel)%nat -> 0 < num ->
  (forall k, grant k (block_bytes cfg 1) = true) ->
  exists s', Alloc_loop grant cfg fuel num s = Some (true, s').
Proof.
  intros Hinv Hfit Hlen Hfuel Hnum Hg. revert s num Hinv Hfit Hlen Hfuel Hnum.
  induction fuel as [|fuel IH]; intros s num Hinv Hfit Hlen Hfuel Hnum; simpl; [lia|].
  rewrite (proj2 (Z.leb_gt _ _)) by done.
  destruct (tryAlloc_spec cfg grant s v num Hinv Hnum Hfit Hlen) as (s1 & Hrun & Hinv1).
  rewrite Hrun. simpl. case_match eqn:E; [by eexists|].
  assert (num <> 1) by (intros ->; by rewrite Hg in E).
  pose proof (Z.quot_div_nonneg num 2 ltac:(lia) ltac:(lia)) as Hq.
  pose proof (Z.div_lt num 2 ltac:(lia) ltac:(lia)).
  pose proof (Z.div_str_pos num 2 ltac:(lia)).
  apply IH; [done|apply (fits_mono _ _ num); [done|lia]|lia|lia|lia].
Qed.

(** ** Properties *)

(** C8: buffer safety of the pool.  From the empty pool, whatever buffers a
    client takes and gives back and whenever [malloc] fails, the buffers it
    holds lie inside live blocks and any two of them share no byte. *)
Theorem pool_buffers_disjoint grant cfg s out :
  pool_config cfg -> rtc (pool_step grant cfg) pool_start (s, out) ->
  Forall (in_live_block cfg s) out /\
  forall i j x y, out !! i = Some x -> out !! j = Some y -> i <> j ->
    apart (buf_cap cfg) x y.
Proof.
  intros Hc Hr. pose proof (pool_reach_lent _ _ _ _ Hc Hr) as Hl. split.
  - apply Forall_forall. intros x Hx. by eapply lent_in_live_block.
  - intros i j x y. by apply (pairwise_apart cfg s out).
Qed.

(** The pool's operations are always defined.  In every reachable state
    taking a buffer (while the slot counters have room) and giving back one
    that is held dereferences no freed block, writes outside no block and
    frees nothing twice; the buffer that comes out is apart from all held. *)
Theorem pool_ops_defined grant cfg s out :
  pool_config cfg -> rtc (pool_step grant cfg) pool_start (s, out) ->
  (forall ty, pool_can_lend cfg 1 s ->
     exists r s', GetBuffer grant cfg ty s = Some (r, s') /\
       match r with
       | None => True
       | Some b => in_live_block cfg s' (ty, b) /\ Forall (apart (buf_cap cfg) (ty, b)) out
       end) /\
  (forall ty b, (ty, b) ∈ out -> is_Some (FreeBuffer cfg b ty s)).
Proof.
  intros Hc Hr. pose proof (pool_reach_lent _ _ _ _ Hc Hr) as Hl. split.
  - intros ty Hcan.
    destruct (get_buffer_law (BufferProviderLaws := pool_laws grant cfg) 0%nat ty s out Hl Hcan)
      as (r & s' & Hrun & _ & Hres). exists r, s'. split; [done|].
    destruct r; [|done]. destruct Hres as [Hl' Hap]. split; [|done].
    eapply lent_in_live_block; [apply Hl'|by left].
  - intros ty b (l1 & l2 & ->)%list_elem_of_split.
    destruct (free_buffer_law (BufferProviderLaws := pool_laws grant cfg) ty b s (l1 ++ l2))
      as (s' & Hrun & _); [|by exists s'].
    eapply lent_perm, Hl. solve_Permutation.
Qed.

(** No leak.  In a reachable state where every buffer has been given back,
    [reset] returns every block to the C library and leaves the pool as
    constructed. *)
Theorem pool_reset_no_leak grant cfg s :
  pool_config cfg -> rtc (pool_step grant cfg) pool_start (s, []) ->
  exists h, reset s = Some (h, init) /\ h_blocks h = ∅.
Proof.
  intros Hc Hr. destruct (pool_reach_lent _ _ _ _ Hc Hr) as [_ (v & Hinv & Hout)].
  destruct (releaseAllBlocks_spec cfg s v Hinv) as (h & p & Hrun & Hb & _).
  { by apply Permutation_nil_r. }
  exists h. unfold reset. by rewrite Hrun.
Qed.

(** The back-off of [Alloc].  As long as [malloc] still serves a block of
    one pair of buffers, a request never comes back empty-handed, however many
    larger blocks are refused. *)
Theorem pool_backoff grant cfg s out ty :
  pool_config cfg ->
  rtc (pool_step grant cfg) pool_start (s, out) -> pool_can_lend cfg 1 s ->
  (forall k, grant k (block_bytes cfg 1) = true) ->
  exists b s', GetBuffer grant cfg ty s = Some (Some b, s').
Proof.
  intros Hc Hr Hcan Hg. pose proof (pool_reach_lent _ _ _ _ Hc Hr) as [_ (v & Hinv & _)].
  pose proof (can_lend_roomy _ _ _ _ Hc Hcan Hinv) as Hroom. destruct Hc as (Hfit & _ & Hnum).
  rewrite GetBuffer_inner.
  destruct (GetInner_spec cfg grant ty s v Hinv Hfit Hroom) as (r & s' & v' & Hrun & _).
  destruct r as [b|]; [by exists b, s'|]. exfalso. revert Hrun.
  unfold GetInner, ensure. destruct (head ty s.2) as [q|] eqn:Hq; simpl.
  - destruct s as [h p]. simpl in *. rewrite Hq. simpl. by destruct (h_nodes h !! q).
  - destruct (Alloc_loop_grants grant cfg s v _ _ Hinv Hfit Hroom (Nat.le_refl _) ltac:(lia) Hg)
      as ([h p] & Hrun).
    unfold Alloc. rewrite Hrun. simpl. destruct (head ty p) as [q|]; simpl; [|done].
    by destruct (h_nodes h !! q).
Qed.

(** Retention.  Giving a buffer back keeps it when its free list is below
    [BUFFER_POOL_MIN_BLOCK_NUM] and drops it otherwise: the list never grows
    past that number by a free. *)
Theorem pool_retention cfg s out ty b :
  pool_lent cfg s ((ty, b) :: out) ->
  exists s', FreeBuffer cfg b ty s = Some s' /\
    psize ty s'.2 =
      (if BUFFER_POOL_MIN_BLOCK_NUM cfg <=? psize ty s.2 then psize ty s.2
       else psize ty s.2 + 1) /\
    psize ty s'.2 <= Z.max (psize ty s.2) (BUFFER_POOL_MIN_BLOCK_NUM cfg).
Proof.
  intros [(Hfit & Hmin & _) (v & Hinv & Hout)]. rewrite FreeBuffer_inner.
  destruct (FreeInner_spec cfg ty b s v _ Hinv Hout Hmin) as (s' & Hrun & Hinv').
  exists s'. split; [done|].
  pose proof (pi_size _ _ _ Hinv ty) as H1. pose proof (pi_size _ _ _ Hinv' ty) as H2.
  rewrite H2, H1. unfold put_back in *.
  destruct (Z.leb_spec (BUFFER_POOL_MIN_BLOCK_NUM cfg) (Z.of_nat (length (v_free ty v))));
    destruct ty; simpl in *; lia.
Qed.

(** C40: the validated configuration does not bound the size of a block.  For
    the configuration below, which passes every [assert] of [Config], the
    [int] computation of [totalSize] wraps to 516 bytes and, as soon as
    [malloc] grants them, building the block writes outside it. *)
Theorem pool_size_overflow ty :
  tcp_config_ok overflow_config = true /\
  totalSize overflow_config 16 = 516 /\
  GetBuffer (fun _ _ => true) overflow_config ty pool_start.1 = None.
Proof. split_and!; [vm_compute; reflexivity..|]. by destruct ty. Qed.

(** ** When [malloc] never fails, a buffer is always found *)

Lemma granted_block cfg num s s' : tryAlloc (fun _ _ => true) cfg num s <> Some (false, s').
Proof.
  destruct s as [h p]. unfold tryAlloc, malloc. cbv zeta.
  destruct (link_nodes _ _ _ _ _ _) as [h1|]; [|done]. cbn [mbind option_bind].
  by destruct (link_nodes _ _ _ _ _ _) as [h2|].
Qed.

Lemma granted_alloc cfg s s' :
  0 < BUFFER_POOL_PEER_ALLOC_NUM cfg -> Alloc (fun _ _ => true) cfg s <> Some (false, s').
Proof.
  intros Hnum. unfold Alloc. set (num := BUFFER_POOL_PEER_ALLOC_NUM cfg) in *.
  destruct (Z.to_nat num) as [|k] eqn:E; [lia|]. cbn [Alloc_loop].
  rewrite (proj2 (Z.leb_gt num 0)) by done.
  pose proof (granted_block cfg num s) as Hb.
  destruct (tryAlloc _ _ _ s) as [[[] s1]|]; cbn [mbind option_bind]; [done| |done].
  by destruct (Hb s1).
Qed.

Lemma granted_memory cfg ty (p p' : state) :
  0 < BUFFER_POOL_PEER_ALLOC_NUM cfg ->
  GetBuffer (fun _ _ => true) cfg ty p <> Some (None, p').
Proof.
  intros Hnum. rewrite GetBuffer_inner. unfold GetInner, ensure.
  pose proof (fun s' => granted_alloc cfg p s' Hnum) as Ha.
  destruct (match head ty p.2 with Some _ => _ | None => _ end) as [[ok [h q]]|] eqn:E;
    cbn [mbind option_bind]; [|done].
  destruct ok; cbn [negb].
  - destruct (head ty q) as [node|]; cbn [mbind option_bind]; [|done].
    by destruct (h_nodes h !! node).
  - exfalso. destruct (head ty p.2); [done|]. by apply (Ha (h, q)).
Qed.

(** ** Witnesses: a pool of two pairs to a block, and a client holding a read
    and a write buffer *)

Definition w_cfg : SPTcpConfig :=
  mkTcpConfig 1024 2048 2 3 5000 EPOLLIN 10000 10 5 float_0_6 LOG_LEVEL_WARNING.

(** The first request for a block of two pairs is refused. *)
Definition w_grant (k n : Z) : bool := negb (k =? 0) || (n =? block_bytes w_cfg 1).

Definition w_get (ty : BUFFER_TYPE) (s : state) : state :=
  match GetBuffer w_grant w_cfg ty s with Some (_, s') => s' | None => s end.

Definition w_s1 : state := w_get BUFFER_TYPE_READ pool_start.1.
Definition w_s2 : state := w_get BUFFER_TYPE_WRITE w_s1.
Definition w_out : list (BUFFER_TYPE * buf_addr) :=
  [(BUFFER_TYPE_WRITE, (1, 1060)); (BUFFER_TYPE_READ, (1, 20))].
Definition w_s4 : state :=
  match (s ← FreeBuffer w_cfg (1, 1060) BUFFER_TYPE_WRITE w_s2;
         FreeBuffer w_cfg (1, 20) BUFFER_TYPE_READ s) with
  | Some s => s | None => w_s2 end.

Lemma w_config : pool_config w_cfg.
Proof. repeat split; vm_compute; congruence. Qed.

Lemma w_reach : rtc (pool_step w_grant w_cfg) pool_start (w_s2, w_out).
Proof.
  eapply rtc_l with (y := (w_s1, [(BUFFER_TYPE_READ, (1, 20))])).
  { apply (pool_step_get _ _ BUFFER_TYPE_READ); vm_compute; reflexivity. }
  apply rtc_once, (pool_step_get _ _ BUFFER_TYPE_WRITE); vm_compute; reflexivity.
Qed.

Lemma w_reach_back : rtc (pool_step w_grant w_cfg) pool_start (w_s4, []).
Proof.
  transitivity (w_s2, w_out); [apply w_reach|].
  eapply rtc_l; [|eapply rtc_once].
  - apply (pool_step_free _ _ BUFFER_TYPE_WRITE (1, 1060) _ _ [(BUFFER_TYPE_READ, (1, 20))]);
      [done|vm_compute; reflexivity].
  - apply (pool_step_free _ _ BUFFER_TYPE_READ (1, 20)); [done|vm_compute; reflexivity].
Qed.

Lemma w_lent : pool_lent w_cfg w_s2 w_out.
Proof. eapply pool_reach_lent; [apply w_config|apply w_reach]. Qed.

Lemma pool_buffers_disjoint_witness :
  Forall (in_live_block w_cfg w_s2) w_out /\
  forall i j x y, w_out !! i = Some x -> w_out !! j = Some y -> i <> j ->
    apart (buf_cap w_cfg) x y.
Proof. exact (pool_buffers_disjoint w_grant w_cfg w_s2 w_out w_config w_reach). Defined.

Lemma pool_ops_defined_witness :
  pool_can_lend w_cfg 1 w_s2 /\
  is_Some (GetBuffer w_grant w_cfg BUFFER_TYPE_READ w_s2) /\
  is_Some (FreeBuffer w_cfg (1, 20) BUFFER_TYPE_READ w_s2).
Proof.
  destruct (pool_ops_defined w_grant w_cfg w_s2 w_out w_config w_reach) as [Hg Hf].
  assert (Hc : pool_can_lend w_cfg 1 w_s2) by (vm_compute; reflexivity).
  split_and!; [done| |].
  - destruct (Hg BUFFER_TYPE_READ Hc) as (r & s' & Hrun & _). by exists (r, s').
  - apply Hf. right. by left.
Defined.

Lemma pool_reset_no_leak_witness :
  exists h, reset w_s4 = Some (h, init) /\ h_blocks h = ∅.
Proof. exact (pool_reset_no_leak w_grant w_cfg w_s4 w_config w_reach_back). Defined.

(** The first block of two pairs is refused, the retry with one pair serves. *)
Lemma pool_backoff_witness :
  w_grant 0 (block_bytes w_cfg 2) = false /\
  exists b s', GetBuffer (fun _ n => n =? block_bytes w_cfg 1) w_cfg BUFFER_TYPE_READ
                 pool_start.1 = Some (Some b, s').
Proof.
  split; [vm_compute; reflexivity|].
  apply (pool_backoff (fun _ n => n =? block_bytes w_cfg 1) w_cfg pool_start.1 []
           BUFFER_TYPE_READ w_config); [apply rtc_refl
    |vm_compute; reflexivity|intros k; vm_compute; reflexivity].
Defined.

Lemma pool_retention_witness :
  exists s', FreeBuffer w_cfg (1, 1060) BUFFER_TYPE_WRITE w_s2 = Some s' /\
    psize BUFFER_TYPE_WRITE s'.2 =
      (if BUFFER_POOL_MIN_BLOCK_NUM w_cfg <=? psize BUFFER_TYPE_WRITE w_s2.2
       then psize BUFFER_TYPE_WRITE w_s2.2
       else psize BUFFER_TYPE_WRITE w_s2.2 + 1) /\
    psize BUFFER_TYPE_WRITE s'.2
      <= Z.max (psize BUFFER_TYPE_WRITE w_s2.2) (BUFFER_POOL_MIN_BLOCK_NUM w_cfg).
Proof. exact (pool_retention w_cfg w_s2 _ _ _ w_lent). Defined.
