(* ===== verification/Buffer.v ===== *)
(** * Buffer: the circular byte buffer of SPBuffer.cpp

    The fields are the source's; [mem] is the block of [bsize] bytes [buffer]
    points to (the pool hands it out exclusively, see BufferPoolProps).  A
    [memcpy] that leaves the block and a remainder by zero are undefined
    behaviour, the result [None]. *)

From S2P Require Import Prelude Types BufferProvider.

Module SPBuffer.

Record t := mk {
  back : Z;
  front : Z;
  size : Z;
  bsize : Z;
  buffer : option buf_addr;
  mem : list byte;
  type : BUFFER_TYPE }.

(** Field updates. *)
Definition with_pos (back' front' size' : Z) (b : t) : t :=
  mk back' front' size' (bsize b) (buffer b) (mem b) (type b).
Definition with_mem (m : list byte) (b : t) : t :=
  mk (back b) (front b) (size b) (bsize b) (buffer b) m (type b).

(** [SPBuffer::SPBuffer (type)]. *)
Definition SPBuffer (ty : BUFFER_TYPE) : t := mk 0 0 0 0 None [] ty.

Section provider.
Context {P : Type} `{BufferProvider P} (cfg : SPTcpConfig).

(** [SPBuffer::Init]; [uninit] is what the memory handed out holds. *)
Definition Init (uninit : list byte) (b : t) (p : P) : option (bool * t * P) :=
  let bs := match type b with
            | BUFFER_TYPE_READ => READ_BSIZE cfg
            | BUFFER_TYPE_WRITE => WRITE_BSIZE cfg end in
  '(r, p) ← get_buffer (type b) p;
  Some (bool_decide (is_Some r),
        mk (back b) (front b) (size b) (u32 bs) r
           (if bool_decide (is_Some r) then uninit else []) (type b), p).

(** [SPBuffer::~SPBuffer]. *)
Definition destroy (b : t) (p : P) : option P :=
  match buffer b with
  | Some a => free_buffer a (type b) p
  | None => Some p
  end.
End provider.

Definition bytesRead (b : t) : Z := size b.

Definition bytesWrite (b : t) : Z := u32 (bsize b - size b).

Definition distanceWrite (b : t) : Z :=
  let writeAvailable := bytesWrite b in
  let linearSpace := u32 (bsize b - front b) in
  if writeAvailable <? linearSpace then writeAvailable else linearSpace.

Definition distanceRead (b : t) : Z :=
  let readAvailable := bytesRead b in
  let linearSpace := u32 (bsize b - back b) in
  if readAvailable <? linearSpace then readAvailable else linearSpace.

Definition commitRead (len : Z) (b : t) : option t :=
  back' ← u32_mod (u32 (back b + len)) (bsize b);
  Some (with_pos back' (front b) (u32 (size b - len)) b).

Definition commitWrite (len : Z) (b : t) : option t :=
  front' ← u32_mod (u32 (front b + len)) (bsize b);
  let size' := u32 (size b + len) in
  Some (if size' =? 0 then with_pos 0 0 size' b else with_pos (back b) front' size' b).

(** [writePtr]/[readPtr]: the offset of the pointer in the block. *)
Definition writePtr (b : t) : Z := front b.
Definition readPtr (b : t) : Z := back b.

(** Memory behind the two pointers, for the code that copies through them:
    [n] bytes read at [readPtr], the bytes [d] stored at [writePtr]. *)
Definition load_at_readPtr (n : Z) (b : t) : option (list byte) :=
  mem_load (mem b) (readPtr b) n.
Definition store_at_writePtr (d : list byte) (b : t) : option t :=
  m ← mem_store (mem b) (writePtr b) d; Some (with_mem m b).

(** The copy that [read] and [peek] share: the [bytesToRead] bytes from
    [back], in one or two [memcpy]s. *)
Definition copy_out (bytesToRead : Z) (b : t) : option (list byte) :=
  let firstChunk := if bsize b <? u32 (back b + bytesToRead)
                    then u32 (bsize b - back b) else bytesToRead in
  d1 ← mem_load (mem b) (back b) firstChunk;
  d2 ← (if firstChunk <? bytesToRead
        then mem_load (mem b) 0 (u32 (bytesToRead - firstChunk)) else Some []);
  Some (d1 ++ d2).

(** [read] returns the count, the bytes it copied to the caller, the buffer. *)
Definition read (len : Z) (b : t) : option (Z * list byte * t) :=
  if (len =? 0) || (size b =? 0) then Some (0, [], b) else
  let bytesToRead := if size b <? len then size b else len in
  d ← copy_out bytesToRead b;
  let size' := u32 (size b - bytesToRead) in
  b' ← (if size' =? 0 then Some (with_pos 0 0 size' b)
        else back' ← u32_mod (u32 (back b + bytesToRead)) (bsize b);
             Some (with_pos back' (front b) size' b));
  Some (bytesToRead, d, b').

Definition peek (len : Z) (b : t) : option (Z * list byte) :=
  if (len =? 0) || (size b =? 0) then Some (0, []) else
  let bytesToRead := if size b <? len then size b else len in
  d ← copy_out bytesToRead b;
  Some (bytesToRead, d).

(** [write]: [buf] is the caller's memory, from which [len] bytes are offered. *)
Definition write (buf : list byte) (len : Z) (b : t) : option (Z * t) :=
  if (len =? 0) || (bytesWrite b =? 0) then Some (0, b) else
  let bytesToWrite := if bytesWrite b <? len then bytesWrite b else len in
  let firstChunk := if bsize b <? u32 (front b + bytesToWrite)
                    then u32 (bsize b - front b) else bytesToWrite in
  d1 ← mem_load buf 0 firstChunk;
  m ← mem_store (mem b) (front b) d1;
  m ← (if firstChunk <? bytesToWrite
       then d2 ← mem_load buf firstChunk (u32 (bytesToWrite - firstChunk)); mem_store m 0 d2
       else Some m);
  front' ← u32_mod (u32 (front b + bytesToWrite)) (bsize b);
  Some (bytesToWrite, with_pos (back b) front' (u32 (size b + bytesToWrite)) (with_mem m b)).

End SPBuffer.
