(* ===== verification/BufferSpec.v ===== *)
(** * BufferSpec: SPBuffer is a bounded FIFO of bytes

    [contents b] is the abstract queue of a buffer.  Every operation is defined
    on a well-formed buffer and acts on [contents] as a bounded byte queue
    does; [ByteQueue] is that abstract queue. *)

From S2P Require Import Prelude Types BufferProvider Buffer.
Import SPBuffer.

(** ** The abstract specification *)

Module ByteQueue.
(** What a byte queue of capacity [cap] does. *)
Definition enqueue (cap : Z) (d q : list byte) : Z * list byte :=
  let n := Z.min (Z.of_nat (length d)) (cap - Z.of_nat (length q)) in
  (n, q ++ take (Z.to_nat n) d).
Definition dequeue (len : Z) (q : list byte) : list byte * list byte :=
  (take (Z.to_nat len) q, drop (Z.to_nat len) q).
Definition look (len : Z) (q : list byte) : list byte := take (Z.to_nat len) q.
End ByteQueue.

(** ** The abstraction *)

Definition contents (b : SPBuffer.t) : list byte :=
  ring_read (mem b) (Z.to_nat (back b)) (Z.to_nat (size b)).

(** A buffer [Init] has succeeded on. *)
Record buf_wf (b : SPBuffer.t) : Prop := {
  bw_bsize : 0 < bsize b < 2 ^ 31;
  bw_back : 0 <= back b < bsize b;
  bw_front : front b = (back b + size b) mod bsize b;
  bw_size : 0 <= size b <= bsize b;
  bw_mem : Z.of_nat (length (mem b)) = bsize b;
  bw_buffer : is_Some (buffer b) }.

(** Two buffers over the same memory block. *)
Definition same_block (b b' : SPBuffer.t) : Prop :=
  bsize b' = bsize b /\ buffer b' = buffer b /\ type b' = type b.

#[export] Instance same_block_refl : Reflexive same_block.
Proof. by intros b. Qed.
#[export] Instance same_block_trans : Transitive same_block.
Proof. unfold same_block. intros a b c (->&->&->) (->&->&->). done. Qed.

(** ** Facts about a well-formed buffer *)

Ltac buf_facts b :=
  match goal with
  | H : buf_wf b |- _ =>
      let H1 := fresh "Hbs" in let H2 := fresh "Hback" in
      let H4 := fresh "Hsize" in let H5 := fresh "Hmem" in let H6 := fresh "Hbuf" in
      pose proof H as [H1 H2 _ H4 H5 H6]
  end.

Lemma contents_length b : buf_wf b -> Z.of_nat (length (contents b)) = size b.
Proof.
  intros Hwf. buf_facts b. unfold contents. rewrite ring_read_length by lia. lia.
Qed.

Lemma front_range b : buf_wf b -> 0 <= front b < bsize b.
Proof. intros Hwf. buf_facts b. rewrite (bw_front b Hwf). apply Z.mod_pos_bound. lia. Qed.

(** Positions of the model as positions of the ring. *)
Lemma pos_ring b n :
  buf_wf b -> 0 <= n <= bsize b ->
  Z.to_nat ((back b + n) mod bsize b)
    = ring_idx (length (mem b)) (Z.to_nat (back b)) (Z.to_nat n).
Proof.
  intros Hwf Hn. buf_facts b. rewrite ring_idx_mod by lia.
  apply Nat2Z.inj. rewrite Nat2Z.inj_mod, Nat2Z.inj_add, Hmem, !Z2Nat.id; [done|lia|lia|].
  apply Z.mod_pos_bound. lia.
Qed.

Lemma front_ring b :
  buf_wf b ->
  Z.to_nat (front b) = ring_idx (length (mem b)) (Z.to_nat (back b)) (Z.to_nat (size b)).
Proof. intros Hwf. buf_facts b. rewrite (bw_front b Hwf). by apply pos_ring. Qed.

(** Consuming [n] bytes. *)
Lemma consume_spec b n :
  buf_wf b -> 0 <= n <= size b ->
  let b' := with_pos ((back b + n) mod bsize b) (front b) (size b - n) b in
  buf_wf b' /\ contents b' = drop (Z.to_nat n) (contents b).
Proof.
  intros Hwf Hn b'. buf_facts b. split.
  - constructor; simpl; [done|apply Z.mod_pos_bound; lia| |lia|done|done].
    rewrite (bw_front b Hwf), Zplus_mod_idemp_l. f_equal. lia.
  - unfold contents. simpl. rewrite pos_ring by (done || lia).
    rewrite ring_read_drop by lia. f_equal. lia.
Qed.

(** An empty buffer may be put back at the start of its block. *)
Lemma rewind_spec b :
  buf_wf b -> buf_wf (with_pos 0 0 0 b) /\ contents (with_pos 0 0 0 b) = [].
Proof.
  intros Hwf. buf_facts b. split; [|done].
  constructor; simpl; [done|lia|by rewrite Z.mod_0_l by lia|lia|done|done].
Qed.

(** Adding the bytes [d] from [front]. *)
Lemma produce_spec b d :
  let n := Z.of_nat (length d) in
  buf_wf b -> size b + n <= bsize b ->
  let b' := with_pos (back b) ((front b + n) mod bsize b) (size b + n)
              (with_mem (ring_store (mem b) (Z.to_nat (front b)) d) b) in
  buf_wf b' /\ contents b' = contents b ++ d.
Proof.
  intros n Hwf Hn b'. buf_facts b. split.
  - constructor; simpl; [done|done| |lia|by rewrite ring_store_length|done].
    rewrite (bw_front b Hwf), Zplus_mod_idemp_l. f_equal. lia.
  - unfold contents. simpl. rewrite front_ring by done.
    rewrite Z2Nat.inj_add by lia. subst n. rewrite Nat2Z.id.
    apply ring_read_append; lia.
Qed.

(** ** The contiguous parts *)

Lemma bytesWrite_eq b : buf_wf b -> bytesWrite b = bsize b - size b.
Proof. intros Hwf. buf_facts b. unfold bytesWrite. apply u32_small. lia. Qed.

Lemma distanceWrite_eq b :
  buf_wf b -> distanceWrite b = Z.min (bsize b - size b) (bsize b - front b).
Proof.
  intros Hwf. buf_facts b. pose proof (front_range b Hwf). unfold distanceWrite.
  rewrite bytesWrite_eq, u32_small by (done || lia).
  rewrite ltb_min. lia.
Qed.

Lemma distanceRead_eq b :
  buf_wf b -> distanceRead b = Z.min (size b) (bsize b - back b).
Proof.
  intros Hwf. buf_facts b. unfold distanceRead, bytesRead.
  rewrite u32_small by lia.
  rewrite ltb_min. lia.
Qed.

(** ** copy_out *)

Lemma copy_out_spec b n :
  buf_wf b -> 0 < n <= size b -> copy_out n b = Some (take (Z.to_nat n) (contents b)).
Proof.
  intros Hwf Hn. buf_facts b. unfold copy_out, contents.
  rewrite ring_read_take by lia. rewrite !u32_small by lia.
  destruct (Z.ltb_spec (bsize b) (back b + n)) as [Hw|Hw].
  - rewrite (mem_load_in _ (back b)) by lia. simpl. rewrite (proj2 (Z.ltb_lt _ _)) by lia.
    rewrite u32_small, mem_load_in by lia. simpl. f_equal.
    rewrite ring_read_two by lia. f_equal; [|change (Z.to_nat 0) with 0%nat; rewrite drop_0];
      f_equal; lia.
  - rewrite (mem_load_in _ (back b)) by lia. simpl. rewrite Z.ltb_irrefl. simpl.
    rewrite app_nil_r, ring_read_linear by lia. done.
Qed.

(** ** Functional correctness of every operation *)

Lemma commitRead_spec b len :
  buf_wf b -> 0 <= len <= size b ->
  exists b', commitRead len b = Some b' /\ buf_wf b' /\ same_block b b' /\
    contents b' = drop (Z.to_nat len) (contents b).
Proof.
  intros Hwf Hlen. buf_facts b. unfold commitRead.
  rewrite !u32_small, u32_mod_pos by lia. simpl.
  destruct (consume_spec b len Hwf Hlen) as [Hwf' Hc].
  eexists. split; [done|]. by split_and!.
Qed.

(** The bytes a caller stored through [writePtr], then committed. *)
Lemma fill_spec b d :
  let n := Z.of_nat (length d) in
  buf_wf b -> n <= distanceWrite b ->
  exists b1 b', store_at_writePtr d b = Some b1 /\ commitWrite n b1 = Some b' /\
    buf_wf b' /\ same_block b b' /\ contents b' = contents b ++ d.
Proof.
  intros n Hwf Hn. rewrite distanceWrite_eq in Hn by done.
  assert (Hn0 : n = Z.of_nat (length d)) by done.
  buf_facts b. pose proof (front_range b Hwf).
  unfold store_at_writePtr, writePtr. rewrite mem_store_in by lia. simpl.
  rewrite <- (ring_store_linear (mem b)) by lia.
  exists (with_mem (ring_store (mem b) (Z.to_nat (front b)) d) b). unfold commitWrite. simpl.
  rewrite (u32_small (front b + n)), (u32_small (size b + n)), u32_mod_pos by lia. simpl.
  destruct (Z.eqb_spec (size b + n) 0) as [E|E].
  - eexists. split; [done|]. split; [done|].
    assert (size b = 0) as Hz by lia. assert (d = []) as -> by (apply length_zero_iff_nil; lia).
    rewrite ring_store_linear by (simpl; lia). simpl.
    destruct (rewind_spec b Hwf) as [Hwf' Hc].
    assert (with_mem (mem b) b = b) as -> by (by destruct b).
    rewrite E. split_and!; try done.
    rewrite app_nil_r, Hc. unfold contents. by rewrite Hz.
  - destruct (produce_spec b d Hwf ltac:(lia)) as [Hwf' Hc].
    eexists. split; [done|]. split; [done|]. by split_and!.
Qed.

Lemma load_spec b n :
  buf_wf b -> 0 <= n <= distanceRead b ->
  load_at_readPtr n b = Some (take (Z.to_nat n) (contents b)).
Proof.
  intros Hwf Hn. rewrite distanceRead_eq in Hn by done. buf_facts b.
  unfold load_at_readPtr, readPtr, contents. rewrite mem_load_in by lia.
  by rewrite ring_read_take, ring_read_linear by lia.
Qed.

Lemma read_spec b len :
  buf_wf b -> 0 <= len ->
  exists b', read len b = Some (Z.min len (size b), take (Z.to_nat len) (contents b), b') /\
    buf_wf b' /\ same_block b b' /\ contents b' = drop (Z.to_nat len) (contents b).
Proof.
  intros Hwf Hlen. buf_facts b. pose proof (contents_length b Hwf) as Hl.
  unfold read. destruct (Z.eqb_spec len 0) as [->|Hn0]; simpl.
  { exists b. rewrite Z.min_l by lia. by split_and!. }
  destruct (Z.eqb_spec (size b) 0) as [Hz|Hz]; simpl.
  { exists b. assert (contents b = []) as -> by (apply length_zero_iff_nil; lia).
    rewrite Hz, Z.min_r by lia. by rewrite take_nil, drop_nil. }
  rewrite ltb_min. set (n := Z.min len (size b)).
  assert (Hn : n = Z.min len (size b)) by done.
  rewrite copy_out_spec by (done || lia). simpl.
  rewrite (u32_small (size b - n)), (u32_small (back b + n)), u32_mod_pos by lia. simpl.
  assert (Htake : take (Z.to_nat n) (contents b) = take (Z.to_nat len) (contents b)).
  { destruct (decide (len <= size b)); [by replace n with len by lia|].
    rewrite !take_ge by lia. done. }
  assert (Hdrop : drop (Z.to_nat n) (contents b) = drop (Z.to_nat len) (contents b)).
  { destruct (decide (len <= size b)); [by replace n with len by lia|].
    rewrite !drop_ge by lia. done. }
  rewrite Htake, <- Hdrop. destruct (Z.eqb_spec (size b - n) 0) as [E|E]; simpl.
  - destruct (rewind_spec b Hwf) as [Hwf' Hc]. eexists. split; [done|].
    rewrite E. split_and!; try done. rewrite Hc, drop_ge; [done|lia].
  - destruct (consume_spec b n Hwf ltac:(lia)) as [Hwf' Hc].
    eexists. split; [done|]. by split_and!.
Qed.

Lemma peek_spec b len :
  buf_wf b -> 0 <= len ->
  peek len b = Some (Z.min len (size b), take (Z.to_nat len) (contents b)).
Proof.
  intros Hwf Hlen. destruct (read_spec b len Hwf Hlen) as (b' & Hr & _).
  unfold read, peek in *. case_match; [congruence|].
  destruct (copy_out _ b); simpl in *; [|done].
  destruct (u32 _ =? 0); simpl in *; [congruence|].
  destruct (u32_mod _ _); simpl in *; congruence.
Qed.

(** The two [memcpy]s of [write] are one store round the ring. *)
Lemma write_store b buf n :
  buf_wf b -> 0 < n -> n <= bsize b - size b -> n <= Z.of_nat (length buf) ->
  let firstChunk := if bsize b <? front b + n then bsize b - front b else n in
  (d1 ← mem_load buf 0 firstChunk;
   m ← mem_store (mem b) (front b) d1;
   if firstChunk <? n
   then d2 ← mem_load buf firstChunk (n - firstChunk); mem_store m 0 d2 else Some m)
  = Some (ring_store (mem b) (Z.to_nat (front b)) (take (Z.to_nat n) buf)).
Proof.
  intros Hwf Hn Hroom Hbuf fc. buf_facts b. pose proof (front_range b Hwf) as Hf.
  assert (Hfc : fc = Z.min n (bsize b - front b))
    by (unfold fc; destruct (Z.ltb_spec (bsize b) (front b + n)); lia).
  rewrite (mem_load_in _ 0) by lia. simpl. rewrite drop_0.
  rewrite mem_store_in by (rewrite ?length_take; lia). simpl.
  unfold ring_store.
  replace (length (mem b) - Z.to_nat (front b))%nat with (Z.to_nat (bsize b - front b)) by lia.
  rewrite take_take. replace (Nat.min _ _) with (Z.to_nat fc) by lia.
  destruct (Z.ltb_spec fc n).
  - rewrite mem_load_in by lia. simpl.
    rewrite mem_store_in by (rewrite ?length_inserts, ?length_take, ?length_drop; lia).
    do 2 f_equal. rewrite skipn_firstn_comm. f_equal; [lia|]. f_equal. lia.
  - rewrite drop_ge by (rewrite length_take; lia). done.
Qed.

Lemma write_spec b buf len :
  buf_wf b -> 0 <= len -> len <= Z.of_nat (length buf) ->
  let n := Z.min len (bsize b - size b) in
  exists b', write buf len b = Some (n, b') /\ buf_wf b' /\ same_block b b' /\
    contents b' = contents b ++ take (Z.to_nat n) buf.
Proof.
  intros Hwf Hlen Hbuf n0. buf_facts b. pose proof (front_range b Hwf) as Hf.
  unfold write. rewrite bytesWrite_eq by done.
  destruct (Z.eqb_spec len 0) as [->|Hn0]; simpl.
  { exists b. subst n0. rewrite Z.min_l by lia. rewrite app_nil_r. by split_and!. }
  destruct (Z.eqb_spec (bsize b - size b) 0) as [Hz|Hz]; simpl.
  { exists b. subst n0. rewrite Hz, Z.min_r, app_nil_r by lia. by split_and!. }
  rewrite ltb_min. fold n0. assert (Hn : n0 = Z.min len (bsize b - size b)) by done.
  clearbody n0. rename n0 into n.
  rewrite !(u32_small (bsize b - front b)), !(u32_small (front b + n)) by lia.
  pose proof (write_store b buf n Hwf ltac:(lia) ltac:(lia) ltac:(lia)) as Hst. cbv zeta in Hst.
  set (fc := if bsize b <? front b + n then bsize b - front b else n) in *.
  assert (Hfc : 0 <= fc <= n) by (unfold fc; destruct (Z.ltb_spec (bsize b) (front b + n)); lia).
  rewrite (u32_small (n - fc)) by lia.
  destruct (mem_load buf 0 fc) as [d1|]; simpl in *; [|done].
  destruct (mem_store (mem b) (front b) d1) as [m|]; simpl in *; [|done].
  rewrite Hst. simpl. rewrite u32_mod_pos, u32_small by lia. simpl.
  eexists. split; [done|].
  destruct (produce_spec b (take (Z.to_nat n) buf) Hwf) as [Hwf' Hc];
    [rewrite length_take; lia|].
  rewrite length_take, Nat.min_l in Hwf', Hc by lia. rewrite Z2Nat.id in Hwf', Hc by lia.
  by split_and!.
Qed.

(** ** Construction and destruction against the provider interface *)

Section provider.
Context {P : Type} {cap : BUFFER_TYPE -> Z} `{HP : BufferProviderLaws P cap}.
Context (cfg : SPTcpConfig).
Context (Hcap : forall ty, cap ty = match ty with
                  | BUFFER_TYPE_READ => READ_BSIZE cfg | BUFFER_TYPE_WRITE => WRITE_BSIZE cfg end).
Context (Hbounds : tcp_config_bounds cfg) (Hint : tcp_config_int cfg).

Lemma Init_spec n ty uninit (p : P) out :
  lent p out -> can_lend (S n) p -> Z.of_nat (length uninit) = cap ty ->
  exists ok b p', Init cfg uninit (SPBuffer ty) p = Some (ok, b, p') /\ can_lend n p' /\
    type b = ty /\
    if ok then exists a, buffer b = Some a /\ buf_wf b /\ contents b = [] /\
                 bsize b = cap ty /\ lent p' ((ty, a) :: out) /\
                 Forall (apart cap (ty, a)) out
    else buffer b = None /\ lent p' out /\ get_buffer ty p = Some (None, p').
Proof.
  intros Hl Hcan Hu. unfold Init. simpl.
  destruct (get_buffer_law n ty p out Hl Hcan) as (r & p' & Hget & Hcan' & Hr). rewrite Hget. simpl.
  eexists _, _, p'. split; [done|]. split; [done|]. split; [done|]. destruct r as [a|]; simpl; [|done].
  destruct Hr as [Hl' Hap]. destruct Hbounds as [H1 _ H2 _ _ _ _ _ _ _].
  destruct Hint as (H3 & H4 & _). rewrite Hcap in *.
  exists a. split_and!; try done.
  - destruct ty; simpl; constructor; simpl; try rewrite u32_small; try done; lia.
  - destruct ty; simpl; by rewrite u32_small by lia.
Qed.

Lemma destroy_spec b a (p : P) out :
  buffer b = Some a -> lent p ((type b, a) :: out) ->
  exists p', destroy b p = Some p' /\ lent p' out /\ forall n, can_lend n p -> can_lend n p'.
Proof. intros Hb Hl. unfold destroy. rewrite Hb. by apply free_buffer_law. Qed.
End provider.
