(* ===== verification/BufferProps.v ===== *)
(** * BufferProps: the correctness theorems of SPBuffer *)

From S2P Require Import Prelude Types BufferProvider BufferPool BufferPoolSpec BufferPoolProps.
From S2P Require Import Buffer BufferSpec.
Import SPBuffer.

(** ** Sequences of operations *)

Inductive buf_op := OpWrite (d : list byte) | OpRead (len : Z) | OpPeek (len : Z).

(** What the caller sees of an operation. *)
Inductive buf_obs := ObsWritten (n : Z) | ObsBytes (n : Z) (d : list byte).

Definition run_op (op : buf_op) (b : SPBuffer.t) : option (buf_obs * SPBuffer.t) :=
  match op with
  | OpWrite d => '(n, b') ← write d (Z.of_nat (length d)) b; Some (ObsWritten n, b')
  | OpRead len => '(n, d, b') ← read len b; Some (ObsBytes n d, b')
  | OpPeek len => '(n, d) ← peek len b; Some (ObsBytes n d, b)
  end.

Fixpoint run_ops (ops : list buf_op) (b : SPBuffer.t) : option (list buf_obs * SPBuffer.t) :=
  match ops with
  | [] => Some ([], b)
  | op :: ops => '(o, b) ← run_op op b; '(os, b) ← run_ops ops b; Some (o :: os, b)
  end.

Definition spec_op (cap : Z) (op : buf_op) (q : list byte) : buf_obs * list byte :=
  match op with
  | OpWrite d => let '(n, q') := ByteQueue.enqueue cap d q in (ObsWritten n, q')
  | OpRead len => let '(d, q') := ByteQueue.dequeue len q in
                  (ObsBytes (Z.of_nat (length d)) d, q')
  | OpPeek len => let d := ByteQueue.look len q in (ObsBytes (Z.of_nat (length d)) d, q)
  end.

Fixpoint spec_ops (cap : Z) (ops : list buf_op) (q : list byte) : list buf_obs * list byte :=
  match ops with
  | [] => ([], q)
  | op :: ops => let '(o, q) := spec_op cap op q in
                 let '(os, q) := spec_ops cap ops q in (o :: os, q)
  end.

(** Arguments a caller can pass: [len] is an unsigned value. *)
Definition op_ok (op : buf_op) : Prop :=
  match op with OpWrite _ => True | OpRead len | OpPeek len => 0 <= len end.

(** ** Lemmas *)

Lemma take_len_min (len : Z) (l : list byte) :
  0 <= len -> Z.of_nat (length (take (Z.to_nat len) l)) = Z.min len (Z.of_nat (length l)).
Proof. intros. rewrite length_take. lia. Qed.

Lemma run_op_spec op b :
  buf_wf b -> op_ok op ->
  exists o b', run_op op b = Some (o, b') /\ buf_wf b' /\ same_block b b' /\
    spec_op (bsize b) op (contents b) = (o, contents b').
Proof.
  intros Hwf Hop. pose proof (contents_length b Hwf) as Hl. destruct op as [d|len|len]; simpl.
  - destruct (write_spec b d (Z.of_nat (length d)) Hwf) as (b' & -> & Hwf' & Hs & Hc); [lia..|].
    simpl. eexists _, _. split; [done|]. split_and!; [done..|].
    unfold ByteQueue.enqueue. by rewrite Hc, Hl.
  - destruct (read_spec b len Hwf Hop) as (b' & -> & Hwf' & Hs & Hc). simpl.
    eexists _, _. split; [done|]. split_and!; [done..|].
    by rewrite take_len_min, Hc, Hl.
  - rewrite peek_spec by done. simpl. eexists _, _. split; [done|]. split_and!; [done..|].
    unfold ByteQueue.look. by rewrite take_len_min, Hl.
Qed.

(** ** Properties *)

(** C9: refinement.  Over any sequence of writes, reads and peeks a buffer
    behaves as the abstract bounded byte queue: every call is defined (no
    access outside the block), the counts and bytes the caller sees are those
    of the queue, and the buffer stays well formed. *)
Theorem buffer_refines_queue ops b :
  buf_wf b -> Forall op_ok ops ->
  exists os b', run_ops ops b = Some (os, b') /\ buf_wf b' /\ same_block b b' /\
    spec_ops (bsize b) ops (contents b) = (os, contents b').
Proof.
  revert b. induction ops as [|op ops IH]; intros b Hwf Hops; simpl.
  { exists [], b. by split_and!. }
  apply Forall_cons in Hops as [Hop Hops].
  destruct (run_op_spec op b Hwf Hop) as (o & b1 & -> & Hwf1 & Hs1 & Hsp). simpl.
  destruct (IH b1 Hwf1 Hops) as (os & b2 & -> & Hwf2 & Hs2 & Hsp2). simpl.
  exists (o :: os), b2. split_and!; [done|done|by etrans|].
  rewrite Hsp. destruct Hs1 as (Hb & _). rewrite Hb in Hsp2. by rewrite Hsp2.
Qed.

(** The zero-copy path.  [distanceWrite] is zero exactly on a full buffer
    and [distanceRead] exactly on an empty one; bytes stored at [writePtr]
    (at most [distanceWrite]) and committed are appended, the [distanceRead]
    bytes at [readPtr] are the first ones of the queue and committing them
    removes them. *)
Theorem buffer_zero_copy b d n :
  buf_wf b -> Z.of_nat (length d) <= distanceWrite b -> 0 <= n <= distanceRead b ->
  (distanceWrite b = 0 <-> bytesWrite b = 0) /\ (distanceRead b = 0 <-> bytesRead b = 0) /\
  (exists b1 b', store_at_writePtr d b = Some b1 /\
     commitWrite (Z.of_nat (length d)) b1 = Some b' /\ buf_wf b' /\
     contents b' = contents b ++ d) /\
  load_at_readPtr n b = Some (take (Z.to_nat n) (contents b)) /\
  (exists b', commitRead n b = Some b' /\ buf_wf b' /\
     contents b' = drop (Z.to_nat n) (contents b)).
Proof.
  intros Hwf Hd Hn. pose proof (front_range b Hwf). pose proof Hwf as [? ? _ ? ? ?].
  split_and!.
  - rewrite distanceWrite_eq, bytesWrite_eq by done. lia.
  - rewrite distanceRead_eq by done. unfold bytesRead. lia.
  - destruct (fill_spec b d Hwf Hd) as (b1 & b' & ? & ? & ? & ? & ?). eauto 10.
  - by apply load_spec.
  - rewrite distanceRead_eq in Hn by done.
    destruct (commitRead_spec b n Hwf) as (b' & ? & ? & ? & ?); [lia|]. eauto.
Qed.

(** C32: round trip.  Bytes that fit are written in full and read back
    unchanged, after what the buffer already held. *)
Theorem buffer_roundtrip b d :
  buf_wf b -> Z.of_nat (length d) <= bytesWrite b ->
  exists b1 b2, write d (Z.of_nat (length d)) b = Some (Z.of_nat (length d), b1) /\
    read (bytesRead b1) b1 = Some (size b + Z.of_nat (length d), contents b ++ d, b2) /\
    bytesRead b2 = 0.
Proof.
  intros Hwf Hd. rewrite bytesWrite_eq in Hd by done. pose proof Hwf as [? ? _ ? ? ?].
  destruct (write_spec b d (Z.of_nat (length d)) Hwf) as (b1 & Hw & Hwf1 & _ & Hc1); [lia..|].
  rewrite Z.min_l in Hw, Hc1 by lia. rewrite take_ge in Hc1 by lia.
  pose proof (contents_length b Hwf) as Hl. pose proof (contents_length b1 Hwf1) as Hl1.
  rewrite Hc1, length_app in Hl1. pose proof Hwf1 as [_ _ _ ? _ _].
  destruct (read_spec b1 (bytesRead b1) Hwf1) as (b2 & Hr & Hwf2 & _ & Hc2); [unfold bytesRead; lia|].
  exists b1, b2. split; [done|]. unfold bytesRead in *. rewrite Hr, Z.min_id, Hc1.
  pose proof (contents_length b2 Hwf2) as Hl2.
  rewrite Hc2, Hc1, length_drop, length_app in Hl2.
  rewrite take_ge by (rewrite length_app; lia). split; [|lia]. do 3 f_equal. lia.
Qed.

(** Life cycle over the pool.  From any reachable pool with room,
    constructing a buffer and calling [Init] is defined and yields either
    failure, with the pool still lending exactly what it lent, or an empty
    well-formed buffer of the configured size, apart from every other one;
    destroying it is defined and returns its memory. *)
Theorem buffer_lifecycle grant cfg s out ty uninit :
  pool_config cfg -> tcp_config_ok cfg = true -> tcp_config_int cfg ->
  rtc (pool_step grant cfg) pool_start (s, out) -> pool_can_lend cfg 1 s ->
  Z.of_nat (length uninit) = buf_cap cfg ty ->
  exists ok b s', Init (H := pool_provider grant cfg) cfg uninit (SPBuffer ty) s = Some (ok, b, s') /\
    if ok then
      buf_wf b /\ contents b = [] /\ bytesWrite b = buf_cap cfg ty /\
      exists a, buffer b = Some a /\ Forall (apart (buf_cap cfg) (ty, a)) out /\
        exists s'', destroy (H := pool_provider grant cfg) b s' = Some s'' /\ pool_lent cfg s'' out
    else buffer b = None /\ pool_lent cfg s' out.
Proof.
  intros Hc Hok Hint Hr Hcan Hu. pose proof (pool_reach_lent _ _ _ _ Hc Hr) as Hl.
  destruct (Init_spec (HP := pool_laws grant cfg) cfg ltac:(by intros []) (tcp_config_ok_bounds _ Hok)
              Hint 0%nat ty uninit s out Hl Hcan Hu) as (ok & b & s' & Hrun & _ & Hty & Hres).
  exists ok, b, s'. split; [done|]. destruct ok; [|by destruct Hres as (? & ? & _)].
  destruct Hres as (a & Hb & Hwf & Hcont & Hbs & Hl' & Hap).
  pose proof (contents_length b Hwf) as Hlen. rewrite Hcont in Hlen. simpl in Hlen.
  split_and!; [done|done|rewrite bytesWrite_eq by done; lia|].
  exists a. split_and!; [done|done|]. rewrite <- Hty in Hl'.
  destruct (destroy_spec (HP := pool_laws grant cfg) b a s' out Hb Hl') as (s'' & Hrun' & Hl'' & _).
  by exists s''.
Qed.

(** ** Witnesses *)

Definition w_bytes : list byte := [x01; x02; x03; x04; x05].

(** Four bytes from position 5 of a ring of 8: the content goes round the end. *)
Definition w_buf : SPBuffer.t :=
  mk 5 1 4 8 (Some (0, 20)) [x0d; x00; x00; x00; x00; x0a; x0b; x0c] BUFFER_TYPE_READ.

Lemma w_buf_wf : buf_wf w_buf.
Proof. constructor; simpl; try lia; vm_compute; eauto; congruence. Qed.

Lemma buffer_refines_queue_witness :
  exists os b', run_ops [OpPeek 2; OpWrite w_bytes; OpRead 6] w_buf = Some (os, b') /\
    os = [ObsBytes 2 [x0a; x0b]; ObsWritten 4; ObsBytes 6 [x0a; x0b; x0c; x0d; x01; x02]].
Proof.
  destruct (buffer_refines_queue [OpPeek 2; OpWrite w_bytes; OpRead 6] w_buf w_buf_wf)
    as (os & b' & Hrun & _ & _ & Hspec).
  - repeat constructor; simpl; lia.
  - exists os, b'. split; [exact Hrun|]. vm_compute in Hspec. by injection Hspec.
Defined.

Lemma buffer_zero_copy_witness :
  distanceWrite w_buf = 4 /\ distanceRead w_buf = 3 /\
  load_at_readPtr 3 w_buf = Some [x0a; x0b; x0c].
Proof.
  split_and!; [vm_compute; reflexivity..|].
  destruct (buffer_zero_copy w_buf [x07] 3 w_buf_wf) as (_ & _ & _ & Hload & _);
    [vm_compute; congruence|split; vm_compute; congruence|exact Hload].
Defined.

Lemma buffer_roundtrip_witness :
  exists b1 b2, write [x01; x02; x03] 3 w_buf = Some (3, b1) /\
    read (bytesRead b1) b1 = Some (7, [x0a; x0b; x0c; x0d; x01; x02; x03], b2) /\
    bytesRead b2 = 0.
Proof.
  apply (buffer_roundtrip w_buf [x01; x02; x03] w_buf_wf). vm_compute. congruence.
Defined.

Lemma buffer_lifecycle_witness :
  exists ok b s', Init (H := pool_provider w_grant w_cfg) w_cfg (replicate 1024 x00)
      (SPBuffer BUFFER_TYPE_READ) w_s2 = Some (ok, b, s').
Proof.
  destruct (buffer_lifecycle w_grant w_cfg w_s2 w_out BUFFER_TYPE_READ (replicate 1024 x00))
    as (ok & b & s' & Hrun & _);
    [apply w_config|vm_compute; reflexivity|repeat split; vm_compute; reflexivity
    |apply w_reach|vm_compute; reflexivity|vm_compute; reflexivity|].
  exists ok, b, s'. exact Hrun.
Defined.
