(* ===== verification/Kernel.v ===== *)
(** * Kernel: the operating system as the library sees it

    The operating system is not part of the repository: it is a parameter of
    the model, the class [Kernel], whose one operation answers a system call
    and moves the world on.  What the code relies on (a [recv] returns at most
    what it was asked for, a [send] takes at most what it was given) is the
    class [KernelLaws]; that no call is interrupted for ever is [Patient].
    Every call is recorded with its answer in a trace, from which the theorems
    read what was sent, received and closed. *)

From S2P Require Import Prelude Types.

(** ** System calls *)

(** The error numbers the code distinguishes ([EWOULDBLOCK] is [EAGAIN]). *)
Inductive errno := EINTR | EAGAIN | EPIPE | ECONNRESET | EMFILE | EOTHER (n : Z).

#[export] Instance errno_eq_dec : EqDecision errno.
Proof. solve_decision. Defined.

Inductive epoll_op := EPOLL_CTL_ADD | EPOLL_CTL_MOD | EPOLL_CTL_DEL.

#[export] Instance epoll_op_eq_dec : EqDecision epoll_op.
Proof. solve_decision. Defined.

(** Socket options set by the code. *)
Inductive sockopt :=
  | SO_LINGER (l : linger) | SO_KEEPALIVE (v : Z) | TCP_KEEPIDLE (v : Z)
  | TCP_KEEPCNT (v : Z) | TCP_KEEPINTVL (v : Z)
  | SO_REUSEADDR (v : Z) | SO_REUSEPORT (v : Z) | SO_RCVBUF (v : Z)
  | SO_RCVTIMEO (sec usec : Z).

(** A system call, indexed by what it returns when it succeeds. *)
Inductive syscall : Type -> Type :=
  | Recv (fd len : Z) : syscall (list byte)
  | Send (fd : Z) (data : list byte) : syscall Z
  | Epoll_ctl (epfd : Z) (op : epoll_op) (fd events : Z) : syscall unit
  | Close (fd : Z) : syscall unit
  | Accept (fd : Z) : syscall (Z * (string * Z))
  | Fcntl_getfl (fd : Z) : syscall Z
  | Fcntl_setfl (fd flags : Z) : syscall unit
  | Setsockopt (fd : Z) (o : sockopt) : syscall unit
  | Inet_pton (af : ADDRESS_FAMILY) (ip : string) : syscall (list byte)
  | Socket_create (af : ADDRESS_FAMILY) (stream : bool) : syscall Z
  | Bind (fd : Z) (addr : list byte) (port : Z) : syscall unit
  | Listen_on (fd : Z) : syscall unit
  | Open_devnull : syscall Z
  | Epoll_create1 : syscall Z
  | Eventfd : syscall Z
  | Eventfd_write (fd value : Z) : syscall unit
  | Poll_in (fd timeout : Z) : syscall Z
  | Epoll_wait (epfd maxevents : Z) : syscall (list (Z * Z))
  | Sigaction (sg : Z) : syscall unit
  | Hardware_concurrency : syscall Z
  | Recvfrom (fd len : Z) : syscall (list byte * (string * Z))
  | Sendto (fd : Z) (data : list byte) (addr : list byte) (port : Z) : syscall Z
  | Steady_clock_ns : syscall Z
  | Exit_flag : syscall bool.

Class Kernel (W : Type) := {
  sys : forall {A : Type}, syscall A -> W -> (errno + A) * W }.

(** ** The trace *)

Inductive sysev : Type :=
  | Ev {A : Type} (c : syscall A) (r : errno + A) : sysev.

Record Env (W : Type) := mkEnv { kw : W; tr : list sysev }.
Arguments mkEnv {W}.
Arguments kw {W}.
Arguments tr {W}.

Section kernel.
Context {W : Type} `{Kernel W}.

Definition call {A} (c : syscall A) (e : Env W) : (errno + A) * Env W :=
  let '(r, w) := sys c (kw e) in (r, mkEnv w (tr e ++ [Ev c r])).

Lemma call_tr {A} (c : syscall A) (e : Env W) :
  tr (call c e).2 = tr e ++ [Ev c (call c e).1].
Proof. unfold call. by destruct (sys c (kw e)). Qed.
End kernel.

(** ** What the code relies on *)

Class KernelLaws (W : Type) `{Kernel W} := {
  recv_len fd len w d w' :
    0 <= len -> sys (Recv fd len) w = (inr d, w') -> Z.of_nat (length d) <= len;
  send_len fd data w n w' :
    sys (Send fd data) w = (inr n, w') -> 0 <= n <= Z.of_nat (length data) }.

(** [interrupted n c w]: the first [n] attempts at [c] all end in [EINTR]. *)
Fixpoint interrupted {W} `{Kernel W} {A} (n : nat) (c : syscall A) (w : W) : Prop :=
  match n with
  | O => True
  | S n => (sys c w).1 = inl EINTR /\ interrupted n c (sys c w).2
  end.

(** No call is interrupted [n] times in a row. *)
Class Patient (W : Type) `{Kernel W} (n : nat) :=
  patient : forall A (c : syscall A) w, ~ interrupted n c w.

(** ** What the trace says *)

(** The bytes one event sent on, or received from, the descriptor [fd]. *)
Definition sent_ev (fd : Z) (ev : sysev) : list byte :=
  match ev with
  | @Ev A c r =>
      match c in syscall A return (errno + A) -> list byte with
      | Send fd' d => fun r =>
          match r with inr n => if fd' =? fd then take (Z.to_nat n) d else [] | inl _ => [] end
      | _ => fun _ => []
      end r
  end.

Definition recvd_ev (fd : Z) (ev : sysev) : list byte :=
  match ev with
  | @Ev A c r =>
      match c in syscall A return (errno + A) -> list byte with
      | Recv fd' _ => fun r =>
          match r with inr d => if fd' =? fd then d else [] | inl _ => [] end
      | _ => fun _ => []
      end r
  end.

(** The descriptors one event closed. *)
Definition closed_ev (ev : sysev) : list Z :=
  match ev with
  | @Ev A c r => match c with Close fd => [fd] | _ => [] end
  end.

(** The descriptors one event opened. *)
Definition opened_ev (ev : sysev) : list Z :=
  match ev with
  | @Ev A c r =>
      match c in syscall A return (errno + A) -> list Z with
      | Socket_create _ _ => fun r => match r with inr fd => [fd] | inl _ => [] end
      | Epoll_create1 => fun r => match r with inr fd => [fd] | inl _ => [] end
      | Eventfd => fun r => match r with inr fd => [fd] | inl _ => [] end
      | Open_devnull => fun r => match r with inr fd => [fd] | inl _ => [] end
      | Accept _ => fun r => match r with inr (fd, _) => [fd] | inl _ => [] end
      | _ => fun _ => []
      end r
  end.

(** The descriptors one event armed: [epoll] will report them, once. *)
Definition armed_ev (ev : sysev) : list Z :=
  match ev with
  | @Ev A c r =>
      match c in syscall A return (errno + A) -> list Z with
      | Epoll_ctl _ (EPOLL_CTL_ADD | EPOLL_CTL_MOD) fd events => fun r =>
          match r with inr _ => if has_event events EPOLLONESHOT then [fd] else [] | inl _ => [] end
      | _ => fun _ => []
      end r
  end.

(** The descriptors [epoll] stopped watching: those it reported, those taken
    out of its set, those closed. *)
Definition unwatched_ev (ev : sysev) : list Z :=
  match ev with
  | @Ev A c r =>
      match c in syscall A return (errno + A) -> list Z with
      | Epoll_ctl _ EPOLL_CTL_DEL fd _ => fun _ => [fd]
      | Epoll_wait _ _ => fun r => match r with inr evs => evs.*1 | inl _ => [] end
      | Close fd => fun _ => [fd]
      | _ => fun _ => []
      end r
  end.

(** The event descriptors one event made readable. *)
Definition signalled_ev (ev : sysev) : list Z :=
  match ev with
  | @Ev A c r => match c with Eventfd_write fd _ => [fd] | _ => [] end
  end.

Definition sent {W} (fd : Z) (e : Env W) : list byte := tr e ≫= sent_ev fd.
Definition recvd {W} (fd : Z) (e : Env W) : list byte := tr e ≫= recvd_ev fd.
Definition closed {W} (e : Env W) : list Z := tr e ≫= closed_ev.
Definition opened {W} (e : Env W) : list Z := tr e ≫= opened_ev.
Definition armed {W} (e : Env W) : list Z := tr e ≫= armed_ev.

Section trace.
Context {W : Type} `{Kernel W}.

Lemma sent_call {A} (c : syscall A) (e : Env W) fd :
  sent fd (call c e).2 = sent fd e ++ sent_ev fd (Ev c (call c e).1).
Proof.
  unfold sent. rewrite call_tr, bind_app. simpl. by rewrite app_nil_r.
Qed.

Lemma recvd_call {A} (c : syscall A) (e : Env W) fd :
  recvd fd (call c e).2 = recvd fd e ++ recvd_ev fd (Ev c (call c e).1).
Proof.
  unfold recvd. rewrite call_tr, bind_app. simpl. by rewrite app_nil_r.
Qed.

Lemma closed_call {A} (c : syscall A) (e : Env W) :
  closed (call c e).2 = closed e ++ closed_ev (Ev c (call c e).1).
Proof.
  unfold closed. rewrite call_tr, bind_app. simpl. by rewrite app_nil_r.
Qed.

Lemma opened_call {A} (c : syscall A) (e : Env W) :
  opened (call c e).2 = opened e ++ opened_ev (Ev c (call c e).1).
Proof.
  unfold opened. rewrite call_tr, bind_app. simpl. by rewrite app_nil_r.
Qed.

Lemma armed_call {A} (c : syscall A) (e : Env W) :
  armed (call c e).2 = armed e ++ armed_ev (Ev c (call c e).1).
Proof.
  unfold armed. rewrite call_tr, bind_app. simpl. by rewrite app_nil_r.
Qed.
End trace.

(** ** Runs of calls *)

(** [path e evs e']: from [e] the calls recorded in [evs] lead to [e']. *)
Inductive path {W} `{Kernel W} : Env W -> list sysev -> Env W -> Prop :=
  | path_nil e : path e [] e
  | path_cons {A} (c : syscall A) e evs e' :
      path (call c e).2 evs e' -> path e (Ev c (call c e).1 :: evs) e'.

(** [effect e e' ar un]: between [e] and [e'] only calls were made; they armed
    [ar], [epoll] stopped watching [un], and no event descriptor was written. *)
Definition effect {W} `{Kernel W} (e e' : Env W) (ar un : list Z) : Prop :=
  exists evs, path e evs e' /\ evs ≫= armed_ev = ar /\ evs ≫= unwatched_ev = un /\
    evs ≫= signalled_ev = [].

Section effect.
Context {W : Type} `{Kernel W}.
Implicit Types e : Env W.

Lemma path_app e1 l1 e2 l2 e3 : path e1 l1 e2 -> path e2 l2 e3 -> path e1 (l1 ++ l2) e3.
Proof. induction 1; [done|]. intros. simpl. constructor. auto. Qed.

Lemma path_tr e evs e' : path e evs e' -> tr e' = tr e ++ evs.
Proof.
  induction 1 as [e|A c e evs e' _ IH]; [by rewrite app_nil_r|].
  by rewrite IH, call_tr, <- app_assoc.
Qed.

Lemma effect_refl e : effect e e [] [].
Proof. exists []. split_and!; [constructor|done..]. Qed.

Lemma effect_trans e1 e2 e3 a1 u1 a2 u2 :
  effect e1 e2 a1 u1 -> effect e2 e3 a2 u2 -> effect e1 e3 (a1 ++ a2) (u1 ++ u2).
Proof.
  intros (l1 & P1 & <- & <- & S1) (l2 & P2 & <- & <- & S2). exists (l1 ++ l2).
  rewrite !bind_app, S1, S2. split_and!; [by apply path_app with e2|done..].
Qed.

Lemma effect_call {A} (c : syscall A) e :
  signalled_ev (Ev c (call c e).1) = [] ->
  effect e (call c e).2 (armed_ev (Ev c (call c e).1)) (unwatched_ev (Ev c (call c e).1)).
Proof.
  intros Hs. exists [Ev c (call c e).1]. cbn [mbind list_bind]. rewrite Hs, !app_nil_r.
  split_and!; [repeat constructor|done..].
Qed.

Lemma effect_armed e e' ar un : effect e e' ar un -> armed e' = armed e ++ ar.
Proof.
  intros (evs & Hp & <- & _). unfold armed. by rewrite (path_tr _ _ _ Hp), bind_app.
Qed.
End effect.

(** ** A concrete kernel, for examples: a peer that delivers [k_in] and accepts
    what it is given, [k_chunk] bytes at a time; every other call is
    interrupted once by a signal. *)

Record LoopW := mkLoopW { k_in : list byte; k_chunk : nat; k_sig : bool; k_next : Z }.

Definition loop_answer {A} (c : syscall A) (w : LoopW) : (errno + A) * LoopW :=
  let ok {B} (x : B) : (errno + B) * LoopW := (inr x, mkLoopW (k_in w) (k_chunk w) true (k_next w + 1)) in
  match c in syscall A return (errno + A) * LoopW with
  | Recv _ len =>
      let n := Nat.min (Z.to_nat len) (k_chunk w) in
      match take n (k_in w) with
      | [] => (inl EAGAIN, mkLoopW (k_in w) (k_chunk w) true (k_next w))
      | d => (inr d, mkLoopW (drop n (k_in w)) (k_chunk w) true (k_next w))
      end
  | Send _ data => ok (Z.of_nat (Nat.min (length data) (k_chunk w)))
  | Epoll_ctl _ _ _ _ | Close _ | Fcntl_setfl _ _ | Setsockopt _ _ | Bind _ _ _
  | Listen_on _ | Eventfd_write _ _ | Sigaction _ => ok tt
  | Accept _ => ok (k_next w, (EmptyString, 80))
  | Fcntl_getfl _ => ok 2
  | Inet_pton _ _ => ok []
  | Socket_create _ _ | Open_devnull | Epoll_create1 | Eventfd => ok (k_next w)
  | Poll_in _ _ => ok 1
  | Epoll_wait _ _ => ok [(7, EPOLLIN)]
  | Hardware_concurrency => ok 8
  | Recvfrom _ _ => ok ([], (EmptyString, 80))
  | Sendto _ data _ _ => ok (Z.of_nat (length data))
  | Steady_clock_ns => ok (k_next w * 20000000)
  | Exit_flag => ok (k_next w <? 100)
  end.

#[export] Instance loop_kernel : Kernel LoopW := {|
  sys A c w :=
    if k_sig w then (inl EINTR, mkLoopW (k_in w) (k_chunk w) false (k_next w))
    else loop_answer c w |}.

#[export] Instance loop_laws : KernelLaws LoopW.
Proof.
  constructor.
  - intros fd len w d w' Hlen. simpl. destruct (k_sig w); [done|].
    destruct (take _ (k_in w)) as [|x l] eqn:E; [done|]. intros [= <- <-].
    pose proof (f_equal length E) as Hl. rewrite length_take in Hl.
    simpl length in *. lia.
  - intros fd data w n w'. simpl. destruct (k_sig w); [done|]. intros [= <- <-]. lia.
Qed.

#[export] Instance loop_patient : Patient LoopW 2.
Proof.
  intros A c w (H1 & H2 & _). revert H1 H2. simpl. destruct (k_sig w); simpl.
  - intros _. destruct c; simpl; try done. by destruct (take _ _).
  - destruct c; simpl; try done. by destruct (take _ _).
Qed.
