(* ===== verification/Epoll.v ===== *)
(** * Epoll: what the server relies on from descriptors and [epoll]

    [EpollKernel]: three sets that a kernel has: the open descriptors, those
    [epoll] watches (with [EPOLLONESHOT]) and the event descriptors that were
    written.  Its laws are the documented behaviour: a call that opens a
    descriptor gives one that was not open; [epoll_wait] reports watched
    descriptors, each once, with a non-empty event, and stops watching them;
    closing a descriptor or taking it out of the set stops that too; what is
    watched is open.  (Which [epoll] instance a descriptor is registered with
    does not matter to the laws: the library registers each with one.) *)

From S2P Require Import Prelude Types Kernel.

(** An event the library does something about. *)
Definition reportable (events : Z) : Prop :=
  has_event events (Z.lor EPOLLHUP EPOLLERR) || has_event events (Z.lor EPOLLIN EPOLLRDHUP) ||
  has_event events EPOLLOUT = true.

Class EpollKernel (W : Type) `{Kernel W} := {
  kopen : W -> gset Z;
  kwatch : W -> gset Z;
  ksignal : W -> gset Z;
  kwatch_open w : kwatch w ⊆ kopen w;
  kopen_law {A} (c : syscall A) w f :
    f ∈ kopen w -> f ∉ closed_ev (Ev c (sys c w).1) -> f ∈ kopen (sys c w).2;
  kwatch_law {A} (c : syscall A) w :
    kwatch (sys c w).2 = (kwatch w ∖ list_to_set (unwatched_ev (Ev c (sys c w).1)))
                           ∪ list_to_set (armed_ev (Ev c (sys c w).1));
  ksignal_law {A} (c : syscall A) w :
    ksignal (sys c w).2 ⊆ ksignal w ∪ list_to_set (signalled_ev (Ev c (sys c w).1));
  open_law {A} (c : syscall A) w f :
    f ∈ opened_ev (Ev c (sys c w).1) -> 0 <= f /\ f ∉ kopen w /\ f ∈ kopen (sys c w).2;
  accept_law l w fd x w' :
    sys (Accept l) w = (inr (fd, x), w') -> 0 < fd /\ fd ∉ kopen w /\ fd ∈ kopen w';
  wait_law ep n w evs w' :
    sys (Epoll_wait ep n) w = (inr evs, w') ->
    NoDup evs.*1 /\
    Forall (fun ev => ev.1 ∈ ksignal w \/ ev.1 ∈ kwatch w /\ reportable ev.2) evs }.

Section laws.
Context {W : Type} `{HE : EpollKernel W}.
Implicit Types e : Env W.

Lemma call_kernel {A} (c : syscall A) e :
  (call c e).1 = (sys c (kw e)).1 /\ kw (call c e).2 = (sys c (kw e)).2.
Proof. unfold call. by destruct (sys c (kw e)). Qed.

Lemma path_watch e evs e' f :
  path e evs e' ->
  (f ∉ (evs ≫= armed_ev) -> f ∉ (evs ≫= unwatched_ev) -> f ∈ kwatch (kw e') <-> f ∈ kwatch (kw e)) /\
  (f ∉ (evs ≫= armed_ev) -> f ∈ (evs ≫= unwatched_ev) -> f ∉ kwatch (kw e')) /\
  (f ∈ (evs ≫= armed_ev) -> f ∉ (evs ≫= unwatched_ev) -> f ∈ kwatch (kw e')).
Proof.
  induction 1 as [e|A c e evs e' _ (IH1 & IH2 & IH3)]; [set_solver|].
  destruct (call_kernel c e) as [Hr Hw]. rewrite Hw, Hr in *. rewrite kwatch_law in IH1.
  rewrite !bind_cons, !elem_of_app. set (ev := Ev c _) in *.
  split_and!.
  - intros Ha Hu. rewrite IH1 by set_solver. set_solver.
  - intros Ha Hu. destruct (decide (f ∈ (evs ≫= unwatched_ev))) as [Hin|Hin]; [set_solver|].
    rewrite IH1 by set_solver. set_solver.
  - intros Ha Hu. destruct (decide (f ∈ (evs ≫= armed_ev))) as [Hin|Hin]; [set_solver|].
    rewrite IH1 by set_solver. set_solver.
Qed.

(** What is watched, between two states that calls lead from one to the other. *)
Lemma effect_watch e e' ar un :
  effect e e' ar un -> (forall f, f ∈ ar -> f ∉ un) ->
  kwatch (kw e') = (kwatch (kw e) ∖ list_to_set un) ∪ list_to_set ar.
Proof.
  intros (evs & Hp & <- & <- & _) Hd. apply set_eq. intros f.
  destruct (path_watch e evs e' f Hp) as (H1 & H2 & H3). specialize (Hd f).
  rewrite elem_of_union, elem_of_difference, !elem_of_list_to_set.
  destruct (decide (f ∈ (evs ≫= armed_ev))), (decide (f ∈ (evs ≫= unwatched_ev))); naive_solver.
Qed.

Lemma effect_signal e e' ar un : effect e e' ar un -> ksignal (kw e') ⊆ ksignal (kw e).
Proof.
  intros (evs & Hp & _ & _ & Hs). induction Hp as [e|A c e evs e' _ IH]; [done|].
  rewrite bind_cons in Hs. apply app_nil in Hs as [Hs1 Hs2].
  destruct (call_kernel c e) as [Hr Hw]. rewrite (IH Hs2), Hw.
  etransitivity; [apply ksignal_law|]. rewrite <- Hr, Hs1. set_solver.
Qed.

Lemma path_closed e evs e' cl :
  path e evs e' -> closed e' = closed e ++ cl -> evs ≫= closed_ev = cl.
Proof.
  intros Hp. unfold closed. rewrite (path_tr _ _ _ Hp), bind_app. apply app_inv_head.
Qed.

Lemma path_open e evs e' f :
  path e evs e' -> f ∈ kopen (kw e) -> f ∉ (evs ≫= closed_ev) -> f ∈ kopen (kw e').
Proof.
  induction 1 as [e|A c e evs e' _ IH]; [done|]. rewrite bind_cons, elem_of_app.
  intros Hf Hn. destruct (call_kernel c e) as [Hr Hw]. apply IH; [|set_solver].
  rewrite Hw. apply kopen_law; [done|]. rewrite <- Hr. set_solver.
Qed.

Lemma effect_open e e' ar un cl f :
  effect e e' ar un -> closed e' = closed e ++ cl -> f ∈ kopen (kw e) -> f ∉ cl -> f ∈ kopen (kw e').
Proof.
  intros (evs & Hp & _) Hc. rewrite <- (path_closed _ _ _ _ Hp Hc). by apply path_open.
Qed.

(** A descriptor one call opened and none closed is open. *)
Lemma effect_opened e e' ar un op cl f :
  effect e e' ar un -> opened e' = opened e ++ op -> closed e' = closed e ++ cl -> f ∈ op -> f ∉ cl ->
  0 <= f /\ f ∈ kopen (kw e').
Proof.
  intros (evs & Hp & _) Ho Hc. rewrite <- (path_closed _ _ _ _ Hp Hc). clear Hc.
  assert (evs ≫= opened_ev = op) as <-.
  { unfold opened in Ho. rewrite (path_tr _ _ _ Hp), bind_app in Ho. by apply app_inv_head in Ho. }
  clear Ho. induction Hp as [e|A c e evs e' Hp IH]; [by intros ?%not_elem_of_nil|].
  rewrite !bind_cons, !elem_of_app. intros [Hf|Hf] Hn; [|apply IH; tauto].
  destruct (call_kernel c e) as [Hr Hw]. rewrite Hr in Hf. apply open_law in Hf as (Hpos & _ & Hf).
  split; [done|]. rewrite <- Hw in Hf. apply (path_open _ _ _ _ Hp Hf). tauto.
Qed.

(** [accept], as a call. *)
Lemma call_accept l e fd x :
  (call (Accept l) e).1 = inr (fd, x) ->
  0 < fd /\ fd ∉ kopen (kw e) /\ fd ∈ kopen (kw (call (Accept l) e).2).
Proof.
  destruct (call_kernel (Accept l) e) as [-> ->]. destruct (sys (Accept l) (kw e)) as [r w] eqn:E.
  simpl. intros ->. by apply (accept_law l _ _ x).
Qed.

(** [epoll_wait], as a call. *)
Lemma call_wait ep n e evs :
  (call (Epoll_wait ep n) e).1 = inr evs ->
  NoDup evs.*1 /\ Forall (fun ev => ev.1 ∈ ksignal (kw e) \/ ev.1 ∈ kwatch (kw e) /\ reportable ev.2) evs.
Proof.
  destruct (call_kernel (Epoll_wait ep n) e) as [-> _].
  destruct (sys (Epoll_wait ep n) (kw e)) as [r w] eqn:E. simpl. intros ->. by apply (wait_law ep n _ _ w).
Qed.
End laws.

(** ** A concrete kernel, for examples

    Calls on sockets and [epoll] succeed; [accept] gives the lowest descriptor
    above those open; [epoll_wait] reports every watched descriptor, as readable
    the first time, as hung up afterwards; [recv] and [recvfrom] give what is
    left of [q_in]; every look at the clock finds 50 ms gone. *)

Record QuickW := mkQuick { q_open : gset Z; q_watch : gset Z; q_signal : gset Z; q_ticks : Z; q_hup : bool;
  q_in : list byte }.

Definition above (X : gset Z) : Z := 1 + foldr Z.max 0 (elements X).

Definition quick_answer {A} (c : syscall A) (w : QuickW) : (errno + A) * QuickW :=
  let opened := q_open w ∪ q_watch w in
  let watching X := mkQuick opened X (q_signal w) (q_ticks w) (q_hup w) (q_in w) in
  match c in syscall A return (errno + A) * QuickW with
  | Recv _ len =>
      match take (Z.to_nat len) (q_in w) with
      | [] => (inl EAGAIN, w)
      | d => (inr d, mkQuick (q_open w) (q_watch w) (q_signal w) (q_ticks w) (q_hup w)
                       (drop (Z.to_nat len) (q_in w)))
      end
  | Send _ data => (inr (Z.of_nat (length data)), w)
  | Epoll_ctl _ EPOLL_CTL_DEL fd _ => (inr tt, watching (q_watch w ∖ {[fd]}))
  | Epoll_ctl _ _ fd events =>
      (inr tt, if has_event events EPOLLONESHOT then watching (q_watch w ∪ {[fd]}) else w)
  | Epoll_wait _ _ =>
      (inr ((fun fd => (fd, if q_hup w then EPOLLHUP else EPOLLIN)) <$> elements (q_watch w)),
       mkQuick opened ∅ (q_signal w) (q_ticks w) true (q_in w))
  | Close fd =>
      (inr tt, mkQuick (q_open w ∖ {[fd]}) (q_watch w ∖ {[fd]}) (q_signal w) (q_ticks w) (q_hup w) (q_in w))
  | Accept _ =>
      let fd := above opened in
      (inr (fd, (EmptyString, 80)),
       mkQuick (opened ∪ {[fd]}) (q_watch w) (q_signal w) (q_ticks w) (q_hup w) (q_in w))
  | Socket_create _ _ | Epoll_create1 | Eventfd | Open_devnull =>
      let fd := above opened in
      (inr fd, mkQuick (opened ∪ {[fd]}) (q_watch w) (q_signal w) (q_ticks w) (q_hup w) (q_in w))
  | Eventfd_write fd _ =>
      (inr tt, mkQuick (q_open w) (q_watch w) (q_signal w ∪ {[fd]}) (q_ticks w) (q_hup w) (q_in w))
  | Fcntl_getfl _ => (inr 2, w)
  | Fcntl_setfl _ _ | Setsockopt _ _ | Bind _ _ _ | Listen_on _ | Sigaction _ => (inr tt, w)
  | Hardware_concurrency => (inr 2, w)
  | Poll_in _ _ => (inr 1, w)
  | Inet_pton _ _ => (inr [], w)
  | Sendto _ data _ _ => (inr (Z.of_nat (length data)), w)
  | Recvfrom _ _ =>
      match q_in w with
      | [] => (inl EAGAIN, w)
      | d => (inr (d, ("10.0.0.1"%string, 80)), mkQuick (q_open w) (q_watch w) (q_signal w) (q_ticks w) (q_hup w) [])
      end
  | Steady_clock_ns =>
      (inr (q_ticks w * 50000000), mkQuick (q_open w) (q_watch w) (q_signal w) (q_ticks w + 1) (q_hup w) (q_in w))
  | Exit_flag => (inr true, w)
  end.

#[export] Instance quick_kernel : Kernel QuickW := {| sys A c w := quick_answer c w |}.

Lemma above_spec (X : gset Z) : 0 < above X /\ above X ∉ X.
Proof.
  assert (H : forall l x, x ∈ l -> x <= foldr Z.max 0 l /\ 0 <= foldr Z.max 0 l).
  { induction l as [|y l IH]; intros x; [by intros ?%not_elem_of_nil|].
    intros [->|Hx]%elem_of_cons; simpl; [|specialize (IH x Hx); lia].
    destruct l as [|z l]; [simpl; lia|]. specialize (IH z ltac:(left)). lia. }
  unfold above. split.
  - destruct (elements X) as [|y l] eqn:E; [simpl; lia|]. specialize (H (y :: l) y ltac:(left)). lia.
  - rewrite <- elem_of_elements. intros Hin. specialize (H _ _ Hin). lia.
Qed.

#[export] Instance quick_laws : KernelLaws QuickW.
Proof.
  constructor.
  - intros fd len w d w' Hlen. simpl. destruct (take _ (q_in w)) as [|y l] eqn:E; [done|]. intros [= <- <-].
    pose proof (f_equal length E) as Hl. rewrite length_take in Hl. simpl in *. lia.
  - intros fd data w n w' [= <- _]. lia.
Qed.

#[export] Instance quick_patient : Patient QuickW 1.
Proof.
  intros A c w [H _]. revert H. simpl. by destruct c; simpl; repeat case_match.
Qed.

#[export, refine] Instance quick_epoll : EpollKernel QuickW := {|
  kopen w := q_open w ∪ q_watch w; kwatch := q_watch; ksignal := q_signal |}.
Proof.
  - set_solver.
  - intros A c w f Hf Hn. destruct c; try exact Hf; simpl in *; repeat case_match; simpl in *; set_solver.
  - intros A c w. destruct c; simpl; repeat case_match; simpl; try set_solver.
    all: rewrite <- list_fmap_compose; simpl; rewrite list_fmap_id, list_to_set_elements_L; set_solver.
  - intros A c w. destruct c; simpl; repeat case_match; simpl; set_solver.
  - intros A c w f. destruct (above_spec (q_open w ∪ q_watch w)) as [? ?].
    destruct c; simpl; repeat case_match; simpl; intros Hf; try (by apply not_elem_of_nil in Hf);
      apply list_elem_of_singleton in Hf as ->; (split; [lia|]); set_solver.
  - intros l w fd x w' [= <- <- <-]. destruct (above_spec (q_open w ∪ q_watch w)). simpl. set_solver.
  - intros ep n w evs w' [= <- <-]. rewrite <- list_fmap_compose. simpl. split.
    + rewrite list_fmap_id. apply NoDup_elements.
    + apply Forall_fmap, Forall_forall. intros fd Hfd%elem_of_elements. right. simpl.
      split; [done|]. by destruct (q_hup w).
Defined.
