(* ===== verification/Controller.v ===== *)
(** * Controller: one connection, SOCKController of SPController.cpp

    A controller owns the two buffers of a connection and talks to the kernel.
    Loops that retry on [EINTR] take fuel ([ifuel] attempts in a row); the
    loops over buffer space carry their own bound.  [None] is a run that is
    undefined or out of fuel. *)

From S2P Require Import Prelude Types BufferProvider Buffer Kernel.

Module SOCKController.

Record t := mk {
  fd : Z;
  events : Z;
  peerClosed : bool;
  ctx : option Z;
  info : option Z;
  ip : string;
  port : Z;
  ipPort : string;
  readBuf : SPBuffer.t;
  writeBuf : SPBuffer.t }.

(** Field updates. *)
Definition set_events (v : Z) (c : t) : t :=
  mk (fd c) v (peerClosed c) (ctx c) (info c) (ip c) (port c) (ipPort c) (readBuf c) (writeBuf c).
Definition set_peerClosed (v : bool) (c : t) : t :=
  mk (fd c) (events c) v (ctx c) (info c) (ip c) (port c) (ipPort c) (readBuf c) (writeBuf c).
Definition set_readBuf (b : SPBuffer.t) (c : t) : t :=
  mk (fd c) (events c) (peerClosed c) (ctx c) (info c) (ip c) (port c) (ipPort c) b (writeBuf c).
Definition set_writeBuf (b : SPBuffer.t) (c : t) : t :=
  mk (fd c) (events c) (peerClosed c) (ctx c) (info c) (ip c) (port c) (ipPort c) (readBuf c) b.
Definition set_addr (ip' : string) (port' : Z) (c : t) : t :=
  mk (fd c) (events c) (peerClosed c) (ctx c) (info c) ip' port' (ipPort c) (readBuf c) (writeBuf c).

(** [SOCKController{}]: the members are zero-initialised. *)
Definition SOCKController : t :=
  mk 0 0 false None None EmptyString 0 EmptyString
     (SPBuffer.SPBuffer BUFFER_TYPE_READ) (SPBuffer.SPBuffer BUFFER_TYPE_WRITE).

(** ** init *)

Section init.
Context {P : Type} `{BufferProvider P} (cfg : SPTcpConfig).

(** [uninit_r], [uninit_w]: what the memory handed out holds.  The result
    also carries the controller, which a failed [init] leaves half built. *)
Definition init (fd' : Z) (ctx' : option Z) (info' : Z) (uninit_r uninit_w : list byte)
    (c : t) (p : P) : option (bool * t * P) :=
  '(ok, rb, p) ← SPBuffer.Init cfg uninit_r (readBuf c) p;
  let c := set_readBuf rb c in
  if negb ok then Some (false, c, p) else
  '(ok, wb, p) ← SPBuffer.Init cfg uninit_w (writeBuf c) p;
  let c := set_writeBuf wb c in
  if negb ok then Some (false, c, p) else
  Some (true,
    mk fd' (EPOLL_DEFAULT_EVENT cfg) false ctx' (Some info') (ip c) (port c)
       (String.app "[" (String.app (ip c) (String.app "]:" (pretty (port c)))))
       (readBuf c) (writeBuf c), p).

(** The destructor of a controller destroys its buffers, the last first. *)
Definition destroy (c : t) (p : P) : option P :=
  p ← SPBuffer.destroy (writeBuf c) p; SPBuffer.destroy (readBuf c) p.
End init.

(** ** Socket input and output *)

Section io.
Context {W : Type} `{Kernel W} (ifuel : nat).

(** [readInner]: the value returned and the bytes put at [buf]. *)
Fixpoint readInner_loop (n : nat) (len : Z) (c : t) (e : Env W) : option (Z * list byte * Env W) :=
  match n with
  | O => None
  | S n =>
      match call (Recv (fd c) len) e with
      | (inr d, e) => Some (Z.of_nat (length d), d, e)
      | (inl EINTR, e) => readInner_loop n len c e
      | (inl EAGAIN, e) => Some (0, [], e)
      | (inl _, e) => Some (-1, [], e)
      end
  end.
Definition readInner := readInner_loop ifuel.

Fixpoint writeInner_loop (n : nat) (buf : list byte) (c : t) (e : Env W) : option (Z * Env W) :=
  match n with
  | O => None
  | S n =>
      match call (Send (fd c) buf) e with
      | (inr r, e) => Some (r, e)
      | (inl EINTR, e) => writeInner_loop n buf c e
      | (inl EAGAIN, e) => Some (0, e)
      | (inl _, e) => Some (-1, e)
      end
  end.
Definition writeInner := writeInner_loop ifuel.

(** [readSocket]: [while (len = readBuf.distanceWrite())]. *)
Fixpoint readSocket_loop (n : nat) (c : t) (e : Env W) : option (bool * t * Env W) :=
  let len := SPBuffer.distanceWrite (readBuf c) in
  if len =? 0 then Some (true, c, e) else
  match n with
  | O => None
  | S n =>
      '(bytes, d, e) ← readInner len c e;
      b ← SPBuffer.store_at_writePtr d (readBuf c);
      let c := set_readBuf b c in
      if 0 <? bytes then
        b ← SPBuffer.commitWrite (u32 bytes) (readBuf c);
        let c := set_readBuf b c in
        if bytes <? len then Some (true, c, e) else readSocket_loop n c e
      else if bytes =? 0 then Some (true, c, e)
      else Some (false, c, e)
  end.

(** Every round but the last fills a contiguous part of the free space. *)
Definition readSocket (c : t) : Env W -> option (bool * t * Env W) :=
  readSocket_loop (Z.to_nat (SPBuffer.bytesWrite (readBuf c))) c.

(** [write]: straight to the socket. *)
Fixpoint write_loop (n : nat) (buf : list byte) (c : t) (e : Env W) : option (Z * t * Env W) :=
  match n with
  | O => None
  | S n =>
      match call (Send (fd c) buf) e with
      | (inr r, e) => Some (r, c, e)
      | (inl EINTR, e) => write_loop n buf c e
      | (inl EAGAIN, e) => Some (0, c, e)
      | (inl EPIPE, e) | (inl ECONNRESET, e) => Some (-2, set_peerClosed true c, e)
      | (inl _, e) => Some (-1, c, e)
      end
  end.
Definition write := write_loop ifuel.

(** [commitWrite]: [while (len = writeBuf.distanceRead())]. *)
Fixpoint commitWrite_loop (n : nat) (c : t) (e : Env W) : option (Z * t * Env W) :=
  let len := SPBuffer.distanceRead (writeBuf c) in
  if len =? 0 then Some (0, c, e) else
  match n with
  | O => None
  | S n =>
      d ← SPBuffer.load_at_readPtr len (writeBuf c);
      '(bytes, e) ← writeInner d c e;
      if 0 <? bytes then
        b ← SPBuffer.commitRead (u32 bytes) (writeBuf c);
        let c := set_writeBuf b c in
        if bytes <? len then Some (SPBuffer.bytesRead (writeBuf c), c, e)
        else commitWrite_loop n c e
      else if bytes =? 0 then Some (SPBuffer.bytesRead (writeBuf c), c, e)
      else Some (bytes, c, e)
  end.
Definition commitWrite (c : t) : Env W -> option (Z * t * Env W) :=
  commitWrite_loop (Z.to_nat (SPBuffer.bytesRead (writeBuf c))) c.

(** The [while (true)] of [writeBack]: [acc] is [writeResult]. *)
Fixpoint writeBack_loop (n : nat) (acc : Z) (c : t) (e : Env W) : option (Z * t * Env W) :=
  let chunk := SPBuffer.distanceRead (readBuf c) in
  if chunk =? 0 then Some (acc, c, e) else
  match n with
  | O => None
  | S n =>
      d ← SPBuffer.load_at_readPtr chunk (readBuf c);
      '(sent, e) ← writeInner d c e;
      if 0 <? sent then
        b ← SPBuffer.commitRead (u32 sent) (readBuf c);
        writeBack_loop n (acc + sent) (set_readBuf b c) e
      else if sent =? 0 then Some (acc, c, e)
      else Some (sent, c, e)
  end.
Definition writeBack (c : t) (e : Env W) : option (Z * t * Env W) :=
  '(writeResult, c, e) ← commitWrite c e;
  if negb (writeResult =? 0) then Some (writeResult, c, e) else
  writeBack_loop (Z.to_nat (SPBuffer.bytesRead (readBuf c))) writeResult c e.
End io.

(** ** Buffer access *)

Definition getCtx (c : t) : option Z := ctx c.
Definition isPeerClosed (c : t) : bool := peerClosed c.
Definition getReadBufferSize (c : t) : Z := SPBuffer.bytesRead (readBuf c).
Definition getWriteBufferSize (c : t) : Z := SPBuffer.bytesRead (writeBuf c).
Definition getReadBufferCapacity (cfg : SPTcpConfig) : Z := READ_BSIZE cfg.
Definition getWriteBufferCapacity (cfg : SPTcpConfig) : Z := WRITE_BSIZE cfg.

(** The [size_t] length becomes the [unsigned int] of the buffer functions. *)
Definition read (len : Z) (c : t) : option (Z * list byte * t) :=
  '(n, d, b) ← SPBuffer.read (u32 len) (readBuf c); Some (n, d, set_readBuf b c).
Definition peek (len : Z) (c : t) : option (Z * list byte) :=
  SPBuffer.peek (u32 len) (readBuf c).
Definition writeTemp (buf : list byte) (len : Z) (c : t) : option (Z * t) :=
  '(n, b) ← SPBuffer.write buf (u32 len) (writeBuf c); Some (n, set_writeBuf b c).

(** [moveToWriteBuffer]: [while (moved < maxMove)]. *)
Fixpoint move_loop (n : nat) (moved maxMove : Z) (c : t) : option (Z * t) :=
  if negb (moved <? maxMove) then Some (moved, c) else
  match n with
  | O => None
  | S n =>
      let readChunk := SPBuffer.distanceRead (readBuf c) in
      let writeChunk := SPBuffer.distanceWrite (writeBuf c) in
      let chunk := Z.min readChunk writeChunk in
      if chunk =? 0 then Some (moved, c) else
      d ← SPBuffer.load_at_readPtr chunk (readBuf c);
      wb ← SPBuffer.store_at_writePtr d (writeBuf c);
      rb ← SPBuffer.commitRead chunk (readBuf c);
      wb ← SPBuffer.commitWrite chunk wb;
      move_loop n (u32 (moved + chunk)) maxMove (set_writeBuf wb (set_readBuf rb c))
  end.
Definition moveToWriteBuffer (c : t) : option (Z * t) :=
  let maxMove := Z.min (SPBuffer.bytesRead (readBuf c)) (SPBuffer.bytesWrite (writeBuf c)) in
  move_loop (Z.to_nat maxMove) 0 maxMove c.

(** ** Events *)

Section events.
(** [DEFER::funcEvent], set by [Config] to the server's [EnableEvent]. *)
Context {S : Type} (funcEvent : t -> bool -> bool -> S -> bool * S).

Definition enableEvents (rd wr : bool) (c : t) (s : S) : bool * t * S :=
  let '(ret, s) := funcEvent c rd wr s in
  let ev := if ret then Z.lor (if rd then EPOLLIN else 0) (if wr then EPOLLOUT else 0) else 0 in
  (ret, set_events ev c, s).

Definition renableEvents (c : t) (s : S) : bool * t * S :=
  let '(ret, s) := funcEvent c (has_event (events c) EPOLLIN) (has_event (events c) EPOLLOUT) s in
  (ret, if ret then c else set_events 0 c, s).

(** [DEFER::funcClose], set by [Config] to the server's [ActiveClose]. *)
Context (funcClose : t -> S -> S).
Definition close (c : t) (s : S) : S := funcClose c s.

(** [SPDefered::REnableFunc], the value of [renableProc]. *)
Definition REnableFunc (c : t) (s : S) : t * S :=
  let '(ret, c, s) := renableEvents c s in
  if ret then (c, s) else (c, close c s).
End events.

End SOCKController.
