(* ===== verification/ControllerSpec.v ===== *)
(** * ControllerSpec: what a connection's operations do to its byte streams

    [io_step fd e e' rx tx] relates two environments between which the calls
    made received exactly [rx] and sent exactly [tx] on [fd], nothing on any
    other descriptor, opened and closed nothing and left alone what [epoll]
    watches.  Each operation of SOCKController is shown to be defined and to
    move bytes between its buffers and these streams without losing,
    duplicating or reordering any. *)

From S2P Require Import Prelude Types BufferProvider Buffer BufferSpec Kernel Controller.
Import SOCKController.

Record io_step {W} `{Kernel W} (f : Z) (e e' : Env W) (rx tx : list byte) : Prop := {
  io_recvd : recvd f e' = recvd f e ++ rx;
  io_sent : sent f e' = sent f e ++ tx;
  io_other : forall g, g <> f -> recvd g e' = recvd g e /\ sent g e' = sent g e;
  io_closed : closed e' = closed e;
  io_opened : opened e' = opened e;
  io_effect : effect e e' [] [] }.

Definition ctl_wf (c : SOCKController.t) : Prop := buf_wf (readBuf c) /\ buf_wf (writeBuf c).

Lemma io_refl {W} `{Kernel W} f (e : Env W) : io_step f e e [] [].
Proof. constructor; rewrite ?app_nil_r; [done..|apply effect_refl]. Qed.

Lemma io_trans {W} `{Kernel W} f (e1 e2 e3 : Env W) rx1 tx1 rx2 tx2 :
  io_step f e1 e2 rx1 tx1 -> io_step f e2 e3 rx2 tx2 ->
  io_step f e1 e3 (rx1 ++ rx2) (tx1 ++ tx2).
Proof.
  intros [R1 S1 O1 C1 P1 A1] [R2 S2 O2 C2 P2 A2]. constructor.
  - by rewrite R2, R1, app_assoc.
  - by rewrite S2, S1, app_assoc.
  - intros g Hg. destruct (O1 g Hg), (O2 g Hg). split; congruence.
  - congruence.
  - congruence.
  - exact (effect_trans _ _ _ _ _ _ _ A1 A2).
Qed.

Lemma store_nil b : buf_wf b -> SPBuffer.store_at_writePtr [] b = Some b.
Proof.
  intros Hwf. pose proof (front_range b Hwf). pose proof (bw_mem b Hwf).
  unfold SPBuffer.store_at_writePtr, SPBuffer.writePtr. rewrite mem_store_in by (simpl; lia).
  simpl. by destruct b.
Qed.

Lemma wf_size_u32 b (n : Z) : buf_wf b -> 0 <= n <= SPBuffer.bsize b -> u32 n = n.
Proof. intros [? _ _ _ _ _] ?. apply u32_small. lia. Qed.

Section spec.
Context {W : Type} `{HL : KernelLaws W} {ifuel : nat} `{HPat : !Patient W ifuel}.

Ltac call_facts c e :=
  let r := fresh "r" in let e1 := fresh "e" in let E := fresh "Ecall" in
  pose proof (sent_call c e) as Hsent; pose proof (recvd_call c e) as Hrecvd;
  pose proof (closed_call c e) as Hclosed; pose proof (opened_call c e) as Hopened;
  pose proof (effect_call c e eq_refl) as Heffect;
  destruct (call c e) as [r e1] eqn:E; simpl in Hsent, Hrecvd, Hclosed, Hopened, Heffect.

(** One call of [recv]. *)
Lemma recv_step f len (e : Env W) :
  0 <= len ->
  match call (Recv f len) e with
  | (inr d, e') => io_step f e e' d [] /\ Z.of_nat (length d) <= len
  | (inl _, e') => io_step f e e' [] []
  end.
Proof.
  intros Hlen. call_facts (Recv f len) e.
  rewrite app_nil_r in Hclosed, Hopened. destruct r as [err|d].
  - constructor; [by rewrite Hrecvd|by rewrite Hsent| |done|done|done].
    intros g Hg. by rewrite Hrecvd, Hsent, !app_nil_r.
  - split.
    + constructor; [by rewrite Hrecvd, Z.eqb_refl|by rewrite Hsent| |done|done|done].
      intros g Hg. rewrite Hrecvd, Hsent, app_nil_r.
      by rewrite (proj2 (Z.eqb_neq f g)), app_nil_r by congruence.
    + unfold call in Ecall. destruct (sys (Recv f len) (kw e)) as [r w] eqn:Es.
      injection Ecall as -> <-. by apply (recv_len f len (kw e) d w).
Qed.

(** One call of [send]. *)
Lemma send_step f buf (e : Env W) :
  match call (Send f buf) e with
  | (inr n, e') => 0 <= n <= Z.of_nat (length buf) /\ io_step f e e' [] (take (Z.to_nat n) buf)
  | (inl _, e') => io_step f e e' [] []
  end.
Proof.
  call_facts (Send f buf) e. rewrite app_nil_r in Hclosed, Hopened. destruct r as [err|n].
  - constructor; [by rewrite Hrecvd|by rewrite Hsent| |done|done|done].
    intros g Hg. by rewrite Hrecvd, Hsent, !app_nil_r.
  - split.
    + unfold call in Ecall. destruct (sys (Send f buf) (kw e)) as [r w] eqn:Es.
      injection Ecall as -> <-. by apply (send_len f buf (kw e) n w).
    + constructor; [by rewrite Hrecvd|by rewrite Hsent, Z.eqb_refl| |done|done|done].
      intros g Hg. rewrite Hrecvd, Hsent, app_nil_r.
      by rewrite (proj2 (Z.eqb_neq f g)), app_nil_r by congruence.
Qed.

Lemma call_kw {A} (c : syscall A) (e : Env W) :
  (call c e).1 = (sys c (kw e)).1 /\ kw (call c e).2 = (sys c (kw e)).2.
Proof. unfold call. by destruct (sys c (kw e)). Qed.

Lemma readInner_loop_spec n len c (e : Env W) :
  0 <= len -> ~ interrupted n (Recv (fd c) len) (kw e) ->
  exists r d e', readInner_loop n len c e = Some (r, d, e') /\
    io_step (fd c) e e' d [] /\ Z.of_nat (length d) <= len /\
    (r = Z.of_nat (length d) \/ r = -1 /\ d = []).
Proof.
  intros Hlen. revert e. induction n as [|n IH]; intros e Hint; [by destruct Hint|].
  simpl in *. pose proof (recv_step (fd c) len e Hlen) as Hstep.
  pose proof (call_kw (Recv (fd c) len) e) as [Hr Hw].
  destruct (call (Recv (fd c) len) e) as [[err|d] e1]; simpl in Hr, Hw.
  - destruct err; [|exists 0, [], e1; split_and!; [done..|by left]
                   |exists (-1), [], e1; split_and!; [done..|by right] ..].
    destruct (IH e1) as (r & d & e' & -> & Hio & ?).
    { rewrite Hw. intros ?. by apply Hint. }
    exists r, d, e'. split_and!; try done; try tauto.
    exact (io_trans _ _ _ _ _ _ _ _ Hstep Hio).
  - destruct Hstep as [Hio Hd]. exists (Z.of_nat (length d)), d, e1. auto.
Qed.

Lemma readInner_spec len c (e : Env W) :
  0 <= len ->
  exists r d e', readInner ifuel len c e = Some (r, d, e') /\
    io_step (fd c) e e' d [] /\ Z.of_nat (length d) <= len /\
    (r = Z.of_nat (length d) \/ r = -1 /\ d = []).
Proof. intros. apply readInner_loop_spec; [done|]. apply HPat. Qed.

Lemma writeInner_loop_spec n buf c (e : Env W) :
  ~ interrupted n (Send (fd c) buf) (kw e) ->
  exists r e' k, writeInner_loop n buf c e = Some (r, e') /\
    io_step (fd c) e e' [] (take k buf) /\ (k <= length buf)%nat /\
    (r = Z.of_nat k \/ r = -1 /\ k = 0%nat).
Proof.
  revert e. induction n as [|n IH]; intros e Hint; [by destruct Hint|].
  simpl in *. pose proof (send_step (fd c) buf e) as Hstep.
  pose proof (call_kw (Send (fd c) buf) e) as [Hr Hw].
  destruct (call (Send (fd c) buf) e) as [[err|m] e1]; simpl in Hr, Hw.
  - destruct err; [|exists 0, e1, 0%nat; split_and!; [done|done|lia|by left]
                   |exists (-1), e1, 0%nat; split_and!; [done|done|lia|by right] ..].
    destruct (IH e1) as (r & e' & k & -> & Hio & ?).
    { rewrite Hw. intros ?. by apply Hint. }
    exists r, e', k. split_and!; try done; try tauto.
    exact (io_trans _ _ _ _ _ _ _ _ Hstep Hio).
  - destruct Hstep as [Hm Hio]. exists m, e1, (Z.to_nat m).
    split_and!; [done|done|lia|left; lia].
Qed.

Lemma writeInner_spec buf c (e : Env W) :
  exists r e' k, writeInner ifuel buf c e = Some (r, e') /\
    io_step (fd c) e e' [] (take k buf) /\ (k <= length buf)%nat /\
    (r = Z.of_nat k \/ r = -1 /\ k = 0%nat).
Proof. apply writeInner_loop_spec, HPat. Qed.

(** ** Failures

    Whether a receive, or a send, failed for another reason than that it was
    interrupted or would have had to wait. *)

Definition failed {A} (r : errno + A) : bool :=
  match r with inl EINTR | inl EAGAIN | inr _ => false | inl _ => true end.

Definition recv_failed_ev (ev : sysev) : bool :=
  match ev with
  | @Ev A c r => match c in syscall A return (errno + A) -> bool with Recv _ _ => failed | _ => fun _ => false end r
  end.

Definition send_failed_ev (ev : sysev) : bool :=
  match ev with
  | @Ev A c r => match c in syscall A return (errno + A) -> bool with Send _ _ => failed | _ => fun _ => false end r
  end.

(** Among the events from [e] to [e']. *)
Definition recv_failed (e e' : Env W) : bool := existsb recv_failed_ev (drop (length (tr e)) (tr e')).
Definition send_failed (e e' : Env W) : bool := existsb send_failed_ev (drop (length (tr e)) (tr e')).

(** [e'] is [e] with events added, of which one satisfies [p] when [b]. *)
Definition saw (p : sysev -> bool) (b : bool) (e e' : Env W) : Prop :=
  exists evs, tr e' = tr e ++ evs /\ existsb p evs = b.

Lemma saw_refl p e : saw p false e e.
Proof. exists []. by rewrite app_nil_r. Qed.

Lemma saw_trans p b1 b2 e1 e2 e3 : saw p b1 e1 e2 -> saw p b2 e2 e3 -> saw p (b1 || b2) e1 e3.
Proof.
  intros (l1 & H1 & <-) (l2 & H2 & <-). exists (l1 ++ l2). by rewrite H2, H1, app_assoc, existsb_app.
Qed.

Lemma saw_call {A} p (c : syscall A) e : saw p (p (Ev c (call c e).1)) e (call c e).2.
Proof. exists [Ev c (call c e).1]. by rewrite call_tr; simpl; rewrite orb_false_r. Qed.

Lemma saw_drop p b e e' : saw p b e e' -> existsb p (drop (length (tr e)) (tr e')) = b.
Proof. intros (l & -> & <-). by rewrite drop_app_length. Qed.

Lemma readInner_failed n len c e r d e' :
  readInner_loop n len c e = Some (r, d, e') -> saw recv_failed_ev (r <? 0) e e'.
Proof.
  revert e. induction n as [|n IH]; intros e; [done|]. simpl.
  pose proof (saw_call recv_failed_ev (Recv (fd c) len) e) as Hs.
  destruct (call (Recv (fd c) len) e) as [[err|d1] e1]; cbn [fst snd recv_failed_ev] in Hs.
  - destruct err; try (by intros [= <- <- <-]). intros Hrun. exact (saw_trans _ _ _ _ _ _ Hs (IH _ Hrun)).
  - intros [= <- <- <-]. by rewrite (proj2 (Z.ltb_ge _ _)) by lia.
Qed.

Lemma writeInner_failed n buf c e r e' :
  (forall m w, (sys (Send (fd c) buf) w).1 = inr m -> 0 <= m) ->
  writeInner_loop n buf c e = Some (r, e') -> saw send_failed_ev (r <? 0) e e'.
Proof.
  intros Hpos. revert e. induction n as [|n IH]; intros e; [done|]. simpl.
  pose proof (saw_call send_failed_ev (Send (fd c) buf) e) as Hs.
  pose proof (proj1 (call_kw (Send (fd c) buf) e)) as Hr.
  destruct (call (Send (fd c) buf) e) as [[err|m] e1]; cbn [fst snd send_failed_ev] in Hs, Hr.
  - destruct err; try (by intros [= <- <-]). intros Hrun. exact (saw_trans _ _ _ _ _ _ Hs (IH _ Hrun)).
  - intros [= <- <-]. symmetry in Hr. by rewrite (proj2 (Z.ltb_ge _ _)) by (by eapply Hpos).
Qed.

(** ** readSocket *)

Lemma readSocket_loop_spec n c (e : Env W) :
  buf_wf (readBuf c) -> SPBuffer.bytesWrite (readBuf c) <= Z.of_nat n ->
  exists ok b e' d, readSocket_loop ifuel n c e = Some (ok, set_readBuf b c, e') /\
    io_step (fd c) e e' d [] /\ buf_wf b /\ same_block (readBuf c) b /\
    contents b = contents (readBuf c) ++ d.
Proof.
  revert c e. induction n as [|n IH]; intros c e Hwf Hn; simpl;
    rewrite bytesWrite_eq in Hn by done; pose proof (distanceWrite_eq _ Hwf) as Hdist;
    pose proof (front_range _ Hwf); pose proof Hwf as [? ? _ ? ? _];
    destruct (Z.eqb_spec (SPBuffer.distanceWrite (readBuf c)) 0) as [Hz|Hz]; try lia.
  1,2: exists true, (readBuf c), e, []; rewrite app_nil_r;
       split_and!; try done; [by destruct c|apply io_refl].
  destruct (readInner_spec (SPBuffer.distanceWrite (readBuf c)) c e ltac:(lia))
    as (r & d & e1 & -> & Hio & Hd & Hr). simpl.
  destruct (fill_spec (readBuf c) d Hwf Hd) as (b1 & b2 & Hst & Hcm & Hwf2 & Hs2 & Hc2).
  rewrite Hst. simpl.
  assert (Hlen : u32 (Z.of_nat (length d)) = Z.of_nat (length d)) by (apply u32_small; lia).
  destruct (Z.ltb_spec 0 r) as [Hpos|Hpos].
  - destruct Hr as [->|[-> _]]; [|lia]. rewrite Hlen, Hcm. simpl.
    case_match eqn:E; [by exists true, b2, e1, d|]. apply Z.ltb_ge in E.
    destruct (IH (set_readBuf b2 (set_readBuf b1 c)) e1) as (ok & b & e' & d' & Hrun & Hio' & Hwf' & Hs' & Hc');
      [done|simpl; rewrite bytesWrite_eq by done|].
    { pose proof (contents_length b2 Hwf2) as Hl. pose proof (contents_length _ Hwf) as Hl0.
      rewrite Hc2, length_app in Hl. destruct Hs2 as (-> & _). lia. }
    simpl in *. exists ok, b, e', (d ++ d'). rewrite Hrun, Hc', Hc2, app_assoc.
    split_and!; try done; [|by etrans]. exact (io_trans _ _ _ _ _ _ _ _ Hio Hio').
  - assert (d = []) as ->.
    { destruct Hr as [->|[_ ->]]; [|done]. apply length_zero_iff_nil. lia. }
    rewrite store_nil in Hst by done. injection Hst as <-.
    case_match; [exists true, (readBuf c), e1, []|exists false, (readBuf c), e1, []];
      by rewrite app_nil_r.
Qed.

Lemma readSocket_spec c (e : Env W) :
  buf_wf (readBuf c) ->
  exists ok b e' d, readSocket ifuel c e = Some (ok, set_readBuf b c, e') /\
    io_step (fd c) e e' d [] /\ buf_wf b /\ same_block (readBuf c) b /\
    contents b = contents (readBuf c) ++ d.
Proof.
  intros Hwf. apply readSocket_loop_spec; [done|].
  rewrite bytesWrite_eq by done. pose proof (bw_size _ Hwf). lia.
Qed.

(** It reports failure exactly when a receive failed. *)
Lemma readSocket_loop_failed n c e ok c' e' :
  readSocket_loop ifuel n c e = Some (ok, c', e') -> saw recv_failed_ev (negb ok) e e'.
Proof.
  revert c e. induction n as [|n IH]; intros c e;
    simpl; (destruct (_ =? 0); [intros [= <- _ <-]; apply saw_refl|try done]).
  destruct (readInner ifuel _ c e) as [[[r d] e1]|] eqn:Er; [|done]. apply readInner_failed in Er. simpl.
  destruct (SPBuffer.store_at_writePtr d (readBuf c)) as [b|]; [|done]. simpl.
  destruct (Z.ltb_spec 0 r).
  - destruct (SPBuffer.commitWrite (u32 r) b) as [b2|]; [|done]. simpl.
    rewrite (proj2 (Z.ltb_ge r 0)) in Er by lia. destruct (r <? _); [by intros [= <- _ <-]|].
    intros Hrun. exact (saw_trans _ _ _ _ _ _ Er (IH _ _ Hrun)).
  - destruct (Z.eqb_spec r 0) as [->|]; [by intros [= <- _ <-]|].
    rewrite (proj2 (Z.ltb_lt r 0)) in Er by lia. by intros [= <- _ <-].
Qed.

Lemma readSocket_failed c e ok c' e' :
  readSocket ifuel c e = Some (ok, c', e') -> ok = negb (recv_failed e e').
Proof. intros Hrun%readSocket_loop_failed%saw_drop. unfold recv_failed. by rewrite Hrun, negb_involutive. Qed.

(** ** Sending the front of a buffer *)

(** One round of [commitWrite] and of [writeBack]: the contiguous front of a
    non-empty buffer is offered and what was taken is consumed. *)
Lemma flush_round b c (e : Env W) :
  buf_wf b -> SPBuffer.distanceRead b <> 0 ->
  exists data r e' k b',
    SPBuffer.load_at_readPtr (SPBuffer.distanceRead b) b = Some data /\
    writeInner ifuel data c e = Some (r, e') /\
    io_step (fd c) e e' [] (take k (contents b)) /\
    Z.of_nat k <= SPBuffer.distanceRead b /\
    (r = Z.of_nat k \/ r = -1 /\ k = 0%nat) /\ u32 (Z.of_nat k) = Z.of_nat k /\
    SPBuffer.commitRead (Z.of_nat k) b = Some b' /\ buf_wf b' /\ same_block b b' /\
    contents b' = drop k (contents b) /\ SPBuffer.size b' = SPBuffer.size b - Z.of_nat k.
Proof.
  intros Hwf Hne. pose proof (distanceRead_eq b Hwf) as Hd. pose proof Hwf as [? ? _ ? ? _].
  pose proof (contents_length b Hwf) as Hl.
  set (data := take (Z.to_nat (SPBuffer.distanceRead b)) (contents b)).
  destruct (writeInner_spec data c e) as (r & e' & k & Hrun & Hio & Hk & Hr).
  unfold data in Hk. rewrite length_take in Hk.
  destruct (commitRead_spec b (Z.of_nat k) Hwf) as (b' & Hcm & Hwf' & Hs & Hc'); [lia|].
  rewrite Nat2Z.id in Hc'. exists data, r, e', k, b'.
  split_and!; try done; [by apply load_spec; [|lia]| |lia|apply u32_small; lia|].
  - unfold data in Hio. rewrite take_take in Hio.
    by replace (Nat.min k _) with k in Hio by lia.
  - pose proof (contents_length b' Hwf') as Hl'. rewrite Hc', length_drop in Hl'. lia.
Qed.

(** ** commitWrite *)

Lemma commitWrite_loop_spec n c (e : Env W) :
  buf_wf (writeBuf c) -> SPBuffer.size (writeBuf c) <= Z.of_nat n ->
  exists r b e' d, commitWrite_loop ifuel n c e = Some (r, set_writeBuf b c, e') /\
    io_step (fd c) e e' [] d /\ buf_wf b /\ same_block (writeBuf c) b /\
    contents (writeBuf c) = d ++ contents b /\ (r = SPBuffer.size b \/ r = -1).
Proof.
  revert c e. induction n as [|n IH]; intros c e Hwf Hn; simpl;
    pose proof (distanceRead_eq _ Hwf) as Hdist; pose proof Hwf as [? ? _ ? ? _];
    destruct (Z.eqb_spec (SPBuffer.distanceRead (writeBuf c)) 0) as [Hz|Hz]; try lia.
  1,2: exists 0, (writeBuf c), e, []; split_and!; try done;
       [by destruct c|apply io_refl|left; lia].
  destruct (flush_round (writeBuf c) c e Hwf Hz)
    as (data & r & e1 & k & b & -> & Hrun & Hio & Hk & Hr & Hu & Hcm & Hwf' & Hs & Hc & Hsz).
  simpl. rewrite Hrun. simpl.
  assert (Hsplit : contents (writeBuf c) = take k (contents (writeBuf c)) ++ contents b)
    by (by rewrite Hc, take_drop).
  destruct (Z.ltb_spec 0 r) as [Hpos|Hpos].
  - destruct Hr as [->|[-> _]]; [|lia]. rewrite Hu, Hcm. simpl.
    case_match; [eexists _, b, e1, _; split_and!; [done..|by left]|].
    destruct (IH (set_writeBuf b c) e1) as (r' & b' & e' & d' & Hrun' & Hio' & Hwf'' & Hs' & Hc' & Hr');
      [done|simpl; lia|].
    simpl in *. eexists r', b', e', _. rewrite Hrun'. split_and!; try done.
    + exact (io_trans _ _ _ _ _ _ _ _ Hio Hio').
    + by etrans.
    + by rewrite <- app_assoc, <- Hc'.
  - assert (k = 0%nat) as -> by lia. simpl in *.
    case_match; eexists _, (writeBuf c), e1, []; split_and!; try done;
      [by destruct c|by left|by destruct c|right; lia].
Qed.

Lemma commitWrite_spec c (e : Env W) :
  buf_wf (writeBuf c) ->
  exists r b e' d, commitWrite ifuel c e = Some (r, set_writeBuf b c, e') /\
    io_step (fd c) e e' [] d /\ buf_wf b /\ same_block (writeBuf c) b /\
    contents (writeBuf c) = d ++ contents b /\ (r = SPBuffer.size b \/ r = -1).
Proof.
  intros Hwf. apply commitWrite_loop_spec; [done|].
  unfold SPBuffer.bytesRead. pose proof (bw_size _ Hwf). lia.
Qed.

(** It returns less than 0 exactly when a send failed. *)
Lemma commitWrite_loop_failed n c e r c' e' :
  commitWrite_loop ifuel n c e = Some (r, c', e') ->
  exists b, saw send_failed_ev b e e' /\
    if b then r < 0 else r = 0 \/ r = SPBuffer.bytesRead (writeBuf c').
Proof.
  revert c e. induction n as [|n IH]; intros c e; simpl;
    (destruct (_ =? 0); [intros [= <- _ <-]; exists false; split; [apply saw_refl|by left]|try done]).
  destruct (SPBuffer.load_at_readPtr _ _) as [d|]; [|done]. simpl.
  destruct (writeInner ifuel d c e) as [[k e1]|] eqn:Ew; [|done].
  apply writeInner_failed in Ew; [|intros m w Hm].
  2:{ destruct (sys (Send (fd c) d) w) as [y w'] eqn:E. simpl in Hm. subst y. apply send_len in E. lia. }
  simpl. destruct (Z.ltb_spec 0 k).
  - destruct (SPBuffer.commitRead (u32 k) _) as [b2|]; [|done]. simpl.
    rewrite (proj2 (Z.ltb_ge k 0)) in Ew by lia. destruct (k <? _).
    + intros [= <- <- <-]. exists false. split; [done|by right].
    + intros Hrun. destruct (IH _ _ Hrun) as (b & Hs & Hb). exists b.
      split; [exact (saw_trans _ _ _ _ _ _ Ew Hs)|done].
  - destruct (Z.eqb_spec k 0) as [->|].
    + intros [= <- <- <-]. exists false. split; [done|by right].
    + rewrite (proj2 (Z.ltb_lt k 0)) in Ew by lia. intros [= <- <- <-]. exists true. split; [done|lia].
Qed.

Lemma commitWrite_failed c e r c' e' :
  commitWrite ifuel c e = Some (r, c', e') -> buf_wf (writeBuf c') -> (r <? 0) = send_failed e e'.
Proof.
  intros Hrun Hwf. destruct (commitWrite_loop_failed _ _ _ _ _ _ Hrun) as (b & Hs%saw_drop & Hb).
  unfold send_failed. rewrite Hs. pose proof (bw_size _ Hwf). unfold SPBuffer.bytesRead in Hb.
  destruct b; [by apply Z.ltb_lt|apply Z.ltb_ge; lia].
Qed.

(** ** writeBack *)

Lemma writeBack_loop_spec n acc c (e : Env W) :
  buf_wf (readBuf c) -> SPBuffer.size (readBuf c) <= Z.of_nat n ->
  exists r b e' d, writeBack_loop ifuel n acc c e = Some (r, set_readBuf b c, e') /\
    io_step (fd c) e e' [] d /\ buf_wf b /\ same_block (readBuf c) b /\
    contents (readBuf c) = d ++ contents b /\
    (r = acc + Z.of_nat (length d) \/ r = -1).
Proof.
  revert acc c e. induction n as [|n IH]; intros acc c e Hwf Hn; simpl;
    pose proof (distanceRead_eq _ Hwf) as Hdist; pose proof Hwf as [? ? _ ? ? _];
    destruct (Z.eqb_spec (SPBuffer.distanceRead (readBuf c)) 0) as [Hz|Hz]; try lia.
  1,2: exists acc, (readBuf c), e, []; split_and!; try done;
       [by destruct c|apply io_refl|left; simpl; lia].
  destruct (flush_round (readBuf c) c e Hwf Hz)
    as (data & r & e1 & k & b & -> & Hrun & Hio & Hk & Hr & Hu & Hcm & Hwf' & Hs & Hc & Hsz).
  simpl. rewrite Hrun. simpl. pose proof (contents_length _ Hwf) as Hl.
  assert (Hsplit : contents (readBuf c) = take k (contents (readBuf c)) ++ contents b)
    by (by rewrite Hc, take_drop).
  destruct (Z.ltb_spec 0 r) as [Hpos|Hpos].
  - destruct Hr as [->|[-> _]]; [|lia]. rewrite Hu, Hcm. simpl.
    destruct (IH (acc + Z.of_nat k) (set_readBuf b c) e1)
      as (r' & b' & e' & d' & Hrun' & Hio' & Hwf'' & Hs' & Hc' & Hr'); [done|simpl; lia|].
    simpl in *. eexists r', b', e', _. rewrite Hrun'. split_and!; try done.
    + exact (io_trans _ _ _ _ _ _ _ _ Hio Hio').
    + by etrans.
    + by rewrite <- app_assoc, <- Hc'.
    + rewrite length_app, length_take. destruct Hr' as [->| ->]; [left; lia|by right].
  - assert (k = 0%nat) as -> by lia. simpl in *.
    case_match; eexists _, (readBuf c), e1, []; split_and!; try done;
      [by destruct c|left; simpl; lia|by destruct c|right; lia].
Qed.
Lemma contents_nil b : buf_wf b -> SPBuffer.size b = 0 <-> contents b = [].
Proof.
  intros Hwf. pose proof (contents_length b Hwf) as Hl. split.
  - intros. apply length_zero_iff_nil. lia.
  - intros E. rewrite E in Hl. done.
Qed.

Lemma writeBack_spec c (e : Env W) :
  ctl_wf c ->
  exists r rb wb e' d1 d2,
    writeBack ifuel c e = Some (r, set_readBuf rb (set_writeBuf wb c), e') /\
    io_step (fd c) e e' [] (d1 ++ d2) /\ (buf_wf rb /\ buf_wf wb) /\
    same_block (readBuf c) rb /\ same_block (writeBuf c) wb /\
    contents (writeBuf c) = d1 ++ contents wb /\ contents (readBuf c) = d2 ++ contents rb /\
    (contents wb <> [] -> d2 = []) /\
    (r = -1 \/ contents wb <> [] /\ r = SPBuffer.bytesRead wb \/
     contents wb = [] /\ r = Z.of_nat (length d2)).
Proof.
  intros [Hr Hw]. destruct (commitWrite_spec c e Hw) as (r & wb & e1 & d1 & Hrun & Hio & Hwf & Hsw & Hc & Hres).
  unfold writeBack. rewrite Hrun. simpl. destruct (Z.eqb_spec r 0) as [->|Hr0]; simpl.
  - assert (Hz : SPBuffer.size wb = 0) by lia. pose proof (proj1 (contents_nil wb Hwf) Hz) as Hnil.
    destruct (writeBack_loop_spec (Z.to_nat (SPBuffer.bytesRead (readBuf c))) 0 (set_writeBuf wb c) e1)
      as (r' & rb & e' & d2 & Hrun' & Hio' & Hwf' & Hsr & Hc' & Hres').
    { done. } { simpl. unfold SPBuffer.bytesRead. pose proof (bw_size _ Hr). lia. }
    exists r', rb, wb, e', d1, d2. split_and!; try done.
    + exact (io_trans _ _ _ _ _ _ _ _ Hio Hio').
    + destruct Hres' as [->|]; [|by left]. right; right. split; [done|lia].
  - exists r, (readBuf c), wb, e1, d1, []. rewrite app_nil_r. split_and!; try done.
    destruct Hres as [->|]; [|by left]. right; left. split; [|done].
    intros Hn. apply Hr0. by apply contents_nil.
Qed.

(** ** The direct write *)

Lemma direct_write_spec c buf (e : Env W) :
  exists r c' e' k, write ifuel buf c e = Some (r, c', e') /\
    io_step (fd c) e e' [] (take k buf) /\ (k <= length buf)%nat /\
    c' = set_peerClosed (peerClosed c || (r =? -2)) c /\
    (r = Z.of_nat k \/ k = 0%nat /\ (r = -1 \/ r = -2)).
Proof.
  unfold write. assert (Hp : ~ interrupted ifuel (Send (fd c) buf) (kw e)) by (by apply patient).
  revert e Hp. generalize ifuel as n. induction n as [|n IH]; intros e Hp; [by destruct Hp|].
  simpl in *. pose proof (send_step (fd c) buf e) as Hstep.
  pose proof (call_kw (Send (fd c) buf) e) as [Hr Hkw].
  assert (Hc : forall b, set_peerClosed (peerClosed c || b) c
                         = if b then set_peerClosed true c else c)
    by (intros []; destruct c; simpl; by rewrite ?orb_true_r, ?orb_false_r).
  destruct (call (Send (fd c) buf) e) as [[err|m] e1]; simpl in Hr, Hkw.
  - destruct err;
      [|exists 0, c, e1, 0%nat|exists (-2), (set_peerClosed true c), e1, 0%nat
       |exists (-2), (set_peerClosed true c), e1, 0%nat|exists (-1), c, e1, 0%nat ..];
      try (rewrite Hc; split_and!; [done|done|lia|done|lia]).
    destruct (IH e1) as (r & c' & e' & k & -> & Hio & ?).
    { rewrite Hkw. intros ?. by apply Hp. }
    exists r, c', e', k. split_and!; try tauto.
    exact (io_trans _ _ _ _ _ _ _ _ Hstep Hio).
  - destruct Hstep as [Hm Hio]. exists m, c, e1, (Z.to_nat m). rewrite Hc.
    rewrite (proj2 (Z.eqb_neq _ _)) by lia. split_and!; [done|done|lia|done|lia].
Qed.

End spec.

(** ** moveToWriteBuffer *)

Lemma move_loop_spec n moved maxMove c :
  ctl_wf c -> 0 <= moved <= maxMove -> maxMove < 2 ^ 32 ->
  let k := maxMove - moved in
  k <= Z.of_nat n ->
  k = Z.min (SPBuffer.size (readBuf c)) (SPBuffer.bytesWrite (writeBuf c)) ->
  exists rb wb, move_loop n moved maxMove c = Some (maxMove, set_writeBuf wb (set_readBuf rb c)) /\
    buf_wf rb /\ buf_wf wb /\ same_block (readBuf c) rb /\ same_block (writeBuf c) wb /\
    contents rb = drop (Z.to_nat k) (contents (readBuf c)) /\
    contents wb = contents (writeBuf c) ++ take (Z.to_nat k) (contents (readBuf c)).
Proof.
  revert moved c. induction n as [|n IH]; intros moved c [Hr Hw] Hm Hmax k Hn Hk;
    rewrite bytesWrite_eq in Hk by done; assert (Hkd : k = maxMove - moved) by done;
    clearbody k; simpl; destruct (Z.ltb_spec moved maxMove); simpl; try lia.
  1,3: exists (readBuf c), (writeBuf c); replace k with 0 by lia;
       rewrite app_nil_r; split_and!; try done; destruct c; simpl; do 2 f_equal; lia.
  pose proof (distanceRead_eq _ Hr) as Hdr. pose proof (distanceWrite_eq _ Hw) as Hdw.
  pose proof (front_range _ Hw). pose proof Hr as [? ? _ ? ? _]. pose proof Hw as [? ? _ ? ? _].
  pose proof (contents_length _ Hr) as Hlr. pose proof (contents_length _ Hw) as Hlw.
  set (chunk := Z.min _ _).
  assert (Hc0 : 0 < chunk <= k /\ chunk <= SPBuffer.distanceRead (readBuf c) /\
                chunk <= SPBuffer.distanceWrite (writeBuf c)) by (subst chunk; lia).
  clearbody chunk. rewrite (proj2 (Z.eqb_neq _ _)) by lia.
  rewrite load_spec by (done || lia). simpl.
  set (d := take (Z.to_nat chunk) (contents (readBuf c))).
  assert (Hd : Z.of_nat (length d) = chunk) by (subst d; rewrite length_take; lia).
  destruct (fill_spec (writeBuf c) d Hw ltac:(lia)) as (w1 & w2 & -> & Hcm & Hw2 & Hsw & Hcw).
  destruct (commitRead_spec (readBuf c) chunk Hr ltac:(lia)) as (r2 & Hcm2 & Hr2 & Hsr & Hcr).
  simpl. rewrite Hcm2, <- Hd, Hcm. simpl. rewrite Hd, u32_small by lia.
  pose proof (contents_length _ Hr2) as Hlr2. pose proof (contents_length _ Hw2) as Hlw2.
  rewrite Hcr, length_drop in Hlr2. rewrite Hcw, length_app in Hlw2.
  destruct (IH (moved + chunk) (set_writeBuf w2 (set_readBuf r2 c)))
    as (rb & wb & Hrun & Hrb & Hwb & Hsr' & Hsw' & Hcr' & Hcw'); [done|lia|done|lia| |].
  { simpl. rewrite bytesWrite_eq by done. destruct Hsw as (-> & _). lia. }
  simpl in *. exists rb, wb. rewrite Hrun. split_and!; try done; [by etrans..| |].
  - rewrite Hcr', Hcr, drop_drop. f_equal. lia.
  - rewrite Hcw', Hcw, Hcr, <- app_assoc. subst d. f_equal.
    rewrite <- (take_drop (Z.to_nat chunk) (take (Z.to_nat k) _)), take_take, skipn_firstn_comm.
    f_equal; f_equal; lia.
Qed.

Lemma moveToWriteBuffer_spec c :
  ctl_wf c ->
  let k := Z.min (SPBuffer.bytesRead (readBuf c)) (SPBuffer.bytesWrite (writeBuf c)) in
  exists rb wb, moveToWriteBuffer c = Some (k, set_writeBuf wb (set_readBuf rb c)) /\
    buf_wf rb /\ buf_wf wb /\ same_block (readBuf c) rb /\ same_block (writeBuf c) wb /\
    contents rb = drop (Z.to_nat k) (contents (readBuf c)) /\
    contents wb = contents (writeBuf c) ++ take (Z.to_nat k) (contents (readBuf c)).
Proof.
  intros Hwf k. pose proof Hwf as [Hr Hw]. pose proof Hr as [? _ _ ? _ _].
  unfold SPBuffer.bytesRead in *.
  assert (Hk : k = Z.min (SPBuffer.size (readBuf c)) (SPBuffer.bytesWrite (writeBuf c))) by done.
  pose proof (bytesWrite_eq _ Hw). pose proof Hw as [? _ _ ? _ _].
  destruct (move_loop_spec (Z.to_nat k) 0 k c) as (rb & wb & H'); [done|lia|lia|lia|lia|].
  rewrite Z.sub_0_r in H'. by exists rb, wb.
Qed.

(** ** init and destroy over the provider interface *)

Section provider.
Context {P : Type} {cap : BUFFER_TYPE -> Z} `{HP : BufferProviderLaws P cap}.
Context (cfg : SPTcpConfig).
Context (Hcap : forall ty, cap ty = match ty with
                  | BUFFER_TYPE_READ => READ_BSIZE cfg | BUFFER_TYPE_WRITE => WRITE_BSIZE cfg end).
Context (Hbounds : tcp_config_bounds cfg) (Hint : tcp_config_int cfg).

(** The buffers a controller holds. *)
Definition held (c : SOCKController.t) : list (BUFFER_TYPE * buf_addr) :=
  (match SPBuffer.buffer (writeBuf c) with Some a => [(BUFFER_TYPE_WRITE, a)] | None => [] end) ++
  (match SPBuffer.buffer (readBuf c) with Some a => [(BUFFER_TYPE_READ, a)] | None => [] end).

Definition typed (c : SOCKController.t) : Prop :=
  SPBuffer.type (readBuf c) = BUFFER_TYPE_READ /\ SPBuffer.type (writeBuf c) = BUFFER_TYPE_WRITE.

Lemma destroy_none b (p : P) : SPBuffer.buffer b = None -> SPBuffer.destroy b p = Some p.
Proof. intros E. unfold SPBuffer.destroy. by rewrite E. Qed.

(** Destroying a buffer that may or may not have been initialised. *)
Lemma destroy_opt_spec b ty (p : P) out :
  SPBuffer.type b = ty ->
  lent p (match SPBuffer.buffer b with Some a => [(ty, a)] | None => [] end ++ out) ->
  exists p', SPBuffer.destroy b p = Some p' /\ lent p' out /\ forall n, can_lend n p -> can_lend n p'.
Proof.
  intros <-. destruct (SPBuffer.buffer b) as [a|] eqn:E; simpl; intros Hl.
  - by apply (destroy_spec _ _ _ _ E).
  - exists p. by rewrite destroy_none.
Qed.

Lemma controller_destroy_spec c (p : P) out :
  typed c -> lent p (held c ++ out) ->
  exists p', destroy c p = Some p' /\ lent p' out /\ forall n, can_lend n p -> can_lend n p'.
Proof.
  intros [Htr Htw]. unfold held, destroy. rewrite <- app_assoc. intros Hl.
  destruct (destroy_opt_spec _ _ _ _ Htw Hl) as (p1 & -> & Hl1 & Hc1). simpl.
  destruct (destroy_opt_spec _ _ _ _ Htr Hl1) as (p2 & -> & Hl2 & Hc2). exists p2. auto.
Qed.

(** [init] on a freshly constructed controller. *)
Lemma controller_init_spec ip' port' fd' ctx' info' ur uw (p : P) out :
  lent p out -> can_lend 2 p ->
  Z.of_nat (length ur) = READ_BSIZE cfg -> Z.of_nat (length uw) = WRITE_BSIZE cfg ->
  exists ok c p', init cfg fd' ctx' info' ur uw (set_addr ip' port' SOCKController) p = Some (ok, c, p') /\
    typed c /\ lent p' (held c ++ out) /\
    if ok then
      ctl_wf c /\ contents (readBuf c) = [] /\ contents (writeBuf c) = [] /\
      fd c = fd' /\ events c = EPOLL_DEFAULT_EVENT cfg /\ peerClosed c = false /\
      info c = Some info' /\ ip c = ip' /\ port c = port'
    else fd c = 0 /\ info c = None /\ exists ty p1 p2, get_buffer ty p1 = Some (None, p2).
Proof.
  intros Hl Hcan Hur Huw. unfold init.
  destruct (Init_spec cfg Hcap Hbounds Hint 1 BUFFER_TYPE_READ ur p out Hl Hcan)
    as (ok & rb & p1 & E & Hcan1 & Htr & Hres); [by rewrite Hcap|].
  simpl. rewrite E. simpl.
  destruct ok; simpl; [|eexists false, _, p1; split; [done|]; destruct Hres as (Hb & Hl1 & Hget);
    unfold held; simpl; rewrite Hb; split_and!; try done; by eexists _, _, _].
  destruct Hres as (a & Hb & Hwf & Hc & _ & Hl1 & _).
  destruct (Init_spec cfg Hcap Hbounds Hint 0 BUFFER_TYPE_WRITE uw p1 _ Hl1 Hcan1)
    as (ok & wb & p2 & E2 & _ & Htw & Hres2); [by rewrite Hcap|].
  rewrite E2. simpl.
  destruct ok; simpl; eexists _, _, p2; (split; [done|]); unfold held; simpl; rewrite Hb.
  - destruct Hres2 as (a' & -> & Hwf' & Hc' & _ & Hl2 & _). by split_and!.
  - destruct Hres2 as (-> & Hl2 & Hget). split_and!; try done; by eexists _, _, _.
Qed.
End provider.
