(* ===== verification/ControllerProps.v ===== *)
(** * ControllerProps: the correctness theorems of SOCKController *)

From S2P Require Import Prelude Types BufferProvider BufferPool BufferPoolSpec BufferPoolProps.
From S2P Require Import Buffer BufferSpec BufferProps Kernel Controller ControllerSpec.
Import SOCKController.

(** ** Properties *)

(** C10: reading the socket.  [readSocket] always returns; the bytes received
    on the connection during the call, and no others, are appended to the read
    buffer in order; nothing is sent or closed and the write buffer is left
    alone. *)
Theorem read_socket_stream {W} `{KernelLaws W} ifuel `{!Patient W ifuel} c (e : Env W) :
  ctl_wf c ->
  exists ok b e', readSocket ifuel c e = Some (ok, set_readBuf b c, e') /\ buf_wf b /\
    exists d, recvd (fd c) e' = recvd (fd c) e ++ d /\
      contents b = contents (readBuf c) ++ d /\
      sent (fd c) e' = sent (fd c) e /\ closed e' = closed e /\
      forall g, g <> fd c -> recvd g e' = recvd g e /\ sent g e' = sent g e.
Proof.
  intros [Hr _]. destruct (readSocket_spec (ifuel := ifuel) c e Hr)
    as (ok & b & e' & d & Hrun & [R S O C] & Hwf & _ & Hc).
  exists ok, b, e'. split_and!; [done|done|]. exists d. by rewrite app_nil_r in S.
Qed.

(** C11: flushing the write buffer.  [commitWrite] always returns; what was
    sent followed by what is still pending is what was pending before; the
    value returned is the number of bytes still pending, or -1 (never -2). *)
Theorem commit_write_stream {W} `{KernelLaws W} ifuel `{!Patient W ifuel} c (e : Env W) :
  ctl_wf c ->
  exists r b e', commitWrite ifuel c e = Some (r, set_writeBuf b c, e') /\ buf_wf b /\
    (r = SPBuffer.bytesRead b \/ r = -1) /\
    exists d, sent (fd c) e' = sent (fd c) e ++ d /\
      contents (writeBuf c) = d ++ contents b /\
      recvd (fd c) e' = recvd (fd c) e /\ closed e' = closed e.
Proof.
  intros [_ Hw]. destruct (commitWrite_spec (ifuel := ifuel) c e Hw)
    as (r & b & e' & d & Hrun & [R S O C] & Hwf & _ & Hc & Hr).
  exists r, b, e'. split_and!; [done..|]. exists d. by rewrite app_nil_r in R.
Qed.

(** Echoing.  [writeBack] sends pending writes first and the content of
    the read buffer only once none is left; what it sends is a prefix of the
    two in that order and the rest stays buffered.  Its result is -1, the
    number of bytes left in the write buffer when they could not all be sent,
    or the number of bytes echoed from the read buffer. *)
Theorem write_back_order {W} `{KernelLaws W} ifuel `{!Patient W ifuel} c (e : Env W) :
  ctl_wf c ->
  exists r rb wb e', writeBack ifuel c e = Some (r, set_readBuf rb (set_writeBuf wb c), e') /\
    buf_wf rb /\ buf_wf wb /\
    exists d1 d2, sent (fd c) e' = sent (fd c) e ++ d1 ++ d2 /\
      contents (writeBuf c) = d1 ++ contents wb /\ contents (readBuf c) = d2 ++ contents rb /\
      (contents wb <> [] -> d2 = []) /\
      (r = -1 \/ contents wb <> [] /\ r = SPBuffer.bytesRead wb \/
       contents wb = [] /\ r = Z.of_nat (length d2)).
Proof.
  intros Hc. destruct (writeBack_spec (ifuel := ifuel) c e Hc)
    as (r & rb & wb & e' & d1 & d2 & Hrun & Hio & Hwf & _ & _ & Hcw & Hcr & Hd2 & Hres).
  exists r, rb, wb, e'. split_and!; [done|apply Hwf|apply Hwf|]. exists d1, d2.
  split; [apply Hio|]. by split_and!.
Qed.

(** [moveToWriteBuffer] moves as many bytes as are readable and fit, from
    the front of the read buffer to the back of the write buffer, whatever way
    the two rings are wrapped, and returns their number. *)
Theorem move_to_write_buffer c :
  ctl_wf c ->
  let k := Z.min (SPBuffer.bytesRead (readBuf c)) (SPBuffer.bytesWrite (writeBuf c)) in
  exists c', moveToWriteBuffer c = Some (k, c') /\ ctl_wf c' /\
    contents (readBuf c') = drop (Z.to_nat k) (contents (readBuf c)) /\
    contents (writeBuf c') = contents (writeBuf c) ++ take (Z.to_nat k) (contents (readBuf c)) /\
    fd c' = fd c /\ events c' = events c /\ peerClosed c' = peerClosed c.
Proof.
  intros Hwf k. destruct (moveToWriteBuffer_spec c Hwf)
    as (rb & wb & Hrun & Hr & Hw & _ & _ & Hcr & Hcw).
  eexists. split; [exact Hrun|]. by split_and!.
Qed.

(** Buffer access.  [read], [peek] and [writeTemp] act on the queues with
    the length reduced modulo 2^32 (the [size_t] argument becomes [unsigned]):
    below 2^32 they do what was asked, and a length of 2^32 moves nothing. *)
Theorem controller_access c len buf :
  ctl_wf c -> 0 <= len <= Z.of_nat (length buf) ->
  let n := len mod 2 ^ 32 in
  (exists c1, read len c
      = Some (Z.min n (getReadBufferSize c), take (Z.to_nat n) (contents (readBuf c)), c1) /\
     ctl_wf c1 /\ contents (readBuf c1) = drop (Z.to_nat n) (contents (readBuf c)) /\
     writeBuf c1 = writeBuf c) /\
  peek len c = Some (Z.min n (getReadBufferSize c), take (Z.to_nat n) (contents (readBuf c))) /\
  (exists c2, let w := Z.min n (SPBuffer.bytesWrite (writeBuf c)) in
     writeTemp buf len c = Some (w, c2) /\ ctl_wf c2 /\
     contents (writeBuf c2) = contents (writeBuf c) ++ take (Z.to_nat w) buf /\
     readBuf c2 = readBuf c) /\
  read (2 ^ 32) c = Some (0, [], c).
Proof.
  intros [Hr Hw] Hlen n. assert (Hn : 0 <= n <= len).
  { split; [apply Z.mod_pos_bound; lia|apply Z.mod_le; lia]. }
  unfold read, peek, writeTemp, getReadBufferSize, SPBuffer.bytesRead.
  change (u32 len) with n. split_and!.
  - destruct (read_spec (readBuf c) n Hr) as (b & -> & ? & _ & ?); [lia|]. simpl.
    eexists. split; [done|]. by split_and!.
  - by apply peek_spec; [|lia].
  - destruct (write_spec (writeBuf c) buf n Hw) as (b & -> & ? & _ & ?); [lia..|].
    rewrite bytesWrite_eq by done. eexists. split; [done|]. by split_and!.
  - change (u32 (2 ^ 32)) with 0. unfold SPBuffer.read. simpl. by destruct c.
Qed.

(** The direct write.  [write] makes one successful [send] or none: it
    returns the number of bytes the socket took, 0 when it would block, -2 on a
    closed peer (recorded in [peerClosed]) and -1 on any other error, and
    touches neither buffer. *)
Theorem direct_write {W} `{KernelLaws W} ifuel `{!Patient W ifuel} c buf (e : Env W) :
  exists r c' e' k, write ifuel buf c e = Some (r, c', e') /\
    io_step (fd c) e e' [] (take k buf) /\ (k <= length buf)%nat /\
    c' = set_peerClosed (peerClosed c || (r =? -2)) c /\
    (r = Z.of_nat k \/ k = 0%nat /\ (r = -1 \/ r = -2)).
Proof. apply direct_write_spec. Qed.

(** Life cycle over the pool.  Constructing a controller, [init] and the
    destructor are defined from any reachable pool with room; a successful
    [init] gives two empty well-formed buffers and takes exactly those out of
    the pool, a failed one leaves the descriptor at 0, and destroying the
    controller in either case gives back everything it holds. *)
Theorem controller_lifecycle grant cfg s out fd' ctx' info' ur uw :
  pool_config cfg -> tcp_config_ok cfg = true -> tcp_config_int cfg ->
  rtc (pool_step grant cfg) pool_start (s, out) -> pool_can_lend cfg 2 s ->
  Z.of_nat (length ur) = READ_BSIZE cfg -> Z.of_nat (length uw) = WRITE_BSIZE cfg ->
  exists ok c s', init (H := pool_provider grant cfg) cfg fd' ctx' info' ur uw SOCKController s
                    = Some (ok, c, s') /\
    pool_lent cfg s' (held c ++ out) /\
    (if ok then ctl_wf c /\ contents (readBuf c) = [] /\ contents (writeBuf c) = [] /\
       fd c = fd' /\ events c = EPOLL_DEFAULT_EVENT cfg /\ peerClosed c = false
     else fd c = 0) /\
    exists s'', destroy (H := pool_provider grant cfg) c s' = Some s'' /\ pool_lent cfg s'' out.
Proof.
  intros Hc Hok Hint Hr Hcan Hur Huw. pose proof (pool_reach_lent _ _ _ _ Hc Hr) as Hl.
  destruct (controller_init_spec (HP := pool_laws grant cfg) cfg ltac:(by intros [])
              (tcp_config_ok_bounds _ Hok) Hint EmptyString 0 fd' ctx' info' ur uw s out Hl Hcan Hur Huw)
    as (ok & c & s' & Hrun & Hty & Hl' & Hres).
  exists ok, c, s'. split_and!; [done|done|destruct ok; tauto|].
  destruct (controller_destroy_spec (HP := pool_laws grant cfg) c s' out Hty Hl') as (s'' & Hrun' & Hl'' & _).
  by exists s''.
Qed.

(** Re-arming.  [REnableFunc] asks the kernel, through [funcEvent], for
    exactly the events the controller last enabled; it closes the connection,
    and forgets its events, precisely when that is refused. *)
Theorem renable_or_close {S} (funcEvent : t -> bool -> bool -> S -> bool * S)
    (funcClose : t -> S -> S) c s :
  let '(ret, s1) := funcEvent c (has_event (events c) EPOLLIN) (has_event (events c) EPOLLOUT) s in
  REnableFunc funcEvent funcClose c s
    = if ret then (c, s1) else (set_events 0 c, funcClose (set_events 0 c) s1).
Proof.
  unfold REnableFunc, renableEvents, close. by destruct (funcEvent c _ _ s) as [[] s1].
Qed.

(** Event masks.  After a successful [enableEvents] the mask holds exactly
    the requested events, so that a later [renableEvents] asks for the same;
    after a refusal it is empty. *)
Theorem enable_then_renable {S} (funcEvent : t -> bool -> bool -> S -> bool * S) rd wr c s :
  let '(ret, c', s1) := enableEvents funcEvent rd wr c s in
  ret = (funcEvent c rd wr s).1 /\ s1 = (funcEvent c rd wr s).2 /\
  has_event (events c') EPOLLIN = ret && rd /\ has_event (events c') EPOLLOUT = ret && wr /\
  (renableEvents funcEvent c' s1).1.1 = (funcEvent c' (ret && rd) (ret && wr) s1).1.
Proof.
  unfold enableEvents, renableEvents. destruct (funcEvent c rd wr s) as [ret s1]. simpl.
  assert (Hin : has_event (if ret then Z.lor (if rd then EPOLLIN else 0) (if wr then EPOLLOUT else 0)
                           else 0) EPOLLIN = ret && rd) by (by destruct ret, rd, wr).
  assert (Hout : has_event (if ret then Z.lor (if rd then EPOLLIN else 0) (if wr then EPOLLOUT else 0)
                           else 0) EPOLLOUT = ret && wr) by (by destruct ret, rd, wr).
  split_and!; [done|done|done|done|]. rewrite Hin, Hout.
  by destruct (funcEvent (set_events _ c) (ret && rd) (ret && wr) s1).
Qed.

(** ** Witnesses *)

Definition w_wbuf : SPBuffer.t :=
  SPBuffer.mk 6 1 3 8 (Some (0, 2000)) [x03; x00; x00; x00; x00; x00; x01; x02] BUFFER_TYPE_WRITE.

Lemma w_wbuf_wf : buf_wf w_wbuf.
Proof. constructor; simpl; try lia; vm_compute; eauto; congruence. Qed.

Definition w_ctl : SOCKController.t :=
  mk 7 EPOLLIN false None (Some 0) EmptyString 80 EmptyString w_buf w_wbuf.

Lemma w_ctl_wf : ctl_wf w_ctl.
Proof. split; [apply w_buf_wf|apply w_wbuf_wf]. Qed.

(** The peer has six bytes to deliver, four at a time, after a signal. *)
Definition w_env : Env LoopW := mkEnv (mkLoopW [x11; x12; x13; x14; x15; x16] 4 true 20) [].

Lemma read_socket_stream_witness :
  exists b e', readSocket 2 w_ctl w_env = Some (true, set_readBuf b w_ctl, e') /\
    contents b = contents w_buf ++ [x11; x12; x13; x14].
Proof.
  destruct (read_socket_stream 2 w_ctl w_env w_ctl_wf) as (ok & b & e' & Hrun & _ & d & _ & Hc & _).
  pose proof Hrun as Hrun'. vm_compute in Hrun'. injection Hrun' as <- <- <-.
  eexists _, _. split; [exact Hrun|vm_compute; reflexivity].
Defined.

Lemma commit_write_stream_witness :
  exists b e', commitWrite 2 w_ctl w_env = Some (0, set_writeBuf b w_ctl, e') /\
    sent 7 e' = [x01; x02; x03].
Proof.
  destruct (commit_write_stream 2 w_ctl w_env w_ctl_wf) as (r & b & e' & Hrun & _ & _ & d & _).
  pose proof Hrun as Hrun'. vm_compute in Hrun'. injection Hrun' as <- <- <-.
  eexists _, _. split; [exact Hrun|vm_compute; reflexivity].
Defined.

Lemma write_back_order_witness :
  exists c' e', writeBack 2 w_ctl w_env = Some (4, c', e') /\
    sent 7 e' = [x01; x02; x03; x0a; x0b; x0c; x0d].
Proof.
  destruct (write_back_order 2 w_ctl w_env w_ctl_wf) as (r & rb & wb & e' & Hrun & _).
  pose proof Hrun as Hrun'. vm_compute in Hrun'. injection Hrun' as <- <- <- <-.
  eexists _, _. split; [exact Hrun|vm_compute; reflexivity].
Defined.

Lemma move_to_write_buffer_witness :
  exists c', moveToWriteBuffer w_ctl = Some (4, c') /\
    contents (writeBuf c') = [x01; x02; x03; x0a; x0b; x0c; x0d].
Proof.
  destruct (move_to_write_buffer w_ctl w_ctl_wf) as (c' & Hrun & _ & _ & Hc & _).
  exists c'. split; [exact Hrun|]. rewrite Hc. vm_compute. reflexivity.
Defined.

Lemma controller_access_witness :
  exists c1, read 2 w_ctl = Some (2, [x0a; x0b], c1) /\ read (2 ^ 32) w_ctl = Some (0, [], w_ctl).
Proof.
  destruct (controller_access w_ctl 2 w_bytes w_ctl_wf) as ((c1 & Hrun & _) & _ & _ & Hz);
    [split; vm_compute; congruence|].
  exists c1. split; [exact Hrun|exact Hz].
Defined.

Lemma direct_write_witness :
  exists c' e', write 2 w_bytes w_ctl w_env = Some (4, c', e') /\ sent 7 e' = take 4 w_bytes.
Proof.
  destruct (direct_write 2 w_ctl w_bytes w_env) as (r & c' & e' & k & Hrun & _).
  pose proof Hrun as Hrun'. vm_compute in Hrun'. injection Hrun' as <- <- <-.
  eexists _, _. split; [exact Hrun|vm_compute; reflexivity].
Defined.

Lemma controller_lifecycle_witness :
  exists ok c s', init (H := pool_provider w_grant w_cfg) w_cfg 9 None 0 (replicate 1024 x00)
      (replicate 2048 x00) SOCKController w_s2 = Some (ok, c, s') /\
    exists s'', destroy (H := pool_provider w_grant w_cfg) c s' = Some s''.
Proof.
  destruct (controller_lifecycle w_grant w_cfg w_s2 w_out 9 None 0 (replicate 1024 x00)
              (replicate 2048 x00))
    as (ok & c & s' & Hrun & _ & _ & s'' & Hd & _);
    [apply w_config|vm_compute; reflexivity|repeat split; vm_compute; reflexivity
    |apply w_reach|vm_compute; reflexivity|vm_compute; reflexivity|vm_compute; reflexivity|].
  exists ok, c, s'. split; [exact Hrun|]. exists s''. exact Hd.
Defined.
