(* ===== verification/BlockQueue.v ===== *)
(** * BlockQueue: the bounded blocking queue of base/TPBlockQueue.hpp

    A ring of preallocated nodes linked by [next] pointers, modelled as the
    array of nodes in [memoryBlock]: a pointer is an index, the data of a node
    is [None] while no object is constructed there.  Every operation holds
    [dataMutex] from start to end, so each is one function from queue to queue;
    a wait that has to go on is [Blocked].  Following a pointer outside the
    block and taking an object that was never constructed are undefined
    behaviour, the result [None]. *)

From S2P Require Import Prelude.

(** What a waiting operation does at one moment. *)
Inductive waited (A : Type) := Blocked | Ready (a : A).
Arguments Blocked {A}.
Arguments Ready {A}.

Module TPBlockQueue.

Section queue.
Context {TYPE : Type}.

Record Node := mkNode { data : option TYPE; next : nat }.

Record t := mk {
  memoryBlock : option (list Node);
  isStopped : Z;
  size : Z;
  maxSize : Z;
  dataListHead : nat;
  dataListTail : nat }.

(** The constructor sets [memoryBlock] and [isStopped] only. *)
Definition TPBlockQueue (size0 maxSize0 : Z) (head0 tail0 : nat) : t :=
  mk None 0 size0 maxSize0 head0 tail0.

(** ** init *)

Section init.
(** [aligned_alloc] and [sizeof(Node)]. *)
Context (grant : Z -> bool) (sizeofNode : Z).

Definition blockBytes (capacity : Z) : Z :=
  let totalSize := u32 (sizeofNode * capacity) in
  Z.land (u32 (totalSize + 64 - 1)) (Z.lxor (64 - 1) (2 ^ 32 - 1)).

(** [nodes[i].next = &nodes[i + 1]], the last one back to [nodes[0]]. *)
Definition linked (capacity : Z) : list Node :=
  ((fun i => mkNode None (S i)) <$> seq 0 (Z.to_nat (capacity - 1))) ++ [mkNode None 0].

(** Writing the nodes stays inside the block or is undefined. *)
Definition init (capacity : Z) (q : t) : option (bool * t) :=
  if bool_decide (is_Some (memoryBlock q)) || (capacity =? 0) then Some (false, q) else
  if grant (blockBytes capacity) then
    if sizeofNode * capacity <=? blockBytes capacity
    then Some (true, mk (Some (linked capacity)) (isStopped q) 0 capacity 0 0)
    else None
  else Some (false, q).
End init.

(** ** Nodes *)

Definition node (i : nat) (q : t) : option Node :=
  nodes ← memoryBlock q; nodes !! i.
Definition set_data (i : nat) (d : option TYPE) (q : t) : option t :=
  nodes ← memoryBlock q;
  n ← nodes !! i;
  Some (mk (Some (<[i := mkNode d (next n)]> nodes)) (isStopped q) (size q) (maxSize q)
           (dataListHead q) (dataListTail q)).
Definition set_size (n : Z) (q : t) : t :=
  mk (memoryBlock q) (isStopped q) n (maxSize q) (dataListHead q) (dataListTail q).
Definition set_head (i : nat) (q : t) : t :=
  mk (memoryBlock q) (isStopped q) (size q) (maxSize q) i (dataListTail q).
Definition set_tail (i : nat) (q : t) : t :=
  mk (memoryBlock q) (isStopped q) (size q) (maxSize q) (dataListHead q) i.

(** [new (&dataListTail->data) TYPE(x); dataListTail = dataListTail->next]. *)
Definition construct_tail (x : TYPE) (q : t) : option t :=
  n ← node (dataListTail q) q;
  q ← set_data (dataListTail q) (Some x) q;
  Some (set_tail (next n) q).

(** [pop_extract; conditional_destroy; dataListHead = dataListHead->next]. *)
Definition extract_head (q : t) : option (TYPE * t) :=
  n ← node (dataListHead q) q;
  x ← data n;
  q ← set_data (dataListHead q) None q;
  Some (x, set_head (next n) q).

(** ** push, emplace, pushBulk *)

Definition push (x : TYPE) (q : t) : option (bool * t) :=
  if size q =? maxSize q then Some (false, q) else
  q ← construct_tail x q;
  Some (true, set_size (u32 (size q + 1)) q).

(** [emplace]: the same, the object constructed in place. *)
Definition emplace (x : TYPE) (q : t) : option (bool * t) :=
  if size q =? maxSize q then Some (false, q) else
  q ← construct_tail x q;
  Some (true, set_size (u32 (size q + 1)) q).

Fixpoint push_loop (toPush : nat) (elements : list TYPE) (q : t) : option t :=
  match toPush, elements with
  | O, _ => Some q
  | S _, [] => None
  | S n, x :: elements => q ← construct_tail x q; push_loop n elements q
  end.

Definition pushBulk (elements : list TYPE) (count : Z) (q : t) : option (Z * t) :=
  if count =? 0 then Some (0, q) else
  let available := u32 (maxSize q - size q) in
  if available =? 0 then Some (0, q) else
  let toPush := Z.min count available in
  q ← push_loop (Z.to_nat toPush) elements q;
  Some (toPush, set_size (u32 (size q + toPush)) q).

(** ** pop, popBulk *)

(** The part [pop] and the two [wait_pop] share. *)
Definition take_one (q : t) : option (option TYPE * t) :=
  if size q =? 0 then Some (None, q) else
  let q := set_size (u32 (size q - 1)) q in
  '(x, q) ← extract_head q;
  Some (Some x, q).

Fixpoint pop_loop (toPop : nat) (q : t) : option (list TYPE * t) :=
  match toPop with
  | O => Some ([], q)
  | S n => '(x, q) ← extract_head q; '(xs, q) ← pop_loop n q; Some (x :: xs, q)
  end.

(** The part [popBulk] and the two [wait_popBulk] share. *)
Definition take_bulk (count : Z) (q : t) : option (list TYPE * t) :=
  if size q =? 0 then Some ([], q) else
  let toPop := Z.min count (size q) in
  '(xs, q) ← pop_loop (Z.to_nat toPop) q;
  Some (xs, set_size (u32 (size q - toPop)) q).

Definition pop (q : t) : option (option TYPE * t) := take_one q.

Definition popBulk (count : Z) (q : t) : option (list TYPE * t) :=
  if count =? 0 then Some ([], q) else take_bulk count q.

(** ** Waiting *)

(** [size || isStopped], the condition waited for. *)
Definition ready (q : t) : bool := negb (size q =? 0) || negb (isStopped q =? 0).

Definition wait_pop (q : t) : option (waited (option TYPE * t)) :=
  if ready q then r ← take_one q; Some (Ready r) else Some Blocked.

Definition wait_popBulk (count : Z) (q : t) : option (waited (list TYPE * t)) :=
  if count =? 0 then Some (Ready ([], q)) else
  if ready q then r ← take_bulk count q; Some (Ready r) else Some Blocked.

(** With a time out: [late] says whether the time is up. *)
Definition wait_pop_for (late : bool) (q : t) : option (waited (option TYPE * t)) :=
  if ready q then r ← take_one q; Some (Ready r)
  else if late then Some (Ready (None, q)) else Some Blocked.

Definition wait_popBulk_for (late : bool) (count : Z) (q : t) :
    option (waited (list TYPE * t)) :=
  if count =? 0 then Some (Ready ([], q)) else
  if ready q then r ← take_bulk count q; Some (Ready r)
  else if late then Some (Ready ([], q)) else Some Blocked.

(** ** stopWait, release *)

Definition stopWait (q : t) : t :=
  mk (memoryBlock q) 1 (size q) (maxSize q) (dataListHead q) (dataListTail q).

(** Destroying the [n] elements from [current]. *)
Fixpoint destroy_loop (n : nat) (current : nat) (q : t) : option t :=
  match n with
  | O => Some q
  | S n =>
      nd ← node current q;
      _ ← data nd;
      q ← set_data current None q;
      destroy_loop n (next nd) q
  end.

Definition release (q : t) : option t :=
  match memoryBlock q with
  | None => Some q
  | Some _ =>
      q ← destroy_loop (Z.to_nat (size q)) (dataListHead q) q;
      Some (mk None 0 (size q) (maxSize q) (dataListHead q) (dataListTail q))
  end.
End queue.

Arguments Node : clear implicits.
Arguments t : clear implicits.
End TPBlockQueue.
