(* ===== verification/BlockQueueSpec.v ===== *)
(** * BlockQueueSpec: TPBlockQueue is a bounded first-in first-out queue

    [queue_inv L q items]: the ring of [q] has [L] nodes and holds exactly the
    objects [items], first to last, every other node being unconstructed.
    Every operation is defined on such a queue and acts on [items] as the
    abstract [Fifo] does. *)

From S2P Require Import Prelude BlockQueue.
Import TPBlockQueue.

(** ** The abstract specification *)

Module Fifo.
Section fifo.
Context {A : Type}.
(** The elements accepted by a queue of capacity [L], and the queue after. *)
Definition push (L : nat) (x : A) (l : list A) : bool * list A :=
  if decide (length l < L)%nat then (true, l ++ [x]) else (false, l).
Definition push_bulk (L : nat) (xs l : list A) : nat * list A :=
  let n := Nat.min (length xs) (L - length l) in (n, l ++ take n xs).
Definition pop (l : list A) : option A * list A := (head l, tail l).
Definition pop_bulk (n : nat) (l : list A) : list A * list A := (take n l, drop n l).
End fifo.
End Fifo.

Section spec.
Context {T : Type}.
Implicit Types (q : TPBlockQueue.t T) (items : list T) (L : nat).

Record ring_inv L q items : Prop := {
  ri_L : (0 < L)%nat;
  ri_nodes : exists nodes, memoryBlock q = Some nodes /\ length nodes = L;
  ri_next i n : node i q = Some n -> next n = ring_idx L i 1;
  ri_fits : (length items <= L)%nat;
  ri_head : (dataListHead q < L)%nat;
  ri_tail : dataListTail q = ring_idx L (dataListHead q) (length items);
  ri_data i : (i < L)%nat -> node (ring_idx L (dataListHead q) i) q ≫= data = items !! i }.

(** The fields the elements do not touch. *)
Record same_frame q q' : Prop := {
  sf_stopped : isStopped q' = isStopped q;
  sf_max : maxSize q' = maxSize q;
  sf_size : size q' = size q }.

Record queue_inv L q items : Prop := {
  qi_ring : ring_inv L q items;
  qi_size : size q = Z.of_nat (length items);
  qi_max : maxSize q = Z.of_nat L;
  qi_u32 : Z.of_nat L < 2 ^ 32 }.

Lemma ring_inv_set_size L q items n : ring_inv L q items -> ring_inv L (set_size n q) items.
Proof. by intros []. Qed.

Lemma same_frame_trans q1 q2 q3 : same_frame q1 q2 -> same_frame q2 q3 -> same_frame q1 q3.
Proof. intros [] []. constructor; congruence. Qed.

(** ** Nodes *)

Lemma node_lt L q items i :
  ring_inv L q items -> (i < L)%nat -> exists n, node i q = Some n /\ next n = ring_idx L i 1.
Proof.
  intros Hr Hi. destruct (ri_nodes _ _ _ Hr) as (nodes & Hb & Hl).
  assert (is_Some (node i q)) as [n Hn].
  { unfold node. rewrite Hb. simpl. apply lookup_lt_is_Some. by rewrite Hl. }
  exists n. split; [done|]. by apply (ri_next _ _ _ Hr).
Qed.

Lemma set_data_spec L q items i d :
  ring_inv L q items -> (i < L)%nat ->
  exists q' n, set_data i d q = Some q' /\ node i q = Some n /\ same_frame q q' /\
    dataListHead q' = dataListHead q /\ dataListTail q' = dataListTail q /\
    (exists nodes, memoryBlock q' = Some nodes /\ length nodes = L) /\
    forall j, node j q' = if decide (j = i) then Some (mkNode d (next n)) else node j q.
Proof.
  intros Hr Hi. destruct (ri_nodes _ _ _ Hr) as (nodes & Hb & Hl).
  destruct (node_lt _ _ _ _ Hr Hi) as (n & Hn & _).
  pose proof Hn as Hn'. unfold node in Hn'. rewrite Hb in Hn'. simpl in Hn'.
  unfold set_data. rewrite Hb. simpl. rewrite Hn'. simpl.
  eexists _, n. split; [done|]. split; [done|]. split; [by constructor|].
  split; [done|]. split; [done|]. split.
  - eexists. split; [done|]. by rewrite length_insert.
  - intros j. unfold node. simpl. rewrite Hb. simpl. case_decide as E.
    + subst j. rewrite list_lookup_insert_eq; [done|by rewrite Hl].
    + by rewrite list_lookup_insert_ne.
Qed.

(** Taking the construction or destruction of one cell to the whole ring. *)
Lemma ring_inv_update L q q' items items' i d n :
  ring_inv L q items -> (i < L)%nat -> (length items' <= L)%nat ->
  node i q = Some n ->
  (exists nodes, memoryBlock q' = Some nodes /\ length nodes = L) ->
  (forall j, node j q' = if decide (j = i) then Some (mkNode d (next n)) else node j q) ->
  (dataListHead q' < L)%nat ->
  dataListTail q' = ring_idx L (dataListHead q') (length items') ->
  (forall j, (j < L)%nat ->
     (if decide (ring_idx L (dataListHead q') j = i) then d
      else node (ring_idx L (dataListHead q') j) q ≫= data) = items' !! j) ->
  ring_inv L q' items'.
Proof.
  intros Hr Hi Hfit Hn Hnodes Hnode Hh Ht Hd.
  constructor; [apply Hr|done| |done|done|done|].
  - intros j m. rewrite Hnode. case_decide as E; [|apply Hr].
    intros [= <-]. simpl. subst j. by apply (ri_next _ _ _ Hr).
  - intros j Hj. rewrite Hnode, <- Hd by done. by case_decide.
Qed.

Lemma construct_tail_spec L q items x :
  ring_inv L q items -> (length items < L)%nat ->
  exists q', construct_tail x q = Some q' /\ ring_inv L q' (items ++ [x]) /\ same_frame q q'.
Proof.
  intros Hr Hlt. pose proof (ri_head _ _ _ Hr) as Hh. pose proof (ri_tail _ _ _ Hr) as Ht.
  assert (Hi : (dataListTail q < L)%nat) by (rewrite Ht; apply ring_idx_lt; lia).
  destruct (set_data_spec L q items (dataListTail q) (Some x) Hr Hi)
    as (q' & n & Hset & Hn & Hsf & Hh' & Ht' & Hnodes & Hnode).
  unfold construct_tail. rewrite Hn. simpl. rewrite Hset. simpl.
  eexists. split; [done|]. split; [|by destruct Hsf; constructor].
  eapply (ring_inv_update L q _ items (items ++ [x]) (dataListTail q) (Some x) n); try done.
  - rewrite length_app. simpl. lia.
  - simpl. by rewrite Hh'.
  - simpl. rewrite Hh', (ri_next _ _ _ Hr _ _ Hn), Ht, ring_idx_add, length_app by lia. done.
  - simpl. rewrite Hh'. intros j Hj. case_decide as E.
    + rewrite Ht in E. apply ring_idx_inj in E; [|lia..]. subst j.
      by rewrite lookup_app_r, Nat.sub_diag by lia.
    + rewrite (ri_data _ _ _ Hr) by done. destruct (decide (j < length items)%nat).
      { by rewrite lookup_app_l by done. }
      rewrite !lookup_ge_None_2; [done|rewrite length_app; simpl|lia].
      destruct (decide (j = length items)) as [->|]; [by rewrite Ht in E|lia].
Qed.

Lemma extract_head_spec L q x items :
  ring_inv L q (x :: items) ->
  exists q', extract_head q = Some (x, q') /\ ring_inv L q' items /\ same_frame q q'.
Proof.
  intros Hr. pose proof (ri_head _ _ _ Hr) as Hh. pose proof (ri_tail _ _ _ Hr) as Ht.
  pose proof (ri_fits _ _ _ Hr) as Hf. simpl in Hf, Ht.
  destruct (set_data_spec L q _ (dataListHead q) None Hr Hh)
    as (q' & n & Hset & Hn & Hsf & Hh' & Ht' & Hnodes & Hnode).
  pose proof (ri_data _ _ _ Hr 0 ltac:(lia)) as Hd.
  assert (Hh0 : ring_idx L (dataListHead q) 0 = dataListHead q)
    by (unfold ring_idx; rewrite decide_True; lia).
  rewrite Hh0, Hn in Hd. simpl in Hd.
  unfold extract_head. rewrite Hn. simpl. rewrite Hd. simpl. rewrite Hset. simpl.
  eexists. split; [done|]. split; [|by destruct Hsf; constructor].
  pose proof (ri_next _ _ _ Hr _ _ Hn) as Hnx.
  eapply (ring_inv_update L q _ (x :: items) items (dataListHead q) None n); try done.
  - lia.
  - simpl. rewrite Hnx. apply ring_idx_lt; lia.
  - simpl. rewrite Ht', Ht, Hnx, ring_idx_add by lia. done.
  - simpl. rewrite Hnx. intros j Hj. rewrite ring_idx_add by lia. case_decide as E.
    + symmetry. apply lookup_ge_None_2.
      destruct (decide (1 + j = L)%nat); [lia|]. exfalso.
      rewrite <- Hh0 in E at 2. apply ring_idx_inj in E; lia.
    + destruct (decide (S j < L)%nat).
      * by rewrite (ri_data _ _ _ Hr (1 + j)) by lia.
      * exfalso. apply E. unfold ring_idx. case_decide; lia.
Qed.

(** ** The loops *)

Lemma push_loop_spec n L q items xs :
  ring_inv L q items -> (n <= length xs)%nat -> (length items + n <= L)%nat ->
  exists q', push_loop n xs q = Some q' /\ ring_inv L q' (items ++ take n xs) /\ same_frame q q'.
Proof.
  revert q items xs. induction n as [|n IH]; intros q items xs Hr Hn Hl; simpl.
  { exists q. by rewrite app_nil_r. }
  destruct xs as [|x xs]; simpl in Hn; [lia|].
  destruct (construct_tail_spec L q items x Hr ltac:(lia)) as (q1 & -> & Hr1 & Hs1). simpl.
  destruct (IH q1 (items ++ [x]) xs Hr1 ltac:(lia)) as (q2 & -> & Hr2 & Hs2).
  { rewrite length_app. simpl. lia. }
  exists q2. rewrite <- app_assoc in Hr2. split_and!; [done|done|]. by eapply same_frame_trans.
Qed.

Lemma pop_loop_spec n L q items :
  ring_inv L q items -> (n <= length items)%nat ->
  exists q', pop_loop n q = Some (take n items, q') /\ ring_inv L q' (drop n items) /\
    same_frame q q'.
Proof.
  revert q items. induction n as [|n IH]; intros q items Hr Hn; simpl.
  { by exists q. }
  destruct items as [|x items]; simpl in Hn; [lia|].
  destruct (extract_head_spec L q x items Hr) as (q1 & -> & Hr1 & Hs1). simpl.
  destruct (IH q1 items Hr1 ltac:(lia)) as (q2 & -> & Hr2 & Hs2). simpl.
  exists q2. split_and!; [done|done|]. by eapply same_frame_trans.
Qed.

(** ** The operations *)

(** What every operation leaves alone. *)
Definition same_flags q q' : Prop := isStopped q' = isStopped q /\ maxSize q' = maxSize q.

Lemma queue_inv_intro L q q' items items' n :
  queue_inv L q items -> same_frame q q' -> ring_inv L q' items' ->
  n = Z.of_nat (length items') ->
  queue_inv L (set_size n q') items' /\ same_flags q (set_size n q').
Proof.
  intros [_ _ Hm Hu] [H1 H2 _] Hr ->. split; [|done].
  constructor; [by apply ring_inv_set_size|done|simpl; congruence|done].
Qed.

Lemma push_spec L q items x :
  queue_inv L q items ->
  let '(ok, items') := Fifo.push L x items in
  exists q', push x q = Some (ok, q') /\ queue_inv L q' items' /\ same_flags q q'.
Proof.
  intros Hq. pose proof Hq as [Hr Hsz Hm Hu]. pose proof (ri_fits _ _ _ Hr) as Hf.
  unfold Fifo.push, push. rewrite Hsz, Hm.
  case_decide as Hlt; [rewrite (proj2 (Z.eqb_neq _ _)) by lia
                      |rewrite (proj2 (Z.eqb_eq _ _)) by lia; by exists q].
  destruct (construct_tail_spec L q items x Hr Hlt) as (q1 & -> & Hr1 & Hs1). simpl.
  eexists. split; [done|]. apply (queue_inv_intro L q _ items); try done.
  destruct Hs1 as [_ _ Hs1]. rewrite length_app, ?Hs1, ?Hsz, u32_small by lia. simpl. lia.
Qed.

Lemma emplace_push x q : emplace x q = push x q.
Proof. done. Qed.

Lemma pushBulk_spec L q items xs :
  queue_inv L q items -> Z.of_nat (length xs) < 2 ^ 32 ->
  let '(n, items') := Fifo.push_bulk L xs items in
  exists q', pushBulk xs (Z.of_nat (length xs)) q = Some (Z.of_nat n, q') /\
    queue_inv L q' items' /\ same_flags q q'.
Proof.
  intros Hq Hxs. pose proof Hq as [Hr Hsz Hm Hu]. pose proof (ri_fits _ _ _ Hr) as Hf.
  unfold Fifo.push_bulk, pushBulk.
  rewrite Hm, Hsz, (u32_small (Z.of_nat L - _)) by lia.
  destruct (Z.eqb_spec (Z.of_nat (length xs)) 0) as [E|E].
  { replace (Nat.min _ _) with 0%nat by lia. exists q. by rewrite app_nil_r. }
  destruct (Z.eqb_spec (Z.of_nat L - Z.of_nat (length items)) 0) as [E'|E'].
  { replace (Nat.min _ _) with 0%nat by lia. exists q. by rewrite app_nil_r. }
  set (n := Nat.min _ _). replace (Z.min _ _) with (Z.of_nat n) by lia. rewrite Nat2Z.id.
  destruct (push_loop_spec n L q items xs Hr ltac:(lia) ltac:(lia)) as (q1 & -> & Hr1 & Hs1).
  simpl. eexists. split; [done|]. apply (queue_inv_intro L q _ items); try done.
  destruct Hs1 as [_ _ Hs1]. rewrite length_app, length_take, ?Hs1, ?Hsz, u32_small by lia. lia.
Qed.

Lemma take_one_spec L q items :
  queue_inv L q items ->
  exists q', take_one q = Some (head items, q') /\ queue_inv L q' (tail items) /\
    same_flags q q'.
Proof.
  intros Hq. pose proof Hq as [Hr Hsz Hm Hu]. pose proof (ri_fits _ _ _ Hr) as Hf.
  unfold take_one. destruct items as [|x items]; simpl in Hsz, Hf.
  { rewrite Hsz. by exists q. }
  rewrite (proj2 (Z.eqb_neq (size q) 0)) by lia.
  destruct (extract_head_spec L (set_size (u32 (size q - 1)) q) x items)
    as (q1 & -> & Hr1 & [S1 M1 Z1]); [by apply ring_inv_set_size|].
  simpl. eexists. split; [done|]. simpl in *. split; [|split; congruence].
  constructor; [done| |congruence|done]. rewrite Z1, u32_small; lia.
Qed.

Lemma take_bulk_spec L q items count :
  queue_inv L q items -> 0 <= count ->
  exists q', take_bulk count q = Some (take (Z.to_nat count) items, q') /\
    queue_inv L q' (drop (Z.to_nat count) items) /\ same_flags q q'.
Proof.
  intros Hq Hc. pose proof Hq as [Hr Hsz Hm Hu]. pose proof (ri_fits _ _ _ Hr) as Hf.
  unfold take_bulk. rewrite Hsz. destruct (Z.eqb_spec (Z.of_nat (length items)) 0) as [E|E].
  { assert (items = []) as -> by (apply length_zero_iff_nil; lia).
    exists q. by rewrite take_nil, drop_nil. }
  set (n := Z.to_nat (Z.min _ _)).
  destruct (pop_loop_spec n L q items Hr ltac:(lia)) as (q1 & -> & Hr1 & Hs1). simpl.
  assert (take n items = take (Z.to_nat count) items /\
                  drop n items = drop (Z.to_nat count) items) as [-> Hd].
  { destruct (decide (count <= Z.of_nat (length items))).
    - by replace n with (Z.to_nat count) by lia.
    - rewrite !take_ge, !drop_ge by lia. done. }
  rewrite Hd in Hr1. eexists. split; [done|].
  apply (queue_inv_intro L q _ items); try done.
  destruct Hs1 as [_ _ Hs1]. rewrite length_drop, ?Hs1, ?Hsz, u32_small by lia. lia.
Qed.

Lemma popBulk_spec L q items count :
  queue_inv L q items -> 0 <= count ->
  exists q', popBulk count q = Some (take (Z.to_nat count) items, q') /\
    queue_inv L q' (drop (Z.to_nat count) items) /\ same_flags q q'.
Proof.
  intros Hq Hc. unfold popBulk. destruct (Z.eqb_spec count 0) as [->|E]; [by exists q|].
  by apply take_bulk_spec.
Qed.

Lemma ready_spec L q items :
  queue_inv L q items -> isStopped q = 0 -> ready q = bool_decide (items <> []).
Proof.
  intros Hq Hs. unfold ready. rewrite Hs, (qi_size _ _ _ Hq). by destruct items.
Qed.

Lemma stopWait_spec L q items :
  queue_inv L q items -> queue_inv L (stopWait q) items /\ isStopped (stopWait q) = 1.
Proof. intros [[] ? ? ?]. by repeat split. Qed.

(** ** init and release *)

Lemma align64 z : 0 <= z -> z + 63 < 2 ^ 32 ->
  Z.land (z + 64 - 1) (Z.lxor (64 - 1) (2 ^ 32 - 1)) = (z + 63) / 64 * 64.
Proof.
  intros Hz Hlt. replace (z + 64 - 1) with (z + 63) by lia.
  rewrite <- (Z.shiftr_div_pow2 _ 6), <- (Z.shiftl_mul_pow2 _ 6) by lia.
  apply Z.bits_inj'. intros n Hn. rewrite Z.land_spec, Z.lxor_spec.
  replace (2 ^ 32 - 1) with (Z.ones 32) by done. replace (64 - 1) with (Z.ones 6) by done.
  destruct (Z.ltb_spec n 6).
  - rewrite Z.shiftl_spec_low, !Z.ones_spec_low by lia. by rewrite andb_false_r.
  - rewrite Z.shiftl_spec, Z.shiftr_spec, (Z.ones_spec_high 6) by lia.
    replace (n - 6 + 6) with n by lia. destruct (Z.ltb_spec n 32).
    + rewrite Z.ones_spec_low by lia. by rewrite andb_true_r.
    + rewrite Z.ones_spec_high, andb_false_r by lia. symmetry. apply Z.bits_above_log2; [lia|].
      assert (z + 63 < 2 ^ n).
      { apply Z.lt_le_trans with (2 ^ 32); [lia|]. apply Z.pow_le_mono_r; lia. }
      apply Z.log2_lt_pow2; lia.
Qed.

Lemma blockBytes_spec sizeofNode capacity :
  0 <= sizeofNode * capacity -> sizeofNode * capacity + 63 < 2 ^ 32 ->
  sizeofNode * capacity <= blockBytes sizeofNode capacity < sizeofNode * capacity + 64 /\
  blockBytes sizeofNode capacity mod 64 = 0.
Proof.
  unfold blockBytes. generalize (sizeofNode * capacity) as z. intros z H0 H1.
  rewrite (u32_small z), u32_small, align64 by lia.
  pose proof (Z.mod_pos_bound (z + 63) 64 ltac:(lia)).
  pose proof (Z.div_mod (z + 63) 64 ltac:(lia)). split; [lia|]. apply Z.mod_mul. lia.
Qed.

Lemma linked_lookup capacity i :
  (i < Z.to_nat capacity)%nat ->
  @linked T capacity !! i = Some (mkNode None (ring_idx (Z.to_nat capacity) i 1)).
Proof.
  intros Hi. unfold linked. destruct (decide (S i < Z.to_nat capacity)%nat) as [Hlt|Hge].
  - rewrite lookup_app_l by (rewrite length_fmap, length_seq; lia).
    rewrite list_lookup_fmap, lookup_seq_lt by lia. simpl.
    do 2 f_equal. unfold ring_idx. repeat case_decide; lia.
  - rewrite lookup_app_r; rewrite length_fmap, length_seq; [|lia].
    replace (i - Z.to_nat (capacity - 1))%nat with 0%nat by lia. simpl.
    do 2 f_equal. unfold ring_idx. repeat case_decide; lia.
Qed.

Lemma init_spec grant sizeofNode capacity q :
  memoryBlock q = None -> isStopped q = 0 -> 0 < capacity ->
  0 <= sizeofNode * capacity -> sizeofNode * capacity + 63 < 2 ^ 32 -> capacity < 2 ^ 32 ->
  exists ok q', init grant sizeofNode capacity q = Some (ok, q') /\
    (if ok then queue_inv (Z.to_nat capacity) q' [] /\ isStopped q' = 0 else q' = q).
Proof.
  intros Hb Hst Hc H0 H1 H2. unfold init. rewrite Hb, (proj2 (Z.eqb_neq _ _)) by lia. simpl.
  case_match; [|by exists false, q].
  pose proof (blockBytes_spec _ _ H0 H1). rewrite (proj2 (Z.leb_le _ _)) by lia.
  eexists true, _. split; [done|]. split; [|done].
  assert (HL : length (@linked T capacity) = Z.to_nat capacity)
    by (unfold linked; rewrite length_app, length_fmap, length_seq; simpl; lia).
  constructor; simpl; [|done|lia|lia].
  constructor; simpl; [lia|by eexists| |lia|lia| |].
  - intros i n. unfold node. simpl. intros Hn.
    assert (Hi : (i < Z.to_nat capacity)%nat)
      by (rewrite <- HL; by apply lookup_lt_is_Some; exists n).
    rewrite linked_lookup in Hn by done. by injection Hn as <-.
  - unfold ring_idx. by rewrite decide_True by lia.
  - intros i Hi. unfold node. simpl. rewrite linked_lookup; [done|]. apply ring_idx_lt; lia.
Qed.

Lemma destroy_loop_head n current q i :
  destroy_loop n current (set_head i q) = set_head i <$> destroy_loop n current q.
Proof.
  revert current q. induction n as [|n IH]; intros current q; simpl; [done|].
  unfold node. simpl. destruct (memoryBlock q ≫= _) as [nd|] eqn:E; simpl; [|done].
  destruct (data nd); simpl; [|done]. unfold set_data. simpl.
  destruct (memoryBlock q) as [ns|]; simpl in *; [|done]. rewrite E. simpl.
  exact (IH (next nd) (mk _ _ _ _ _ _)).
Qed.

(** Destroying the elements leaves a ring without any. *)
Lemma destroy_loop_spec L n q items :
  ring_inv L q items -> n = length items ->
  exists q' h, destroy_loop n (dataListHead q) q = Some q' /\ same_frame q q' /\
    ring_inv L (set_head h q') [].
Proof.
  revert q items. induction n as [|n IH]; intros q items Hr Hn; simpl.
  { exists q, (dataListHead q). destruct items; [|done]. by destruct q. }
  destruct items as [|x items]; simpl in Hn; [lia|].
  destruct (extract_head_spec L q x items Hr) as (q1 & Hrun & Hr1 & Hs1).
  unfold extract_head in Hrun. destruct (node (dataListHead q) q) as [nd|]; simpl in *; [|done].
  destruct (data nd); simpl in *; [|done]. destruct (set_data _ _ q) as [q0|]; simpl in *; [|done].
  injection Hrun as -> <-. destruct (IH _ items Hr1 ltac:(lia)) as (q2 & h & Hrun2 & [S2 M2 Z2] & R2).
  simpl in Hrun2. rewrite destroy_loop_head in Hrun2.
  destruct (destroy_loop n (next nd) q0) as [q3|]; simpl in *; [|done].
  injection Hrun2 as <-. destruct Hs1. simpl in *. exists q3, h.
  split_and!; [done| |done]. constructor; congruence.
Qed.

(** No object lives in a ring without elements. *)
Lemma ring_inv_nil L q nodes :
  ring_inv L q [] -> memoryBlock q = Some nodes -> Forall (fun n => data n = None) nodes.
Proof.
  intros Hr Hb. apply Forall_lookup. intros i n Hi.
  destruct (ri_nodes _ _ _ Hr) as (nodes' & Hb' & Hl). assert (nodes' = nodes) as -> by congruence.
  pose proof (lookup_lt_Some _ _ _ Hi) as Hlt. pose proof (ri_head _ _ _ Hr) as Hh.
  assert (exists j, (j < L)%nat /\ ring_idx L (dataListHead q) j = i) as (j & Hj & Hij).
  { unfold ring_idx. destruct (decide (dataListHead q <= i)%nat).
    - exists (i - dataListHead q)%nat. split; [lia|]. case_decide; lia.
    - exists (i + L - dataListHead q)%nat. split; [lia|]. case_decide; lia. }
  pose proof (ri_data _ _ _ Hr j Hj) as Hd. rewrite Hij in Hd. unfold node in Hd. rewrite Hb in Hd. simpl in Hd.
  rewrite Hi in Hd. exact Hd.
Qed.

Lemma release_spec L q items :
  queue_inv L q items ->
  exists q', release q = Some q' /\ memoryBlock q' = None /\ isStopped q' = 0.
Proof.
  intros [Hr Hsz _ _]. destruct (ri_nodes _ _ _ Hr) as (nodes & Hb & _).
  unfold release. rewrite Hb. rewrite Hsz, Nat2Z.id.
  destruct (destroy_loop_spec L _ q items Hr eq_refl) as (q' & h & -> & _). simpl. by eexists.
Qed.
(** ** The abstract state *)

(** The queue [q] stands for the abstract state [s]. *)
Definition q_refines (L : nat) (q : TPBlockQueue.t T) (s : list T * bool) : Prop :=
  queue_inv L q s.1 /\ isStopped q = if s.2 then 1 else 0.

Lemma ready_busy L q s :
  q_refines L q s -> ready q = bool_decide (s.1 <> []) || s.2.
Proof.
  intros [Hq Hs]. unfold ready. rewrite Hs, (qi_size _ _ _ Hq). destruct s as [[|x l] []]; done.
Qed.

Lemma head_take1 (l : list T) : option_list (head l) = take 1 l /\ tail l = drop 1 l.
Proof. by destruct l. Qed.

(** [b] gives the element(s) the abstract queue gives, when it may go on. *)
Lemma take_one_refines L q s :
  q_refines L q s ->
  exists q', take_one q = Some (head s.1, q') /\ q_refines L q' (drop 1 s.1, s.2).
Proof.
  intros [Hq Hs]. destruct (take_one_spec L q s.1 Hq) as (q' & Hrun & Hq' & Hf & _).
  exists q'. split; [done|]. split; simpl; [|congruence].
  by destruct (head_take1 s.1) as [_ <-].
Qed.

Lemma take_bulk_refines L q s n :
  q_refines L q s -> 0 <= n ->
  exists q', take_bulk n q = Some (take (Z.to_nat n) s.1, q') /\
    q_refines L q' (drop (Z.to_nat n) s.1, s.2).
Proof.
  intros [Hq Hs] Hn. destruct (take_bulk_spec L q s.1 n Hq Hn) as (q' & Hrun & Hq' & Hf & _).
  exists q'. split; [done|]. split; simpl; [done|congruence].
Qed.

Lemma push_refines L q s x :
  q_refines L q s ->
  exists q', push x q = Some ((Fifo.push L x s.1).1, q') /\
    q_refines L q' ((Fifo.push L x s.1).2, s.2).
Proof.
  intros [Hq Hs]. pose proof (push_spec L q s.1 x Hq) as Hp. destruct (Fifo.push L x s.1) as [ok l].
  destruct Hp as (q' & Hrun & Hq' & Hf & _). exists q'. split; [done|]. split; simpl; [done|congruence].
Qed.

Lemma pushBulk_refines L q s xs :
  q_refines L q s -> Z.of_nat (length xs) < 2 ^ 32 ->
  exists q', pushBulk xs (Z.of_nat (length xs)) q
      = Some (Z.of_nat (Fifo.push_bulk L xs s.1).1, q') /\
    q_refines L q' ((Fifo.push_bulk L xs s.1).2, s.2).
Proof.
  intros [Hq Hs] Hx. pose proof (pushBulk_spec L q s.1 xs Hq Hx) as Hp.
  destruct (Fifo.push_bulk L xs s.1) as [n l].
  destruct Hp as (q' & Hrun & Hq' & Hf & _). exists q'. split; [done|]. split; simpl; [done|congruence].
Qed.

Lemma stop_refines L q s : q_refines L q s -> q_refines L (stopWait q) (s.1, true).
Proof. intros [Hq _]. split; [by apply stopWait_spec|done]. Qed.

(** What the waiting operations do: [go] says whether they come back. *)
Definition waits {R} (go : bool) (r : R) : waited R := if go then Ready r else Blocked.

Definition busy (s : list T * bool) : bool := bool_decide (s.1 <> []) || s.2.

Lemma not_busy s : busy s = false -> s = ([], false).
Proof. by destruct s as [[|x l] []]. Qed.

Lemma wait_pop_refines L q s :
  q_refines L q s ->
  exists q', wait_pop q = Some (waits (busy s) (head s.1, q')) /\
    q_refines L q' (drop 1 s.1, s.2).
Proof.
  intros Hr. destruct (take_one_refines _ _ _ Hr) as (q' & Ht & Hr').
  exists q'. split; [|done]. unfold wait_pop. rewrite (ready_busy _ _ _ Hr), Ht.
  by unfold busy; destruct (_ || _).
Qed.

Lemma wait_pop_for_refines L q s late :
  q_refines L q s ->
  exists q', wait_pop_for late q = Some (waits (busy s || late) (head s.1, q')) /\
    q_refines L q' (drop 1 s.1, s.2).
Proof.
  intros Hr. destruct (take_one_refines _ _ _ Hr) as (q' & Ht & Hr').
  unfold wait_pop_for. rewrite (ready_busy _ _ _ Hr), Ht. fold (busy s).
  destruct (busy s) eqn:E; simpl; [by exists q'|].
  apply not_busy in E as ->. exists q. by destruct late.
Qed.

Lemma wait_popBulk_refines L q s n :
  q_refines L q s -> 0 < n ->
  exists q', wait_popBulk n q = Some (waits (busy s) (take (Z.to_nat n) s.1, q')) /\
    q_refines L q' (drop (Z.to_nat n) s.1, s.2).
Proof.
  intros Hr Hn. destruct (take_bulk_refines _ _ _ n Hr ltac:(lia)) as (q' & Ht & Hr').
  exists q'. split; [|done]. unfold wait_popBulk. rewrite (proj2 (Z.eqb_neq _ _)) by lia.
  rewrite (ready_busy _ _ _ Hr), Ht. by unfold busy; destruct (_ || _).
Qed.

Lemma wait_popBulk_for_refines L q s late n :
  q_refines L q s -> 0 < n ->
  exists q', wait_popBulk_for late n q
      = Some (waits (busy s || late) (take (Z.to_nat n) s.1, q')) /\
    q_refines L q' (drop (Z.to_nat n) s.1, s.2).
Proof.
  intros Hr Hn. destruct (take_bulk_refines _ _ _ n Hr ltac:(lia)) as (q' & Ht & Hr').
  unfold wait_popBulk_for. rewrite (proj2 (Z.eqb_neq _ _)) by lia.
  rewrite (ready_busy _ _ _ Hr), Ht. fold (busy s).
  destruct (busy s) eqn:E; simpl; [by exists q'|].
  apply not_busy in E as ->. exists q. simpl. rewrite take_nil, drop_nil. by destruct late.
Qed.
End spec.
