(* ===== verification/BlockQueueProps.v ===== *)
(** * BlockQueueProps: the correctness theorems of TPBlockQueue *)

From S2P Require Import Prelude Types BlockQueue BlockQueueSpec.
Import TPBlockQueue.

(** ** Sequences of operations *)

Inductive q_op (T : Type) :=
  | QPush (x : T) | QEmplace (x : T) | QPushBulk (xs : list T)
  | QPop | QPopBulk (count : Z)
  | QWaitPop | QWaitPopBulk (count : Z)
  | QWaitPopFor (late : bool) | QWaitPopBulkFor (late : bool) (count : Z)
  | QStop.
Arguments QPop {T}.
Arguments QPopBulk {T}.
Arguments QWaitPop {T}.
Arguments QWaitPopBulk {T}.
Arguments QWaitPopFor {T}.
Arguments QWaitPopBulkFor {T}.
Arguments QStop {T}.
Arguments QPush {T}.
Arguments QEmplace {T}.
Arguments QPushBulk {T}.

(** What the caller sees: how many elements went in, which came out, or that
    the call goes on waiting. *)
Inductive q_obs (T : Type) := Accepted (n : Z) | Taken (xs : list T) | Waits.
Arguments Accepted {T}.
Arguments Taken {T}.
Arguments Waits {T}.

Section ops.
Context {T : Type}.

Definition one (r : option T * TPBlockQueue.t T) : q_obs T * TPBlockQueue.t T :=
  (Taken (option_list r.1), r.2).
Definition many (r : list T * TPBlockQueue.t T) : q_obs T * TPBlockQueue.t T :=
  (Taken r.1, r.2).
Definition wait_obs {R} (f : R -> q_obs T * TPBlockQueue.t T) (q : TPBlockQueue.t T)
    (w : waited R) : q_obs T * TPBlockQueue.t T :=
  match w with Blocked => (Waits, q) | Ready r => f r end.

Definition run_q_op (op : q_op T) (q : TPBlockQueue.t T) : option (q_obs T * TPBlockQueue.t T) :=
  match op with
  | QPush x => '(ok, q) ← push x q; Some (Accepted (if (ok : bool) then 1 else 0), q)
  | QEmplace x => '(ok, q) ← emplace x q; Some (Accepted (if (ok : bool) then 1 else 0), q)
  | QPushBulk xs => '(n, q) ← pushBulk xs (Z.of_nat (length xs)) q; Some (Accepted n, q)
  | QPop => one <$> pop q
  | QPopBulk n => many <$> popBulk n q
  | QWaitPop => wait_obs one q <$> wait_pop q
  | QWaitPopBulk n => wait_obs many q <$> wait_popBulk n q
  | QWaitPopFor late => wait_obs one q <$> wait_pop_for late q
  | QWaitPopBulkFor late n => wait_obs many q <$> wait_popBulk_for late n q
  | QStop => Some (Accepted 0, stopWait q)
  end.

Fixpoint run_q_ops (ops : list (q_op T)) (q : TPBlockQueue.t T) :
    option (list (q_obs T) * TPBlockQueue.t T) :=
  match ops with
  | [] => Some ([], q)
  | op :: ops => '(o, q) ← run_q_op op q; '(os, q) ← run_q_ops ops q; Some (o :: os, q)
  end.

(** The same on the abstract queue: its elements and its stop flag. *)
Definition fifo_take (n : nat) (l : list T) : q_obs T * list T := (Taken (take n l), drop n l).
Definition fifo_wait (go : bool) (n : nat) (l : list T) : q_obs T * list T :=
  if go then fifo_take n l else (Waits, l).
Definition spec_q_op (L : nat) (op : q_op T) (s : list T * bool) : q_obs T * (list T * bool) :=
  let '(l, stopped) := s in
  let busy := bool_decide (l <> []) || stopped in
  match op with
  | QPush x | QEmplace x => let '(ok, l) := Fifo.push L x l in
                            (Accepted (if ok then 1 else 0), (l, stopped))
  | QPushBulk xs => let '(n, l) := Fifo.push_bulk L xs l in (Accepted (Z.of_nat n), (l, stopped))
  | QPop => let '(o, l) := fifo_take 1 l in (o, (l, stopped))
  | QPopBulk n => let '(o, l) := fifo_take (Z.to_nat n) l in (o, (l, stopped))
  | QWaitPop => let '(o, l) := fifo_wait busy 1 l in (o, (l, stopped))
  | QWaitPopBulk n => let '(o, l) := fifo_wait (busy || (n =? 0)) (Z.to_nat n) l in (o, (l, stopped))
  | QWaitPopFor late => let '(o, l) := fifo_wait (busy || late) 1 l in (o, (l, stopped))
  | QWaitPopBulkFor late n =>
      let '(o, l) := fifo_wait (busy || late || (n =? 0)) (Z.to_nat n) l in (o, (l, stopped))
  | QStop => (Accepted 0, (l, true))
  end.

Fixpoint spec_q_ops (L : nat) (ops : list (q_op T)) (s : list T * bool) :
    list (q_obs T) * (list T * bool) :=
  match ops with
  | [] => ([], s)
  | op :: ops => let '(o, s) := spec_q_op L op s in
                 let '(os, s) := spec_q_ops L ops s in (o :: os, s)
  end.

(** Arguments a caller can pass: lengths are [unsigned int]s. *)
Definition q_op_ok (op : q_op T) : Prop :=
  match op with
  | QPushBulk xs => Z.of_nat (length xs) < 2 ^ 32
  | QPopBulk n | QWaitPopBulk n | QWaitPopBulkFor _ n => 0 <= n
  | _ => True
  end.

(** ** Lemmas *)

(** An operation that has been computed, with the queue after it. *)
Ltac observe q := eexists _, q; split; [reflexivity|split; [reflexivity|assumption]].

Lemma run_q_op_spec L op q s :
  q_refines L q s -> q_op_ok op ->
  exists o q', run_q_op op q = Some (o, q') /\
    (spec_q_op L op s).1 = o /\ q_refines L q' (spec_q_op L op s).2.
Proof.
  intros Hr Hop. pose proof (push_refines L q s) as Hpush.
  pose proof (pushBulk_refines L q s) as Hbulk. pose proof (stop_refines _ _ _ Hr) as Hstop.
  destruct (take_one_refines _ _ _ Hr) as (q1 & H1 & Hr1).
  destruct (wait_pop_refines _ _ _ Hr) as (q2 & H2 & Hr2).
  pose proof (head_take1 s.1) as [Hhd _].
  assert (H0 : take (Z.to_nat 0) s.1 = [] /\ drop (Z.to_nat 0) s.1 = s.1) by done.
  unfold spec_q_op, fifo_wait, fifo_take. destruct s as [l stopped]; simpl in *.
  change (bool_decide (l <> []) || stopped) with (busy (l, stopped)).
  destruct op as [x|x|xs| |n| |n|late|late n|]; simpl in *.
  - destruct (Hpush x Hr) as (q' & -> & Hr'). simpl.
    revert Hr'. destruct (Fifo.push L x l). observe open_constr:(_).
  - rewrite emplace_push. destruct (Hpush x Hr) as (q' & -> & Hr'). simpl.
    revert Hr'. destruct (Fifo.push L x l). observe open_constr:(_).
  - destruct (Hbulk xs Hr Hop) as (q' & -> & Hr'). simpl. observe open_constr:(_).
  - unfold pop. rewrite H1. unfold one. simpl. rewrite Hhd. observe open_constr:(_).
  - unfold popBulk. destruct (Z.eqb_spec n 0) as [->|E]; [observe q|].
    destruct (take_bulk_refines _ _ _ n Hr Hop) as (q' & -> & Hr'). simpl. observe open_constr:(_).
  - rewrite H2. destruct (busy _); simpl; [|observe q]. unfold one. simpl.
    rewrite Hhd. observe open_constr:(_).
  - destruct (Z.eqb_spec n 0) as [->|E]; [rewrite orb_true_r; observe q|].
    destruct (wait_popBulk_refines _ _ _ n Hr ltac:(lia)) as (q' & -> & Hr').
    rewrite orb_false_r. destruct (busy _); simpl; [observe open_constr:(_)|observe q].
  - destruct (wait_pop_for_refines _ _ _ late Hr) as (q' & -> & Hr').
    destruct (busy _ || late); simpl; [|observe q]. unfold one. simpl.
    rewrite Hhd. observe open_constr:(_).
  - destruct (Z.eqb_spec n 0) as [->|E]; [rewrite !orb_true_r; observe q|].
    destruct (wait_popBulk_for_refines _ _ _ late n Hr ltac:(lia)) as (q' & -> & Hr').
    rewrite orb_false_r. destruct (busy _ || late); simpl; [observe open_constr:(_)|observe q].
  - observe open_constr:(_).
Qed.

(** ** Properties *)

(** C29: refinement.  Over any sequence of operations, waiting ones included,
    a queue behaves as a bounded first-in first-out queue with a stop flag:
    each call is defined, accepts what fits, returns the oldest elements in
    order, and waits exactly when the queue is empty, not stopped, and the
    time is not up. *)
Theorem queue_refines_fifo L ops (q : TPBlockQueue.t T) s :
  q_refines L q s -> Forall q_op_ok ops ->
  exists os q', run_q_ops ops q = Some (os, q') /\
    (spec_q_ops L ops s).1 = os /\ q_refines L q' (spec_q_ops L ops s).2.
Proof.
  revert q s. induction ops as [|op ops IH]; intros q s Hr Hops; simpl; [by exists [], q|].
  apply Forall_cons in Hops as [Hop Hops].
  destruct (run_q_op_spec L op q s Hr Hop) as (o & q1 & -> & Ho & Hr1). simpl.
  destruct (spec_q_op L op s) as [o' s']. simpl in *. subst o'.
  destruct (IH q1 s' Hr1 Hops) as (os & q2 & -> & Hos & Hr2). simpl.
  destruct (spec_q_ops L ops s') as [os' s'']. simpl in *. subst os'. by exists (o :: os), q2.
Qed.

(** A queue that is stopped hands out what it still holds.  A blocking
    [wait_pop] comes back without an element only when the queue is both
    stopped and empty. *)
Theorem queue_stop_drains L (q : TPBlockQueue.t T) s :
  q_refines L q s ->
  exists w, wait_pop q = Some w /\
    match w with
    | Blocked => s = ([], false)
    | Ready (None, _) => s = ([], true)
    | Ready (Some x, q') => exists l, s.1 = x :: l /\ q_refines L q' (l, s.2)
    end.
Proof.
  intros Hr. unfold wait_pop. rewrite (ready_busy _ _ _ Hr).
  destruct (take_one_refines _ _ _ Hr) as (q1 & -> & Hr1). destruct s as [[|x l] []]; simpl in *;
    eexists; (split; [reflexivity|]); simpl; eauto.
Qed.
End ops.

(** Construction.  For every capacity and node size that fit 32 bits
    (those of the library: a million tasks of 24 bytes) [init] is defined, asks
    for a block that is a multiple of 64 bytes and holds all nodes, and when it
    gets it builds an empty queue of that capacity. *)
Theorem queue_init {T} grant sizeofNode capacity (q : TPBlockQueue.t T) :
  memoryBlock q = None -> isStopped q = 0 -> 0 < capacity <= 1048576 -> 0 < sizeofNode <= 4032 ->
  sizeofNode * capacity <= blockBytes sizeofNode capacity /\
  blockBytes sizeofNode capacity mod 64 = 0 /\
  exists ok q', init grant sizeofNode capacity q = Some (ok, q') /\
    if ok then q_refines (Z.to_nat capacity) q' ([], false) else q' = q.
Proof.
  intros Hb Hs Hc Hn. assert (0 <= sizeofNode * capacity /\ sizeofNode * capacity + 63 < 2 ^ 32) as [H0 H1] by nia.
  destruct (blockBytes_spec _ _ H0 H1) as [Hlo Hal]. split; [lia|]. split; [done|].
  destruct (init_spec grant sizeofNode capacity q Hb Hs ltac:(lia) H0 H1 ltac:(lia))
    as (ok & q' & Hrun & Hres).
  exists ok, q'. split; [done|]. destruct ok; [|done]. by destruct Hres.
Qed.

(** The size of the block is computed in 32 bits, so [init] itself does
    not bound the capacity: with 24-byte nodes and the capacity below (above
    what [Config] allows) it gets a block of 64 bytes and writes outside it. *)
Theorem queue_init_overflow {T} (q : TPBlockQueue.t T) :
  memoryBlock q = None -> init (fun _ => true) 24 (2 ^ 29 + 1) q = None.
Proof.
  intros Hb. unfold init. rewrite Hb.
  replace (blockBytes 24 (2 ^ 29 + 1)) with 64 by (vm_compute; reflexivity). reflexivity.
Qed.

(** Destruction.  [release] is defined on every queue, destroys only
    constructed elements and leaves it as constructed, so that it can be
    initialised again. *)
Theorem queue_release {T} L (q : TPBlockQueue.t T) s :
  q_refines L q s ->
  exists q', release q = Some q' /\ memoryBlock q' = None /\ isStopped q' = 0.
Proof. intros [Hq _]. exact (release_spec L q s.1 Hq). Qed.

(** ** Witnesses *)

Definition w_queue0 : TPBlockQueue.t Z := TPBlockQueue 77 78 9 9.

Definition w_queue : TPBlockQueue.t Z :=
  match init (fun _ => true) 24 3 w_queue0 with Some (_, q) => q | None => w_queue0 end.

Lemma w_queue_ok : q_refines 3 w_queue ([], false).
Proof.
  destruct (init_spec (fun _ => true) 24 3 w_queue0) as (ok & q' & Hrun & Hres);
    [done|done|lia|lia|lia|lia|]. unfold w_queue. rewrite Hrun.
  destruct ok; [by destruct Hres|]. vm_compute in Hrun. discriminate.
Qed.

Definition w_q_ops : list (q_op Z) :=
  [QPush 1; QPushBulk [2; 3; 4]; QPop; QPush 5; QWaitPopBulk 2; QStop; QWaitPop; QWaitPop].

Lemma queue_refines_fifo_witness :
  exists q', run_q_ops w_q_ops w_queue
    = Some ([Accepted 1; Accepted 2; Taken [1]; Accepted 1; Taken [2; 3]; Accepted 0;
             Taken [5]; Taken []], q').
Proof.
  destruct (queue_refines_fifo 3 w_q_ops w_queue ([], false) w_queue_ok) as (os & q' & Hrun & Hos & _).
  - repeat constructor; simpl; lia.
  - exists q'. rewrite Hrun, <- Hos. vm_compute. reflexivity.
Defined.

Lemma queue_stop_drains_witness : wait_pop w_queue = Some Blocked.
Proof.
  destruct (queue_stop_drains 3 w_queue ([], false) w_queue_ok) as (w & Hrun & Hw).
  rewrite Hrun. destruct w as [|[[x|] q']]; [reflexivity| |discriminate].
  destruct Hw as (l & Hl & _). discriminate.
Defined.

Lemma queue_init_witness :
  blockBytes 24 10000 = 240000 /\
  exists ok q', init (fun n => n =? 240000) 24 10000 w_queue0 = Some (ok, q').
Proof.
  destruct (queue_init (fun n => n =? 240000) 24 10000 w_queue0) as (_ & _ & ok & q' & Hrun & _);
    [reflexivity|reflexivity|lia|lia|].
  split; [vm_compute; reflexivity|]. exists ok, q'. exact Hrun.
Defined.

Lemma queue_init_overflow_witness : init (fun _ => true) 24 (2 ^ 29 + 1) w_queue0 = None.
Proof. exact (queue_init_overflow w_queue0 eq_refl). Defined.

Lemma queue_release_witness :
  exists q', release w_queue = Some q' /\ memoryBlock q' = None /\ isStopped q' = 0.
Proof. exact (queue_release 3 w_queue ([], false) w_queue_ok). Defined.
