(* ===== verification/BlockQueueWait.v ===== *)
(** * BlockQueueWait: the condition variable of TPBlockQueue

    Elsewhere a wait that has to go on is [Blocked] and is tried again.  Here is
    why that is right: threads sleep on [notEmptyCond] and are woken by
    [notify_one] and [notify_all], which producers call after they have
    released the lock, and no wake-up is lost ([no_lost_wakeup],
    [wakeups_arrive]).  A step is what a thread does while it holds
    [dataMutex], or one notification. *)

From S2P Require Import Prelude BlockQueue BlockQueueSpec BlockQueueProps.
Import TPBlockQueue.

Module WaitQueue.

Section wait.
Context {T : Type}.

Inductive notification := NotifyOne | NotifyAll.

(** What a waiting operation is to take. *)
Inductive want := WantOne | WantBulk (count : Z).

(** Where a thread is: outside the queue's operations, about to notify, asleep
    in [wait] or (timed) [wait_for], woken but not yet holding the lock again,
    or past its time. *)
Inductive pc :=
  | Idle
  | Notifying (n : notification)
  | Asleep (w : want) (timed : bool)
  | Awake (w : want) (timed : bool)
  | TimedOut (w : want).

Record sys := mkSys { queue : TPBlockQueue.t T; threads : list pc }.

Inductive op :=
  | Push (x : T)
  | PushBulk (elements : list T)
  | Pop
  | PopBulk (count : Z)
  | Wait (w : want) (timed : bool)
  | StopWait.

(** The notification an operation ends with. *)
Definition after_push (ok : bool) : pc := if ok then Notifying NotifyOne else Idle.
Definition after_bulk (toPush : Z) : pc :=
  if toPush =? 0 then Idle else Notifying (if toPush =? 1 then NotifyOne else NotifyAll).

(** One evaluation of the condition of a wait, and what follows when it holds;
    [late]: the time of a timed wait is up. *)
Definition forget {A} (r : waited (A * TPBlockQueue.t T)) : waited (TPBlockQueue.t T) :=
  match r with Blocked => Blocked | Ready (_, q) => Ready q end.
Definition attempt (w : want) (timed late : bool) (q : TPBlockQueue.t T) :
    option (waited (TPBlockQueue.t T)) :=
  match w with
  | WantOne => r ← (if timed then wait_pop_for late q else wait_pop q); Some (forget r)
  | WantBulk count =>
      r ← (if timed then wait_popBulk_for late count q else wait_popBulk count q); Some (forget r)
  end.

(** The loop of [wait]: a thread sleeps while the condition does not hold. *)
Definition check (w : want) (timed late : bool) (q : TPBlockQueue.t T) :
    option (pc * TPBlockQueue.t T) :=
  r ← attempt w timed late q;
  Some (match r with Blocked => (Asleep w timed, q) | Ready q => (Idle, q) end).

(** A thread begins an operation. *)
Definition begin (o : op) (q : TPBlockQueue.t T) : option (pc * TPBlockQueue.t T) :=
  match o with
  | Push x => '(ok, q) ← push x q; Some (after_push ok, q)
  | PushBulk l => '(n, q) ← pushBulk l (Z.of_nat (length l)) q; Some (after_bulk n, q)
  | Pop => '(_, q) ← pop q; Some (Idle, q)
  | PopBulk count => '(_, q) ← popBulk count q; Some (Idle, q)
  | Wait w timed => check w timed false q
  | StopWait => Some (Notifying NotifyAll, stopWait q)
  end.

Definition asleep (p : pc) : bool := match p with Asleep _ _ => true | _ => false end.
Definition wake (p : pc) : pc := match p with Asleep w timed => Awake w timed | _ => p end.

(** [notify_one] wakes the thread [k]; no thread when none is asleep. *)
Definition notify_one (k : nat) (ts : list pc) : waited (list pc) :=
  if existsb asleep ts then
    match ts !! k with
    | Some p => if asleep p then Ready (<[k := wake p]> ts) else Blocked
    | None => Blocked
    end
  else Ready ts.

(** [Go k]: the thread goes on; [k] is whom it wakes.  [Late]: its time is up.
    [Spurious]: it wakes without a reason. *)
Inductive action := Begin (i : nat) (o : op) | Go (i k : nat) | Late (i : nat) | Spurious (i : nat).

Definition act (a : action) (x : sys) : option (waited sys) :=
  match a with
  | Begin i o =>
      match threads x !! i with
      | Some Idle => '(p, q) ← begin o (queue x); Some (Ready (mkSys q (<[i := p]> (threads x))))
      | _ => Some Blocked
      end
  | Go i k =>
      match threads x !! i with
      | Some (Notifying NotifyOne) =>
          Some (match notify_one k (threads x) with
                | Ready ts => Ready (mkSys (queue x) (<[i := Idle]> ts)) | Blocked => Blocked end)
      | Some (Notifying NotifyAll) => Some (Ready (mkSys (queue x) (<[i := Idle]> (wake <$> threads x))))
      | Some (Awake w timed) =>
          '(p, q) ← check w timed false (queue x); Some (Ready (mkSys q (<[i := p]> (threads x))))
      | Some (TimedOut w) =>
          '(p, q) ← check w true true (queue x); Some (Ready (mkSys q (<[i := p]> (threads x))))
      | _ => Some Blocked
      end
  | Late i =>
      match threads x !! i with
      | Some (Asleep w true) => Some (Ready (mkSys (queue x) (<[i := TimedOut w]> (threads x))))
      | _ => Some Blocked
      end
  | Spurious i =>
      match threads x !! i with
      | Some (Asleep w timed) => Some (Ready (mkSys (queue x) (<[i := Awake w timed]> (threads x))))
      | _ => Some Blocked
      end
  end.

(** What the callers keep to: counts are unsigned, arrays fit them. *)
Definition sensible (a : action) : Prop :=
  match a with
  | Begin _ (PushBulk l) => Z.of_nat (length l) < 2 ^ 32
  | Begin _ (PopBulk n) | Begin _ (Wait (WantBulk n) _) => 0 <= n
  | _ => True
  end.

Inductive reach (x : sys) : sys -> Prop :=
  | reach_refl : reach x x
  | reach_step a x1 x2 : reach x x1 -> sensible a -> act a x1 = Some (Ready x2) -> reach x x2.

(** [n] steps of threads that notify, were woken or are late. *)
Inductive goes (x : sys) : nat -> sys -> Prop :=
  | goes_refl : goes x 0 x
  | goes_step n i k x1 x2 : goes x n x1 -> act (Go i k) x1 = Some (Ready x2) -> goes x (S n) x2.

(** [nt] threads at work on a queue nobody waits for. *)
Definition start (q : TPBlockQueue.t T) (nt : nat) : sys := mkSys q (replicate nt Idle).
End wait.

Arguments sys : clear implicits.
Arguments op : clear implicits.
Arguments action : clear implicits.
End WaitQueue.
Import WaitQueue.

(** ** Counting threads *)

Section count.
Context (P : pc -> bool).

Fixpoint count (ts : list pc) : nat :=
  match ts with [] => 0 | p :: ts => (if P p then 1 else 0) + count ts end.

Lemma count_insert ts i p p' :
  ts !! i = Some p ->
  (count (<[i := p']> ts) + (if P p then 1 else 0) = count ts + (if P p' then 1 else 0))%nat.
Proof.
  revert i. induction ts as [|t ts IH]; intros [|i]; [done|done|..]; simpl.
  - intros [= ->]. lia.
  - intros Hi. specialize (IH i Hi). lia.
Qed.

Lemma count_pos ts : (0 < count ts)%nat <-> exists i p, ts !! i = Some p /\ P p = true.
Proof.
  induction ts as [|t ts IH]; simpl; [split; [lia|by intros (? & ? & ? & _)]|]. destruct (P t) eqn:Ht.
  - split; [intros _; by exists 0%nat, t|lia].
  - simpl. rewrite IH. split.
    + intros (i & p & ? & ?). by exists (S i), p.
    + intros ([|i] & p & Hi & Hp); simpl in Hi; [congruence|by exists i, p].
Qed.

Lemma count_zero ts : count ts = 0%nat <-> forall i p, ts !! i = Some p -> P p = false.
Proof.
  split.
  - intros Hc i p Hi. destruct (P p) eqn:Hp; [|done]. assert (0 < count ts)%nat by (apply count_pos; by exists i, p). lia.
  - intros Hall. destruct (decide (count ts = 0%nat)) as [|Hne]; [done|].
    assert (0 < count ts)%nat as (i & p & Hi & Hp)%count_pos by lia. by rewrite (Hall i p Hi) in Hp.
Qed.

Lemma count_le ts : (count ts <= length ts)%nat.
Proof. induction ts as [|t ts IH]; simpl; [done|]. destruct (P t); lia. Qed.
End count.

(** ** No wake-up is lost *)

Section wakeups.
Context {T : Type} (L : nat).
Implicit Types (x : sys T) (q : TPBlockQueue.t T) (s : list T * bool).

(** Wake-ups under way, for one thread or for all. *)
Definition coming (p : pc) : bool := match p with Notifying NotifyOne | Awake _ _ => true | _ => false end.
Definition coming_all (p : pc) : bool := match p with Notifying NotifyAll => true | _ => false end.

Definition want_ok (p : pc) : Prop :=
  match p with Asleep (WantBulk n) _ | Awake (WantBulk n) _ | TimedOut (WantBulk n) => 0 < n | _ => True end.

Record wait_inv x s : Prop := {
  wi_queue : q_refines L (queue x) s;
  wi_items : (0 < count asleep (threads x))%nat ->
    (length s.1 <= count coming (threads x))%nat \/ (0 < count coming_all (threads x))%nat;
  wi_stop : (0 < count asleep (threads x))%nat -> s.2 = true -> (0 < count coming_all (threads x))%nat;
  wi_want : Forall want_ok (threads x) }.

(** One evaluation of the condition; a wait that goes on takes something if
    there is anything. *)
Lemma attempt_refines w timed late q s :
  q_refines L q s -> want_ok (Awake w timed) ->
  exists q' k, attempt w timed late q = Some (waits (busy s || late && timed) q') /\
    (0 < k)%nat /\ q_refines L q' (drop k s.1, s.2).
Proof.
  intros Hq Hw. destruct w as [|n]; simpl in *.
  - destruct (wait_pop_refines _ _ _ Hq) as (q1 & H1 & Hq1).
    destruct (wait_pop_for_refines _ _ _ late Hq) as (q2 & H2 & Hq2).
    destruct timed; [rewrite H2; exists q2, 1%nat|rewrite H1; exists q1, 1%nat];
      rewrite ?andb_false_r, ?andb_true_r, ?orb_false_r; (split_and!; [by destruct (busy s), late|lia|done]).
  - destruct (wait_popBulk_refines _ _ _ n Hq Hw) as (q1 & H1 & Hq1).
    destruct (wait_popBulk_for_refines _ _ _ late n Hq Hw) as (q2 & H2 & Hq2).
    destruct timed; [rewrite H2; exists q2, (Z.to_nat n)|rewrite H1; exists q1, (Z.to_nat n)];
      rewrite ?andb_false_r, ?andb_true_r, ?orb_false_r; (split_and!; [by destruct (busy s), late|lia|done]).
Qed.

Lemma check_spec w timed late q s :
  q_refines L q s -> want_ok (Awake w timed) ->
  (late && timed = false /\ s = ([], false) /\ check w timed late q = Some (Asleep w timed, q)) \/
  (exists q' k, check w timed late q = Some (Idle, q') /\ (0 < k)%nat /\ q_refines L q' (drop k s.1, s.2)).
Proof.
  intros Hq Hw. destruct (attempt_refines w timed late q s Hq Hw) as (q' & k & Hrun & Hk & Hq').
  unfold check. rewrite Hrun. destruct (busy s) eqn:Hs; simpl; [right; by exists q', k|].
  destruct (late && timed); simpl; [right; by exists q', k|left]. by apply not_busy in Hs as ->.
Qed.

(** One thread has moved, from [p] to [p']. *)
Lemma move_inv x s i p p' q' s' :
  wait_inv x s -> threads x !! i = Some p -> q_refines L q' s' -> want_ok p' ->
  (asleep p' = true -> s' = ([], false)) ->
  coming_all p = false ->
  (length s'.1 + (if coming p then 1 else 0) <= length s.1 + (if coming p' then 1 else 0) \/
     length s'.1 = 0 \/ coming_all p' = true)%nat ->
  (s'.2 = true -> s.2 = true \/ coming_all p' = true) ->
  wait_inv (mkSys q' (<[i := p']> (threads x))) s'.
Proof.
  intros [Hq Hi Hs Hw] Hp Hq' Hw' Hasleep Hfirst Hlen Hstop.
  pose proof (count_insert asleep _ _ _ p' Hp) as Ca. pose proof (count_insert coming _ _ _ p' Hp) as Cc.
  pose proof (count_insert coming_all _ _ _ p' Hp) as Cl. rewrite Hfirst in Cl.
  split; simpl; [done|..|by apply Forall_insert].
  - intros Ha. destruct (asleep p') eqn:Ep'; [left; rewrite (Hasleep eq_refl); simpl; lia|].
    destruct Hi as [Hi|Hi]; [destruct (asleep p); lia| |right; destruct (coming_all p'); lia].
    destruct Hlen as [Hlen|[Hlen|Hlen]]; [left; lia|left; lia|right; rewrite Hlen in Cl; lia].
  - intros Ha Hs'. destruct (asleep p') eqn:Ep'; [by rewrite (Hasleep eq_refl) in Hs'|].
    destruct (Hstop Hs') as [Hold|Hnew]; [|rewrite Hnew in Cl; lia].
    assert (0 < count coming_all (threads x))%nat by (apply Hs; [destruct (asleep p); lia|done]). lia.
Qed.

(** A wait, from the outside, after a wake-up, or late. *)
Lemma check_inv x s i p w timed late :
  wait_inv x s -> threads x !! i = Some p -> coming_all p = false -> want_ok (Awake w timed) ->
  exists p' q' s', check w timed late (queue x) = Some (p', q') /\
    wait_inv (mkSys q' (<[i := p']> (threads x))) s'.
Proof.
  intros Hx Hp Ha Hw. destruct (check_spec w timed late _ s (wi_queue _ _ Hx) Hw)
    as [(_ & Hs & ->)|(q' & k & -> & Hk & Hq')]; do 3 eexists; (split; [done|]);
    (eapply (move_inv x s); [done|done|eassumption || by apply Hx|done|..]); simpl;
    rewrite ?length_drop; try done; try (rewrite Hs; simpl; auto; fail); auto.
  destruct (coming p); lia.
Qed.

(** A thread begins an operation. *)
Lemma begin_inv x s i o :
  wait_inv x s -> threads x !! i = Some Idle -> sensible (Begin i o) ->
  exists p' q' s', begin o (queue x) = Some (p', q') /\
    wait_inv (mkSys q' (<[i := p']> (threads x))) s'.
Proof.
  intros Hx Hp Ho. pose proof (wi_queue _ _ Hx) as Hq.
  assert (Hmove : forall p' q' s', q_refines L q' s' -> want_ok p' -> asleep p' = false ->
    (length s'.1 <= length s.1 + (if coming p' then 1 else 0) \/ coming_all p' = true)%nat ->
    (s'.2 = true -> s.2 = true \/ coming_all p' = true) ->
    wait_inv (mkSys q' (<[i := p']> (threads x))) s').
  { intros p' q' s' Hq' Hw Ha Hlen Hstop. apply (move_inv x s i Idle p' q' s'); try done; [congruence|].
    simpl. destruct Hlen; [left; lia|auto]. }
  destruct o as [v|l| |n|w timed|]; simpl in *.
  - destruct (push_refines _ _ _ v Hq) as (q' & -> & Hq'). unfold Fifo.push in *. simpl.
    do 3 eexists. split; [done|]. eapply Hmove; [exact Hq'|..]; case_decide; simpl; auto;
      rewrite ?length_app; simpl; lia.
  - destruct (pushBulk_refines _ _ _ l Hq Ho) as (q' & -> & Hq'). unfold Fifo.push_bulk in *. simpl in *.
    do 3 eexists. split; [done|].
    set (n := Nat.min (length l) (L - length s.1)) in *. unfold after_bulk.
    eapply Hmove; [exact Hq'|..]; destruct (Z.eqb_spec (Z.of_nat n) 0), (Z.eqb_spec (Z.of_nat n) 1);
      simpl; auto; rewrite length_app, length_take; lia.
  - destruct (take_one_refines _ _ _ Hq) as (q' & Hpop & Hq'). unfold pop. rewrite Hpop. simpl.
    do 3 eexists. split; [done|]. eapply Hmove; [exact Hq'|..]; simpl; auto. rewrite length_drop. lia.
  - unfold popBulk. destruct (Z.eqb_spec n 0); [do 3 eexists; split; [done|]; eapply Hmove; simpl; eauto; lia|].
    destruct (take_bulk_refines _ _ _ n Hq Ho) as (q' & -> & Hq'). simpl.
    do 3 eexists. split; [done|]. eapply Hmove; [exact Hq'|..]; simpl; auto. rewrite length_drop. lia.
  - destruct w as [|n]; [by apply (check_inv x s i Idle)|]. destruct (decide (n = 0)) as [->|Hn].
    + exists Idle, (queue x), s. split; [by destruct timed|]. apply Hmove; simpl; auto; lia.
    + apply (check_inv x s i Idle); simpl; try done. lia.
  - do 3 eexists. split; [done|]. eapply Hmove; [by apply stop_refines|..]; simpl; auto.
Qed.

Lemma wake_ok p : want_ok p -> want_ok (wake p).
Proof. by destruct p. Qed.

Lemma existsb_asleep ts : existsb asleep ts = true <-> exists i p, ts !! i = Some p /\ asleep p = true.
Proof.
  rewrite existsb_exists. split.
  - intros (p & [i Hi]%list_elem_of_In%list_elem_of_lookup & Hp). by exists i, p.
  - intros (i & p & Hi & Hp). exists p. split; [|done]. by apply list_elem_of_In, (list_elem_of_lookup_2 _ i).
Qed.

Lemma notify_one_spec ts i k ts' :
  ts !! i = Some (Notifying NotifyOne) -> notify_one k ts = Ready ts' ->
  (existsb asleep ts = false /\ ts' = ts) \/
  (exists p, ts !! k = Some p /\ asleep p = true /\ ts' = <[k := wake p]> ts /\
     ts' !! i = Some (Notifying NotifyOne)).
Proof.
  intros Hi. unfold notify_one. destruct (existsb asleep ts); [|intros [= <-]; by left].
  destruct (ts !! k) as [p|] eqn:Hk; [|done]. destruct (asleep p) eqn:Ha; [|done]. intros [= <-].
  right. exists p. split_and!; [done..|]. rewrite list_lookup_insert_ne; [done|]. intros ->. by simplify_eq.
Qed.

(** The wake-up of [notify_one] is handed on; with nobody asleep it is not needed. *)
Lemma notify_one_inv x s i k ts :
  wait_inv x s -> threads x !! i = Some (Notifying NotifyOne) ->
  notify_one k (threads x) = Ready ts -> wait_inv (mkSys (queue x) (<[i := Idle]> ts)) s.
Proof.
  intros [Hq Hi Hs Hw] Hp [[He ->]|(p & Hk & Ha & -> & Hp')]%(notify_one_spec _ _ _ _ Hp).
  - assert (Hz : count asleep (<[i := Idle]> (threads x)) = 0%nat).
    { apply count_zero. intros j p [(-> & <- & _)|(_ & Hj)]%list_lookup_insert_Some; [done|].
      destruct (asleep p) eqn:Ha; [|done]. apply not_true_iff_false in He. destruct He.
      apply existsb_asleep. by exists j, p. }
    split; simpl; [done|rewrite Hz; lia..|by apply Forall_insert].
  - assert (count asleep (<[i := Idle]> (<[k := wake p]> (threads x))) <= count asleep (threads x) /\
      count coming (<[i := Idle]> (<[k := wake p]> (threads x))) = count coming (threads x) /\
      count coming_all (<[i := Idle]> (<[k := wake p]> (threads x))) = count coming_all (threads x))%nat
      as (Ca & Cc & Cl).
    { pose proof (fun P => count_insert P _ _ _ (wake p) Hk) as H1.
      pose proof (fun P => count_insert P _ _ _ Idle Hp') as H2.
      pose proof (H1 asleep). pose proof (H1 coming). pose proof (H1 coming_all).
      pose proof (H2 asleep). pose proof (H2 coming). pose proof (H2 coming_all).
      destruct p; try discriminate; simpl in *; lia. }
    split; simpl; [done|rewrite Cc, Cl; intros; apply Hi; lia|rewrite Cl; intros; apply Hs; [lia|done]|].
    apply Forall_insert; [|done]. apply Forall_insert; [done|].
    apply wake_ok. by apply (Forall_lookup_1 _ _ _ _ Hw Hk).
Qed.

Lemma notify_all_inv x s i :
  wait_inv x s -> wait_inv (mkSys (queue x) (<[i := Idle]> (wake <$> threads x))) s.
Proof.
  intros [Hq Hi Hs Hw].
  assert (Hz : count asleep (<[i := Idle]> (wake <$> threads x)) = 0%nat).
  { apply count_zero. intros j p [(-> & <- & _)|(_ & Hj)]%list_lookup_insert_Some; [done|].
    rewrite list_lookup_fmap in Hj. destruct (threads x !! j) as [[]|]; simplify_eq/=; done. }
  split; simpl; [done|rewrite Hz; lia..|]. apply Forall_insert; [|done].
  apply Forall_fmap. eapply Forall_impl; [exact Hw|]. apply wake_ok.
Qed.

(** Every step is defined and keeps the invariant. *)
Lemma wait_act_inv a x s :
  wait_inv x s -> sensible a ->
  exists r, act a x = Some r /\ forall x', r = Ready x' -> exists s', wait_inv x' s'.
Proof.
  intros Hx Ha. destruct a as [i o|i k|i|i]; simpl;
    (destruct (threads x !! i) as [p|] eqn:Hp; [|by eexists]);
    pose proof (Forall_lookup_1 _ _ _ _ (wi_want _ _ Hx) Hp) as Hw; simpl in Hw.
  - destruct p; try by eexists.
    destruct (begin_inv x s i o Hx Hp Ha) as (p' & q' & s' & -> & Hx'). eexists. split; [done|].
    intros x' [= <-]. by exists s'.
  - destruct p as [|[]|w timed|w timed|w]; try by eexists.
    + eexists. split; [done|]. intros x'. destruct (notify_one k (threads x)) as [|ts] eqn:Hn; [done|].
      intros [= <-]. exists s. by eapply notify_one_inv.
    + eexists. split; [done|]. intros x' [= <-]. exists s. by apply notify_all_inv.
    + destruct (check_inv x s i _ w timed false Hx Hp eq_refl Hw) as (p' & q' & s' & -> & Hx').
      eexists. split; [done|]. intros x' [= <-]. by exists s'.
    + destruct (check_inv x s i _ w true true Hx Hp eq_refl Hw) as (p' & q' & s' & -> & Hx').
      eexists. split; [done|]. intros x' [= <-]. by exists s'.
  - destruct p as [| |w [] | |]; try by eexists. eexists. split; [done|]. intros x' [= <-]. exists s.
    apply (move_inv x s i _ _ _ s Hx Hp); try done; [by apply Hx|simpl; lia|by left].
  - destruct p as [| |w timed | |]; try by eexists. eexists. split; [done|]. intros x' [= <-]. exists s.
    apply (move_inv x s i _ _ _ s Hx Hp); try done; [by apply Hx|simpl; lia|by left].
Qed.

Lemma wait_reach_inv q s nt x :
  q_refines L q s -> reach (start q nt) x -> exists s', wait_inv x s'.
Proof.
  intros Hq. induction 1 as [|a x1 x2 _ [s1 IH] Ha Hact].
  - exists s. assert (Hz : count asleep (replicate nt Idle) = 0%nat).
    { apply count_zero. by intros i p [-> _]%lookup_replicate. }
    split; simpl; [done|rewrite Hz; lia..|by apply Forall_replicate].
  - destruct (wait_act_inv a x1 s1 IH Ha) as (r & Hr & Hx2). apply Hx2. congruence.
Qed.

(** Nobody sleeps on a queue with something in it unless a wake-up is under way. *)
Lemma sleeper_inv x s :
  wait_inv x s -> (exists i p, threads x !! i = Some p /\ asleep p = true) -> ready (queue x) = true ->
  exists j p, threads x !! j = Some p /\ coming p || coming_all p = true.
Proof.
  intros Hx Hsleep%count_pos Hr. rewrite (ready_busy L _ s (wi_queue _ _ Hx)) in Hr.
  assert (0 < count coming (threads x) \/ 0 < count coming_all (threads x))%nat
    as [(j & p & Hj & Hp)%count_pos|(j & p & Hj & Hp)%count_pos].
  { apply orb_true_iff in Hr as [Hr%bool_decide_eq_true|Hr].
    - destruct (wi_items _ _ Hx Hsleep) as [Hi|Hi]; [|by right]. left. destruct s as [[] ?]; simpl in *; [done|lia].
    - right. by apply (wi_stop _ _ Hx). }
  - exists j, p. by rewrite Hp.
  - exists j, p. by rewrite Hp, orb_true_r.
Qed.

(** ** The wake-ups arrive *)

Definition notifying (p : pc) : bool := match p with Notifying _ => true | _ => false end.
Definition woken (p : pc) : bool := match p with Awake _ _ | TimedOut _ => true | _ => false end.
Definition to_go (ts : list pc) : nat := (count notifying ts * S (length ts) + count woken ts)%nat.

Lemma to_go_insert ts i p p' :
  ts !! i = Some p ->
  ((if notifying p' then 1 else 0) * S (length ts) + (if woken p' then 1 else 0)
    < (if notifying p then 1 else 0) * S (length ts) + (if woken p then 1 else 0))%nat ->
  (to_go (<[i := p']> ts) < to_go ts)%nat.
Proof.
  intros Hp Hlt. unfold to_go. rewrite length_insert.
  pose proof (count_insert notifying _ _ _ p' Hp). pose proof (count_insert woken _ _ _ p' Hp).
  destruct (notifying p), (notifying p'); lia.
Qed.

Lemma check_idle_or_asleep w timed late q p q' :
  check w timed late q = Some (p, q') -> notifying p = false /\ woken p = false.
Proof. unfold check. intros (r & _ & Hr)%bind_Some. destruct r; by simplify_eq. Qed.

(** Each such step leaves less to do. *)
Lemma go_less i k x x' : act (Go i k) x = Some (Ready x') -> (to_go (threads x') < to_go (threads x))%nat.
Proof.
  simpl. destruct (threads x !! i) as [p|] eqn:Hp; [|done].
  assert (Hcheck : forall w timed late, notifying p = false -> woken p = true ->
    ('(p, q) ← check w timed late (queue x); Some (Ready (mkSys q (<[i := p]> (threads x))))) = Some (Ready x') ->
    (to_go (threads x') < to_go (threads x))%nat).
  { intros w timed late Hn Hw ([p' q'] & [Hn' Hw']%check_idle_or_asleep & [= <-])%bind_Some. simpl.
    apply (to_go_insert _ _ _ _ Hp). rewrite Hn, Hw, Hn', Hw'. lia. }
  destruct p as [|[]|w timed|w timed|w]; try done; [..|by apply Hcheck|by apply Hcheck].
  - destruct (notify_one k (threads x)) as [|ts] eqn:Hn; [done|]. intros [= <-]. simpl.
    apply (notify_one_spec _ _ _ _ Hp) in Hn as [[_ ->]|(p & Hk & Ha & -> & Hp')];
      [apply (to_go_insert _ _ _ _ Hp); simpl; lia|].
    pose proof (fun P => count_insert P _ _ _ (wake p) Hk) as H1.
    pose proof (fun P => count_insert P _ _ _ Idle Hp') as H2.
    pose proof (H1 notifying). pose proof (H1 woken). pose proof (H2 notifying). pose proof (H2 woken).
    apply lookup_lt_Some in Hp. unfold to_go. rewrite !length_insert. destruct p; try discriminate. simpl in *. nia.
  - intros [= <-]. simpl. unfold to_go. rewrite length_insert, length_fmap.
    assert (Hw : forall ts, count notifying (wake <$> ts) = count notifying ts).
    { induction ts as [|t ts IH]; [done|]. rewrite fmap_cons. simpl. rewrite IH. by destruct t. }
    assert (Hp' : (wake <$> threads x) !! i = Some (Notifying NotifyAll)) by (by rewrite list_lookup_fmap, Hp).
    pose proof (count_insert notifying _ _ _ Idle Hp') as H1. rewrite Hw in H1. simpl in H1.
    pose proof (count_le woken (<[i := Idle]> (wake <$> threads x))) as H2. rewrite length_insert, length_fmap in H2. nia.
Qed.

Lemma goes_less x n x' : goes x n x' -> (n + to_go (threads x') <= to_go (threads x))%nat.
Proof. induction 1 as [|n i k x1 x2 _ IH Hact%go_less]; lia. Qed.

Lemma goes_inv x s n x' : wait_inv x s -> goes x n x' -> exists s', wait_inv x' s'.
Proof.
  intros Hx. induction 1 as [|n i k x1 x2 _ [s1 IH] Hact]; [by exists s|].
  destruct (wait_act_inv (Go i k) x1 s1 IH I) as (r & Hr & Hx2). apply Hx2. congruence.
Qed.

(** A thread that notifies or was woken can go on. *)
Lemma can_go x s i p :
  wait_inv x s -> threads x !! i = Some p -> coming p || coming_all p = true ->
  exists k x', act (Go i k) x = Some (Ready x').
Proof.
  intros Hx Hp Hc. simpl. rewrite Hp. destruct p as [|[]| |w timed|]; try done.
  - unfold notify_one. destruct (existsb asleep (threads x)) eqn:He; [|by exists 0%nat; eexists].
    apply existsb_asleep in He as (k & p & Hk & Ha). exists k. rewrite Hk, Ha. by eexists.
  - exists 0%nat. by eexists.
  - exists 0%nat. destruct (check_inv x s i _ w timed false Hx Hp eq_refl) as (p' & q' & s' & -> & _); [|by eexists].
    by apply (Forall_lookup_1 _ _ _ _ (wi_want _ _ Hx) Hp).
Qed.

(** C13: No wake-up is lost, for any capacity of the queue and any number of
    threads.  In every state they can reach, by any interleaving of their
    operations, notifications, wake-ups (spurious ones too) and time-outs, each
    next step is defined; whenever a thread sleeps although the condition it waits
    for holds, another is about to notify or has been woken and has yet to look;
    and there are no more elements than wake-ups under way, unless one for all
    threads is. *)
Theorem no_lost_wakeup q s nt x :
  q_refines L q s -> reach (start q nt) x ->
  (forall a, sensible a -> is_Some (act a x)) /\
  ((exists i p, threads x !! i = Some p /\ asleep p = true) ->
   (ready (queue x) = true ->
    exists j p, threads x !! j = Some p /\ coming p || coming_all p = true) /\
   (size (queue x) <= Z.of_nat (count coming (threads x)) \/
    exists j, threads x !! j = Some (Notifying NotifyAll))).
Proof.
  intros Hq (s' & Hx)%(wait_reach_inv q s); [|done]. split.
  - intros a Ha. destruct (wait_act_inv a x s' Hx Ha) as (r & -> & _). by eexists.
  - intros Hsleep. split; [by apply (sleeper_inv x s')|].
    apply count_pos in Hsleep. destruct (wi_queue _ _ Hx) as [Hqi _]. rewrite (qi_size _ _ _ Hqi).
    destruct (wi_items _ _ Hx Hsleep) as [Hi|(j & p & Hj & Hp)%count_pos]; [left; lia|right].
    exists j. by destruct p as [|[]| | |].
Qed.

(** C14: The wake-ups arrive, in whatever order the threads go on: from every state
    they can reach, the steps of threads that notify, were woken or are late are
    finitely many, and when none of them can go on, a thread still asleep waits for
    a queue that is empty and not stopped. *)
Theorem wakeups_arrive q s nt x :
  q_refines L q s -> reach (start q nt) x ->
  exists n, forall m x', goes x m x' ->
    (m <= n)%nat /\
    ((forall i k x'', act (Go i k) x' <> Some (Ready x'')) ->
     (exists i p, threads x' !! i = Some p /\ asleep p = true) -> ready (queue x') = false).
Proof.
  intros Hq (s0 & Hx)%(wait_reach_inv q s); [|done]. exists (to_go (threads x)). intros m x' Hgo.
  split; [pose proof (goes_less _ _ _ Hgo); lia|]. intros Hstuck Hsleep.
  destruct (goes_inv x s0 m x' Hx Hgo) as (s' & Hx'). apply not_true_iff_false. intros Hr.
  destruct (sleeper_inv x' s' Hx' Hsleep Hr) as (j & p & Hj & Hp).
  destruct (can_go x' s' j p Hx' Hj Hp) as (k & x'' & Hact). by destruct (Hstuck j k x'').
Qed.
End wakeups.

(** ** Witnesses *)

(** Two of three threads sleep; the third pushes two elements and is about to
    notify all. *)
Definition w_acts : list (action Z) :=
  [Begin 0 (Wait WantOne false); Begin 1 (Wait (WantBulk 4) true); Begin 2 (PushBulk [5; 6])].
Definition w_step (x : sys Z) (a : action Z) : sys Z :=
  match act a x with Some (Ready x') => x' | _ => x end.
Definition w_wait : sys Z := foldl w_step (start w_queue 3) w_acts.

Lemma w_wait_reach : reach (start w_queue 3) w_wait.
Proof.
  apply (reach_step _ (Begin 2 (PushBulk [5; 6])) (foldl w_step (start w_queue 3) (take 2 w_acts)));
    [|simpl; lia|vm_compute; reflexivity].
  apply (reach_step _ (Begin 1 (Wait (WantBulk 4) true)) (w_step (start w_queue 3) (Begin 0 (Wait WantOne false))));
    [|simpl; lia|vm_compute; reflexivity].
  apply (reach_step _ (Begin 0 (Wait WantOne false)) (start w_queue 3)); [constructor|done|vm_compute; reflexivity].
Qed.

Lemma no_lost_wakeup_witness :
  exists j p, threads w_wait !! j = Some p /\ coming p || coming_all p = true.
Proof.
  destruct (no_lost_wakeup 3 w_queue ([], false) 3 w_wait w_queue_ok w_wait_reach) as [_ Hsleep].
  destruct Hsleep as [Hnotified _]; [exists 0%nat, (Asleep WantOne false); split; reflexivity|].
  apply Hnotified. vm_compute. reflexivity.
Defined.

(** Thread 2 notifies; then both sleepers look, the first takes one element and
    the second the other. *)
Lemma wakeups_arrive_witness :
  exists n x', goes w_wait 3 x' /\ (3 <= n)%nat /\ size (queue x') = 0 /\ threads x' = [Idle; Idle; Idle].
Proof.
  destruct (wakeups_arrive 3 w_queue ([], false) 3 w_wait w_queue_ok w_wait_reach) as (n & Hn).
  pose (x1 := w_step w_wait (Go 2 0)). pose (x2 := w_step x1 (Go 0 0)). pose (x3 := w_step x2 (Go 1 0)).
  assert (Hgo : goes w_wait 3 x3).
  { apply (goes_step _ 2 1 0 x2); [|vm_compute; reflexivity].
    apply (goes_step _ 1 0 0 x1); [|vm_compute; reflexivity].
    apply (goes_step _ 0 2 0 w_wait); [constructor|vm_compute; reflexivity]. }
  exists n, x3. split; [exact Hgo|]. split; [exact (proj1 (Hn _ _ Hgo))|]. split; vm_compute; reflexivity.
Defined.
