(* ===== verification/QueueObjects.v ===== *)
(** * QueueObjects: the objects of TPBlockQueue and of its callers

    [BlockQueue] follows the elements as values.  Here are the objects: a cell
    is storage of the size of an element, [Some x] when an object lives in it.
    The queue's nodes are cells, and so are the arrays and variables of the
    callers.  How elements are copied, moved, assigned and destroyed is the
    element type's business ([Element]); copying and moving may throw.  Using a
    cell without an object is undefined, the result [None]. *)

From S2P Require Import Prelude BlockQueue.
Import TPBlockQueue.

(** The element type: [copy x] is [T(x)]; [move x] is [T(std::move(x))] with
    what is left of [x]; [assign d x] is [d = std::move(x)] with both after it,
    the flag false when it threw. *)
Class Element (T : Type) := {
  is_trivially_destructible : bool;
  copy : T -> option T;
  move : T -> option T * T;
  assign : T -> T -> bool * T * T }.

(** How a call ends. *)
Inductive ended (A : Type) := Returned (a : A) | Threw.
Arguments Returned {A}.
Arguments Threw {A}.

Inductive BULK_CMETHOD := COPY | MOVE.
Inductive POP_METHOD := ASSIGN | PLACE.

Module ObjectQueue.

Section objects.
Context {T : Type} `{Element T}.
Abbreviation cell := (option T).

(** ** The helper templates *)

Definition conditional_destroy (obj : cell) : option cell :=
  if is_trivially_destructible then Some obj
  else match obj with Some _ => Some None | None => None end.

(** What was constructed, [None] if it threw, and the source. *)
Definition bulk_construct (METHOD : BULK_CMETHOD) (source : cell) : option (option T * cell) :=
  x ← source;
  Some (match METHOD with
        | COPY => (copy x, source)
        | MOVE => let '(r, x) := move x in (r, Some x)
        end).

(** Whether it returned, the destination and the source. *)
Definition pop_extract (METHOD : POP_METHOD) (dest src : cell) : option (bool * cell * cell) :=
  x ← src;
  match METHOD with
  | ASSIGN => d ← dest; let '(ok, d, x) := assign d x in Some (ok, Some d, Some x)
  | PLACE =>
      let '(r, x) := move x in
      Some (match r with Some y => (true, Some y, Some x) | None => (false, dest, Some x) end)
  end.

(** ** push, pushBulk *)

(** [new (&dataListTail->data) TYPE(...); dataListTail = dataListTail->next]. *)
Definition construct_tail (METHOD : BULK_CMETHOD) (source : cell) (q : t T) : option (bool * cell * t T) :=
  n ← node (dataListTail q) q;
  '(r, source) ← bulk_construct METHOD source;
  match r with
  | Some x =>
      q ← set_data (dataListTail q) (Some x) q;
      Some (true, source, set_tail (next n) q)
  | None => Some (false, source, q)
  end.

(** [push] of an lvalue copies, of an rvalue moves. *)
Definition push (METHOD : BULK_CMETHOD) (element : cell) (q : t T) : option (ended bool * cell * t T) :=
  if size q =? maxSize q then Some (Returned false, element, q) else
  '(ok, element, q) ← construct_tail METHOD element q;
  Some (if (ok : bool) then (Returned true, element, set_size (u32 (size q + 1)) q)
        else (Threw, element, q)).

Fixpoint push_loop (METHOD : BULK_CMETHOD) (toPush : nat) (elements : list cell) (q : t T) :
    option (bool * list cell * t T) :=
  match toPush, elements with
  | O, _ => Some (true, elements, q)
  | S _, [] => None
  | S n, e :: elements =>
      '(ok, e, q) ← construct_tail METHOD e q;
      if (ok : bool) then
        '(ok, elements, q) ← push_loop METHOD n elements q; Some (ok, e :: elements, q)
      else Some (false, e :: elements, q)
  end.

Definition pushBulk (METHOD : BULK_CMETHOD) (elements : list cell) (count : Z) (q : t T) :
    option (ended Z * list cell * t T) :=
  if count =? 0 then Some (Returned 0, elements, q) else
  let available := u32 (maxSize q - size q) in
  if available =? 0 then Some (Returned 0, elements, q) else
  let toPush := Z.min count available in
  '(ok, elements, q) ← push_loop METHOD (Z.to_nat toPush) elements q;
  Some (if (ok : bool) then (Returned toPush, elements, set_size (u32 (size q + toPush)) q)
        else (Threw, elements, q)).

(** ** pop, popBulk: also what the waiting operations do once there is something *)

(** [pop_extract; conditional_destroy; dataListHead = dataListHead->next]. *)
Definition extract_head (METHOD : POP_METHOD) (dest : cell) (q : t T) : option (bool * cell * t T) :=
  n ← node (dataListHead q) q;
  '(ok, dest, src) ← pop_extract METHOD dest (data n);
  if (ok : bool) then
    c ← conditional_destroy src;
    q ← set_data (dataListHead q) c q;
    Some (true, dest, set_head (next n) q)
  else
    q ← set_data (dataListHead q) src q;
    Some (false, dest, q).

Definition pop (METHOD : POP_METHOD) (element : cell) (q : t T) : option (ended bool * cell * t T) :=
  if size q =? 0 then Some (Returned false, element, q) else
  let q := set_size (u32 (size q - 1)) q in
  '(ok, element, q) ← extract_head METHOD element q;
  Some (if (ok : bool) then Returned true else Threw, element, q).

Fixpoint pop_loop (METHOD : POP_METHOD) (toPop : nat) (elements : list cell) (q : t T) :
    option (bool * list cell * t T) :=
  match toPop, elements with
  | O, _ => Some (true, elements, q)
  | S _, [] => None
  | S n, e :: elements =>
      '(ok, e, q) ← extract_head METHOD e q;
      if (ok : bool) then
        '(ok, elements, q) ← pop_loop METHOD n elements q; Some (ok, e :: elements, q)
      else Some (false, e :: elements, q)
  end.

Definition popBulk (METHOD : POP_METHOD) (elements : list cell) (count : Z) (q : t T) :
    option (ended Z * list cell * t T) :=
  if count =? 0 then Some (Returned 0, elements, q) else
  if size q =? 0 then Some (Returned 0, elements, q) else
  let toPop := Z.min count (size q) in
  '(ok, elements, q) ← pop_loop METHOD (Z.to_nat toPop) elements q;
  Some (if (ok : bool) then (Returned toPop, elements, set_size (u32 (size q - toPop)) q)
        else (Threw, elements, q)).

(** ** release *)

Fixpoint destroy_loop (n : nat) (current : nat) (q : t T) : option (t T) :=
  match n with
  | O => Some q
  | S n =>
      nd ← node current q;
      c ← conditional_destroy (data nd);
      q ← set_data current c q;
      destroy_loop n (next nd) q
  end.

(** With the block that is freed. *)
Definition release (q : t T) : option (option (list (Node T)) * t T) :=
  match memoryBlock q with
  | None => Some (None, q)
  | Some _ =>
      q ← destroy_loop (Z.to_nat (size q)) (dataListHead q) q;
      Some (memoryBlock q, mk None 0 (size q) (maxSize q) (dataListHead q) (dataListTail q))
  end.

(** ** A worker's storage *)

(** [task->execute(); task->~T()]: the task executed, the storage afterwards. *)
Definition execute_one (task : cell) : option (T * cell) := x ← task; Some (x, None).

(** [execute_tasks] of ThreadPool: the tasks executed, in order. *)
Fixpoint execute_tasks (tasks : list cell) (count : nat) {struct count} : option (list T * list cell) :=
  match count, tasks with
  | O, _ => Some ([], tasks)
  | S _, [] => None
  | S n, e :: tasks =>
      '(x, e) ← execute_one e;
      '(xs, tasks) ← execute_tasks tasks n;
      Some (x :: xs, e :: tasks)
  end.
End objects.
End ObjectQueue.
