(* ===== verification/QueueObjectsProps.v ===== *)
(** * QueueObjectsProps: no object of a queue is lost, leaked or destroyed twice

    [rel]: the cells of the nodes hold exactly the elements of [BlockQueue];
    when the destructor does nothing, cells no longer in use may still hold
    what was left of an element.  With it every operation on objects is the
    operation on values ([BlockQueue]), whatever it is asked to copy, move or
    assign. *)

From S2P Require Import Prelude BlockQueue BlockQueueSpec BlockQueueProps QueueObjects.

(** Elements whose copies and moves do not throw and are equal to the original. *)
Class ElementLaws (T : Type) `{Element T} := {
  copy_law x : copy x = Some x;
  move_law x : (move x).1 = Some x;
  assign_law d x : (assign d x).1 = (true, x) }.

(** ** Sequences of operations *)

Inductive o_op (T : Type) :=
  | OPush (METHOD : BULK_CMETHOD) (x : T)
  | OPushBulk (METHOD : BULK_CMETHOD) (xs : list T)
  | OPop (METHOD : POP_METHOD) (dest : option T)
  | OPopBulk (METHOD : POP_METHOD) (dests : list (option T))
  | OStop.
Arguments OPush {T}.
Arguments OPushBulk {T}.
Arguments OPop {T}.
Arguments OPopBulk {T}.
Arguments OStop {T}.

Section ops.
Context {T : Type} `{Element T}.
Abbreviation cell := (option T).

(** What the caller sees: the result, and its own cells afterwards. *)
Definition o_obs : Type := ended Z * list cell.

Definition as_count (r : ended bool) : ended Z :=
  match r with Returned ok => Returned (if ok then 1 else 0) | Threw => Threw end.

Definition run_o_op (op : o_op T) (q : TPBlockQueue.t T) : option (o_obs * TPBlockQueue.t T) :=
  match op with
  | OPush METHOD x => '(r, e, q) ← ObjectQueue.push METHOD (Some x) q; Some ((as_count r, [e]), q)
  | OPushBulk METHOD xs =>
      '(r, es, q) ← ObjectQueue.pushBulk METHOD (Some <$> xs) (Z.of_nat (length xs)) q; Some ((r, es), q)
  | OPop METHOD dest => '(r, e, q) ← ObjectQueue.pop METHOD dest q; Some ((as_count r, [e]), q)
  | OPopBulk METHOD dests =>
      '(r, es, q) ← ObjectQueue.popBulk METHOD dests (Z.of_nat (length dests)) q; Some ((r, es), q)
  | OStop => Some ((Returned 0, []), TPBlockQueue.stopWait q)
  end.

Fixpoint run_o_ops (ops : list (o_op T)) (q : TPBlockQueue.t T) :
    option (list o_obs * TPBlockQueue.t T) :=
  match ops with
  | [] => Some ([], q)
  | op :: ops => '(o, q) ← run_o_op op q; '(os, q) ← run_o_ops ops q; Some (o :: os, q)
  end.

(** The operation on values. *)
Definition to_q (op : o_op T) : q_op T :=
  match op with
  | OPush _ x => QPush x
  | OPushBulk _ xs => QPushBulk xs
  | OPop _ _ => QPop
  | OPopBulk _ dests => QPopBulk (Z.of_nat (length dests))
  | OStop => QStop
  end.

(** The source of a construction, afterwards. *)
Definition after (METHOD : BULK_CMETHOD) (x : T) : cell :=
  match METHOD with COPY => Some x | MOVE => Some (move x).2 end.

(** What the caller of an operation on objects sees when on values it is [o]:
    sources are intact or moved from, destinations hold what was taken and
    beyond that what they held. *)
Definition o_result (op : o_op T) (o : q_obs T) : o_obs :=
  match op, o with
  | OPush METHOD x, Accepted n => (Returned n, [if n =? 0 then Some x else after METHOD x])
  | OPushBulk METHOD xs, Accepted n =>
      (Returned n, (after METHOD <$> take (Z.to_nat n) xs) ++ (Some <$> drop (Z.to_nat n) xs))
  | OPop _ dest, Taken xs => (Returned (Z.of_nat (length xs)), (Some <$> xs) ++ drop (length xs) [dest])
  | OPopBulk _ dests, Taken xs =>
      (Returned (Z.of_nat (length xs)), (Some <$> xs) ++ drop (length xs) dests)
  | _, _ => (Returned 0, [])
  end.

(** Assigning needs an object, placing needs raw storage. *)
Definition dest_ok (METHOD : POP_METHOD) (dest : cell) : Prop :=
  match METHOD with ASSIGN => is_Some dest | PLACE => dest = None end.

Definition o_op_ok (op : o_op T) : Prop :=
  match op with
  | OPushBulk _ xs => Z.of_nat (length xs) < 2 ^ 32
  | OPop METHOD dest => dest_ok METHOD dest
  | OPopBulk METHOD dests => Forall (dest_ok METHOD) dests
  | _ => True
  end.
End ops.

(** ** The relation *)

Section rel.
Context {T : Type} `{ElementLaws T}.
Implicit Types (qo qa : TPBlockQueue.t T) (co ca : option T).
Import TPBlockQueue.

Definition cell_rel co ca : Prop :=
  match ca with Some x => co = Some x | None => co = None \/ is_trivially_destructible = true end.
Definition node_rel (no na : Node T) : Prop := next no = next na /\ cell_rel (data no) (data na).
Definition block_rel (bo ba : option (list (Node T))) : Prop :=
  match bo, ba with Some no, Some na => Forall2 node_rel no na | None, None => True | _, _ => False end.

Record rel qo qa : Prop := {
  rel_block : block_rel (memoryBlock qo) (memoryBlock qa);
  rel_stopped : isStopped qo = isStopped qa;
  rel_size : size qo = size qa;
  rel_max : maxSize qo = maxSize qa;
  rel_head : dataListHead qo = dataListHead qa;
  rel_tail : dataListTail qo = dataListTail qa }.

Lemma rel_set_size n qo qa : rel qo qa -> rel (set_size n qo) (set_size n qa).
Proof. by intros []. Qed.
Lemma rel_set_head i qo qa : rel qo qa -> rel (set_head i qo) (set_head i qa).
Proof. by intros []. Qed.
Lemma rel_set_tail i qo qa : rel qo qa -> rel (set_tail i qo) (set_tail i qa).
Proof. by intros []. Qed.

Lemma node_related i qo qa na :
  rel qo qa -> node i qa = Some na -> exists no, node i qo = Some no /\ node_rel no na.
Proof.
  intros [Hb _ _ _ _ _]. unfold node. destruct (memoryBlock qo), (memoryBlock qa); try done. simpl.
  intros Hi. destruct (Forall2_lookup_r _ _ _ _ _ Hb Hi) as (no & ? & ?). by exists no.
Qed.

Lemma set_data_related i qo qa co ca qa' :
  rel qo qa -> cell_rel co ca -> set_data i ca qa = Some qa' ->
  exists qo', set_data i co qo = Some qo' /\ rel qo' qa'.
Proof.
  intros [Hb ? ? ? ? ?] Hc. unfold set_data. destruct (memoryBlock qo) as [lo|], (memoryBlock qa) as [la|]; try done.
  simpl. intros (na & Hi & [= <-])%bind_Some. destruct (Forall2_lookup_r _ _ _ _ _ Hb Hi) as (no & -> & [Hn _]).
  simpl. eexists. split; [done|]. constructor; try done. simpl. apply Forall2_insert; [done|]. by split.
Qed.

(** ** Single objects *)

Lemma bulk_construct_live METHOD x :
  ObjectQueue.bulk_construct METHOD (Some x) = Some (Some x, after METHOD x).
Proof.
  destruct METHOD; simpl; [by rewrite copy_law|]. pose proof (move_law x) as Hm.
  destruct (move x) as [r y]. simpl in *. by subst.
Qed.

Lemma pop_extract_live METHOD dest x :
  dest_ok METHOD dest -> exists y, ObjectQueue.pop_extract METHOD dest (Some x) = Some (true, Some x, Some y).
Proof.
  destruct METHOD; simpl.
  - intros [d ->]. simpl. pose proof (assign_law d x) as Ha. destruct (assign d x) as [[ok d'] y]. simpl in *.
    injection Ha as -> ->. by exists y.
  - intros ->. pose proof (move_law x) as Hm. destruct (move x) as [r y]. simpl in *. subst r. by exists y.
Qed.

Lemma conditional_destroy_live y :
  exists c, ObjectQueue.conditional_destroy (Some y) = Some c /\ cell_rel c None.
Proof. unfold ObjectQueue.conditional_destroy. destruct is_trivially_destructible eqn:E; eexists; (split; [done|]); [by right|by left]. Qed.

Ltac bound := cbn [mbind option_bind].

(** ** One cell of the queue *)

Lemma construct_tail_related METHOD x qo qa qa' :
  rel qo qa -> construct_tail x qa = Some qa' ->
  exists qo', ObjectQueue.construct_tail METHOD (Some x) qo = Some (true, after METHOD x, qo') /\ rel qo' qa'.
Proof.
  intros Hr (na & Hn & (qa1 & Hset & [= <-])%bind_Some)%bind_Some. unfold ObjectQueue.construct_tail.
  rewrite (rel_tail _ _ Hr). destruct (node_related _ _ _ _ Hr Hn) as (no & -> & [Hnx _]). bound.
  rewrite bulk_construct_live. bound.
  destruct (set_data_related _ _ _ (Some x) (Some x) _ Hr eq_refl Hset) as (qo1 & -> & Hr1). bound.
  eexists. split; [done|]. rewrite Hnx. by apply rel_set_tail.
Qed.

Lemma extract_head_related METHOD dest x qo qa qa' :
  rel qo qa -> dest_ok METHOD dest -> extract_head qa = Some (x, qa') ->
  exists qo', ObjectQueue.extract_head METHOD dest qo = Some (true, Some x, qo') /\ rel qo' qa'.
Proof.
  intros Hr Hd (na & Hn & (y & Hx & (qa1 & Hset & [= -> <-])%bind_Some)%bind_Some)%bind_Some.
  unfold ObjectQueue.extract_head. rewrite (rel_head _ _ Hr).
  destruct (node_related _ _ _ _ Hr Hn) as (no & -> & [Hnx Hc]). bound. rewrite Hx in Hc. simpl in Hc. rewrite Hc.
  destruct (pop_extract_live METHOD dest x Hd) as (y & ->). bound.
  destruct (conditional_destroy_live y) as (c & -> & Hc'). bound.
  destruct (set_data_related _ _ _ _ _ _ Hr Hc' Hset) as (qo1 & -> & Hr1). bound.
  eexists. split; [done|]. rewrite Hnx. by apply rel_set_head.
Qed.

Lemma push_loop_related METHOD n xs qo qa qa' :
  rel qo qa -> push_loop n xs qa = Some qa' ->
  exists qo', ObjectQueue.push_loop METHOD n (Some <$> xs) qo
    = Some (true, (after METHOD <$> take n xs) ++ (Some <$> drop n xs), qo') /\ rel qo' qa'.
Proof.
  revert xs qo qa. induction n as [|n IH]; intros xs qo qa Hr; simpl.
  { intros [= <-]. by exists qo. }
  destruct xs as [|x xs]; [done|]. intros (qa1 & Hc & Hl)%bind_Some. rewrite fmap_cons.
  destruct (construct_tail_related METHOD x _ _ _ Hr Hc) as (qo1 & -> & Hr1). simpl.
  destruct (IH xs qo1 qa1 Hr1 Hl) as (qo2 & -> & Hr2). simpl. by exists qo2.
Qed.

Lemma pop_loop_related METHOD n dests xs qo qa qa' :
  rel qo qa -> Forall (dest_ok METHOD) dests -> (n <= length dests)%nat -> pop_loop n qa = Some (xs, qa') ->
  length xs = n /\ exists qo', ObjectQueue.pop_loop METHOD n dests qo
    = Some (true, (Some <$> xs) ++ drop n dests, qo') /\ rel qo' qa'.
Proof.
  revert dests xs qo qa. induction n as [|n IH]; intros dests xs qo qa Hr Hd Hn; simpl.
  { intros [= <- <-]. split; [done|]. by exists qo. }
  intros ([x qa1] & Hx & ([xs' qa2] & Hl & [= <- <-])%bind_Some)%bind_Some.
  destruct dests as [|d dests]; simpl in Hn; [lia|]. apply Forall_cons in Hd as [Hd Hds].
  destruct (extract_head_related METHOD d x _ _ _ Hr Hd Hx) as (qo1 & -> & Hr1). simpl.
  destruct (IH dests xs' qo1 qa1 Hr1 Hds ltac:(lia) Hl) as (<- & qo2 & -> & Hr2). simpl.
  split; [done|]. by exists qo2.
Qed.

Lemma destroy_loop_related n current qo qa qa' :
  rel qo qa -> destroy_loop n current qa = Some qa' ->
  exists qo', ObjectQueue.destroy_loop n current qo = Some qo' /\ rel qo' qa'.
Proof.
  revert current qo qa. induction n as [|n IH]; intros current qo qa Hr; simpl.
  { intros [= <-]. by exists qo. }
  intros (na & Hn & (x & Hx & (qa1 & Hset & Hl)%bind_Some)%bind_Some)%bind_Some.
  destruct (node_related _ _ _ _ Hr Hn) as (no & -> & [Hnx Hc]). bound. rewrite Hx in Hc. simpl in Hc. rewrite Hc.
  destruct (conditional_destroy_live x) as (c & -> & Hc'). bound.
  destruct (set_data_related _ _ _ _ _ _ Hr Hc' Hset) as (qo1 & -> & Hr1). simpl. rewrite Hnx. by apply (IH _ qo1 qa1).
Qed.

(** ** Operations *)

Lemma push_related METHOD x qo qa ok qa' :
  rel qo qa -> push x qa = Some (ok, qa') ->
  exists qo', ObjectQueue.push METHOD (Some x) qo
    = Some (Returned ok, if ok then after METHOD x else Some x, qo') /\ rel qo' qa'.
Proof.
  intros Hr. unfold push, ObjectQueue.push. rewrite (rel_size _ _ Hr), (rel_max _ _ Hr).
  destruct (size qa =? maxSize qa); [intros [= <- <-]; by exists qo|].
  intros (qa1 & Hc & [= <- <-])%bind_Some.
  destruct (construct_tail_related METHOD x _ _ _ Hr Hc) as (qo1 & -> & Hr1). bound.
  eexists. split; [done|]. rewrite (rel_size _ _ Hr1). by apply rel_set_size.
Qed.

Lemma pushBulk_related METHOD xs qo qa n qa' :
  rel qo qa -> pushBulk xs (Z.of_nat (length xs)) qa = Some (n, qa') ->
  exists qo', ObjectQueue.pushBulk METHOD (Some <$> xs) (Z.of_nat (length xs)) qo
    = Some (Returned n, (after METHOD <$> take (Z.to_nat n) xs) ++ (Some <$> drop (Z.to_nat n) xs), qo') /\
    rel qo' qa'.
Proof.
  intros Hr. unfold pushBulk, ObjectQueue.pushBulk. rewrite (rel_size _ _ Hr), (rel_max _ _ Hr).
  destruct (Z.of_nat (length xs) =? 0); [intros [= <- <-]; by exists qo|].
  destruct (u32 (maxSize qa - size qa) =? 0); [intros [= <- <-]; by exists qo|].
  intros (qa1 & Hl & [= <- <-])%bind_Some.
  destruct (push_loop_related METHOD _ _ _ _ _ Hr Hl) as (qo1 & -> & Hr1). bound.
  eexists. split; [done|]. rewrite (rel_size _ _ Hr1). by apply rel_set_size.
Qed.

Lemma pop_related METHOD dest qo qa r qa' :
  rel qo qa -> dest_ok METHOD dest -> pop qa = Some (r, qa') ->
  exists qo', ObjectQueue.pop METHOD dest qo
    = Some (match r with Some x => (Returned true, Some x, qo') | None => (Returned false, dest, qo') end) /\
    rel qo' qa'.
Proof.
  intros Hr Hd. unfold pop, take_one, ObjectQueue.pop. rewrite (rel_size _ _ Hr).
  destruct (size qa =? 0); [intros [= <- <-]; by exists qo|].
  intros ([x qa1] & Hx & [= <- <-])%bind_Some.
  destruct (extract_head_related METHOD dest x _ _ _ (rel_set_size _ _ _ Hr) Hd Hx) as (qo1 & -> & Hr1).
  by exists qo1.
Qed.

Lemma popBulk_related METHOD dests qo qa xs qa' :
  rel qo qa -> Forall (dest_ok METHOD) dests -> 0 <= size qa ->
  popBulk (Z.of_nat (length dests)) qa = Some (xs, qa') ->
  exists qo', ObjectQueue.popBulk METHOD dests (Z.of_nat (length dests)) qo
    = Some (Returned (Z.of_nat (length xs)), (Some <$> xs) ++ drop (length xs) dests, qo') /\ rel qo' qa'.
Proof.
  intros Hr Hd Hs. unfold popBulk, take_bulk, ObjectQueue.popBulk. rewrite (rel_size _ _ Hr).
  destruct (Z.of_nat (length dests) =? 0); [intros [= <- <-]; by exists qo|].
  destruct (size qa =? 0); [intros [= <- <-]; by exists qo|].
  intros ([ys qa1] & Hl & [= <- <-])%bind_Some.
  destruct (pop_loop_related METHOD (Z.to_nat (Z.min (Z.of_nat (length dests)) (size qa))) dests ys _ _ _
              Hr Hd ltac:(lia) Hl) as (Hlen & qo1 & -> & Hr1). bound.
  exists (set_size (u32 (size qo1 - Z.min (Z.of_nat (length dests)) (size qa))) qo1). split.
  - rewrite Hlen, Z2Nat.id by lia. done.
  - rewrite (rel_size _ _ Hr1). by apply rel_set_size.
Qed.

Lemma run_o_op_related op qo qa o qa' :
  rel qo qa -> o_op_ok op -> 0 <= size qa -> run_q_op (to_q op) qa = Some (o, qa') ->
  exists qo', run_o_op op qo = Some (o_result op o, qo') /\ rel qo' qa'.
Proof.
  intros Hr Hop Hs. destruct op as [M x|M xs|M d|M ds|]; simpl in *.
  - intros ([ok qa1] & Hp & [= <- <-])%bind_Some.
    destruct (push_related M x _ _ _ _ Hr Hp) as (qo' & -> & Hr'). exists qo'. by destruct ok.
  - intros ([n qa1] & Hp & [= <- <-])%bind_Some.
    destruct (pushBulk_related M xs _ _ _ _ Hr Hp) as (qo' & -> & Hr'). by exists qo'.
  - intros ([r qa1] & Hp & [= -> ->])%fmap_Some.
    destruct (pop_related M d _ _ _ _ Hr Hop Hp) as (qo' & -> & Hr'). exists qo'. by destruct r.
  - intros ([xs qa1] & Hp & [= -> ->])%fmap_Some.
    destruct (popBulk_related M ds _ _ _ _ Hr Hop Hs Hp) as (qo' & -> & Hr'). by exists qo'.
  - intros [= <- <-]. exists (stopWait qo). split; [done|]. by destruct Hr.
Qed.

(** [release] hands back a block in which nothing lives. *)
Lemma release_related L qo qa s :
  rel qo qa -> q_refines L qa s ->
  exists nodes qo', ObjectQueue.release qo = Some (Some nodes, qo') /\ memoryBlock qo' = None /\
    (is_trivially_destructible = false -> Forall (fun n => data n = None) nodes).
Proof.
  intros Hr [[Hi Hs _ _] _]. destruct (ri_nodes _ _ _ Hi) as (nodes & Hb & _).
  assert (exists no, memoryBlock qo = Some no) as [no Hbo].
  { pose proof (rel_block _ _ Hr) as Hblock. rewrite Hb in Hblock. by destruct (memoryBlock qo); [eexists|]. }
  unfold ObjectQueue.release. rewrite Hbo, (rel_size _ _ Hr), Hs, Nat2Z.id, (rel_head _ _ Hr).
  destruct (destroy_loop_spec L _ qa s.1 Hi eq_refl) as (qa' & h & Hl & _ & Hnil).
  destruct (destroy_loop_related _ _ _ _ _ Hr Hl) as (qo' & -> & Hr'). bound.
  destruct (ri_nodes _ _ _ Hnil) as (na & Hna & _). simpl in Hna.
  pose proof (rel_block _ _ Hr') as Hblock. rewrite Hna in Hblock.
  destruct (memoryBlock qo') as [nodes'|] eqn:E; [|done]. simpl in Hblock.
  eexists nodes', _. split; [done|]. split; [done|]. intros Ht.
  pose proof (ring_inv_nil L _ na Hnil Hna) as Hnone. apply Forall_lookup. intros i n Hn.
  destruct (Forall2_lookup_l _ _ _ _ _ Hblock Hn) as (n' & Hn' & _ & Hc).
  rewrite (Forall_lookup_1 _ _ _ _ Hnone Hn') in Hc. simpl in Hc. destruct Hc; [done|congruence].
Qed.

(** The queue [qo] of objects stands for the abstract state [s]. *)
Definition o_refines (L : nat) qo (s : list T * bool) : Prop := exists qa, rel qo qa /\ q_refines L qa s.

Lemma run_o_op_spec L op qo s :
  o_refines L qo s -> o_op_ok op ->
  exists qo', run_o_op op qo = Some (o_result op (spec_q_op L (to_q op) s).1, qo') /\
    o_refines L qo' (spec_q_op L (to_q op) s).2.
Proof.
  intros (qa & Hr & Hq) Hop. assert (Hop' : q_op_ok (to_q op)) by (destruct op; simpl in *; (done || lia)).
  destruct (run_q_op_spec L (to_q op) qa s Hq Hop') as (o & qa' & Hrun & -> & Hq').
  assert (Hs : 0 <= size qa) by (destruct Hq as [[_ Hs _ _] _]; lia).
  destruct (run_o_op_related op qo qa o qa' Hr Hop Hs Hrun) as (qo' & Hrun' & Hr').
  exists qo'. split; [done|]. by exists qa'.
Qed.

(** C30: Refinement.  Whatever sequence of operations is called, copying or
    moving elements in, assigning or placing them out: a queue of objects is
    defined and behaves as the bounded first-in first-out queue; the sources
    are intact or moved from, each destination gets the element it is due and
    the others are left alone; and when the queue is released every object left
    in it is destroyed, none being destroyed twice. *)
Theorem objects_refine_fifo L ops qo s :
  o_refines L qo s -> Forall o_op_ok ops ->
  exists qo' nodes q'', run_o_ops ops qo
      = Some (zip_with o_result ops (spec_q_ops L (to_q <$> ops) s).1, qo') /\
    o_refines L qo' (spec_q_ops L (to_q <$> ops) s).2 /\
    ObjectQueue.release qo' = Some (Some nodes, q'') /\ memoryBlock q'' = None /\
    (is_trivially_destructible = false -> Forall (fun n => data n = None) nodes).
Proof.
  intros Ho Hops. cut (exists qo', run_o_ops ops qo
      = Some (zip_with o_result ops (spec_q_ops L (to_q <$> ops) s).1, qo') /\
    o_refines L qo' (spec_q_ops L (to_q <$> ops) s).2).
  - intros (qo' & Hrun & Ho'). pose proof Ho' as (qa & Hr & Hq).
    destruct (release_related L qo' qa _ Hr Hq) as (nodes & q'' & Hrel & Hb & Hn). by exists qo', nodes, q''.
  - revert qo s Ho. induction ops as [|op ops IH]; intros qo s Ho; [by exists qo|].
    apply Forall_cons in Hops as [Hop Hops]. rewrite fmap_cons. cbn [run_o_ops spec_q_ops].
    destruct (run_o_op_spec L op qo s Ho Hop) as (qo1 & -> & Ho1).
    destruct (spec_q_op L (to_q op) s) as [o s1]. simpl in *.
    destruct (IH Hops qo1 s1 Ho1) as (qo2 & -> & Ho2). simpl.
    destruct (spec_q_ops L (to_q <$> ops) s1) as [os s2]. simpl in *. by exists qo2.
Qed.

(** ** The storage of a worker *)

Lemma execute_tasks_live (xs : list T) (cells : list (option T)) :
  ObjectQueue.execute_tasks ((Some <$> xs) ++ cells) (length xs)
    = Some (xs, replicate (length xs) None ++ cells).
Proof. induction xs as [|x xs IH]; [done|]. rewrite fmap_cons. simpl. by rewrite IH. Qed.

(** C31: A worker's batch.  [popBulk] places tasks into raw storage and
    [execute_tasks] executes and destroys them: the oldest tasks are executed,
    each once and in order, and the storage is raw again, ready for the next
    batch; so it is for one task. *)
Theorem worker_batch L b qo s :
  o_refines L qo s ->
  let n := Nat.min b (length s.1) in
  exists tasks qo',
    ObjectQueue.popBulk PLACE (replicate b None) (Z.of_nat b) qo = Some (Returned (Z.of_nat n), tasks, qo') /\
    ObjectQueue.execute_tasks tasks n = Some (take b s.1, replicate b None) /\
    o_refines L qo' (drop b s.1, s.2).
Proof.
  intros Ho n. destruct (run_o_op_spec L (OPopBulk PLACE (replicate b None)) qo s Ho) as (qo' & Hrun & Ho').
  { by apply Forall_replicate. }
  destruct s as [l stopped]. simpl in *. rewrite length_replicate, Nat2Z.id, length_take in *.
  destruct (ObjectQueue.popBulk PLACE _ _ qo) as [[[r es] q]|]; [|done]. simpl in Hrun.
  assert (r = Returned (Z.of_nat n) /\ es = (Some <$> take b l) ++ drop n (replicate b None) /\ q = qo')
    as (-> & -> & ->) by (by injection Hrun).
  eexists _, qo'. split; [done|]. split; [|done].
  assert (Hn : n = length (take b l)) by (by rewrite length_take). rewrite Hn, execute_tasks_live, <- Hn.
  rewrite drop_replicate, <- replicate_add. do 3 f_equal. lia.
Qed.
End rel.

(** ** When a copy throws *)

(** Copying 13 throws. *)
Definition w_throwing : Element Z := {|
  is_trivially_destructible := false;
  copy x := if x =? 13 then None else Some x;
  move x := (Some x, 0);
  assign d x := (true, x, 0) |}.

(** [pushBulk] is not safe against exceptions.  When the copy of the second
    element throws, the tail has already moved past the first while the size has
    not grown: the queue then hands out the element of the call that failed, and
    one it accepted afterwards stays behind, the queue passing for empty. *)
Theorem bulk_throw_loses_element : exists q',
  @run_o_ops Z w_throwing [OPushBulk COPY [1; 13]; OPush COPY 5; OPop PLACE None; OPop PLACE None] w_queue
    = Some ([(Threw, [Some 1; Some 13]); (Returned 1, [Some 5]); (Returned 1, [Some 1]); (Returned 0, [None])], q').
Proof. eexists. vm_compute. reflexivity. Qed.

(** ** Witnesses *)

(** Moving a number leaves zero; a destructor is to be called. *)
Definition w_moving : Element Z := {|
  is_trivially_destructible := false;
  copy := Some;
  move x := (Some x, 0);
  assign d x := (true, x, 0) |}.

Lemma w_moving_laws : @ElementLaws Z w_moving.
Proof. by split. Qed.

Lemma w_three_refines : @o_refines Z w_moving 3 w_queue ([], false).
Proof. exists w_queue. split; [|exact w_queue_ok]. split; try reflexivity. vm_compute. repeat constructor. Qed.

Definition w_o_ops : list (o_op Z) :=
  [OPushBulk MOVE [1; 2; 3; 4]; OPop ASSIGN (Some 9); OPush COPY 5; OPopBulk PLACE [None; None]; OStop].

(** One element is left, which [release] destroys. *)
Lemma objects_refine_fifo_witness : exists q' nodes q'',
  @run_o_ops Z w_moving w_o_ops w_queue =
    Some ([(Returned 3, [Some 0; Some 0; Some 0; Some 4]); (Returned 1, [Some 1]); (Returned 1, [Some 5]);
           (Returned 2, [Some 2; Some 3]); (Returned 0, [])], q') /\
  @ObjectQueue.release Z w_moving q' = Some (Some nodes, q'') /\
  Forall (fun n => TPBlockQueue.data n = None) nodes.
Proof.
  destruct (@objects_refine_fifo Z w_moving w_moving_laws 3 w_o_ops w_queue ([], false) w_three_refines)
    as (q' & nodes & q'' & Hrun & _ & Hrel & _ & Hn).
  - repeat constructor; simpl; by eexists.
  - exists q', nodes, q''. split; [rewrite Hrun; vm_compute; reflexivity|]. split; [exact Hrel|exact (Hn eq_refl)].
Defined.

(** The queue after three tasks were submitted. *)
Definition w_filled : TPBlockQueue.t Z :=
  match @run_o_op Z w_moving (OPushBulk COPY [1; 2; 3]) w_queue with Some (_, q) => q | None => w_queue end.

Lemma w_filled_refines : @o_refines Z w_moving 3 w_filled ([1; 2; 3], false).
Proof.
  destruct (@run_o_op_spec Z w_moving w_moving_laws 3 (OPushBulk COPY [1; 2; 3]) w_queue ([], false) w_three_refines)
    as (q' & Hrun & Hq); [by repeat constructor|].
  unfold w_filled. rewrite Hrun. exact Hq.
Qed.

(** Storage for two: the two oldest tasks are executed and destroyed. *)
Lemma worker_batch_witness : exists tasks q',
  @ObjectQueue.popBulk Z w_moving PLACE [None; None] 2 w_filled = Some (Returned 2, tasks, q') /\
  ObjectQueue.execute_tasks tasks 2 = Some ([1; 2], [None; None]) /\
  @o_refines Z w_moving 3 q' ([3], false).
Proof. exact (@worker_batch Z w_moving w_moving_laws 3 2 w_filled ([1; 2; 3], false) w_filled_refines). Defined.
