(* ===== verification/TaskPool.v ===== *)
(** * TaskPool: the interface between the submission utilities and the pool

    The utilities of SPTask.hpp only call [emplace], [append] and [append_bulk]
    of the thread pool.  What they may rely on: a call either takes a task or
    does not, a bulk call takes a prefix, and what was taken stays in the pool
    until a worker runs it. *)

From S2P Require Import Prelude.

Class TaskPool (T P : Type) := {
  pool_emplace : T -> P -> option (bool * P);
  pool_append : T -> P -> option (bool * P);
  pool_append_bulk : list T -> Z -> P -> option (Z * P) }.

(** [holding p l]: the tasks waiting in the pool are those of [l];
    [cap]: the longest bulk submission the pool accepts. *)
Class TaskPoolLaws (T P : Type) `{TaskPool T P} (cap : Z) := {
  holding : P -> list T -> Prop;
  pool_emplace_law x p l :
    holding p l -> exists ok p', pool_emplace x p = Some (ok, p') /\
      holding p' (l ++ if ok then [x] else []);
  pool_append_law x p l :
    holding p l -> exists ok p', pool_append x p = Some (ok, p') /\
      holding p' (l ++ if ok then [x] else []);
  pool_append_bulk_law xs p l :
    holding p l -> Z.of_nat (length xs) <= cap ->
    exists n p', pool_append_bulk xs (Z.of_nat (length xs)) p = Some (n, p') /\
      0 <= n <= Z.of_nat (length xs) /\ holding p' (l ++ take (Z.to_nat n) xs) }.

(** [room p n]: the pool takes the next [n] tasks, however they are submitted. *)
Class TaskPoolRoom (T P : Type) `{TaskPool T P} := {
  room : P -> nat -> Prop;
  room_le p n m : room p n -> (m <= n)%nat -> room p m;
  room_emplace x p n : room p (S n) -> exists p', pool_emplace x p = Some (true, p') /\ room p' n;
  room_append x p n : room p (S n) -> exists p', pool_append x p = Some (true, p') /\ room p' n;
  room_bulk xs p n :
    room p (length xs + n) -> exists p',
      pool_append_bulk xs (Z.of_nat (length xs)) p = Some (Z.of_nat (length xs), p') /\ room p' n }.
