(* ===== verification/ThreadPool.v ===== *)
(** * ThreadPool: the worker pool of base/ThreadPool.hpp

    The pool keeps one TPBlockQueue per worker.  A submission is three atomic
    actions (taking the next index, looking at the size of that queue without
    its lock, pushing), and a worker is a state machine whose program points
    are those of process_single and process_bulk between two accesses to
    shared state.  [step] interleaves submitters, workers and the thread that
    calls [exit].  The unlocked reads of [size] and [isStopped] read the
    current value.  [None] is undefined behaviour or a failed [assert]. *)

From S2P Require Import Prelude BlockQueue.

Module ThreadPool.

Section pool.
Context {T : Type}.

Record t := mk {
  shutdownPolicy : bool;
  threadNum : Z;
  queueLength : Z;
  queues : option (list (TPBlockQueue.t T));
  index : Z }.

(** The constructor leaves the atomic [index] as it finds it. *)
Definition ThreadPool (index0 : Z) : t := mk true 0 0 None index0.

Definition set_queues (qs : option (list (TPBlockQueue.t T))) (p : t) : t :=
  mk (shutdownPolicy p) (threadNum p) (queueLength p) qs (index p).

(** [queues[k]]. *)
Definition queue_at (k : Z) (p : t) : option (TPBlockQueue.t T) :=
  qs ← queues p; if 0 <=? k then qs !! Z.to_nat k else None.
Definition set_queue (k : Z) (q : TPBlockQueue.t T) (p : t) : t :=
  set_queues ((fun qs => <[Z.to_nat k := q]> qs) <$> queues p) p.

(** ** init *)

(** [delete[] queues]: every queue is destroyed. *)
Fixpoint delete_queues (qs : list (TPBlockQueue.t T)) : option unit :=
  match qs with
  | [] => Some tt
  | q :: qs => _ ← TPBlockQueue.release q; delete_queues qs
  end.

(** [queues[i].init(queueLength)] for each queue, up to the first failure. *)
Fixpoint init_queues (grant : nat -> Z -> bool) (sizeofNode queueLength : Z) (i : nat)
    (qs : list (TPBlockQueue.t T)) : option (bool * list (TPBlockQueue.t T)) :=
  match qs with
  | [] => Some (true, [])
  | q :: qs =>
      '(ok, q) ← TPBlockQueue.init (grant i) sizeofNode queueLength q;
      if (ok : bool) then
        '(ok, qs) ← init_queues grant sizeofNode queueLength (S i) qs; Some (ok, q :: qs)
      else Some (false, q :: qs)
  end.

(** [fresh]: what [new (std::nothrow) TPBlockQueue<T>[threadNum]] gave, or
    [None]; [cores]: [hardware_concurrency]. *)
Definition init (grant : nat -> Z -> bool) (sizeofNode : Z)
    (fresh : option (list (TPBlockQueue.t T))) (cores : Z)
    (queueLength' threadNum' batchSize : Z) (p : t) : option (bool * t) :=
  if (batchSize =? 0) || (threadNum' =? 0) || (queueLength' <? batchSize)
  then Some (false, p) else
  match fresh with
  | None => Some (false, set_queues None p)
  | Some qs =>
      '(ok, qs) ← init_queues grant sizeofNode queueLength' 0 qs;
      if negb ok || (cores =? 0) then
        _ ← delete_queues qs; Some (false, set_queues None p)
      else
        Some (true, mk (shutdownPolicy p) threadNum' queueLength' (Some qs) (index p))
  end.

(** ** Submission *)

(** [index.fetch_add(1) % threadNum]. *)
Definition next_index (p : t) : option (Z * t) :=
  i ← u32_mod (index p) (threadNum p);
  Some (i, mk (shutdownPolicy p) (threadNum p) (queueLength p) (queues p) (u32 (index p + 1))).

(** The queue to fall back on. *)
Definition opposite (i : Z) (p : t) : option Z :=
  u32_mod (u32 (i + threadNum p / 2)) (threadNum p).

Definition target_one (i : Z) (p : t) : option Z :=
  q ← queue_at i p;
  if TPBlockQueue.size q <? queueLength p then Some i else opposite i p.

Definition target_bulk (i count : Z) (p : t) : option Z :=
  q ← queue_at i p;
  if u32 (TPBlockQueue.size q + count / 2) <=? queueLength p then Some i else opposite i p.

Definition emplace (x : T) (p : t) : option (bool * t) :=
  '(i, p) ← next_index p;
  k ← target_one i p;
  q ← queue_at k p;
  '(ok, q) ← TPBlockQueue.emplace x q;
  Some (ok, set_queue k q p).

Definition append (x : T) (p : t) : option (bool * t) :=
  '(i, p) ← next_index p;
  k ← target_one i p;
  q ← queue_at k p;
  '(ok, q) ← TPBlockQueue.push x q;
  Some (ok, set_queue k q p).

Definition append_bulk (tasks : list T) (count : Z) (p : t) : option (Z * t) :=
  if negb (count <=? queueLength p) then None else
  '(i, p) ← next_index p;
  k ← target_bulk i count p;
  q ← queue_at k p;
  '(n, q) ← TPBlockQueue.pushBulk tasks count q;
  Some (n, set_queue k q p).

(** ** Workers *)

(** Program points: [Run l k] executes the tasks [l] and goes on at [k]. *)
Inductive pc :=
  | PopOwn | Steal (i : Z) | StealPop (i : Z) | Waiting | CheckStop
  | WaitOwn | Drain | Run (l : list T) (k : pc) | Done.

Record worker := mkWorker { w_index : Z; w_stealer : Z; w_pc : pc }.

Definition goto (k : pc) (w : worker) : worker := mkWorker (w_index w) (w_stealer w) k.

(** The vector [other] of [worker]: every queue but its own. *)
Definition other (me : Z) (p : t) : list Z := filter (fun k => k <> me) (seqZ 0 (threadNum p)).

(** [worker]: where a thread starts. *)
Definition worker_start (me : Z) (p : t) : worker :=
  mkWorker me 0 (if decide (other me p = []) then WaitOwn else PopOwn).

(** The operations in which process_single and process_bulk differ: how tasks
    are taken, the threshold of the Stealer, and where a worker that steals
    goes once it is stopped. *)
Record mode := mkMode {
  grab : TPBlockQueue.t T -> option (list T * TPBlockQueue.t T);
  grab_wait : TPBlockQueue.t T -> option (waited (list T * TPBlockQueue.t T));
  grab_for : bool -> TPBlockQueue.t T -> option (waited (list T * TPBlockQueue.t T));
  threshold : Z -> Z -> Z;
  stopped : pc }.

Definition listed (r : option T * TPBlockQueue.t T) : list T * TPBlockQueue.t T :=
  (option_list r.1, r.2).
Definition wlisted (w : waited (option T * TPBlockQueue.t T)) :
    waited (list T * TPBlockQueue.t T) :=
  match w with Blocked => Blocked | Ready r => Ready (listed r) end.

Definition single : mode := mkMode
  (fun q => listed <$> TPBlockQueue.pop q)
  (fun q => wlisted <$> TPBlockQueue.wait_pop q)
  (fun late q => wlisted <$> TPBlockQueue.wait_pop_for late q)
  (fun total maxLength => Z.min total maxLength)
  Done.

Definition bulk (batchSize : Z) : mode := mkMode
  (TPBlockQueue.popBulk batchSize)
  (TPBlockQueue.wait_popBulk batchSize)
  (fun late => TPBlockQueue.wait_popBulk_for late batchSize)
  (fun total maxLength => Z.min (u32 (batchSize * total)) maxLength)
  Drain.

(** [worker] chooses by the batch size. *)
Definition mode_of (batchSize : Z) : mode := if batchSize =? 1 then single else bulk batchSize.

(** One action of a worker: the worker and pool after, and the task executed. *)
Definition result : Type := worker * t * option T.

(** Going on with the tasks taken, or at [k] when there are none. *)
Definition got (l : list T) (back k : pc) (w : worker) (p : t) : result :=
  (match l with [] => goto k w | _ => goto (Run l back) w end, p, None).

(** One turn of the loop of [Stealer::steal]: looking at the size ... *)
Definition steal_look (m : mode) (i : Z) (w : worker) (p : t) : option result :=
  let others := other (w_index w) p in
  let total := Z.of_nat (length others) in
  if negb (i <? total) then Some (goto Waiting w, p, None) else
  own ← queue_at (w_index w) p;
  now ← u32_mod (u32 (w_stealer w + i)) total;
  k ← others !! Z.to_nat now;
  q ← queue_at k p;
  if threshold m total (TPBlockQueue.maxSize own) <=? TPBlockQueue.size q
  then Some (goto (StealPop i) w, p, None) else Some (goto (Steal (i + 1)) w, p, None).

(** ... and taking tasks. *)
Definition steal_take (m : mode) (i : Z) (w : worker) (p : t) : option result :=
  let others := other (w_index w) p in
  now ← u32_mod (u32 (w_stealer w + i)) (Z.of_nat (length others));
  k ← others !! Z.to_nat now;
  q ← queue_at k p;
  '(l, q) ← grab m q;
  let p := set_queue k q p in
  match l with
  | [] => Some (goto (Steal (i + 1)) w, p, None)
  | _ => Some (mkWorker (w_index w) now (Run l PopOwn), p, None)
  end.

(** [late]: the time out of a timed wait has passed. *)
Definition process (m : mode) (late : bool) (w : worker) (p : t) : option (waited result) :=
  let me := w_index w in
  match w_pc w with
  | PopOwn =>
      q ← queue_at me p; '(l, q) ← grab m q;
      Some (Ready (got l PopOwn (Steal 0) w (set_queue me q p)))
  | Steal i => Ready <$> steal_look m i w p
  | StealPop i => Ready <$> steal_take m i w p
  | Waiting =>
      q ← queue_at me p; r ← grab_for m late q;
      match r with
      | Blocked => Some Blocked
      | Ready (l, q) => Some (Ready (got l PopOwn CheckStop w (set_queue me q p)))
      end
  | CheckStop =>
      q ← queue_at me p;
      Some (Ready (goto (if TPBlockQueue.isStopped q =? 0 then PopOwn else stopped m) w, p, None))
  | WaitOwn =>
      q ← queue_at me p; r ← grab_wait m q;
      match r with
      | Blocked => Some Blocked
      | Ready (l, q) => Some (Ready (got l WaitOwn Drain w (set_queue me q p)))
      end
  | Drain =>
      if shutdownPolicy p then
        q ← queue_at me p; '(l, q) ← grab m q;
        Some (Ready (got l Drain Done w (set_queue me q p)))
      else Some (Ready (goto Done w, p, None))
  | Run (x :: l) k => Some (Ready (goto (Run l k) w, p, Some x))
  | Run [] k => Some (Ready (goto k w, p, None))
  | Done => Some Blocked
  end.

(** [process_single] and [process_bulk] as workers run them. *)
Definition process_single : bool -> worker -> t -> option (waited result) := process single.
Definition process_bulk (batchSize : Z) : bool -> worker -> t -> option (waited result) :=
  process (bulk batchSize).

(** ** exit *)

(** [this->shutdownPolicy = shutdownPolicy]. *)
Definition set_policy (policy : bool) (p : t) : t :=
  mk policy (threadNum p) (queueLength p) (queues p) (index p).

(** [exit], for the queues that are still to be stopped. *)
Definition stop_queue (k : Z) (p : t) : option t :=
  q ← queue_at k p; Some (set_queue k (TPBlockQueue.stopWait q) p).

(** After [join]: the workers are gone, the queues are destroyed. *)
Definition exit_joined (p : t) : option t :=
  qs ← queues p;
  _ ← delete_queues qs;
  Some (mk (shutdownPolicy p) 0 0 None (index p)).

(** ** The pool as a concurrent system *)

Inductive sub := One (x : T) | Many (xs : list T).
Inductive client := Idle | Indexed (i : Z) (s : sub) | Targeted (k : Z) (s : sub).
Inductive exiter := Running | Stopping (k : Z) | Joining | Exited.

(** [accepted]: the tasks whose submission succeeded; [executed]: the tasks
    run, in order. *)
Record sys := mkSys {
  pool : t;
  workers : list worker;
  clients : list client;
  exit_pc : exiter;
  accepted : list T;
  executed : list T }.

(** A submission, one action at a time. *)
Definition submit_index (s : sub) (p : t) : option (Z * t) :=
  match s with
  | One _ => next_index p
  | Many xs => if negb (Z.of_nat (length xs) <=? queueLength p) then None else next_index p
  end.
Definition submit_target (i : Z) (s : sub) (p : t) : option Z :=
  match s with One _ => target_one i p | Many xs => target_bulk i (Z.of_nat (length xs)) p end.
Definition submit_push (k : Z) (s : sub) (p : t) : option (list T * t) :=
  q ← queue_at k p;
  match s with
  | One x => '(ok, q) ← TPBlockQueue.push x q; Some (if (ok : bool) then [x] else [], set_queue k q p)
  | Many xs => '(n, q) ← TPBlockQueue.pushBulk xs (Z.of_nat (length xs)) q;
               Some (take (Z.to_nat n) xs, set_queue k q p)
  end.

(** What can happen next: a submitter, a worker, or the exiting thread acts. *)
Inductive action :=
  | ASubmit (c : nat) (s : sub) | AClient (c : nat)
  | AWorker (j : nat) (late : bool)
  | AExit (policy : bool) | AExiter.

(** [None]: undefined; [Blocked]: the action is not possible now. *)
Definition act (m : mode) (a : action) (s : sys) : option (waited sys) :=
  match a with
  | ASubmit c u =>
      match clients s !! c with
      | Some Idle =>
          '(i, p) ← submit_index u (pool s);
          Some (Ready (mkSys p (workers s) (<[c := Indexed i u]> (clients s)) (exit_pc s)
                         (accepted s) (executed s)))
      | _ => Some Blocked
      end
  | AClient c =>
      match clients s !! c with
      | Some (Indexed i u) =>
          k ← submit_target i u (pool s);
          Some (Ready (mkSys (pool s) (workers s) (<[c := Targeted k u]> (clients s)) (exit_pc s)
                         (accepted s) (executed s)))
      | Some (Targeted k u) =>
          '(xs, p) ← submit_push k u (pool s);
          Some (Ready (mkSys p (workers s) (<[c := Idle]> (clients s)) (exit_pc s)
                         (accepted s ++ xs) (executed s)))
      | _ => Some Blocked
      end
  | AWorker j late =>
      match workers s !! j with
      | Some w =>
          r ← process m late w (pool s);
          match r with
          | Blocked => Some Blocked
          | Ready (w, p, x) =>
              Some (Ready (mkSys p (<[j := w]> (workers s)) (clients s) (exit_pc s)
                             (accepted s) (executed s ++ option_list x)))
          end
      | None => Some Blocked
      end
  | AExit policy =>
      match exit_pc s with
      | Running =>
          Some (Ready (mkSys (set_policy policy (pool s))
                         (workers s) (clients s) (Stopping 0) (accepted s) (executed s)))
      | _ => Some Blocked
      end
  | AExiter =>
      match exit_pc s with
      | Stopping k =>
          if k <? Z.of_nat (length (workers s)) then
            p ← stop_queue k (pool s);
            Some (Ready (mkSys p (workers s) (clients s) (Stopping (k + 1)) (accepted s) (executed s)))
          else Some (Ready (mkSys (pool s) (workers s) (clients s) Joining (accepted s) (executed s)))
      | Joining =>
          if forallb (fun w => match w_pc w with Done => true | _ => false end) (workers s) then
            p ← exit_joined (pool s);
            Some (Ready (mkSys p [] (clients s) Exited (accepted s) (executed s)))
          else Some Blocked
      | _ => Some Blocked
      end
  end.

Definition step (m : mode) (s s' : sys) : Prop := exists a, act m a s = Some (Ready s').

(** A run from a list of actions, for examples. *)
Fixpoint run (m : mode) (l : list action) (s : sys) : option (waited sys) :=
  match l with
  | [] => Some (Ready s)
  | a :: l => r ← act m a s; match r with Blocked => Some Blocked | Ready s => run m l s end
  end.

(** The system right after a successful [init], with [nc] submitters. *)
Definition started (p : t) (nc : nat) : sys :=
  mkSys p ((fun me => worker_start me p) <$> seqZ 0 (threadNum p)) (replicate nc Idle) Running [] [].
End pool.

Arguments t : clear implicits.
Arguments pc : clear implicits.
Arguments worker : clear implicits.
Arguments mode : clear implicits.
Arguments sys : clear implicits.
Arguments action : clear implicits.
End ThreadPool.
