(* ===== verification/ThreadPoolSpec.v ===== *)
(** * ThreadPoolSpec: the invariants of the thread pool

    [pool_inv L p ab]: the pool [p] has [threadNum p] queues of capacity [L],
    the k-th standing for the abstract queue [ab !! k] (its tasks and its stop
    flag).  [wtrans] is what one action of a worker does to that abstract
    state; every action of [process] is shown to be defined and to be one. *)

From S2P Require Import Prelude BlockQueue BlockQueueSpec ThreadPool.
Import ThreadPool.

Section spec.
Context {T : Type}.
Implicit Types (p : ThreadPool.t T) (ab : list (list T * bool)) (w : ThreadPool.worker T).

Record pool_inv (L : nat) p ab : Prop := {
  pv_num : 0 < threadNum p < 2 ^ 32;
  pv_len : queueLength p = Z.of_nat L;
  pv_u32 : Z.of_nat L < 2 ^ 32;
  pv_queues : exists qs, queues p = Some qs /\ Forall2 (q_refines L) qs ab;
  pv_ab : Z.of_nat (length ab) = threadNum p }.

(** Two pools that differ in their queues only. *)
Definition same_pool p p' : Prop := p' = set_queues (queues p') p.

Lemma same_pool_set_queue k q p : same_pool p (set_queue k q p).
Proof. done. Qed.

#[local] Instance same_pool_refl : Reflexive same_pool.
Proof. by intros []. Qed.

(** ** Queues *)

Lemma queue_at_spec L p ab k :
  pool_inv L p ab -> 0 <= k < threadNum p ->
  exists q s, queue_at k p = Some q /\ ab !! Z.to_nat k = Some s /\ q_refines L q s.
Proof.
  intros [_ _ _ (qs & Hqs & Hall) Hab] Hk. unfold queue_at. rewrite Hqs. simpl.
  rewrite (proj2 (Z.leb_le 0 k)) by lia.
  destruct (lookup_lt_is_Some_2 ab (Z.to_nat k)) as [s Hs]; [lia|].
  destruct (Forall2_lookup_r _ _ _ _ _ Hall Hs) as (q & Hq & Hr). eauto.
Qed.

Lemma set_queue_spec L p ab k q s :
  pool_inv L p ab -> 0 <= k < threadNum p -> q_refines L q s ->
  pool_inv L (set_queue k q p) (<[Z.to_nat k := s]> ab).
Proof.
  intros [Hn Hl Hu (qs & Hqs & Hall) Hab] Hk Hr. constructor; try done.
  - exists (<[Z.to_nat k := q]> qs). unfold set_queue. rewrite Hqs. split; [done|].
    by apply Forall2_insert.
  - by rewrite length_insert.
Qed.

Lemma u32_mod_range a n : 0 < n -> exists r, u32_mod a n = Some r /\ 0 <= r < n.
Proof.
  intros Hn. exists (a mod n). split; [by apply u32_mod_pos|]. by apply Z.mod_pos_bound.
Qed.

(** ** The two modes *)

(** A mode takes up to [n] tasks at a time from a queue. *)
Record mode_ok (L : nat) (m : mode T) (n : nat) : Prop := {
  mo_pos : (0 < n)%nat;
  mo_grab q s : q_refines L q s ->
    exists q', grab m q = Some (take n s.1, q') /\ q_refines L q' (drop n s.1, s.2);
  mo_wait q s : q_refines L q s ->
    exists q', grab_wait m q = Some (waits (busy s) (take n s.1, q')) /\
      q_refines L q' (drop n s.1, s.2);
  mo_for late q s : q_refines L q s ->
    exists q', grab_for m late q = Some (waits (busy s || late) (take n s.1, q')) /\
      q_refines L q' (drop n s.1, s.2);
  mo_stopped : stopped m = Drain \/ stopped m = Done }.

Lemma single_ok L : mode_ok L single 1.
Proof.
  constructor; [lia| | | |by right]; simpl.
  - intros q s Hr. destruct (take_one_refines _ _ _ Hr) as (q' & H & Hr').
    exists q'. unfold TPBlockQueue.pop. rewrite H. simpl. unfold listed. simpl.
    by destruct (head_take1 s.1) as [-> _].
  - intros q s Hr. destruct (wait_pop_refines _ _ _ Hr) as (q' & H & Hr').
    exists q'. rewrite H. destruct (head_take1 s.1) as [<- _]. by destruct (busy s).
  - intros late q s Hr. destruct (wait_pop_for_refines _ _ _ late Hr) as (q' & H & Hr').
    exists q'. rewrite H. destruct (head_take1 s.1) as [<- _]. by destruct (busy s || late).
Qed.

Lemma bulk_ok L b : 0 < b -> mode_ok L (bulk b) (Z.to_nat b).
Proof.
  intros Hb. constructor; [lia| | | |by left]; simpl.
  - intros q s Hr. unfold TPBlockQueue.popBulk. rewrite (proj2 (Z.eqb_neq b 0)) by lia.
    apply take_bulk_refines; [done|lia].
  - intros q s Hr. by apply wait_popBulk_refines.
  - intros late q s Hr. by apply wait_popBulk_for_refines.
Qed.

Lemma mode_of_ok L b : 0 < b -> mode_ok L (mode_of b) (Z.to_nat b).
Proof.
  intros Hb. unfold mode_of. destruct (Z.eqb_spec b 1) as [->|]; [apply single_ok|by apply bulk_ok].
Qed.

(** ** Other queues *)

Lemma elem_of_other k me p : k ∈ other me p <-> k <> me /\ 0 <= k < threadNum p.
Proof.
  unfold other. rewrite list_elem_of_filter, elem_of_seqZ. lia.
Qed.

Lemma other_same me p p' : same_pool p p' -> other me p' = other me p.
Proof. intros E. rewrite E. done. Qed.

(** The queue a thief looks at. *)
Lemma victim_spec me p (i v : Z) :
  0 <= i < Z.of_nat (length (other me p)) ->
  exists now k, u32_mod (u32 (v + i)) (Z.of_nat (length (other me p))) = Some now /\
    other me p !! Z.to_nat now = Some k /\ 0 <= k < threadNum p.
Proof.
  intros Hi. destruct (u32_mod_range (u32 (v + i)) (Z.of_nat (length (other me p)))) as (r & -> & Hr);
    [lia|].
  destruct (lookup_lt_is_Some_2 (other me p) (Z.to_nat r)) as [k Hk]; [lia|].
  exists r, k. split_and!; [done|done|..];
    apply list_elem_of_lookup_2, elem_of_other in Hk; lia.
Qed.

(** ** What a worker does to the abstract state *)

(** The tasks a worker has taken and not yet executed. *)
Fixpoint held_pc (k : pc T) : list T :=
  match k with Run l k => l ++ held_pc k | _ => [] end.
Definition held w : list T := held_pc (w_pc w).

(** Loop indices in range; only a worker with others to steal from looks for
    tasks elsewhere; after running tasks it goes back to where it takes them. *)
Definition pc_ok (total : Z) (k : pc T) : Prop :=
  match k with
  | PopOwn | Waiting | CheckStop => 0 < total
  | Steal i => 0 < total /\ 0 <= i <= total
  | StealPop i => 0 <= i < total
  | Run _ k => k = PopOwn /\ 0 < total \/ k = WaitOwn \/ k = Drain
  | _ => True
  end.

(** Points a worker reaches only once its queue is stopped. *)
Definition after_stop (k : pc T) : Prop :=
  match k with Drain | Done | Run _ Drain => True | _ => False end.

Record worker_ok p ab w : Prop := {
  wo_index : 0 <= w_index w < threadNum p;
  wo_pc : pc_ok (Z.of_nat (length (other (w_index w) p))) (w_pc w);
  wo_stop : after_stop (w_pc w) -> exists l, ab !! Z.to_nat (w_index w) = Some (l, true) }.

(** Where a worker goes on after taking tasks at [k]. *)
Inductive takes : pc T -> pc T -> Prop :=
  | takes_own : takes PopOwn PopOwn
  | takes_steal i : takes (StealPop i) PopOwn
  | takes_wait : takes Waiting PopOwn
  | takes_wait_own : takes WaitOwn WaitOwn
  | takes_drain : takes Drain Drain.

(** Moves that touch no task: [own] is the worker's queue, [policy] the
    shutdown policy, [final] where it goes once stopped. *)
Inductive moves (total : Z) (policy : bool) (final : pc T) (own : list T * bool) :
    pc T -> pc T -> Prop :=
  | mv_own : own.1 = [] -> moves total policy final own PopOwn (Steal 0)
  | mv_look i : 0 <= i < total -> moves total policy final own (Steal i) (StealPop i)
  | mv_skip i : 0 <= i < total -> moves total policy final own (Steal i) (Steal (i + 1))
  | mv_end i : total <= i -> moves total policy final own (Steal i) Waiting
  | mv_miss i : 0 <= i < total -> moves total policy final own (StealPop i) (Steal (i + 1))
  | mv_late : own.1 = [] -> moves total policy final own Waiting CheckStop
  | mv_again : own.2 = false -> moves total policy final own CheckStop PopOwn
  | mv_stop : own.2 = true -> moves total policy final own CheckStop final
  | mv_drain : own = ([], true) -> moves total policy final own WaitOwn Drain
  | mv_done : policy = true -> own.1 = [] -> moves total policy final own Drain Done
  | mv_abandon : policy = false -> moves total policy final own Drain Done
  | mv_ret k : moves total policy final own (Run [] k) k.

Inductive wtrans (n : nat) (final : pc T) p ab w : worker T -> list (list T * bool) -> option T -> Prop :=
  | wt_move own k' :
      ab !! Z.to_nat (w_index w) = Some own ->
      moves (Z.of_nat (length (other (w_index w) p))) (shutdownPolicy p) final own (w_pc w) k' ->
      wtrans n final p ab w (goto k' w) ab None
  | wt_take k s v back :
      ab !! k = Some s -> s.1 <> [] -> takes (w_pc w) back ->
      (w_pc w <> Drain \/ shutdownPolicy p = true) ->
      wtrans n final p ab w (mkWorker (w_index w) v (Run (take n s.1) back))
        (<[k := (drop n s.1, s.2)]> ab) None
  | wt_exec x l k :
      w_pc w = Run (x :: l) k -> wtrans n final p ab w (goto (Run l k) w) ab (Some x).

(** When a worker has to wait: it has finished, or its queue is empty and not
    stopped (and its timed wait not over). *)
Definition waiting (late : bool) ab w : Prop :=
  w_pc w = Done \/
  (ab !! Z.to_nat (w_index w) = Some ([], false) /\
   (w_pc w = WaitOwn \/ w_pc w = Waiting /\ late = false)).

Section process.
Context {L : nat} {m : mode T} {n : nat} (Hm : mode_ok L m n).

Lemma take_nil_inv (l : list T) : take n l = [] -> l = [].
Proof. pose proof (mo_pos _ _ _ Hm). destruct n, l; simpl; done || lia. Qed.

(** Taking from the queue [k], and either running what came or going on. *)
Lemma got_spec p ab w k q' s back next :
  pool_inv L p ab -> 0 <= k < threadNum p -> ab !! Z.to_nat k = Some s ->
  q_refines L q' (drop n s.1, s.2) -> takes (w_pc w) back ->
  (w_pc w <> Drain \/ shutdownPolicy p = true) ->
  (s.1 = [] -> exists own, ab !! Z.to_nat (w_index w) = Some own /\
     moves (Z.of_nat (length (other (w_index w) p))) (shutdownPolicy p) (stopped m) own
       (w_pc w) next) ->
  exists w' p' ab', got (take n s.1) back next w (set_queue k q' p) = (w', p', None) /\
    pool_inv L p' ab' /\ same_pool p p' /\ wtrans n (stopped m) p ab w w' ab' None.
Proof.
  intros Hp Hk Hs Hr Ht Hpol Hnext. pose proof (set_queue_spec _ _ _ _ _ _ Hp Hk Hr) as Hp'.
  unfold got. destruct (take n s.1) as [|x l] eqn:E.
  - apply take_nil_inv in E. destruct (Hnext E) as (own & Hown & Hmv).
    rewrite E, drop_nil in Hp'. rewrite list_insert_id in Hp';
      [|rewrite Hs; f_equal; destruct s; simpl in *; congruence].
    eexists _, _, ab. split_and!; [done|done|done|by eapply wt_move].
  - eexists _, _, _. split_and!; [done|exact Hp'|done|]. rewrite <- E.
    eapply wt_take; [done| |done|done]. intros E'. by rewrite E', take_nil in E.
Qed.

Lemma steal_look_spec p ab w i :
  pool_inv L p ab -> worker_ok p ab w -> w_pc w = Steal i ->
  exists w', steal_look m i w p = Some (w', p, None) /\ wtrans n (stopped m) p ab w w' ab None.
Proof.
  intros Hp Hw Hpc. unfold steal_look. pose proof (wo_pc _ _ _ Hw) as Hi. rewrite Hpc in Hi. simpl in Hi.
  destruct (queue_at_spec _ _ _ _ Hp (wo_index _ _ _ Hw)) as (own & so & Hown & Hso & Hro).
  destruct (Z.ltb_spec i (Z.of_nat (length (other (w_index w) p)))); simpl.
  - rewrite Hown. simpl.
    destruct (victim_spec (w_index w) p i (w_stealer w) ltac:(lia)) as (now & k & -> & Hk & Hkr).
    simpl. rewrite Hk. simpl. destruct (queue_at_spec _ _ _ _ Hp Hkr) as (q & s & -> & _). simpl.
    case_match; eexists; (split; [done|]); eapply wt_move; try done; rewrite Hpc; constructor; lia.
  - eexists. split; [done|]. eapply wt_move; [done|]. rewrite Hpc. constructor. lia.
Qed.

Lemma steal_take_spec p ab w i :
  pool_inv L p ab -> worker_ok p ab w -> w_pc w = StealPop i ->
  exists w' p' ab', steal_take m i w p = Some (w', p', None) /\
    pool_inv L p' ab' /\ same_pool p p' /\ wtrans n (stopped m) p ab w w' ab' None.
Proof.
  intros Hp Hw Hpc. unfold steal_take. pose proof (wo_pc _ _ _ Hw) as Hi. rewrite Hpc in Hi. simpl in Hi.
  destruct (queue_at_spec _ _ _ _ Hp (wo_index _ _ _ Hw)) as (own & so & _ & Hso & _).
  destruct (victim_spec (w_index w) p i (w_stealer w) ltac:(lia)) as (now & k & -> & Hk & Hkr).
  simpl. rewrite Hk. simpl. destruct (queue_at_spec _ _ _ _ Hp Hkr) as (q & s & -> & Hs & Hr). simpl.
  destruct (mo_grab _ _ _ Hm q s Hr) as (q' & -> & Hr'). simpl.
  pose proof (set_queue_spec _ _ _ _ _ _ Hp Hkr Hr') as Hp'.
  destruct (take n s.1) as [|x l] eqn:E.
  - apply take_nil_inv in E. rewrite E, drop_nil in Hp'. rewrite list_insert_id in Hp';
      [|rewrite Hs; f_equal; destruct s; simpl in *; congruence].
    eexists _, _, ab. split_and!; [done|done|done|]. eapply wt_move; [done|].
    rewrite Hpc. constructor. lia.
  - eexists _, _, _. split_and!; [done|exact Hp'|done|]. rewrite <- E.
    eapply wt_take; [done| |by rewrite Hpc; constructor|left; by rewrite Hpc].
    intros E'. by rewrite E', take_nil in E.
Qed.

(** Every action of a worker is defined, and is a [wtrans] or a wait. *)
Lemma process_spec late p ab w :
  pool_inv L p ab -> worker_ok p ab w ->
  exists r, process m late w p = Some r /\
    match r with
    | Blocked => waiting late ab w
    | Ready (w', p', x) => exists ab', pool_inv L p' ab' /\ same_pool p p' /\
        wtrans n (stopped m) p ab w w' ab' x
    end.
Proof.
  intros Hp Hw. unfold process.
  destruct (queue_at_spec _ _ _ _ Hp (wo_index _ _ _ Hw)) as (own & so & Hown & Hso & Hro).
  destruct (w_pc w) as [|i|i| | | | |[|x l] k0|] eqn:Hpc; try rewrite Hown; simpl.
  - destruct (mo_grab _ _ _ Hm _ _ Hro) as (q' & -> & Hr'). simpl. eexists. split; [done|].
    destruct (got_spec p ab w (w_index w) q' so PopOwn (Steal 0)) as (w' & p' & ab' & -> & ?);
      rewrite ?Hpc; try done; [apply Hw|constructor|by left| |by exists ab'].
    intros E. eexists. split; [done|by constructor].
  - destruct (steal_look_spec p ab w i Hp Hw Hpc) as (w' & -> & Ht). simpl.
    eexists. split; [done|]. by exists ab.
  - destruct (steal_take_spec p ab w i Hp Hw Hpc) as (w' & p' & ab' & -> & Ht). simpl.
    eexists. split; [done|]. by exists ab'.
  - destruct (mo_for _ _ _ Hm late _ _ Hro) as (q' & -> & Hr'). simpl.
    destruct (busy so || late) eqn:E; simpl; (eexists; split; [done|]).
    + destruct (got_spec p ab w (w_index w) q' so PopOwn CheckStop) as (w' & p' & ab' & -> & ?);
        rewrite ?Hpc; try done; [apply Hw|constructor|by left| |by exists ab'].
      intros E'. eexists. split; [done|by constructor].
    + apply orb_false_iff in E as [E%not_busy ->]. right. rewrite Hpc, Hso, E. auto.
  - eexists. split; [done|]. exists ab. split_and!; [done|done|]. eapply wt_move; [done|].
    rewrite Hpc. destruct Hro as [_ ->]. destruct so as [l []]; simpl; by constructor.
  - destruct (mo_wait _ _ _ Hm _ _ Hro) as (q' & -> & Hr'). simpl.
    destruct (busy so) eqn:E; simpl; (eexists; split; [done|]).
    + destruct (got_spec p ab w (w_index w) q' so WaitOwn Drain) as (w' & p' & ab' & -> & ?);
        rewrite ?Hpc; try done; [apply Hw|constructor|by left| |by exists ab'].
      intros E'. eexists. split; [done|]. constructor. destruct so as [l []]; simpl in *; by subst.
    + apply not_busy in E. right. rewrite Hpc, Hso, E. auto.
  - destruct (shutdownPolicy p) eqn:Epol; simpl.
    + destruct (mo_grab _ _ _ Hm _ _ Hro) as (q' & -> & Hr'). simpl.
      eexists. split; [done|].
      destruct (got_spec p ab w (w_index w) q' so Drain Done) as (w' & p' & ab' & -> & ?);
        rewrite ?Hpc; try done; [apply Hw|constructor|by right| |by exists ab'].
      intros E. eexists. split; [done|by constructor].
    + eexists. split; [done|]. exists ab. split_and!; [done|done|]. eapply wt_move; [done|].
      rewrite Hpc. by constructor.
  - eexists. split; [done|]. exists ab. split_and!; [done|done|]. eapply wt_move; [done|].
    rewrite Hpc. constructor.
  - eexists. split; [done|]. exists ab. split_and!; [done|done|]. by apply wt_exec.
  - eexists. split; [done|]. by left.
Qed.
End process.

(** ** What a [wtrans] preserves *)

(** All queued tasks. *)
Definition tasks ab : list T := ab ≫= fst.

Lemma tasks_take ab k s n :
  ab !! k = Some s -> take n s.1 ++ tasks (<[k := (drop n s.1, s.2)]> ab) ≡ₚ tasks ab.
Proof.
  intros Hk. assert (Hlt : (k < length ab)%nat) by (by apply lookup_lt_is_Some; exists s).
  rewrite <- (take_drop_middle _ _ _ Hk) at 2. rewrite insert_take_drop by done.
  unfold tasks. rewrite !bind_app. simpl. rewrite <- (take_drop n s.1) at 3. solve_Permutation.
Qed.

Lemma tasks_push ab k s xs :
  ab !! k = Some s -> tasks (<[k := (s.1 ++ xs, s.2)]> ab) ≡ₚ tasks ab ++ xs.
Proof.
  intros Hk. assert (Hlt : (k < length ab)%nat) by (by apply lookup_lt_is_Some; exists s).
  rewrite <- (take_drop_middle _ _ _ Hk) at 2. rewrite insert_take_drop by done.
  unfold tasks. rewrite !bind_app. simpl. solve_Permutation.
Qed.

Lemma takes_held k back : takes k back -> held_pc k = [] /\ held_pc back = [].
Proof. by intros []. Qed.

Section wtrans.
Context {n : nat} {final : pc T} (Hfinal : final = Drain \/ final = Done).

(** Tasks move from a queue to a worker and from there to the executed ones. *)
Lemma wtrans_tasks p ab w w' ab' x :
  wtrans n final p ab w w' ab' x ->
  held w ++ tasks ab ≡ₚ option_list x ++ held w' ++ tasks ab'.
Proof.
  unfold held. intros [own k' _ Hmv|k s v back Hk _ Ht _|y l k Hpc]; simpl.
  - assert (held_pc (w_pc w) = held_pc k') as ->; [|done].
    destruct Hmv; try done. by destruct Hfinal as [-> | ->].
  - destruct (takes_held _ _ Ht) as [-> ->]. rewrite app_nil_r. symmetry. by apply tasks_take.
  - rewrite Hpc. simpl. done.
Qed.

Lemma wtrans_flags p ab w w' ab' x :
  wtrans n final p ab w w' ab' x -> length ab' = length ab /\ ab'.*2 = ab.*2.
Proof.
  intros [|k s v back Hk _ _ _|]; [done| |done]. split; [by rewrite length_insert|].
  rewrite list_fmap_insert. simpl. apply list_insert_id. by rewrite list_lookup_fmap, Hk.
Qed.

Lemma flag_lookup ab ab' k l (f : bool) :
  ab'.*2 = ab.*2 -> ab !! k = Some (l, f) -> exists l', ab' !! k = Some (l', f).
Proof.
  intros E Hk. pose proof (f_equal (.!! k) E) as E'. simpl in E'.
  rewrite !list_lookup_fmap, Hk in E'. simpl in E'.
  destruct (ab' !! k) as [[l' f']|]; simpl in E'; [|done]. injection E' as <-. eauto.
Qed.

Lemma wtrans_worker_ok p p' ab w w' ab' x :
  worker_ok p ab w -> same_pool p p' -> wtrans n final p ab w w' ab' x -> worker_ok p' ab' w'.
Proof.
  intros [Hi Hpc Hst] Hsp Ht. pose proof (wtrans_flags _ _ _ _ _ _ Ht) as [_ Hfl].
  assert (Hidx : w_index w' = w_index w) by (by destruct Ht).
  assert (Hth : threadNum p' = threadNum p) by (by rewrite Hsp).
  constructor; rewrite ?Hidx, ?Hth, ?(other_same _ _ _ Hsp); [done| |].
  - destruct Ht as [own k' _ Hmv|k s v back _ _ Htk _|y l k E]; simpl.
    + destruct Hmv; simpl in *; try done; try lia.
      * by destruct Hfinal as [-> | ->].
      * destruct Hpc as [[-> ?]|[-> | ->]]; done.
    + destruct Htk; simpl in *; auto with lia.
    + by rewrite E in Hpc.
  - intros Has. destruct Ht as [own k' Hown Hmv|k s v back _ _ Htk _|y l k E]; simpl in *.
    + destruct Hmv as [| | | | | | |Hown2|Hown2| | |k]; simpl in *; try done; try by apply Hst.
      * destruct own as [l f]. simpl in Hown2. subst f. eauto.
      * subst own. eauto.
      * destruct Hpc as [[-> _]|[-> | ->]]; try done. by apply Hst.
    + assert (after_stop (w_pc w)) as Has' by (by destruct Htk).
      destruct (Hst Has') as (l & Hl). by eapply flag_lookup.
    + apply Hst. by rewrite E.
Qed.
End wtrans.
End spec.
