(* ===== verification/ThreadPoolInv.v ===== *)
(** * ThreadPoolInv: the invariant of the thread pool as a concurrent system

    [sys_inv L s ab] ties a state of the system to the abstract queues [ab]:
    every accepted task is executed, held by one worker or queued, exactly
    once.  [act_spec] shows that whatever acts next, the action is defined and
    keeps the invariant. *)

From S2P Require Import Prelude BlockQueue BlockQueueSpec TaskPool ThreadPool ThreadPoolSpec.
Import ThreadPool.

Section inv.
Context {T : Type}.
Implicit Types (p : ThreadPool.t T) (ab : list (list T * bool)) (w : worker T) (s : sys T).

Definition sub_ok (L : nat) (u : @sub T) : Prop :=
  match u with One _ => True | Many xs => (length xs <= L)%nat end.

#[export] Instance sub_ok_dec L u : Decision (sub_ok L u).
Proof. destruct u; simpl; apply _. Defined.

Definition sub_tasks (u : @sub T) : list T := match u with One x => [x] | Many xs => xs end.

Definition client_ok (L : nat) p (c : @client T) : Prop :=
  match c with
  | Idle => True
  | Indexed i u | Targeted i u => 0 <= i < threadNum p /\ sub_ok L u
  end.

(** How many queues have been stopped. *)
Definition upto (e : exiter) (n : Z) : Z :=
  match e with Running => 0 | Stopping k => k | Joining | Exited => n end.

Record sys_inv (L : nat) s ab : Prop := {
  si_pool : pool_inv L (pool s) ab;
  si_index : w_index <$> workers s = seqZ 0 (threadNum (pool s));
  si_workers : Forall (worker_ok (pool s) ab) (workers s);
  si_clients : Forall (client_ok L (pool s)) (clients s);
  si_flags k q : ab !! k = Some q ->
    q.2 = bool_decide (Z.of_nat k < upto (exit_pc s) (threadNum (pool s)));
  si_upto : 0 <= upto (exit_pc s) (threadNum (pool s)) <= threadNum (pool s);
  si_alive : exit_pc s <> Exited;
  si_tasks : accepted s ≡ₚ executed s ++ (workers s ≫= held) ++ tasks ab }.

(** ** Lemmas *)

Lemma worker_ok_mono p p' ab ab' w :
  threadNum p' = threadNum p ->
  (forall k l, ab !! k = Some (l, true) -> exists l', ab' !! k = Some (l', true)) ->
  worker_ok p ab w -> worker_ok p' ab' w.
Proof.
  intros E Hf [Hi Hpc Hst]. assert (Ho : other (w_index w) p' = other (w_index w) p)
    by (unfold other; by rewrite E).
  constructor; rewrite ?E, ?Ho; [done|done|]. intros Has. destruct (Hst Has) as (l & Hl). eauto.
Qed.

Lemma client_ok_mono L p p' c : threadNum p' = threadNum p -> client_ok L p c -> client_ok L p' c.
Proof. intros E. destruct c; simpl; by rewrite ?E. Qed.

Lemma submit_target_spec L p ab i u :
  pool_inv L p ab -> 0 <= i < threadNum p -> sub_ok L u ->
  exists k, submit_target i u p = Some k /\ 0 <= k < threadNum p.
Proof.
  intros Hp Hi Hu. destruct (queue_at_spec _ _ _ _ Hp Hi) as (q & s & Hq & _).
  destruct (u32_mod_range (u32 (i + threadNum p / 2)) (threadNum p)) as (r & Hr & Hrr); [apply Hp|].
  unfold submit_target, target_one, target_bulk, opposite. rewrite Hq, Hr. simpl.
  destruct u; case_match; eauto.
Qed.

Lemma submit_push_spec L p ab k u :
  pool_inv L p ab -> 0 <= k < threadNum p -> sub_ok L u ->
  exists xs p' q, submit_push k u p = Some (xs, p') /\ same_pool p p' /\
    ab !! Z.to_nat k = Some q /\ pool_inv L p' (<[Z.to_nat k := (q.1 ++ xs, q.2)]> ab) /\
    xs `prefix_of` sub_tasks u.
Proof.
  intros Hp Hk Hu. destruct (queue_at_spec _ _ _ _ Hp Hk) as (q & s & Hq & Hs & Hr).
  unfold submit_push. rewrite Hq. simpl. destruct u as [x|xs]; simpl in Hu.
  - destruct (push_refines L q s x Hr) as (q' & -> & Hr'). simpl.
    pose proof (set_queue_spec _ _ _ _ _ _ Hp Hk Hr') as Hp'. unfold Fifo.push in *.
    case_decide; simpl in *; eexists _, _, s; split_and!; try done.
    + by rewrite app_nil_r.
    + apply prefix_nil.
  - pose proof (pv_u32 _ _ _ Hp). destruct (pushBulk_refines L q s xs Hr) as (q' & -> & Hr'); [lia|].
    simpl. pose proof (set_queue_spec _ _ _ _ _ _ Hp Hk Hr') as Hp'.
    eexists _, _, s. rewrite Nat2Z.id. split_and!; try done. apply prefix_take.
Qed.

(** Changing the clients only. *)
Lemma sys_inv_clients L s ab cs :
  sys_inv L s ab -> Forall (client_ok L (pool s)) cs ->
  sys_inv L (mkSys (pool s) (workers s) cs (exit_pc s) (accepted s) (executed s)) ab.
Proof. intros [] Hcs. by constructor. Qed.

(** The queue of every index has its worker. *)
Lemma owner L s ab k a :
  sys_inv L s ab -> ab !! k = Some a ->
  exists w, workers s !! k = Some w /\ w_index w = Z.of_nat k.
Proof.
  intros Hs Hk. pose proof (pv_ab _ _ _ (si_pool _ _ _ Hs)) as Hn.
  pose proof (lookup_lt_Some _ _ _ Hk) as Hlt.
  pose proof (f_equal (.!! k) (si_index _ _ _ Hs)) as E. simpl in E.
  rewrite list_lookup_fmap, lookup_seqZ_lt in E by lia.
  destruct (workers s !! k) as [w|]; simpl in E; [|done]. injection E as E. exists w. by rewrite E.
Qed.

Lemma tasks_nil ab : (forall k a, ab !! k = Some a -> a.1 = []) -> tasks ab = [].
Proof.
  intros H. unfold tasks. induction ab as [|a ab IH]; [done|]. rewrite bind_cons.
  rewrite IH; [|intros k; apply (H (S k))]. by rewrite (H 0%nat a).
Qed.

(** ** The actions *)

Lemma act_submit_spec L s ab c u :
  sys_inv L s ab -> sub_ok L u -> forall m,
  exists r, act m (ASubmit c u) s = Some r /\
    match r with Blocked => True | Ready s' => sys_inv L s' ab /\ accepted s' = accepted s end.
Proof.
  intros Hs Hu m. simpl. destruct (clients s !! c) as [[| |]|] eqn:Hc; try by eexists.
  destruct Hs as [Hp Hix Hws Hcs Hfl Hup Hal Ht]. pose proof (pv_num _ _ _ Hp).
  destruct (u32_mod_range (index (pool s)) (threadNum (pool s))) as (i & Hi & Hir); [lia|].
  assert (submit_index u (pool s) = next_index (pool s)) as ->.
  { destruct u; simpl in *; [done|]. rewrite (pv_len _ _ _ Hp), (proj2 (Z.leb_le _ _)) by lia. done. }
  unfold next_index. rewrite Hi. simpl. eexists. split; [done|]. split; [|done].
  constructor; simpl; try done.
  - by destruct Hp; constructor.
  - eapply Forall_impl; [exact Hws|]. intros w. by apply worker_ok_mono; eauto.
  - apply Forall_insert; [done|]. simpl. done.
Qed.

Lemma act_client_spec L s ab c :
  sys_inv L s ab -> forall m,
  exists r, act m (AClient c) s = Some r /\
    match r with Blocked => True | Ready s' => exists ab', sys_inv L s' ab' end.
Proof.
  intros Hs m. simpl. pose proof (si_clients _ _ _ Hs) as Hcs. pose proof (si_pool _ _ _ Hs) as Hp.
  destruct (clients s !! c) as [cl|] eqn:Hc; [|by eexists].
  pose proof (Forall_lookup_1 _ _ _ _ Hcs Hc) as Hcl.
  destruct cl as [|i u|k u]; simpl in Hcl; [by eexists| |]; destruct Hcl as [Hk Hu].
  - destruct (submit_target_spec _ _ _ _ _ Hp Hk Hu) as (k & -> & Hk'). simpl.
    eexists. split; [done|]. exists ab. apply (sys_inv_clients L s ab); [done|].
    by apply Forall_insert.
  - destruct (submit_push_spec _ _ _ _ _ Hp Hk Hu) as (xs & p' & q & -> & Hsp & Hq & Hp' & _). simpl.
    assert (Hth : threadNum p' = threadNum (pool s)) by (by rewrite Hsp).
    destruct Hs as [_ Hix Hws _ Hfl Hup Hal Ht]. eexists. split; [done|].
    exists (<[Z.to_nat k := (q.1 ++ xs, q.2)]> ab). constructor; simpl; rewrite ?Hth; try done.
    + eapply Forall_impl; [exact Hws|]. intros w. apply worker_ok_mono; [done|].
      intros j l Hj. rewrite list_lookup_insert. case_decide; [|by eauto].
      destruct H as [<- _]. rewrite Hq in Hj. injection Hj as ->. by eauto.
    + apply Forall_insert; [|done]. eapply Forall_impl; [exact Hcs|]. intros cl. by apply client_ok_mono.
    + intros j q'. rewrite list_lookup_insert. case_decide; [|by apply Hfl].
      destruct H as [<- _]. intros [= <-]. simpl. by apply (Hfl _ q).
    + rewrite (tasks_push _ _ _ _ Hq), Ht. solve_Permutation.
Qed.

Lemma act_worker_spec {m n} L s ab j w late :
  mode_ok L m n -> sys_inv L s ab -> workers s !! j = Some w ->
  exists r, act m (AWorker j late) s = Some r /\
    match r with
    | Blocked => waiting late ab w
    | Ready s' => exists w' ab' x, sys_inv L s' ab' /\
        wtrans n (stopped m) (pool s) ab w w' ab' x /\ workers s' = <[j := w']> (workers s) /\
        exit_pc s' = exit_pc s /\ same_pool (pool s) (pool s') /\
        accepted s' = accepted s /\ clients s' = clients s
    end.
Proof.
  intros Hm [Hp Hix Hws Hcs Hfl Hup Hal Ht] Hj. simpl. rewrite Hj.
  pose proof (Forall_lookup_1 _ _ _ _ Hws Hj) as Hw.
  destruct (process_spec Hm late _ _ _ Hp Hw) as (r & -> & Hr). simpl.
  destruct r as [|[[w' p'] x]]; [by eexists|]. destruct Hr as (ab' & Hp' & Hsp & Hwt).
  pose proof (mo_stopped _ _ _ Hm) as Hfin.
  pose proof (wtrans_flags _ _ _ _ _ _ Hwt) as [Hlen Hflags].
  pose proof (wtrans_worker_ok Hfin _ _ _ _ _ _ _ Hw Hsp Hwt) as Hw'.
  assert (Hth : threadNum p' = threadNum (pool s)) by (by rewrite Hsp).
  eexists. split; [done|]. exists w', ab', x. split_and!; try done.
  constructor; simpl; rewrite ?Hth; try done.
  - rewrite list_fmap_insert. assert (w_index w' = w_index w) as -> by (by destruct Hwt).
    rewrite list_insert_id; [done|]. by rewrite list_lookup_fmap, Hj.
  - apply Forall_insert; [|done]. eapply Forall_impl; [exact Hws|]. intros w0.
    apply worker_ok_mono; [done|]. intros k l Hk. by eapply flag_lookup.
  - eapply Forall_impl; [exact Hcs|]. intros c. by apply client_ok_mono.
  - intros k q Hk. destruct q as [l f].
    destruct (flag_lookup ab' ab k l f (eq_sym Hflags) Hk) as (l' & Hl'). by apply (Hfl _ _ Hl').
  - rewrite (bind_insert held _ _ _ w' Hj). rewrite (bind_delete held _ _ _ Hj) in Ht.
    pose proof (wtrans_tasks Hfin _ _ _ _ _ _ Hwt) as Hx.
    rewrite Ht. transitivity (executed s ++ (delete j (workers s) ≫= held) ++ held w ++ tasks ab); [solve_Permutation|].
    rewrite Hx. solve_Permutation.
Qed.

Lemma act_exit_spec m L s ab policy :
  sys_inv L s ab ->
  exists r, act m (AExit policy) s = Some r /\
    match r with
    | Blocked => exit_pc s <> Running
    | Ready s' => exit_pc s = Running /\ sys_inv L s' ab /\ exit_pc s' = Stopping 0 /\
        shutdownPolicy (pool s') = policy /\ workers s' = workers s /\
        threadNum (pool s') = threadNum (pool s) /\
        accepted s' = accepted s /\ clients s' = clients s
    end.
Proof.
  intros [Hp Hix Hws Hcs Hfl Hup Hal Ht]. simpl.
  destruct (exit_pc s) eqn:E; (eexists; split; [done|]); [|done..].
  split_and!; try done. constructor; simpl; try done.
  - by destruct Hp; constructor.
  - eapply Forall_impl; [exact Hws|]. intros w. by apply worker_ok_mono; eauto.
Qed.

(** Destroying queues that are initialised, or were never. *)
Lemma delete_queues_spec L (qs : list (TPBlockQueue.t T)) :
  Forall (fun q => TPBlockQueue.memoryBlock q = None \/ exists a, q_refines L q a) qs ->
  delete_queues qs = Some tt.
Proof.
  induction 1 as [|q qs Hq _ IH]; simpl; [done|].
  destruct Hq as [Hq|(a & Hq & _)].
  - unfold TPBlockQueue.release. rewrite Hq. simpl. done.
  - destruct (release_spec L q a.1 Hq) as (q' & -> & _). simpl. done.
Qed.

Lemma exit_joined_spec L p ab :
  pool_inv L p ab -> exists p', exit_joined p = Some p' /\ threadNum p' = 0 /\ queues p' = None.
Proof.
  intros [_ _ _ (qs & Hqs & Hall) _]. unfold exit_joined. rewrite Hqs. simpl.
  rewrite (delete_queues_spec L qs); [simpl; by eexists|].
  apply Forall_lookup. intros i q Hq. right.
  destruct (Forall2_lookup_l _ _ _ _ _ Hall Hq) as (a & _ & Hr). by exists a.
Qed.

Definition all_done s : Prop := Forall (fun w => w_pc w = Done) (workers s).

Lemma forallb_done (ws : list (worker T)) :
  forallb (fun w => match w_pc w with Done => true | _ => false end) ws = true <->
  Forall (fun w => w_pc w = Done) ws.
Proof.
  rewrite List.forallb_forall, Forall_forall. setoid_rewrite <- list_elem_of_In.
  split; intros H w Hw; specialize (H w Hw); destruct (w_pc w); done.
Qed.

(** [stopWait] of one queue. *)
Lemma stop_queue_spec L p ab k :
  pool_inv L p ab -> 0 <= k < threadNum p ->
  exists p' a, stop_queue k p = Some p' /\ same_pool p p' /\ ab !! Z.to_nat k = Some a /\
    pool_inv L p' (<[Z.to_nat k := (a.1, true)]> ab) /\ tasks (<[Z.to_nat k := (a.1, true)]> ab) = tasks ab.
Proof.
  intros Hp Hk. destruct (queue_at_spec _ _ _ _ Hp Hk) as (q & a & Hq & Ha & Hr).
  unfold stop_queue. rewrite Hq. eexists _, a. split; [done|]. split; [done|]. split; [done|]. split.
  - apply set_queue_spec; [done|lia|by apply stop_refines].
  - unfold tasks. rewrite <- (list_insert_id ab _ _ Ha) at 2.
    assert (Hlt : (Z.to_nat k < length ab)%nat) by (by apply lookup_lt_is_Some; exists a).
    rewrite !insert_take_drop by done. by rewrite !bind_app.
Qed.

Lemma act_exiter_spec m L s ab :
  sys_inv L s ab ->
  exists r, act m AExiter s = Some r /\
    match r with
    | Blocked => exit_pc s = Running \/ exit_pc s = Joining /\ ~ all_done s
    | Ready s' => accepted s' = accepted s /\ clients s' = clients s /\ executed s' = executed s /\
        ((exit_pc s = Joining /\ exit_pc s' = Exited /\ all_done s /\ threadNum (pool s') = 0) \/
         (exists k, exit_pc s = Stopping k) /\ workers s' = workers s /\
         shutdownPolicy (pool s') = shutdownPolicy (pool s) /\
         threadNum (pool s') = threadNum (pool s) /\
         exists ab', sys_inv L s' ab' /\ ab'.*1 = ab.*1)
    end.
Proof.
  intros Hs. pose proof Hs as [Hp Hix Hws Hcs Hfl Hup Hal Ht]. simpl.
  assert (Hn : Z.of_nat (length (workers s)) = threadNum (pool s)).
  { rewrite <- (length_fmap w_index), Hix, length_seqZ. pose proof (pv_num _ _ _ Hp). lia. }
  destruct (exit_pc s) as [|k| |] eqn:E; simpl in *.
  - eexists. split; [done|]. by left.
  - rewrite Hn. destruct (Z.ltb_spec k (threadNum (pool s))).
    + destruct (stop_queue_spec _ _ _ _ Hp (conj (proj1 Hup) H)) as (p' & a & -> & Hsp & Ha & Hp' & Htk).
      assert (Hth : threadNum p' = threadNum (pool s)) by (by rewrite Hsp).
      simpl. eexists. split; [done|]. split_and!; [done..|].
      right. split; [by eexists|]. split_and!; [done|by rewrite Hsp|done|].
      exists (<[Z.to_nat k := (a.1, true)]> ab). split.
      * constructor; simpl; rewrite ?Hth; try done.
        -- eapply Forall_impl; [exact Hws|]. intros w. apply worker_ok_mono; [done|].
           intros j l Hj. rewrite list_lookup_insert. case_decide; eauto.
        -- eapply Forall_impl; [exact Hcs|]. intros cl. by apply client_ok_mono.
        -- intros j b. rewrite list_lookup_insert. case_decide as Hj.
           ++ destruct Hj as [<- _]. intros [= <-]. simpl. symmetry. apply bool_decide_eq_true. lia.
           ++ intros Hb. rewrite (Hfl _ _ Hb). apply bool_decide_ext.
              apply not_and_l_alt in Hj. pose proof (lookup_lt_Some _ _ _ Hb).
              destruct Hj as [Hj|[? Hj]]; lia.
        -- lia.
        -- by rewrite Ht, Htk.
      * rewrite list_fmap_insert. simpl. apply list_insert_id. by rewrite list_lookup_fmap, Ha.
    + eexists. split; [done|]. split_and!; [done..|]. right. split; [by eexists|].
      split_and!; [done..|]. exists ab. split; [|done]. constructor; simpl; try done; [|lia].
      intros j b Hb. rewrite (Hfl _ _ Hb). apply bool_decide_ext. lia.
  - destruct (forallb _ (workers s)) eqn:Hd.
    + apply forallb_done in Hd. destruct (exit_joined_spec _ _ _ Hp) as (p' & -> & Hz & _). simpl.
      eexists. split; [done|]. split_and!; [done..|]. left. by split_and!.
    + eexists. split; [done|]. right. split; [done|]. intros Ha%forallb_done. congruence.
  - done.
Qed.

(** ** Construction *)

Lemma init_queues_spec grant sizeofNode len i (qs : list (TPBlockQueue.t T)) :
  0 < len <= 1048576 -> 0 < sizeofNode <= 4032 ->
  Forall (fun q => TPBlockQueue.memoryBlock q = None /\ TPBlockQueue.isStopped q = 0) qs ->
  exists ok qs', init_queues grant sizeofNode len i qs = Some (ok, qs') /\
    if ok then Forall2 (q_refines (Z.to_nat len)) qs' (replicate (length qs) ([], false))
    else Forall (fun q => TPBlockQueue.memoryBlock q = None \/
                          exists a, q_refines (Z.to_nat len) q a) qs'.
Proof.
  intros Hl Hn Hqs. revert i. induction Hqs as [|q qs [Hb Hst] Hqs IH]; intros i; simpl.
  { by eexists true, []. }
  destruct (init_spec (grant i) sizeofNode len q) as (ok & q' & -> & Hq); [done|done|lia|nia|nia|lia|].
  simpl. destruct ok.
  - destruct (IH (S i)) as (ok & qs' & -> & Hr). simpl. destruct Hq as [Hq Hq'].
    destruct ok; eexists _, _; (split; [done|]); constructor; try done.
    right. by exists ([], false).
  - subst q'. eexists false, _. split; [done|]. constructor; [by left|].
    eapply Forall_impl; [exact Hqs|]. intros q0 [? _]. by left.
Qed.

Lemma pool_init_spec grant sizeofNode qs cores len n b (p : ThreadPool.t T) :
  0 < len <= 1048576 -> 0 < sizeofNode <= 4032 -> 0 < n < 2 ^ 31 ->
  Forall (fun q => TPBlockQueue.memoryBlock q = None /\ TPBlockQueue.isStopped q = 0) qs ->
  Z.of_nat (length qs) = n ->
  exists ok p', init grant sizeofNode (Some qs) cores len n b p = Some (ok, p') /\
    if ok then pool_inv (Z.to_nat len) p' (replicate (length qs) ([], false)) /\
               0 <> b /\ b <= len /\ threadNum p' = n
    else p' = p \/ p' = set_queues None p.
Proof.
  intros Hl Hs Hn Hqs Hlen. unfold init.
  destruct (_ || _ || _) eqn:E; [eexists false, _; split; [done|by left]|].
  apply orb_false_iff in E as [[E1 E2]%orb_false_iff E3].
  apply Z.eqb_neq in E1, E2. apply Z.ltb_ge in E3.
  destruct (init_queues_spec grant sizeofNode len 0 qs Hl Hs Hqs) as (ok & qs' & -> & Hr). simpl.
  assert (Hdel : Forall (fun q => TPBlockQueue.memoryBlock q = None \/
                          exists a, q_refines (Z.to_nat len) q a) qs').
  { destruct ok; [|done]. apply Forall_lookup. intros j q Hq. right.
    destruct (Forall2_lookup_l _ _ _ _ _ Hr Hq) as (a & _ & Ha). by exists a. }
  destruct ok; simpl.
  - destruct (cores =? 0).
    + rewrite (delete_queues_spec _ _ Hdel). simpl. eexists false, _. split; [done|by right].
    + eexists true, _. split; [done|]. split_and!; [|lia|lia|done].
      constructor; simpl; [lia|lia|lia|by exists qs'|by rewrite length_replicate].
  - rewrite (delete_queues_spec _ _ Hdel). simpl. eexists false, _. split; [done|by right].
Qed.

Lemma started_inv L p nc :
  pool_inv L p (replicate (Z.to_nat (threadNum p)) ([], false)) ->
  sys_inv L (started p nc) (replicate (Z.to_nat (threadNum p)) ([], false)).
Proof.
  intros Hp. pose proof (pv_num _ _ _ Hp) as Hn. constructor; simpl; try done.
  - rewrite <- list_fmap_compose. apply list_fmap_id.
  - apply Forall_fmap, Forall_forall. intros me [? ?]%elem_of_seqZ. simpl.
    constructor; simpl; [lia| |by case_decide].
    case_decide as E; [done|]. simpl. destruct (other me p); [done|]. simpl. lia.
  - apply Forall_replicate. done.
  - intros k q [-> Hk]%lookup_replicate. simpl. symmetry. apply bool_decide_eq_false. lia.
  - lia.
  - symmetry. apply Permutation_nil_r.
    assert (tasks (replicate (Z.to_nat (threadNum p)) ([] : list T, false)) = []) as ->.
    { generalize (Z.to_nat (threadNum p)) as k. induction k as [|k IH]; [done|exact IH]. }
    rewrite app_nil_r. generalize (seqZ 0 (threadNum p)) as l.
    induction l as [|me l IH]; [done|]. rewrite fmap_cons, bind_cons, IH.
    unfold held, worker_start. simpl. by case_decide.
Qed.

(** ** Submission as one call *)

Lemma next_index_spec L p ab :
  pool_inv L p ab ->
  exists p', next_index p = Some (index p mod threadNum p, p') /\ pool_inv L p' ab /\
    threadNum p' = threadNum p /\ 0 <= index p mod threadNum p < threadNum p /\
    index p' = u32 (index p + 1) /\ (forall k, queue_at k p' = queue_at k p) /\
    queueLength p' = queueLength p.
Proof.
  intros Hp. pose proof (pv_num _ _ _ Hp). unfold next_index. rewrite u32_mod_pos by lia. simpl.
  eexists. split; [done|]. split; [by destruct Hp; constructor|].
  split_and!; try done; by apply Z.mod_pos_bound; lia.
Qed.

(** The queue a single task goes to: the next one, or the one half way round
    when that is full. *)
Definition place (L : nat) p ab : Z :=
  let i := index p mod threadNum p in
  match ab !! Z.to_nat i with
  | Some a => if decide (length a.1 < L)%nat then i
              else u32 (i + threadNum p / 2) mod threadNum p
  | None => i
  end.

Lemma append_spec L p ab x :
  pool_inv L p ab ->
  exists p' a, append x p = Some (bool_decide (length a.1 < L)%nat, p') /\
    0 <= place L p ab < threadNum p /\ ab !! Z.to_nat (place L p ab) = Some a /\
    pool_inv L p' (<[Z.to_nat (place L p ab) :=
      (a.1 ++ if bool_decide (length a.1 < L)%nat then [x] else [], a.2)]> ab) /\
    index p' = u32 (index p + 1).
Proof.
  intros Hp. destruct (next_index_spec _ _ _ Hp) as (p1 & Hn & Hp1 & Hth & Hi & Hix & Hq & Hl).
  unfold append. rewrite Hn. simpl. pose proof (pv_num _ _ _ Hp).
  set (i := index p mod threadNum p) in *.
  destruct (queue_at_spec _ _ _ _ Hp Hi) as (q & a & Hqi & Ha & Hr).
  assert (Htgt : target_one i p1 = Some (place L p ab) /\ 0 <= place L p ab < threadNum p).
  { unfold target_one, place, opposite. fold i. rewrite Hq, Hqi, Ha, Hl, (pv_len _ _ _ Hp), Hth. simpl.
    rewrite (qi_size _ _ _ (proj1 Hr)). case_decide.
    - rewrite (proj2 (Z.ltb_lt _ _)) by lia. done.
    - rewrite (proj2 (Z.ltb_ge _ _)), u32_mod_pos by lia. split; [done|]. apply Z.mod_pos_bound. lia. }
  destruct Htgt as [-> Hk]. simpl. rewrite Hq.
  destruct (queue_at_spec _ _ _ _ Hp Hk) as (q2 & a2 & -> & Ha2 & Hr2). simpl.
  destruct (push_refines L q2 a2 x Hr2) as (q' & -> & Hr'). simpl.
  rewrite <- Hth in Hk. pose proof (set_queue_spec _ _ _ _ _ _ Hp1 Hk Hr') as Hp'. rewrite Hth in Hk.
  eexists _, a2. unfold Fifo.push in *. case_decide; simpl in *;
    [rewrite bool_decide_true by done|rewrite bool_decide_false by done];
    (split_and!; [done|lia|lia|done| |exact Hix]); [done|by rewrite app_nil_r; destruct a2].
Qed.

Lemma emplace_append x p : emplace x p = append x p.
Proof. done. Qed.

Lemma append_bulk_spec L p ab xs :
  pool_inv L p ab -> (length xs <= L)%nat ->
  exists n p' k a, append_bulk xs (Z.of_nat (length xs)) p = Some (Z.of_nat n, p') /\
    0 <= k < threadNum p /\ ab !! Z.to_nat k = Some a /\
    n = Nat.min (length xs) (L - length a.1) /\
    pool_inv L p' (<[Z.to_nat k := (a.1 ++ take n xs, a.2)]> ab).
Proof.
  intros Hp Hxs. pose proof (pv_u32 _ _ _ Hp).
  destruct (next_index_spec _ _ _ Hp) as (p1 & Hn & Hp1 & Hth & Hi & Hix & Hq & Hl).
  unfold append_bulk. rewrite (pv_len _ _ _ Hp), (proj2 (Z.leb_le _ _)), Hn by lia. simpl.
  destruct (submit_target_spec L p1 ab (index p mod threadNum p) (Many xs) Hp1)
    as (k & Hk & Hkr); [by rewrite Hth|done|].
  simpl in Hk. rewrite Hk. simpl.
  destruct (queue_at_spec _ _ _ _ Hp1 Hkr) as (q & a & -> & Ha & Hr). simpl.
  destruct (pushBulk_refines L q a xs Hr ltac:(lia)) as (q' & -> & Hr'). simpl.
  pose proof (set_queue_spec _ _ _ _ _ _ Hp1 Hkr Hr') as Hp'. rewrite Hth in Hkr.
  exists (Nat.min (length xs) (L - length a.1)), (set_queue k q' p1), k, a.
  split_and!; [done|lia|lia|done|done|exact Hp'].
Qed.
End inv.

(** ** The interface, discharged *)

#[export] Instance thread_pool {T} : TaskPool T (ThreadPool.t T) := {|
  pool_emplace := ThreadPool.emplace;
  pool_append := ThreadPool.append;
  pool_append_bulk := ThreadPool.append_bulk |}.

Definition pool_holding {T} (L : nat) (p : ThreadPool.t T) (l : list T) : Prop :=
  exists ab, pool_inv L p ab /\ l ≡ₚ tasks ab.

Lemma append_holding {T} L (p : ThreadPool.t T) x l :
  pool_holding L p l -> exists ok p', append x p = Some (ok, p') /\
    pool_holding L p' (l ++ if ok then [x] else []).
Proof.
  intros (ab & Hp & Hl). destruct (append_spec L p ab x Hp) as (p' & a & Hrun & _ & Ha & Hp' & _).
  eexists _, p'. split; [done|]. eexists. split; [exact Hp'|].
  rewrite (tasks_push _ _ _ _ Ha), Hl. done.
Qed.

#[export] Program Instance thread_pool_laws {T} (L : nat) :
    TaskPoolLaws T (ThreadPool.t T) (Z.of_nat L) := {| holding := pool_holding L |}.
Next Obligation. intros T L x p l. apply append_holding. Qed.
Next Obligation. intros T L x p l. apply append_holding. Qed.
Next Obligation.
  intros T L xs p l (ab & Hp & Hl) Hxs. simpl in *.
  destruct (append_bulk_spec L p ab xs Hp ltac:(lia)) as (n & p' & k & a & Hrun & _ & Ha & Hn & Hp').
  eexists _, p'. split; [exact Hrun|]. split; [lia|]. eexists. split; [exact Hp'|].
  by rewrite (tasks_push _ _ _ _ Ha), Hl, Nat2Z.id.
Qed.

(** Each queue has [n] places left. *)
Definition pool_room {T} (L : nat) (p : ThreadPool.t T) (n : nat) : Prop :=
  exists ab, pool_inv L p ab /\ Forall (fun a => length a.1 + n <= L)%nat ab.

Lemma room_insert {T} L (ab : list (list T * bool)) k a xs n :
  Forall (fun a => length a.1 + (length xs + n) <= L)%nat ab -> ab !! k = Some a ->
  Forall (fun a => length a.1 + n <= L)%nat (<[k := (a.1 ++ xs, a.2)]> ab).
Proof.
  intros Hall Ha. apply Forall_insert; [|].
  - eapply Forall_impl; [exact Hall|]. simpl. intros. lia.
  - pose proof (Forall_lookup_1 _ _ _ _ Hall Ha). simpl in *. rewrite length_app. lia.
Qed.

Lemma append_has_room {T} L (p : ThreadPool.t T) x n :
  pool_room L p (S n) -> exists p', append x p = Some (true, p') /\ pool_room L p' n.
Proof.
  intros (ab & Hp & Hroom). destruct (append_spec L p ab x Hp) as (p' & a & Hrun & _ & Ha & Hp' & _).
  pose proof (Forall_lookup_1 _ _ _ _ Hroom Ha) as Hlen. simpl in Hlen.
  rewrite bool_decide_true in Hrun, Hp' by lia. exists p'. split; [done|].
  eexists. split; [exact Hp'|]. by apply (room_insert L ab _ a [x]).
Qed.

#[export] Program Instance thread_pool_room {T} (L : nat) : TaskPoolRoom T (ThreadPool.t T) :=
  {| room := pool_room L |}.
Next Obligation.
  intros T L p n m (ab & Hp & Hroom) Hle. exists ab. split; [done|].
  eapply Forall_impl; [exact Hroom|]. simpl. intros. lia.
Qed.
Next Obligation. intros T L x p n. apply append_has_room. Qed.
Next Obligation. intros T L x p n. apply append_has_room. Qed.
Next Obligation.
  intros T L xs p n (ab & Hp & Hroom). simpl.
  assert (Hxs : (length xs <= L)%nat).
  { destruct ab as [|a ab]; [|apply Forall_cons in Hroom as [Ha _]; lia].
    pose proof (pv_ab _ _ _ Hp). pose proof (pv_num _ _ _ Hp). simpl in *. lia. }
  destruct (append_bulk_spec L p ab xs Hp Hxs) as (m & p' & k & a & Hrun & _ & Ha & Hn & Hp').
  pose proof (Forall_lookup_1 _ _ _ _ Hroom Ha) as Hlen. simpl in Hlen.
  assert (Hm : m = length xs) by lia. rewrite Hm in Hrun, Hp'. rewrite take_ge in Hp' by done.
  exists p'. split; [done|]. eexists. split; [exact Hp'|]. by apply room_insert.
Qed.

(** ** A pool at work, and being stopped *)

(** The flags of [n] queues of which [exit] has stopped the first [off]. *)
Definition switched (n off : nat) : list bool := (fun i => bool_decide (i < off)%nat) <$> seq 0 n.

Lemma switched_lookup n off i f : switched n off !! i = Some f -> (i < n)%nat /\ f = bool_decide (i < off)%nat.
Proof. unfold switched. rewrite list_lookup_fmap. by intros (j & [-> ?]%lookup_seq & ->)%fmap_Some. Qed.

Lemma switched_0 n : switched n 0 = replicate n false.
Proof.
  unfold switched. assert (Hl : length (seq 0 n) = n) by apply length_seq. revert Hl. generalize (seq 0 n) as l.
  intros l <-. induction l as [|i l IH]; [done|]. rewrite fmap_cons, IH. by rewrite bool_decide_false by lia.
Qed.

Lemma switched_next n off : (off < n)%nat -> <[off := true]> (switched n off) = switched n (S off).
Proof.
  intros Hn. assert (Hlen : forall m, length (switched n m) = n) by (intros m; unfold switched; by rewrite length_fmap, length_seq).
  apply list_eq. intros i. destruct (decide (i = off)) as [->|Hne].
  - rewrite list_lookup_insert_eq by (by rewrite Hlen). unfold switched. rewrite list_lookup_fmap, lookup_seq_lt by done.
    simpl. by rewrite bool_decide_true by lia.
  - rewrite list_lookup_insert_ne by done. unfold switched. rewrite !list_lookup_fmap.
    destruct (seq 0 n !! i) as [j|] eqn:E; [|done]. apply lookup_seq in E as [-> ?]. simpl. f_equal. apply bool_decide_ext. lia.
Qed.

Definition pool_live {T} (L n off : nat) (p : ThreadPool.t T) (l : list T) : Prop :=
  exists ab, pool_inv L p ab /\ ab.*2 = switched n off /\ l ≡ₚ tasks ab.

Section live.
Context {T : Type}.
Implicit Types (p : ThreadPool.t T) (ab : list (list T * bool)).

Lemma live_flag n off ab i a : ab.*2 = switched n off -> ab !! i = Some a -> (i < n)%nat /\ a.2 = bool_decide (i < off)%nat.
Proof.
  intros Hf Ha. apply switched_lookup. by rewrite <- Hf, list_lookup_fmap, Ha.
Qed.

Lemma live_length n off ab : ab.*2 = switched n off -> length ab = n.
Proof. intros Hf. rewrite <- (length_fmap snd ab), Hf. unfold switched. by rewrite length_fmap, length_seq. Qed.

Lemma live_insert ab k a xs : ab !! k = Some a -> (<[k := (xs, a.2)]> ab).*2 = ab.*2.
Proof. intros Ha. rewrite list_fmap_insert. apply list_insert_id. by rewrite list_lookup_fmap, Ha. Qed.

Lemma append_live L n off p x l :
  pool_live L n off p l -> exists ok p', append x p = Some (ok, p') /\
    pool_live L n off p' (l ++ if ok then [x] else []).
Proof.
  intros (ab & Hp & Hf & Hl). destruct (append_spec L p ab x Hp) as (p' & a & Hrun & _ & Ha & Hp' & _).
  eexists _, p'. split; [done|]. eexists. split; [exact Hp'|]. rewrite (live_insert _ _ _ _ Ha).
  split; [done|]. by rewrite (tasks_push _ _ _ _ Ha), Hl.
Qed.

(** [exit]: the shutdown policy, and [stopWait] of the next queue. *)
Lemma policy_live L n off p l policy : pool_live L n off p l -> pool_live L n off (set_policy policy p) l.
Proof. intros (ab & [] & Hf & Hl). exists ab. by split; [constructor|]. Qed.

Lemma stop_live L n off p l :
  pool_live L n off p l -> (off < n)%nat ->
  exists p', stop_queue (Z.of_nat off) p = Some p' /\ threadNum p' = threadNum p /\
    shutdownPolicy p' = shutdownPolicy p /\ pool_live L n (S off) p' l.
Proof.
  intros (ab & Hp & Hf & Hl) Hn. pose proof (live_length _ _ _ Hf) as Hlen. pose proof (pv_ab _ _ _ Hp) as Hab.
  destruct (stop_queue_spec L p ab (Z.of_nat off) Hp ltac:(lia)) as (p' & a & Hrun & Hsp & Ha & Hp' & Ht).
  rewrite Nat2Z.id in *. exists p'. split; [done|]. split; [by rewrite Hsp|]. split; [by rewrite Hsp|].
  eexists. split; [exact Hp'|]. rewrite list_fmap_insert, Hf, Ht. split; [by apply switched_next|done].
Qed.
End live.

Program Definition thread_pool_live {T} (L n off : nat) : TaskPoolLaws T (ThreadPool.t T) (Z.of_nat L) :=
  {| holding := pool_live L n off |}.
Next Obligation. intros T L n off x p l. apply append_live. Qed.
Next Obligation. intros T L n off x p l. apply append_live. Qed.
Next Obligation.
  intros T L n off xs p l (ab & Hp & Hf & Hl) Hxs. simpl in *.
  destruct (append_bulk_spec L p ab xs Hp ltac:(lia)) as (m & p' & k & a & Hrun & _ & Ha & Hm & Hp').
  eexists _, p'. split; [exact Hrun|]. split; [lia|]. eexists. split; [exact Hp'|].
  rewrite (live_insert _ _ _ _ Ha). split; [done|]. by rewrite (tasks_push _ _ _ _ Ha), Hl, Nat2Z.id.
Qed.

(** With fewer tasks in the whole pool than a queue is long, there is room. *)
Lemma live_room {T} L n off (p : ThreadPool.t T) l k :
  pool_live L n off p l -> (length l + k <= L)%nat -> pool_room L p k.
Proof.
  intros (ab & Hp & _ & Hl) Hk. exists ab. split; [done|]. apply Forall_lookup. intros i a Ha.
  rewrite Hl in Hk. enough (length a.1 <= length (tasks ab))%nat by lia. unfold tasks.
  rewrite <- (take_drop_middle _ _ _ Ha), bind_app, bind_cons, !length_app. lia.
Qed.
