(* ===== verification/ThreadPoolProps.v ===== *)
(** * ThreadPoolProps: the correctness theorems of the thread pool *)

From S2P Require Import Prelude BlockQueue BlockQueueSpec ThreadPool ThreadPoolSpec ThreadPoolInv.
Import ThreadPool.

Section props.
Context {T : Type}.
Implicit Types (p : ThreadPool.t T) (ab : list (list T * bool)) (w : worker T) (s : sys T).

(** A pool as [init] leaves it. *)
Definition fresh_pool (L : nat) p : Prop :=
  pool_inv L p (replicate (Z.to_nat (threadNum p)) ([], false)).

(** ** Reachable states *)

(** After [exit] there are no workers and no queues. *)
Definition gone s : Prop := exit_pc s = Exited /\ workers s = [] /\ threadNum (pool s) = 0.

Lemma act_gone m a s s' : gone s -> act m a s = Some (Ready s') -> gone s'.
Proof.
  intros (E & Hw & Hn). destruct a as [c u|c|j late|pol|]; simpl; rewrite ?E; try done.
  - destruct (clients s !! c) as [[| |]|]; try done.
    assert (submit_index u (pool s) = None) as ->; [|done].
    unfold submit_index, next_index, u32_mod. rewrite Hn. by destruct u; [|case_match].
  - destruct (clients s !! c) as [[|i u|k u]|]; try done.
    + destruct (submit_target i u (pool s)); simpl; [|done]. by intros [= <-].
    + unfold submit_push. destruct (queue_at k (pool s)) as [q|]; simpl; [|done].
      destruct u as [x|xs];
        [destruct (TPBlockQueue.push x q) as [[? ?]|]|destruct (TPBlockQueue.pushBulk xs _ q) as [[? ?]|]];
        simpl; try done; by intros [= <-].
  - by rewrite Hw.
Qed.

Lemma act_exit_alive m s s' : act m (AExit true) s = Some (Ready s') -> exit_pc s <> Exited.
Proof. simpl. by destruct (exit_pc s). Qed.

Lemma act_inv {m n} L s ab a :
  mode_ok L m n -> sys_inv L s ab ->
  match act m a s with
  | None => exists c xs, a = ASubmit c (Many xs) /\ (L < length xs)%nat
  | Some Blocked => True
  | Some (Ready s') => gone s' \/ exists ab', sys_inv L s' ab'
  end.
Proof.
  intros Hm Hs. destruct a as [c u|c|j late|pol|].
  - destruct (decide (sub_ok L u)) as [Hu|Hu].
    + destruct (act_submit_spec L s ab c u Hs Hu m) as (r & -> & Hr).
      destruct r; [done|]. right. destruct Hr. by exists ab.
    + destruct u as [x|xs]; simpl in Hu; [by destruct Hu|].
      destruct (act m (ASubmit c (Many xs)) s) as [[|s']|] eqn:E; [done| |].
      * exfalso. revert E. simpl. destruct (clients s !! c) as [[| |]|]; try done.
        rewrite (pv_len _ _ _ (si_pool _ _ _ Hs)), (proj2 (Z.leb_gt _ _)) by lia. done.
      * exists c, xs. split; [done|lia].
  - destruct (act_client_spec L s ab c Hs m) as (r & -> & Hr). destruct r; [done|]. by right.
  - destruct (workers s !! j) as [w|] eqn:Hj; [|simpl; by rewrite Hj].
    destruct (act_worker_spec L s ab j w late Hm Hs Hj) as (r & -> & Hr). destruct r; [done|].
    destruct Hr as (w' & ab' & x & Hs' & _). right. by exists ab'.
  - destruct (act_exit_spec m L s ab pol Hs) as (r & -> & Hr). destruct r; [done|].
    right. exists ab. tauto.
  - destruct (act_exiter_spec m L s ab Hs) as (r & E & Hr). rewrite E. destruct r as [|s']; [done|].
    destruct Hr as (_ & _ & _ & [(Ej & Ex & _ & Hz)|(_ & _ & _ & _ & ab' & Hs' & _)]);
      [left|right; by exists ab'].
    split_and!; [done| |done]. revert E. simpl. rewrite Ej.
    case_match; [|done]. destruct (exit_joined _); simpl; [|done]. by intros [= <-].
Qed.

Lemma reach_inv {m n} L p nc s :
  mode_ok L m n -> fresh_pool L p -> rtc (step m) (started p nc) s ->
  gone s \/ exists ab, sys_inv L s ab.
Proof.
  intros Hm Hp. apply (rtc_ind_r (R := step m) (fun s => gone s \/ exists ab, sys_inv L s ab)).
  - right. eexists. by apply started_inv.
  - intros s1 s2 _ [a Ha] [Hg|[ab Hs]]; [left; by eapply act_gone|].
    pose proof (act_inv L s1 ab a Hm Hs) as H. by rewrite Ha in H.
Qed.

Lemma reach_alive {m n} L p nc s :
  mode_ok L m n -> fresh_pool L p -> rtc (step m) (started p nc) s -> exit_pc s <> Exited ->
  exists ab, sys_inv L s ab.
Proof.
  intros Hm Hp Hr He. destruct (reach_inv L p nc s Hm Hp Hr) as [[? _]|]; done.
Qed.

(** ** Termination measure *)

(** Actions a worker of a stopped pool can still make before it takes a task. *)
Definition rank_pc (total : Z) (k : pc T) : Z :=
  match k with
  | Done => 0 | Drain => 1 | CheckStop | WaitOwn => 2 | Waiting => 3
  | StealPop i => 3 + 2 * (total - i) | Steal i => 4 + 2 * (total - i)
  | PopOwn => 5 + 2 * total
  | Run _ _ => 0
  end.
Definition rank (total : Z) (k : pc T) : Z :=
  match k with Run l k => 1 + Z.of_nat (length l) + rank_pc total k | _ => rank_pc total k end.

Definition total_of p (me : Z) : Z := Z.of_nat (length (other me p)).

Definition work_left p (ws : list (worker T)) ab : Z :=
  foldr Z.add 0 ((fun w => rank (total_of p (w_index w)) (w_pc w)) <$> ws) +
  (8 + 2 * threadNum p) * Z.of_nat (length (tasks ab)).

Lemma sum_insert (f : worker T -> Z) (ws : list (worker T)) j w w' :
  ws !! j = Some w ->
  foldr Z.add 0 (f <$> <[j := w']> ws) = foldr Z.add 0 (f <$> ws) - f w + f w'.
Proof.
  revert j. induction ws as [|x ws IH]; intros [|j]; simpl; [done|done| |].
  - intros [= ->]. lia.
  - intros Hj.
    change (f x + foldr Z.add 0 (f <$> <[j := w']> ws)
            = f x + foldr Z.add 0 (f <$> ws) - f w + f w').
    rewrite (IH j) by done. lia.
Qed.

Lemma total_of_bound p me : 0 <= total_of p me <= threadNum p \/ threadNum p < 0.
Proof.
  unfold total_of, other. pose proof (length_filter (fun k => k <> me) (seqZ 0 (threadNum p))).
  rewrite length_seqZ in H. lia.
Qed.

Lemma rank_nonneg total k : pc_ok total k -> 0 <= total -> 0 <= rank total k.
Proof. destruct k as [| | | | | | |l k|]; simpl; try lia. intros [[-> ?]|[-> | ->]]; simpl; lia. Qed.

(** When a worker's queue is stopped, every action of it uses up work. *)
Lemma wtrans_decreases n final p ab w w' ab' x :
  0 < threadNum p -> (0 < n)%nat -> final = Drain \/ final = Done -> worker_ok p ab w ->
  (forall l f, ab !! Z.to_nat (w_index w) = Some (l, f) -> f = true) ->
  wtrans n final p ab w w' ab' x ->
  rank (total_of p (w_index w')) (w_pc w') + (8 + 2 * threadNum p) * Z.of_nat (length (tasks ab'))
  < rank (total_of p (w_index w)) (w_pc w) + (8 + 2 * threadNum p) * Z.of_nat (length (tasks ab)).
Proof.
  intros Hth Hn Hfin [Hi Hpc _] Hflag Ht. pose proof (total_of_bound p (w_index w)) as Htot.
  fold (total_of p (w_index w)) in Hpc. set (total := total_of p (w_index w)) in *.
  destruct Ht as [own k' Hown Hmv|k s v back Hk Hne Htk _|y l k E]; simpl; fold total.
  - apply Z.add_lt_mono_r. fold (total_of p (w_index w)) in Hmv. fold total in Hmv.
    destruct Hmv as [| | | | | |Hf| | | | |k]; simpl in *; try lia.
    + destruct own as [l f]. simpl in Hf. subst f. by specialize (Hflag _ _ Hown).
    + destruct Hfin as [-> | ->]; simpl; lia.
    + destruct Hpc as [[-> ?]|[-> | ->]]; simpl; lia.
  - pose proof (Permutation_length (tasks_take ab k s n Hk)) as Hl.
    rewrite length_app in Hl. set (c := length (take n s.1)) in *.
    assert (1 <= c)%nat.
    { unfold c. rewrite length_take. destruct (s.1) as [|z l]; [done|]. simpl. lia. }
    pose proof (rank_nonneg total (w_pc w) Hpc ltac:(lia)).
    assert (rank_pc total back <= 5 + 2 * threadNum p) by (destruct Htk; simpl; lia).
    fold c. nia.
  - rewrite E. simpl. lia.
Qed.

Lemma held_done (ws : list (worker T)) :
  Forall (fun w => w_pc w = Done) ws -> ws ≫= held = [].
Proof.
  induction 1 as [|w ws Hw _ IH]; [done|]. rewrite bind_cons, IH. unfold held. by rewrite Hw.
Qed.

(** ** Quiet runs: nothing is submitted any more *)

Definition worker_step (m : mode T) s s' : Prop :=
  exists j late, (j < length (workers s))%nat /\ act m (AWorker j late) s = Some (Ready s').
Definition quiet_step (m : mode T) s s' : Prop :=
  worker_step m s s' \/ act m AExiter s = Some (Ready s').

(** Workers that finished left their own queue empty. *)
Definition settled s ab : Prop :=
  shutdownPolicy (pool s) = true /\
  Forall (fun w => w_pc w = Done -> exists f, ab !! Z.to_nat (w_index w) = Some ([], f)) (workers s).

Lemma empty_stays k (a : list T * bool) ab n i f :
  ab !! k = Some a -> a.1 <> [] -> ab !! i = Some ([], f) ->
  <[k := (drop n a.1, a.2)]> ab !! i = Some ([], f).
Proof.
  intros Hk Hne Hi. rewrite list_lookup_insert_ne; [done|]. intros ->.
  rewrite Hk in Hi. injection Hi as ->. done.
Qed.

Lemma wtrans_settled n final p ab w w' ab' x :
  worker_ok p ab w -> shutdownPolicy p = true -> (final = Drain \/ total_of p (w_index w) = 0) ->
  wtrans n final p ab w w' ab' x ->
  w_pc w' = Done -> exists f, ab' !! Z.to_nat (w_index w') = Some ([], f).
Proof.
  intros [_ Hpc _] Hpol Hfin Ht Hd. unfold total_of in Hfin.
  destruct Ht as [own k' Hown Hmv|k s v back _ _ Htk _|y l k E]; simpl in *; [|done|done].
  assert (Hcase : (final = Done /\ w_pc w = CheckStop) \/ own.1 = [] \/
                  shutdownPolicy p = false \/ w_pc w = Run [] Done)
    by (destruct Hmv; simplify_eq; auto 6).
  destruct Hcase as [[-> E]|[E|[E|E]]].
  - rewrite E in Hpc. simpl in Hpc. destruct Hfin; [done|lia].
  - destruct own as [l f]. simpl in E. subst l. eauto.
  - congruence.
  - rewrite E in Hpc. simpl in Hpc. destruct Hpc as [[? _]|[?|?]]; done.
Qed.

Lemma worker_step_settled {m n} L s ab s' :
  mode_ok L m n -> (stopped m = Drain \/ threadNum (pool s) = 1) ->
  sys_inv L s ab -> settled s ab -> worker_step m s s' ->
  exists ab', sys_inv L s' ab' /\ settled s' ab' /\ accepted s' = accepted s /\
    clients s' = clients s /\ exit_pc s' = exit_pc s /\ threadNum (pool s') = threadNum (pool s).
Proof.
  intros Hm Hmode Hs [Hpol Hset] (j & late & Hj & Ha).
  destruct (lookup_lt_is_Some_2 _ _ Hj) as [w Hw].
  destruct (act_worker_spec L s ab j w late Hm Hs Hw) as (r & Hr & Hres).
  rewrite Ha in Hr. injection Hr as <-.
  destruct Hres as (w' & ab' & x & Hs' & Ht & Hws & He & Hsp & Hacc & Hcl).
  pose proof (Forall_lookup_1 _ _ _ _ (si_workers _ _ _ Hs) Hw) as Hok.
  exists ab'. split_and!; try done; [|by rewrite Hsp]. split; [by rewrite Hsp|]. rewrite Hws.
  apply Forall_insert.
  - eapply Forall_impl; [exact Hset|]. intros w0 H0 Hd. destruct (H0 Hd) as (f & Hf).
    exists f. destruct Ht; [done| |done]. by apply empty_stays.
  - apply (wtrans_settled _ _ _ _ _ _ _ _ Hok Hpol) with (2 := Ht).
    destruct Hmode as [?|H1]; [by left|right]. unfold total_of, other. rewrite H1.
    pose proof (wo_index _ _ _ Hok). rewrite H1 in *. replace (w_index w) with 0 by lia. done.
Qed.

Lemma quiet_settled {m n} L s ab s' :
  mode_ok L m n -> (stopped m = Drain \/ threadNum (pool s) = 1) ->
  sys_inv L s ab -> settled s ab -> rtc (quiet_step m) s s' ->
  accepted s' = accepted s /\
  ((gone s' /\ executed s' ≡ₚ accepted s') \/ exists ab', sys_inv L s' ab' /\ settled s' ab').
Proof.
  intros Hm Hmode Hs Hset Hr.
  cut (accepted s' = accepted s /\ ((gone s' /\ executed s' ≡ₚ accepted s') \/
    threadNum (pool s') = threadNum (pool s) /\ exists ab', sys_inv L s' ab' /\ settled s' ab'));
    [tauto|].
  revert Hr. apply (rtc_ind_r (R := quiet_step m) (fun s' => accepted s' = accepted s /\
    ((gone s' /\ executed s' ≡ₚ accepted s') \/
     threadNum (pool s') = threadNum (pool s) /\ exists ab', sys_inv L s' ab' /\ settled s' ab'))).
  { split; [done|]. right. eauto. }
  intros s1 s2 _ Hq [Hacc [[Hg Hex]|(Hth & ab1 & Hs1 & Hset1)]].
  { exfalso. destruct Hg as (E & Hw & _). destruct Hq as [(j & late & Hj & _)|Hq].
    - rewrite Hw in Hj. simpl in Hj. lia.
    - revert Hq. simpl. by rewrite E. }
  destruct Hq as [Hq|Hq].
  - rewrite <- Hth in Hmode. destruct (worker_step_settled L s1 ab1 s2 Hm Hmode Hs1 Hset1 Hq)
      as (ab2 & Hs2 & Hset2 & Ha & _ & _ & Ht). split; [congruence|]. right. split; [congruence|eauto].
  - pose proof (act_inv L s1 ab1 AExiter Hm Hs1) as Hinv. rewrite Hq in Hinv.
    destruct (act_exiter_spec m L s1 ab1 Hs1) as (r & E & Hres). rewrite Hq in E. injection E as <-.
    destruct Hres as (Ha & _ & Hx & [(_ & Hex & Hd & Hz)|(_ & Hw & Hp & Ht & ab2 & Hs2 & Hab)]).
    + split; [congruence|]. left. destruct Hinv as [Hg|[ab' Hs']]; [|by destruct (si_alive _ _ _ Hs' Hex)].
      split; [done|]. rewrite Hx, Ha, (si_tasks _ _ _ Hs1). destruct Hset1 as [_ Hset1].
      assert (workers s1 ≫= held = []) as ->.
      { by apply held_done. }
      assert (tasks ab1 = []) as ->; [|by rewrite app_nil_r].
      apply tasks_nil. intros k a Hk. destruct (owner _ _ _ _ _ Hs1 Hk) as (w & Hw & Hi).
      pose proof (Forall_lookup_1 _ _ _ _ Hd Hw) as Hdw.
      destruct (Forall_lookup_1 _ _ _ _ Hset1 Hw Hdw) as (f & Hf).
      rewrite Hi, Nat2Z.id, Hk in Hf. by injection Hf as ->.
    + split; [congruence|]. right. split; [congruence|]. exists ab2. split; [done|].
      split; [rewrite Hp; apply Hset1|]. rewrite Hw. eapply Forall_impl; [apply Hset1|].
      intros w H0 Hd. destruct (H0 Hd) as (f & Hf).
      pose proof (f_equal (.!! Z.to_nat (w_index w)) Hab) as E. simpl in E.
      rewrite !list_lookup_fmap, Hf in E. simpl in E.
      destruct (ab2 !! _) as [[l f']|]; simpl in E; [|done]. injection E as ->. eauto.
Qed.

(** ** Joining *)

Lemma joining_flag L s ab k l f :
  sys_inv L s ab -> exit_pc s = Joining -> ab !! k = Some (l, f) -> f = true.
Proof.
  intros Hs He Hk. pose proof (si_flags _ _ _ Hs k _ Hk) as H. rewrite He in H. simpl in H.
  subst f. apply bool_decide_eq_true. pose proof (pv_ab _ _ _ (si_pool _ _ _ Hs)).
  pose proof (lookup_lt_Some _ _ _ Hk). lia.
Qed.

Lemma worker_step_work {m n} L s ab s' :
  mode_ok L m n -> sys_inv L s ab -> exit_pc s = Joining -> worker_step m s s' ->
  exists ab', sys_inv L s' ab' /\ exit_pc s' = Joining /\
    work_left (pool s') (workers s') ab' < work_left (pool s) (workers s) ab.
Proof.
  intros Hm Hs He (j & late & Hj & Ha). destruct (lookup_lt_is_Some_2 _ _ Hj) as [w Hw].
  destruct (act_worker_spec L s ab j w late Hm Hs Hw) as (r & Hr & Hres).
  rewrite Ha in Hr. injection Hr as <-.
  destruct Hres as (w' & ab' & x & Hs' & Ht & Hws & He' & Hsp & _).
  exists ab'. split_and!; [done|congruence|].
  pose proof (Forall_lookup_1 _ _ _ _ (si_workers _ _ _ Hs) Hw) as Hok.
  pose proof (pv_num _ _ _ (si_pool _ _ _ Hs)) as Hn.
  pose proof (wtrans_decreases _ _ _ _ _ _ _ _ (proj1 Hn) (mo_pos _ _ _ Hm) (mo_stopped _ _ _ Hm) Hok
                (fun l f => joining_flag L s ab _ l f Hs He) Ht) as Hlt.
  unfold work_left. rewrite Hws, Hsp. simpl.
  rewrite (sum_insert _ _ _ _ _ Hw). unfold total_of, other in *. simpl in *. lia.
Qed.

Lemma worker_steps_work {m n} L k s ab s' :
  mode_ok L m n -> sys_inv L s ab -> exit_pc s = Joining -> nsteps (worker_step m) k s s' ->
  exists ab', sys_inv L s' ab' /\ exit_pc s' = Joining /\
    work_left (pool s') (workers s') ab' + Z.of_nat k <= work_left (pool s) (workers s) ab.
Proof.
  intros Hm Hs He Hr. revert ab Hs He. induction Hr as [s|k s s1 s2 Hst _ IH]; intros ab Hs He.
  { exists ab. split_and!; [done|done|lia]. }
  destruct (worker_step_work L s ab s1 Hm Hs He Hst) as (ab1 & Hs1 & He1 & Hlt).
  destruct (IH ab1 Hs1 He1) as (ab2 & ? & ? & ?). exists ab2. split_and!; [done|done|lia].
Qed.

Lemma work_left_nonneg L s ab : sys_inv L s ab -> 0 <= work_left (pool s) (workers s) ab.
Proof.
  intros Hs. pose proof (pv_num _ _ _ (si_pool _ _ _ Hs)) as Hn. unfold work_left.
  assert (0 <= foldr Z.add 0 ((fun w => rank (total_of (pool s) (w_index w)) (w_pc w)) <$> workers s));
    [|nia].
  pose proof (si_workers _ _ _ Hs) as Hws. induction Hws as [|w ws [_ Hpc _] _ IH]; [done|].
  rewrite fmap_cons. simpl. pose proof (total_of_bound (pool s) (w_index w)).
  pose proof (rank_nonneg (total_of (pool s) (w_index w)) (w_pc w) Hpc ltac:(lia)). lia.
Qed.

(** A worker of a pool that is being joined is finished or can act. *)
Lemma joining_progress {m n} L s ab :
  mode_ok L m n -> sys_inv L s ab -> exit_pc s = Joining ->
  (exists s', worker_step m s s') \/ all_done s.
Proof.
  intros Hm Hs He. unfold all_done.
  destruct (decide (Forall (fun w => (match w_pc w with Done => true | _ => false end) = true) (workers s)))
    as [Hd|Hd].
  - right. eapply Forall_impl; [exact Hd|]. intros w. simpl. destruct (w_pc w); done.
  - left. apply not_Forall_Exists in Hd; [|apply _]. apply Exists_exists in Hd as (w & Hin & Hw).
    apply list_elem_of_lookup in Hin as [j Hj].
    destruct (act_worker_spec L s ab j w true Hm Hs Hj) as (r & Hr & Hres). destruct r as [|s'].
    + exfalso. destruct Hres as [E|[Hq _]]; [by simpl in Hw; rewrite E in Hw|].
      by pose proof (joining_flag L s ab _ _ _ Hs He Hq).
    + exists s', j, true. split; [|done]. by apply lookup_lt_Some in Hj.
Qed.

(** ** Properties *)

(** C12: exactly once.  Whatever the interleaving of submitters, workers that
    run and steal tasks, and the thread that stops the pool, every task whose
    submission succeeded is either executed, held by one worker that took it,
    or in one queue: none is lost or duplicated while the pool exists. *)
Theorem pool_exactly_once L b p nc s :
  0 < b -> fresh_pool L p -> rtc (step (mode_of b)) (started p nc) s -> exit_pc s <> Exited ->
  exists ab, pool_inv L (pool s) ab /\
    accepted s ≡ₚ executed s ++ (workers s ≫= held) ++ tasks ab.
Proof.
  intros Hb Hp Hr He. destruct (reach_alive L p nc s (mode_of_ok L b Hb) Hp Hr He) as [ab Hs].
  exists ab. split; apply Hs.
Qed.

(** No undefined behaviour.  In every reachable state of a pool that has
    not been destroyed, whatever acts next is defined (no queue index out of
    range, no empty node taken, no remainder by zero), except that a bulk
    submission longer than the queue length fails its [assert]. *)
Theorem pool_actions_defined L b p nc s a :
  0 < b -> fresh_pool L p -> rtc (step (mode_of b)) (started p nc) s -> exit_pc s <> Exited ->
  act (mode_of b) a s = None -> exists c xs, a = ASubmit c (Many xs) /\ (L < length xs)%nat.
Proof.
  intros Hb Hp Hr He Ha. destruct (reach_alive L p nc s (mode_of_ok L b Hb) Hp Hr He) as [ab Hs].
  pose proof (act_inv L s ab a (mode_of_ok L b Hb) Hs) as H. by rewrite Ha in H.
Qed.

(** C15: graceful exit.  When [exit(true)] is called while no submission is in
    progress and nothing is submitted afterwards, every accepted task has been
    executed once it returns: with batches of at least two tasks, or with a
    single worker. *)
Theorem pool_graceful_exit L b p nc s s1 s2 :
  0 < b -> fresh_pool L p -> rtc (step (mode_of b)) (started p nc) s ->
  2 <= b \/ threadNum (pool s) = 1 ->
  act (mode_of b) (AExit true) s = Some (Ready s1) ->
  rtc (quiet_step (mode_of b)) s1 s2 -> exit_pc s2 = Exited ->
  executed s2 ≡ₚ accepted s.
Proof.
  intros Hb Hp Hr Hmode Ha Hq He. pose proof (mode_of_ok (T := T) L b Hb) as Hm.
  destruct (reach_alive L p nc s Hm Hp Hr (act_exit_alive _ _ _ Ha)) as [ab Hs].
  destruct (act_exit_spec (mode_of b) L s ab true Hs) as (r & E & Hres).
  rewrite Ha in E. injection E as <-.
  destruct Hres as (Hrun & Hs1 & _ & Hpol & Hw & Hth & Hacc & _).
  assert (Hset : settled s1 ab).
  { split; [done|]. rewrite Hw. eapply Forall_impl; [apply (si_workers _ _ _ Hs)|].
    intros w [_ _ Hst] Hd. rewrite Hd in Hst. destruct (Hst I) as (l & Hl).
    pose proof (si_flags _ _ _ Hs _ _ Hl) as Hf. rewrite Hrun in Hf. simpl in Hf.
    symmetry in Hf. apply bool_decide_eq_true in Hf. lia. }
  assert (Hmode' : stopped (mode_of (T := T) b) = Drain \/ threadNum (pool s1) = 1).
  { rewrite Hth. destruct Hmode; [left|by right]. unfold mode_of. by rewrite (proj2 (Z.eqb_neq b 1)) by lia. }
  destruct (quiet_settled L s1 ab s2 Hm Hmode' Hs1 Hset Hq) as [Ha2 [[_ Hx]|(ab' & Hs' & _)]].
  - by rewrite Hx, Ha2, Hacc.
  - by destruct (si_alive _ _ _ Hs').
Qed.

(** C27: [exit] returns.  Once all queues are stopped, and as long as nothing
    new is pushed, the workers can only make a bounded number of actions, one
    of them can always act until all are finished, and then [join] succeeds
    and the pool is destroyed without undefined behaviour. *)
Theorem pool_exit_terminates L b p nc s :
  0 < b -> fresh_pool L p -> rtc (step (mode_of b)) (started p nc) s -> exit_pc s = Joining ->
  exists bound, forall k s', nsteps (worker_step (mode_of b)) k s s' ->
    (k <= bound)%nat /\
    ((exists s'', worker_step (mode_of b) s' s'') \/
     exists s'', act (mode_of b) AExiter s' = Some (Ready s'') /\ exit_pc s'' = Exited).
Proof.
  intros Hb Hp Hr He. pose proof (mode_of_ok (T := T) L b Hb) as Hm.
  destruct (reach_alive L p nc s Hm Hp Hr) as [ab Hs]; [congruence|].
  exists (Z.to_nat (work_left (pool s) (workers s) ab)). intros k s' Hk.
  destruct (worker_steps_work L k s ab s' Hm Hs He Hk) as (ab' & Hs' & He' & Hle).
  pose proof (work_left_nonneg L s' ab' Hs'). split; [lia|].
  destruct (joining_progress L s' ab' Hm Hs' He') as [?|Hd]; [by left|right].
  destruct (act_exiter_spec (mode_of b) L s' ab' Hs') as (r & Hr' & Hres). destruct r as [|s''].
  - destruct Hres as [E|[_ Hn]]; [congruence|done].
  - exists s''. split; [done|]. destruct Hres as (_ & _ & _ & [(_ & ? & _)|((j & E) & _)]); congruence.
Qed.

(** After [exit] a submission is undefined: [threadNum] is zero, and the
    remainder by it in [next_index] divides by zero. *)
Theorem pool_submit_after_exit L b p nc s c u :
  0 < b -> fresh_pool L p -> rtc (step (mode_of b)) (started p nc) s -> exit_pc s = Exited ->
  clients s !! c = Some Idle -> act (mode_of b) (ASubmit c u) s = None.
Proof.
  intros Hb Hp Hr He Hc. simpl. rewrite Hc.
  destruct (reach_inv L p nc s (mode_of_ok L b Hb) Hp Hr) as [(_ & _ & Hn)|[ab Hs]].
  - unfold submit_index, next_index, u32_mod. rewrite Hn. by destruct u; [|case_match].
  - by destruct (si_alive _ _ _ Hs).
Qed.
End props.

(** Construction.  [init] is all or nothing: when a queue, the array of
    queues or the core count is missing, or the batch is longer than a queue,
    it fails with nothing left allocated; otherwise every worker has an empty
    queue of the configured length. *)
Theorem pool_init {T} grant sizeofNode qs cores len n b (p : ThreadPool.t T) :
  0 < len <= 1048576 -> 0 < sizeofNode <= 4032 -> 0 < n < 2 ^ 31 ->
  Forall (fun q => TPBlockQueue.memoryBlock q = None /\ TPBlockQueue.isStopped q = 0) qs ->
  Z.of_nat (length qs) = n -> queues p = None ->
  exists ok p', init grant sizeofNode (Some qs) cores len n b p = Some (ok, p') /\
    if ok then fresh_pool (Z.to_nat len) p' /\ threadNum p' = n /\ b <= len
    else queues p' = None.
Proof.
  intros Hl Hs Hn Hqs Hlen Hnone.
  destruct (pool_init_spec grant sizeofNode qs cores len n b p Hl Hs Hn Hqs Hlen)
    as (ok & p' & Hrun & Hres).
  exists ok, p'. split; [done|]. destruct ok; [|by destruct Hres as [-> | ->]].
  destruct Hres as (Hp & _ & Hb & Hth). split_and!; [|done|done].
  unfold fresh_pool. rewrite Hth. by replace (Z.to_nat n) with (length qs) by lia.
Qed.

(** Placement of a task.  [append] tries the next queue in turn and, when
    that is full, the one half way round; it fails only when the queue it ends
    up with is full, and otherwise the task is the last of that queue. *)
Theorem pool_append_placement {T} L (p : ThreadPool.t T) ab x :
  pool_inv L p ab ->
  exists p' a, append x p = Some (bool_decide (length a.1 < L)%nat, p') /\
    ab !! Z.to_nat (place L p ab) = Some a /\
    pool_inv L p' (<[Z.to_nat (place L p ab) :=
      (a.1 ++ if bool_decide (length a.1 < L)%nat then [x] else [], a.2)]> ab) /\
    index p' = u32 (index p + 1) /\ emplace x p = append x p.
Proof.
  intros Hp. destruct (append_spec L p ab x Hp) as (p' & a & Hrun & _ & Ha & Hp' & Hix).
  exists p', a. split_and!; try done.
Qed.

(** ** Examples *)

Lemma run_rtc {T} (m : mode T) l s s' : run m l s = Some (Ready s') -> rtc (step m) s s'.
Proof.
  revert s. induction l as [|a l IH]; intros s; simpl; [by intros [= ->]|].
  destruct (act m a s) as [[|s1]|] eqn:E; simpl; [done| |done].
  intros Hr. eapply rtc_l; [by exists a|by apply IH].
Qed.

Definition quiet_action {T} (a : action T) : bool :=
  match a with AWorker _ _ | AExiter => true | _ => false end.

Lemma act_quiet {T} (m : mode T) a s s' :
  quiet_action a = true -> act m a s = Some (Ready s') -> quiet_step m s s'.
Proof.
  destruct a as [| |j late| |]; try done; intros _ Ha; [left|by right].
  exists j, late. split; [|done]. simpl in Ha.
  destruct (workers s !! j) eqn:E; [by apply lookup_lt_Some in E|done].
Qed.

Lemma run_quiet {T} (m : mode T) l s s' :
  forallb quiet_action l = true -> run m l s = Some (Ready s') -> rtc (quiet_step m) s s'.
Proof.
  revert s. induction l as [|a l IH]; intros s; simpl; [by intros _ [= ->]|].
  intros [Hq Hl]%andb_prop. destruct (act m a s) as [[|s1]|] eqn:E; simpl; [done| |done].
  intros Hr. eapply rtc_l; [by apply act_quiet with a|by apply IH].
Qed.

(** Two workers, queues of two tasks. *)
Definition w_pool (b : Z) : ThreadPool.t Z :=
  match init (fun _ _ => true) 24 (Some (replicate 2 (TPBlockQueue.TPBlockQueue 7 7 0 0))) 8 2 2 b
          (ThreadPool 5) with
  | Some (_, p) => p | None => ThreadPool 5 end.

Lemma w_pool_fresh b : b = 1 \/ b = 2 -> fresh_pool 2 (w_pool b).
Proof.
  intros Hb. destruct (pool_init_spec (fun _ _ => true) 24
      (replicate 2 (TPBlockQueue.TPBlockQueue 7 7 0 0)) 8 2 2 b (ThreadPool (T := Z) 5))
    as (ok & p' & Hrun & Hres); [lia|lia|lia|by repeat constructor|done|].
  unfold w_pool. rewrite Hrun. destruct ok.
  - destruct Hres as (Hp & _ & _ & Hth). unfold fresh_pool. by rewrite Hth.
  - destruct Hb as [-> | ->]; vm_compute in Hrun; discriminate.
Qed.

Definition get_run {T} (s0 : sys T) (r : option (waited (sys T))) : sys T :=
  match r with Some (Ready s) => s | _ => s0 end.

(** A worker that finds nothing, steals nothing and waits until the time out. *)
Definition w_idle (j : nat) : list (action Z) :=
  [AWorker j false; AWorker j false; AWorker j false; AWorker j true].
Definition w_submit (u : sub) : list (action Z) := [ASubmit 0 u; AClient 0; AClient 0].

(** C39: a graceful exit can lose a task when tasks are processed one at a time.
    Both workers time out on empty queues; a task is accepted; [exit(true)]
    stops the queues; both workers see the stop flag and return without
    looking at their queue again, and the task is destroyed with it. *)
Theorem single_exit_loses_task :
  exists s s1 s2,
    rtc (step (mode_of 1)) (started (w_pool 1) 1) s /\
    clients s = [Idle] /\ exit_pc s = Running /\ accepted s = [7] /\ executed s = [] /\
    act (mode_of 1) (AExit true) s = Some (Ready s1) /\
    rtc (quiet_step (mode_of 1)) s1 s2 /\ exit_pc s2 = Exited /\ executed s2 = [].
Proof.
  set (l1 := w_idle 0 ++ w_idle 1 ++ w_submit (One 7)).
  set (l2 := [AExiter; AExiter; AExiter; AWorker 0 false; AWorker 1 false; AExiter] : list (action Z)).
  set (s := get_run (started (w_pool 1) 1) (run (mode_of 1) l1 (started (w_pool 1) 1))).
  set (s1 := get_run s (act (mode_of 1) (AExit true) s)).
  set (s2 := get_run s (run (mode_of 1) l2 s1)).
  exists s, s1, s2.
  split; [apply (run_rtc _ l1); vm_compute; reflexivity|].
  do 5 (split; [vm_compute; reflexivity|]).
  split; [apply (run_quiet _ l2); vm_compute; reflexivity|].
  split; vm_compute; reflexivity.
Qed.

(** ** Witnesses *)

Definition w_run (b : Z) (l : list (action Z)) : sys Z :=
  get_run (started (w_pool b) 1) (run (mode_of b) l (started (w_pool b) 1)).

(** Two tasks are submitted to the second queue; the first worker steals both
    and executes one. *)
Definition w_acts : list (action Z) :=
  w_submit (Many [1; 2]) ++ [AWorker 0 false; AWorker 0 false; AWorker 0 false; AWorker 0 false].

Lemma w_acts_run : rtc (step (mode_of 2)) (started (w_pool 2) 1) (w_run 2 w_acts).
Proof. apply (run_rtc _ w_acts). vm_compute. reflexivity. Qed.

Lemma pool_exactly_once_witness :
  executed (w_run 2 w_acts) = [1] /\ exists ab, pool_inv 2 (pool (w_run 2 w_acts)) ab /\
    accepted (w_run 2 w_acts)
      ≡ₚ executed (w_run 2 w_acts) ++ (workers (w_run 2 w_acts) ≫= held) ++ tasks ab.
Proof.
  split; [vm_compute; reflexivity|].
  exact (pool_exactly_once 2 2 (w_pool 2) 1 (w_run 2 w_acts) ltac:(lia)
           (w_pool_fresh 2 (or_intror eq_refl)) w_acts_run ltac:(vm_compute; discriminate)).
Defined.

Lemma pool_actions_defined_witness :
  exists c xs, ASubmit 0 (Many [1; 2; 3]) = ASubmit c (Many xs) /\ (2 < @length Z xs)%nat.
Proof.
  exact (pool_actions_defined 2 2 (w_pool 2) 1 (w_run 2 w_acts) (ASubmit 0 (Many [1; 2; 3]))
           ltac:(lia) (w_pool_fresh 2 (or_intror eq_refl)) w_acts_run
           ltac:(vm_compute; discriminate) ltac:(vm_compute; reflexivity)).
Defined.

(** The pool is stopped, its workers run to the end, the pool is destroyed. *)
Definition w_stopped : sys Z :=
  get_run (w_run 2 w_acts) (act (mode_of 2) (AExit true) (w_run 2 w_acts)).
Definition w_stop_acts : list (action Z) := [AExiter; AExiter; AExiter].
Definition w_finish : list (action Z) :=
  w_stop_acts ++ replicate 8 (AWorker 0 false) ++ replicate 6 (AWorker 1 false) ++ [AExiter].
Definition w_last (l : list (action Z)) : sys Z := get_run w_stopped (run (mode_of 2) l w_stopped).

Lemma w_finish_quiet : rtc (quiet_step (mode_of 2)) w_stopped (w_last w_finish).
Proof. apply (run_quiet _ w_finish); vm_compute; reflexivity. Qed.

Lemma w_pool_reach l :
  run (mode_of 2) l w_stopped = Some (Ready (w_last l)) ->
  rtc (step (mode_of 2)) (started (w_pool 2) 1) (w_last l).
Proof.
  intros Hl. transitivity (w_run 2 w_acts); [apply w_acts_run|].
  eapply rtc_l; [exists (AExit true); vm_compute; reflexivity|]. exact (run_rtc _ l _ _ Hl).
Qed.

Lemma pool_graceful_exit_witness :
  executed (w_last w_finish) = [1; 2] /\ [1; 2] ≡ₚ accepted (w_run 2 w_acts).
Proof.
  split; [vm_compute; reflexivity|].
  exact (pool_graceful_exit 2 2 (w_pool 2) 1 (w_run 2 w_acts) w_stopped (w_last w_finish)
           ltac:(lia) (w_pool_fresh 2 (or_intror eq_refl)) w_acts_run
           ltac:(left; vm_compute; congruence) ltac:(vm_compute; reflexivity) w_finish_quiet
           ltac:(vm_compute; reflexivity)).
Defined.

Lemma pool_exit_terminates_witness :
  exists bound, forall k s', nsteps (worker_step (mode_of 2)) k (w_last w_stop_acts) s' ->
    (k <= bound)%nat /\
    ((exists s'', worker_step (mode_of 2) s' s'') \/
     exists s'', act (mode_of 2) AExiter s' = Some (Ready s'') /\ exit_pc s'' = Exited).
Proof.
  exact (pool_exit_terminates 2 2 (w_pool 2) 1 (w_last w_stop_acts)
           ltac:(lia) (w_pool_fresh 2 (or_intror eq_refl))
           (w_pool_reach w_stop_acts ltac:(vm_compute; reflexivity)) ltac:(vm_compute; reflexivity)).
Defined.

Lemma pool_submit_after_exit_witness :
  act (mode_of 2) (ASubmit 0 (One 9)) (w_last w_finish) = None.
Proof.
  exact (pool_submit_after_exit 2 2 (w_pool 2) 1 (w_last w_finish) 0 (One 9)
           ltac:(lia) (w_pool_fresh 2 (or_intror eq_refl))
           (w_pool_reach w_finish ltac:(vm_compute; reflexivity))
           ltac:(vm_compute; reflexivity) ltac:(vm_compute; reflexivity)).
Defined.

Lemma pool_init_witness :
  exists ok p', init (fun _ _ => true) 24 (Some [TPBlockQueue.TPBlockQueue 7 7 0 0]) 8 2 1 1
    (ThreadPool (T := Z) 5) = Some (ok, p') /\
    if ok then fresh_pool 2 p' /\ threadNum p' = 1 /\ 1 <= 2 else queues p' = None.
Proof.
  apply (pool_init (T := Z) (fun _ _ => true) 24 [TPBlockQueue.TPBlockQueue 7 7 0 0] 8 2 1 1
           (ThreadPool 5)); [lia|lia|lia|by repeat constructor|reflexivity|reflexivity].
Defined.

Lemma pool_append_placement_witness :
  exists p' (a : list Z * bool),
    append 9 (w_pool 2) = Some (bool_decide (length a.1 < 2)%nat, p') /\
    [([], false); ([], false)] !! Z.to_nat (place 2 (w_pool 2) [([], false); ([], false)]) = Some a.
Proof.
  destruct (pool_append_placement 2 (w_pool 2) [([], false); ([], false)] 9
              (w_pool_fresh 2 (or_intror eq_refl))) as (p' & a & Hrun & Ha & _).
  exists p', a. split; [exact Hrun|exact Ha].
Defined.
