(* ===== verification/Task.v ===== *)
(** * Task: submission of socket tasks, SPTask.hpp

    [UtilTaskTcp_Single] and [UtilTaskTcp_Multipe] as functions on their
    fields, the thread pool behind the interface [TaskPool], and an environment
    [E] that [renableProc] acts on.  A controller is its address, a number;
    so is a callback.  [None] is an access outside [tasks], a remainder by
    zero, or an undefined operation of the pool. *)

From S2P Require Import Prelude Types TaskPool.

Record SockTaskTcp := mkTask { proc : Z; ctx : Z }.

#[export] Instance SockTaskTcp_eq_dec : EqDecision SockTaskTcp.
Proof. solve_decision. Defined.

(** ** Single submission *)

Module UtilTaskTcp_Single.

Record t := mk { flag : bool }.

Section single.
Context {P E : Type} `{TaskPool SockTaskTcp P} (renableProc : Z -> E -> E).

Definition append (c proc : Z) (u : t) (p : P) (e : E) : option (t * P * E) :=
  let e := if negb (flag u) then renableProc c e else e in
  '(ok, p) ← pool_emplace (mkTask proc c) p;
  if negb ok then Some (mk false, p, renableProc c e) else Some (u, p, e).
End single.

End UtilTaskTcp_Single.

(** ** Batch submission *)

Module UtilTaskTcp_Multipe.

Record t := mk {
  flag : bool;
  back : Z;
  front : Z;
  size : Z;
  tasks : option (list SockTaskTcp) }.

(** The member initialisers. *)
Definition init : t := mk true 0 0 0 None.

Section multipe.
Context {P E : Type} `{TaskPool SockTaskTcp P} (renableProc : Z -> E -> E) (cfg : SPTcpConfig).

(** [THREADPOOL_BATCH_SIZE_SUBMIT], converted to [unsigned]. *)
Definition B : Z := u32 (THREADPOOL_BATCH_SIZE_SUBMIT cfg).

(** The loop over the tasks that were not submitted, from [from] on. *)
Fixpoint renable_loop (remaining : nat) (from : Z) (ts : list SockTaskTcp) (e : E) : option E :=
  match remaining with
  | O => Some e
  | S n =>
      index ← u32_mod (u32 from) B;
      k ← ts !! Z.to_nat index;
      renable_loop n (from + 1) ts (renableProc (ctx k) e)
  end.

(** [commit] calls itself on what is left after the first chunk. *)
Fixpoint commit_rec (fuel : nat) (u : t) (p : P) (e : E) : option (t * P * E) :=
  if size u =? 0 then Some (u, p, e) else
  match fuel with
  | O => None
  | S fuel =>
      ts ← tasks u;
      let distance := u32 (B - back u) in
      let num := if size u <? distance then size u else distance in
      '(submitted, p) ←
        (if num =? 1 then
           k ← ts !! Z.to_nat (back u);
           '(ok, p) ← pool_append k p; Some (if (ok : bool) then 1 else 0, p)
         else
           chunk ← mem_load ts (back u) num;
           pool_append_bulk chunk num p);
      if negb (submitted =? num) then
        let remaining := u32 (num - submitted) in
        e ← renable_loop (Z.to_nat remaining) (back u + submitted) ts e;
        Some (mk false (front u) (front u) 0 (tasks u), p, e)
      else
        back' ← u32_mod (u32 (back u + num)) B;
        let u := mk (flag u) back' (front u) (u32 (size u - num)) (tasks u) in
        if negb (size u =? 0) then commit_rec fuel u p e else Some (u, p, e)
  end.

(** The ring is gone round at most once: two calls. *)
Definition commit : t -> P -> E -> option (t * P * E) := commit_rec 2.

Definition append (c proc : Z) (u : t) (p : P) (e : E) : option (t * P * E) :=
  let e := if negb (flag u) then renableProc c e else e in
  ts ← tasks u;
  if negb (front u <? Z.of_nat (length ts)) then None else
  let ts := <[Z.to_nat (front u) := mkTask proc c]> ts in
  front' ← u32_mod (u32 (front u + 1)) B;
  let u := mk (flag u) (back u) front' (u32 (size u + 1)) (Some ts) in
  if size u =? B then commit u p e else Some (u, p, e).
End multipe.

End UtilTaskTcp_Multipe.

(** ** The interface of both *)

Module UtilTaskTcp.

Record t := mk { ts : UtilTaskTcp_Single.t; tm : UtilTaskTcp_Multipe.t }.

Definition UtilTaskTcp : t := mk (UtilTaskTcp_Single.mk true) UtilTaskTcp_Multipe.init.

Section util.
Context {P E : Type} `{TaskPool SockTaskTcp P} (renableProc : Z -> E -> E) (cfg : SPTcpConfig).

(** [alloc]: the array [new (std::nothrow)] gave, or [None]. *)
Definition init (alloc : option (list SockTaskTcp)) (u : t) : bool * t :=
  if THREADPOOL_BATCH_SIZE_SUBMIT cfg =? 1 then (true, u) else
  let m := tm u in
  let u := mk (ts u) (UtilTaskTcp_Multipe.mk (UtilTaskTcp_Multipe.flag m) (UtilTaskTcp_Multipe.back m)
             (UtilTaskTcp_Multipe.front m) (UtilTaskTcp_Multipe.size m) alloc) in
  match alloc with None => (false, u) | Some _ => (true, u) end.

Definition append (c proc : Z) (u : t) (p : P) (e : E) : option (t * P * E) :=
  if THREADPOOL_BATCH_SIZE_SUBMIT cfg =? 1 then
    '(s, p, e) ← UtilTaskTcp_Single.append renableProc c proc (ts u) p e; Some (mk s (tm u), p, e)
  else
    '(m, p, e) ← UtilTaskTcp_Multipe.append renableProc cfg c proc (tm u) p e; Some (mk (ts u) m, p, e).

Definition reset (u : t) (p : P) (e : E) : option (t * P * E) :=
  if THREADPOOL_BATCH_SIZE_SUBMIT cfg =? 1 then
    Some (mk (UtilTaskTcp_Single.mk true) (tm u), p, e)
  else
    '(m, p, e) ← UtilTaskTcp_Multipe.commit renableProc cfg (tm u) p e;
    Some (mk (ts u) (UtilTaskTcp_Multipe.mk true (UtilTaskTcp_Multipe.back m)
            (UtilTaskTcp_Multipe.front m) (UtilTaskTcp_Multipe.size m) (UtilTaskTcp_Multipe.tasks m)), p, e).
End util.

End UtilTaskTcp.
