(* ===== verification/TaskSpec.v ===== *)
(** * TaskSpec: what the batch submission does to its buffer and to the pool

    [batch_inv b u buf]: the ring of [u] has [b] places and holds the tasks
    [buf], oldest first.  [commit_spec] is the exact outcome of a commit
    against any pool that keeps the laws of [TaskPool]. *)

From S2P Require Import Prelude Types TaskPool Task.
Import UtilTaskTcp_Multipe.

Record batch_inv (b : Z) (u : t) (buf : list SockTaskTcp) : Prop := {
  bi_tasks : exists ts, tasks u = Some ts /\ Z.of_nat (length ts) = b /\
    ring_read ts (Z.to_nat (back u)) (length buf) = buf;
  bi_back : 0 <= back u < b;
  bi_front : front u = (back u + size u) mod b;
  bi_size : size u = Z.of_nat (length buf);
  bi_fits : size u <= b }.

(** Re-enabling the controllers [cs], one after the other. *)
Definition renable_all {E} (renableProc : Z -> E -> E) (cs : list Z) (e : E) : E :=
  foldl (fun e c => renableProc c e) e cs.

Section spec.
Context {P E : Type} {cap : Z} `{HP : TaskPoolLaws SockTaskTcp P cap}.
Context (renableProc : Z -> E -> E) (cfg : SPTcpConfig) (b : Z).
Context (Hcfg : THREADPOOL_BATCH_SIZE_SUBMIT cfg = b) (Hb : 0 < b < 2 ^ 31) (Hcap : b <= cap).

Local Abbreviation renables cs e := (renable_all renableProc (ctx <$> cs) e).

Lemma B_eq : B cfg = b.
Proof. unfold B. rewrite Hcfg. apply u32_small. lia. Qed.

Lemma renable_loop_spec r from (ts : list SockTaskTcp) e :
  0 <= from -> from + Z.of_nat r <= b -> Z.of_nat (length ts) = b ->
  renable_loop renableProc cfg r from ts e
    = Some (renables (take r (drop (Z.to_nat from) ts)) e).
Proof.
  revert from e. induction r as [|r IH]; intros from e Hf Hr Hl; simpl; [done|].
  rewrite B_eq, u32_small, u32_mod_pos, Z.mod_small by lia. simpl.
  destruct (lookup_lt_is_Some_2 ts (Z.to_nat from)) as [k Hk]; [lia|]. rewrite Hk. simpl.
  rewrite IH by lia. rewrite (drop_S _ _ _ Hk). simpl.
  by replace (Z.to_nat (from + 1)) with (S (Z.to_nat from)) by lia.
Qed.

(** The tasks of the first chunk of a commit. *)
Definition chunk_len (u : t) : nat := Z.to_nat (Z.min (size u) (b - back u)).

Lemma chunk_read u buf ts :
  batch_inv b u buf -> tasks u = Some ts -> Z.of_nat (length ts) = b ->
  ring_read ts (Z.to_nat (back u)) (length buf) = buf ->
  forall n k, (n + k <= chunk_len u)%nat ->
  take k (drop (Z.to_nat (back u) + n) ts) = take k (drop n buf).
Proof.
  intros [_ Hbk _ Hsz Hfit] _ Hl Hrd n k Hk. unfold chunk_len in Hk. rewrite <- Hrd at 1.
  unfold ring_read. rewrite skipn_firstn_comm, take_take, drop_app_le by (rewrite length_drop; lia).
  rewrite drop_drop, take_app_le by (rewrite length_drop; lia). f_equal; lia.
Qed.

Lemma consume_batch u buf k fl :
  batch_inv b u buf -> (k <= length buf)%nat ->
  batch_inv b (mk fl ((back u + Z.of_nat k) mod b) (front u) (size u - Z.of_nat k) (tasks u))
    (drop k buf).
Proof.
  intros [(ts & Ht & Hl & Hrd) Hbk Hfr Hsz Hfit] Hk. constructor; simpl.
  - exists ts. split_and!; [done|done|]. rewrite <- Hrd at 2.
    rewrite ring_read_drop by lia. rewrite length_drop. f_equal.
    rewrite ring_idx_mod by lia. apply Nat2Z.inj.
    rewrite Nat2Z.inj_mod, Nat2Z.inj_add, Hl, !Z2Nat.id; [done|lia|apply Z.mod_pos_bound; lia].
  - apply Z.mod_pos_bound. lia.
  - rewrite Hfr, Zplus_mod_idemp_l. f_equal. lia.
  - rewrite length_drop. lia.
  - lia.
Qed.

Lemma emptied u buf fl :
  batch_inv b u buf -> batch_inv b (mk fl (front u) (front u) 0 (tasks u)) [].
Proof.
  intros [(ts & Ht & Hl & Hrd) Hbk Hfr Hsz Hfit].
  assert (0 <= front u < b) by (rewrite Hfr; apply Z.mod_pos_bound; lia).
  constructor; simpl; try lia; [by exists ts|]. rewrite Z.add_0_r, Z.mod_small; lia.
Qed.

(** Offering the first chunk to the pool. *)
Definition offer (u : t) (ts : list SockTaskTcp) (p : P) : option (Z * P) :=
  if Z.of_nat (chunk_len u) =? 1 then
    k ← ts !! Z.to_nat (back u);
    '(ok, p) ← pool_append k p; Some (if (ok : bool) then 1 else 0, p)
  else
    chunk ← mem_load ts (back u) (Z.of_nat (chunk_len u));
    pool_append_bulk chunk (Z.of_nat (chunk_len u)) p.

(** What is offered: the one task, or the chunk. *)
Lemma offer_eq u buf ts p :
  batch_inv b u buf -> tasks u = Some ts -> Z.of_nat (length ts) = b ->
  ring_read ts (Z.to_nat (back u)) (length buf) = buf -> buf <> [] ->
  length (take (chunk_len u) buf) = chunk_len u /\
  offer u ts p =
    match take (chunk_len u) buf with
    | [k] => '(ok, p) ← pool_append k p; Some (if (ok : bool) then 1 else 0, p)
    | chunk => pool_append_bulk chunk (Z.of_nat (length chunk)) p
    end.
Proof.
  intros Hi Ht Hl Hrd Hne. pose proof (chunk_read u buf ts Hi Ht Hl Hrd) as Hch.
  pose proof Hi as [_ Hbk _ Hsz Hfit].
  assert (Hk : (chunk_len u <= length buf)%nat) by (unfold chunk_len; lia).
  assert (Hkb : Z.of_nat (chunk_len u) <= b - back u) by (unfold chunk_len; lia).
  assert (Hlen : length (take (chunk_len u) buf) = chunk_len u) by (rewrite length_take; lia).
  split; [done|]. unfold offer. specialize (Hch 0%nat (chunk_len u) ltac:(lia)).
  rewrite Nat.add_0_r, drop_0 in Hch.
  destruct (Z.eqb_spec (Z.of_nat (chunk_len u)) 1) as [Ec|Ec].
  - destruct (lookup_lt_is_Some_2 ts (Z.to_nat (back u))) as [k Hts]; [lia|]. rewrite Hts.
    rewrite (drop_S _ _ _ Hts) in Hch. replace (chunk_len u) with 1%nat in * by lia. simpl in Hch.
    by rewrite <- Hch.
  - rewrite mem_load_in by lia. rewrite Nat2Z.id, Hch. cbn [mbind option_bind].
    destruct (take (chunk_len u) buf) as [|k [|k' ch]]; simpl in *; [|lia|]; by rewrite <- Hlen.
Qed.

(** A prefix of it is taken. *)
Lemma offer_spec u buf ts p l :
  batch_inv b u buf -> tasks u = Some ts -> Z.of_nat (length ts) = b ->
  ring_read ts (Z.to_nat (back u)) (length buf) = buf -> buf <> [] -> holding p l ->
  exists n p', (n <= chunk_len u)%nat /\ holding p' (l ++ take n buf) /\
    offer u ts p = Some (Z.of_nat n, p').
Proof.
  intros Hi Ht Hl Hrd Hne Hp. destruct (offer_eq u buf ts p Hi Ht Hl Hrd Hne) as [Hlen ->].
  assert (Htk : forall n, (n <= chunk_len u)%nat -> take n buf = take n (take (chunk_len u) buf))
    by (intros n Hn; rewrite take_take; f_equal; lia).
  assert (Hkb : Z.of_nat (chunk_len u) <= b) by (destruct Hi; unfold chunk_len; lia).
  revert Hlen Htk. generalize (take (chunk_len u) buf) as ch. intros ch Hlen Htk.
  assert (Hbulk : exists n p', (n <= chunk_len u)%nat /\ holding p' (l ++ take n buf) /\
    pool_append_bulk ch (Z.of_nat (length ch)) p = Some (Z.of_nat n, p')).
  { destruct (pool_append_bulk_law ch p l Hp) as (n & p' & Hrun & Hn & Hp'); [lia|].
    exists (Z.to_nat n), p'. rewrite Hrun, Z2Nat.id, Htk by lia. split_and!; [lia|done|done]. }
  destruct ch as [|k [|k' ch]]; [exact Hbulk| |exact Hbulk].
  destruct (pool_append_law k p l Hp) as (ok & p' & -> & Hp'). exists (if ok then 1%nat else 0%nat), p'.
  simpl in Hlen. destruct ok; (split_and!; [lia| |done]); [by rewrite Htk by lia|done].
Qed.

(** One level of [commit], once it is known how much of the offer was taken. *)
Lemma commit_step_eq fuel u buf ts p e n p' :
  batch_inv b u buf -> tasks u = Some ts -> Z.of_nat (length ts) = b ->
  ring_read ts (Z.to_nat (back u)) (length buf) = buf -> buf <> [] ->
  (n <= chunk_len u)%nat -> offer u ts p = Some (Z.of_nat n, p') ->
  commit_rec renableProc cfg (S fuel) u p e =
    if decide (n = chunk_len u) then
      commit_rec renableProc cfg fuel
        (mk (flag u) ((back u + Z.of_nat n) mod b) (front u) (size u - Z.of_nat n) (tasks u)) p' e
    else Some (mk false (front u) (front u) 0 (tasks u), p',
               renables (take (chunk_len u - n) (drop n buf)) e).
Proof.
  intros Hi Ht Hl Hrd Hne Hn Hrun. pose proof Hi as [_ Hbk Hfr Hsz Hfit].
  assert (0 < size u). { rewrite Hsz. destruct buf; [done|]. simpl. lia. }
  cbn [commit_rec]. rewrite (proj2 (Z.eqb_neq (size u) 0)) by lia. rewrite Ht. cbn [mbind option_bind].
  rewrite B_eq, (u32_small (b - back u)) by lia.
  assert (Hnum : (if size u <? b - back u then size u else b - back u) = Z.of_nat (chunk_len u)).
  { unfold chunk_len. destruct (Z.ltb_spec (size u) (b - back u)); lia. }
  rewrite Hnum. unfold offer in Hrun. cbn [mbind option_bind] in Hrun |- *. rewrite Hrun. simpl. case_decide as Ec.
  - rewrite Ec, Z.eqb_refl. simpl.
    rewrite (u32_small (back u + _)), u32_mod_pos, u32_small by (unfold chunk_len; lia). simpl.
    destruct (Z.eqb_spec (size u - Z.of_nat (chunk_len u)) 0) as [E0|]; simpl; rewrite ?Ht; [|done].
    destruct fuel; simpl; by rewrite E0.
  - rewrite (proj2 (Z.eqb_neq _ _)) by lia. simpl.
    rewrite (u32_small (_ - _)) by (unfold chunk_len in *; lia).
    rewrite renable_loop_spec by (done || unfold chunk_len in *; lia). simpl.
    replace (Z.to_nat (Z.of_nat (chunk_len u) - Z.of_nat n)) with (chunk_len u - n)%nat by lia.
    replace (Z.to_nat (back u + Z.of_nat n)) with (Z.to_nat (back u) + n)%nat by lia.
    rewrite (chunk_read u buf ts Hi Ht Hl Hrd) by lia. done.
Qed.

Lemma commit_step fuel u buf p e l :
  batch_inv b u buf -> buf <> [] -> holding p l ->
  exists n p', (n <= chunk_len u)%nat /\ holding p' (l ++ take n buf) /\
    commit_rec renableProc cfg (S fuel) u p e =
      if decide (n = chunk_len u) then
        commit_rec renableProc cfg fuel
          (mk (flag u) ((back u + Z.of_nat n) mod b) (front u) (size u - Z.of_nat n) (tasks u)) p' e
      else Some (mk false (front u) (front u) 0 (tasks u), p',
                 renables (take (chunk_len u - n) (drop n buf)) e).
Proof.
  intros Hi Hne Hp. pose proof Hi as [(ts & Ht & Hl & Hrd) _ _ _ _].
  destruct (offer_spec u buf ts p l Hi Ht Hl Hrd Hne Hp) as (n & p' & Hn & Hp' & Hrun).
  exists n, p'. split; [done|]. split; [done|]. by apply (commit_step_eq fuel u buf ts p e n p').
Qed.

(** After a first chunk taken whole, the second is all that is left. *)
Lemma second_chunk u buf fl :
  batch_inv b u buf -> drop (chunk_len u) buf <> [] ->
  chunk_len (mk fl ((back u + Z.of_nat (chunk_len u)) mod b) (front u) (size u - Z.of_nat (chunk_len u)) (tasks u))
    = (length buf - chunk_len u)%nat.
Proof.
  intros Hi Hne. pose proof Hi as [_ Hbk _ Hsz Hfit].
  assert (Hlt : (chunk_len u < length buf)%nat).
  { destruct (decide (chunk_len u < length buf)%nat); [done|]. destruct Hne. apply drop_ge. lia. }
  unfold chunk_len at 1. cbn [size back].
  assert (back u + Z.of_nat (chunk_len u) = b) as -> by (unfold chunk_len in *; lia).
  rewrite Z_mod_same_full. lia.
Qed.

(** What [commit] does: a prefix of [n] tasks is taken by the pool.  When all
    are, nothing else happens.  Otherwise the tasks up to the end of the chunk
    being offered are re-enabled; when that is the first of two chunks, the
    tasks of the second are dropped. *)
Lemma commit_spec u buf p e l :
  batch_inv b u buf -> holding p l ->
  exists n u' p', (n <= length buf)%nat /\ holding p' (l ++ take n buf) /\
    batch_inv b u' [] /\ flag u' = flag u && bool_decide (n = length buf) /\
    let upto := if decide (n < chunk_len u)%nat then chunk_len u else length buf in
    commit renableProc cfg u p e
      = Some (u', p', renables (take (upto - n) (drop n buf)) e).
Proof.
  intros Hi Hp. pose proof Hi as [_ Hbk Hfr Hsz Hfit].
  destruct (decide (buf = [])) as [->|Hne].
  { exists 0%nat, u, p. rewrite app_nil_r. split_and!; [done|done|done|by destruct (flag u)|].
    unfold commit. simpl. rewrite Hsz. simpl. by rewrite take_nil. }
  assert (Hck : (chunk_len u <= length buf)%nat) by (unfold chunk_len; lia).
  unfold commit. destruct (commit_step 1 u buf p e l Hi Hne Hp) as (n & p1 & Hn & Hp1 & Hrun).
  rewrite Hrun. case_decide as Ec; [subst n|].
  2:{ exists n, (mk false (front u) (front u) 0 (tasks u)), p1.
      assert (0 < chunk_len u)%nat. { lia. }
      split_and!; [lia|done|by eapply emptied| |by rewrite decide_True by lia].
      rewrite bool_decide_false by lia. by rewrite andb_false_r. }
  set (u1 := mk _ _ _ _ _).
  pose proof (consume_batch u buf (chunk_len u) (flag u) Hi Hck) as Hi1. fold u1 in Hi1.
  destruct (decide (drop (chunk_len u) buf = [])) as [Hz|Hne1].
  { exists (chunk_len u), u1, p1.
    assert (Hlen : chunk_len u = length buf).
    { pose proof (f_equal length Hz) as Hz'. rewrite length_drop in Hz'. simpl in Hz'. lia. }
    rewrite Hz in Hi1. split_and!; [done|done|done|by rewrite bool_decide_true, andb_true_r by done|].
    rewrite decide_False by lia. rewrite Hlen, Nat.sub_diag. simpl.
    pose proof (bi_size _ _ _ Hi1) as Hs1. simpl in Hs1. unfold u1. simpl. rewrite Hlen in *. by rewrite Hs1. }
  destruct (commit_step 0 u1 (drop (chunk_len u) buf) p1 e _ Hi1 Hne1 Hp1) as (n2 & p2 & Hn2 & Hp2 & ->).
  pose proof (second_chunk u buf (flag u) Hi Hne1) as Hc1. fold u1 in Hc1.
  rewrite <- app_assoc, take_take_drop in Hp2.
  exists (chunk_len u + n2)%nat. rewrite (decide_False (P := (chunk_len u + n2 < chunk_len u)%nat)) by lia.
  rewrite Hc1 in Hn2 |- *.
  case_decide as E2.
  - eexists _, p2. split_and!; [lia|exact Hp2| | |].
    + pose proof (consume_batch u1 _ n2 (flag u1) Hi1 ltac:(rewrite length_drop; lia)) as Hi2.
      rewrite drop_drop, (drop_ge buf) in Hi2 by lia. exact Hi2.
    + rewrite bool_decide_true by lia. unfold u1. simpl. by rewrite andb_true_r.
    + pose proof (bi_size _ _ _ Hi1) as Hs1. rewrite length_drop in Hs1. cbn [commit_rec size].
      rewrite (proj2 (Z.eqb_eq _ 0)) by lia.
      by replace (length buf - (chunk_len u + n2))%nat with 0%nat by lia.
  - exists (mk false (front u1) (front u1) 0 (tasks u1)), p2. split_and!; [lia|exact Hp2| | |].
    + by eapply emptied.
    + rewrite bool_decide_false by lia. by rewrite andb_false_r.
    + rewrite drop_drop. by replace (length buf - (chunk_len u + n2))%nat
        with (length buf - chunk_len u - n2)%nat by lia.
Qed.

(** The buffer part of [append]. *)
Lemma append_buffer u buf c pr p e l :
  batch_inv b u buf -> Z.of_nat (length buf) < b -> holding p l ->
  exists u1, batch_inv b u1 (buf ++ [mkTask pr c]) /\ flag u1 = flag u /\ back u1 = back u /\
    let e1 := if flag u then e else renableProc c e in
    append renableProc cfg c pr u p e
      = if size u + 1 =? b then commit renableProc cfg u1 p e1 else Some (u1, p, e1).
Proof.
  intros Hi Hlt Hp. pose proof Hi as [(ts & Ht & Hl & Hrd) Hbk Hfr Hsz Hfit].
  assert (Hf : 0 <= front u < b) by (rewrite Hfr; apply Z.mod_pos_bound; lia).
  exists (mk (flag u) (back u) ((front u + 1) mod b) (size u + 1)
            (Some (<[Z.to_nat (front u) := mkTask pr c]> ts))).
  split; [|split; [done|split; [done|]]].
  - constructor; simpl; [|done| | |lia].
    + eexists. split; [done|]. rewrite length_insert. split; [done|].
      assert (Hpos : Z.to_nat (front u) = ring_idx (length ts) (Z.to_nat (back u)) (length buf)).
      { rewrite ring_idx_mod by lia. apply Nat2Z.inj.
        rewrite Nat2Z.inj_mod, Nat2Z.inj_add, Hl, !Z2Nat.id by lia. by rewrite Hfr, Hsz. }
      rewrite Hpos. change (<[?i := ?x]> ts) with (list_inserts i [x] ts).
      rewrite <- (ring_store_linear ts) by (simpl; rewrite <- Hpos; lia).
      rewrite length_app. simpl. rewrite (ring_read_append ts _ _ [mkTask pr c]) by (simpl; lia).
      by rewrite Hrd.
    + rewrite Hfr, Zplus_mod_idemp_l. f_equal. lia.
    + rewrite length_app. simpl. lia.
  - unfold append. rewrite Ht, B_eq. simpl. rewrite (proj2 (Z.ltb_lt _ _)) by lia. simpl.
    rewrite !u32_small, u32_mod_pos by lia. simpl. by destruct (flag u).
Qed.
End spec.

(** ** A batch of events *)

Section run.
Context {P E : Type} `{TaskPool SockTaskTcp P} (renableProc : Z -> E -> E) (cfg : SPTcpConfig).

(** The tasks of [cs] appended one after the other. *)
Fixpoint append_all (cs : list SockTaskTcp) (u : t) (p : P) (e : E) : option (t * P * E) :=
  match cs with
  | [] => Some (u, p, e)
  | k :: cs =>
      '(u, p, e) ← append renableProc cfg (ctx k) (proc k) u p e;
      append_all cs u p e
  end.
End run.

(** What the code keeps true between two calls: fewer tasks buffered than a
    batch. *)
Definition batch_ready (b : Z) (u : t) (buf : list SockTaskTcp) : Prop :=
  batch_inv b u buf /\ Z.of_nat (length buf) < b.

Definition batch_config (cfg : SPTcpConfig) (b cap : Z) : Prop :=
  THREADPOOL_BATCH_SIZE_SUBMIT cfg = b /\ 0 < b < 2 ^ 31 /\ b <= cap.

Section batches.
Context {P E : Type} {cap : Z} `{HP : TaskPoolLaws SockTaskTcp P cap}.
Context (renableProc : Z -> E -> E).

(** One [append] when nothing failed before. *)
Lemma append_ok cfg b u buf k p e l :
  batch_config cfg b cap -> batch_ready b u buf -> flag u = true -> holding p l ->
  exists u' p' e' buf' l', append renableProc cfg (ctx k) (proc k) u p e = Some (u', p', e') /\
    batch_ready b u' buf' /\ holding p' l' /\
    (flag u' = true -> l' ++ buf' = (l ++ buf) ++ [k] /\ e' = e /\ (buf' = [] \/ buf' = buf ++ [k])).
Proof.
  intros (Hc & Hb & Hcap) [Hi Hlt] Hf Hp.
  destruct (append_buffer renableProc cfg b Hc Hb u buf (ctx k) (proc k) p e l Hi Hlt Hp)
    as (u1 & Hi1 & Hf1 & _ & ->). rewrite Hf.
  pose proof (bi_size _ _ _ Hi) as Hsz. pose proof (bi_size _ _ _ Hi1) as Hsz1.
  assert (mkTask (proc k) (ctx k) = k) as Hk by (by destruct k). rewrite Hk in *.
  rewrite length_app in Hsz1. simpl in Hsz1.
  destruct (Z.eqb_spec (size u + 1) b).
  - destruct (commit_spec renableProc cfg b Hc Hb Hcap u1 _ p e l Hi1 Hp)
      as (n & u2 & p2 & Hn & Hp2 & Hi2 & Hf2 & ->).
    eexists u2, p2, _, [], _. split; [done|]. split; [split; [done|simpl; lia]|].
    split; [exact Hp2|]. rewrite Hf2, Hf1, Hf. simpl. intros ->%bool_decide_eq_true.
    rewrite take_ge, app_nil_r, app_assoc by done. split; [done|].
    rewrite (drop_ge (buf ++ [k])) by done. rewrite take_nil. split; [done|by left].
  - exists u1, p, e, (buf ++ [k]), l. split; [done|]. split; [split; [done|]|].
    { rewrite length_app. simpl. lia. }
    split; [done|]. intros _. rewrite app_assoc. split; [done|]. split; [done|by right].
Qed.

(** Nothing sets the flag again but [reset]. *)
Lemma append_flag cfg b u buf k p e l :
  batch_config cfg b cap -> batch_ready b u buf -> flag u = false -> holding p l ->
  exists u' p' e' buf' l', append renableProc cfg (ctx k) (proc k) u p e = Some (u', p', e') /\
    batch_ready b u' buf' /\ holding p' l' /\ flag u' = false.
Proof.
  intros (Hc & Hb & Hcap) [Hi Hlt] Hf Hp.
  destruct (append_buffer renableProc cfg b Hc Hb u buf (ctx k) (proc k) p e l Hi Hlt Hp)
    as (u1 & Hi1 & Hf1 & _ & ->).
  pose proof (bi_size _ _ _ Hi) as Hsz.
  destruct (Z.eqb_spec (size u + 1) b).
  - destruct (commit_spec renableProc cfg b Hc Hb Hcap u1 _ p
                (if flag u then e else renableProc (ctx k) e) l Hi1 Hp)
      as (n & u2 & p2 & Hn & Hp2 & Hi2 & Hf2 & ->).
    eexists u2, p2, _, [], _. split; [done|]. split; [split; [done|simpl; lia]|].
    split; [exact Hp2|]. by rewrite Hf2, Hf1, Hf.
  - eexists u1, p, _, _, l. split; [done|]. split; [split; [exact Hi1|]|].
    { rewrite length_app. simpl. lia. }
    split; [done|]. by rewrite Hf1.
Qed.

Lemma append_all_spec cfg b cs u buf p e l :
  batch_config cfg b cap -> batch_ready b u buf -> holding p l ->
  exists u' p' e' buf' l', append_all renableProc cfg cs u p e = Some (u', p', e') /\
    batch_ready b u' buf' /\ holding p' l' /\
    (flag u' = true -> flag u = true /\ l' ++ buf' = l ++ buf ++ cs /\ e' = e).
Proof.
  intros Hcfg. revert u buf p e l. induction cs as [|k cs IH]; intros u buf p e l Hr Hp; simpl.
  { exists u, p, e, buf, l. rewrite app_nil_r. split_and!; done || tauto. }
  destruct (flag u) eqn:Hf.
  - destruct (append_ok cfg b u buf k p e l Hcfg Hr Hf Hp)
      as (u1 & p1 & e1 & buf1 & l1 & -> & Hr1 & Hp1 & H1). simpl.
    destruct (IH u1 buf1 p1 e1 l1 Hr1 Hp1) as (u2 & p2 & e2 & buf2 & l2 & -> & Hr2 & Hp2 & H2).
    exists u2, p2, e2, buf2, l2. split_and!; try done. intros Hf2.
    destruct (H2 Hf2) as (Hf1 & Hl2 & ->). destruct (H1 Hf1) as (Hl1 & -> & _).
    split_and!; try done. rewrite Hl2, app_assoc, Hl1. by rewrite <- !app_assoc.
  - destruct (append_flag cfg b u buf k p e l Hcfg Hr Hf Hp)
      as (u1 & p1 & e1 & buf1 & l1 & -> & Hr1 & Hp1 & Hf1). simpl.
    destruct (IH u1 buf1 p1 e1 l1 Hr1 Hp1) as (u2 & p2 & e2 & buf2 & l2 & -> & Hr2 & Hp2 & H2).
    exists u2, p2, e2, buf2, l2. split_and!; try done. intros Hf2.
    destruct (H2 Hf2) as (Hf1' & _). congruence.
Qed.
End batches.

(** ** A pool with room *)

Section roomy.
Context {P E : Type} {cap : Z} `{HP : TaskPoolLaws SockTaskTcp P cap} `{HR : !TaskPoolRoom SockTaskTcp P}.
Context (renableProc : Z -> E -> E) (cfg : SPTcpConfig) (b : Z).
Context (Hcfg : THREADPOOL_BATCH_SIZE_SUBMIT cfg = b) (Hb : 0 < b < 2 ^ 31) (Hcap : b <= cap).

Lemma offer_room u buf ts p m :
  batch_inv b u buf -> tasks u = Some ts -> Z.of_nat (length ts) = b ->
  ring_read ts (Z.to_nat (back u)) (length buf) = buf -> buf <> [] -> room p (chunk_len b u + m) ->
  exists p', offer b u ts p = Some (Z.of_nat (chunk_len b u), p') /\ room p' m.
Proof.
  intros Hi Ht Hl Hrd Hne Hroom. destruct (offer_eq b Hb u buf ts p Hi Ht Hl Hrd Hne) as [Hlen ->].
  revert Hlen. generalize (take (chunk_len b u) buf) as ch. intros ch Hlen. rewrite <- Hlen in *.
  destruct (room_bulk ch p m Hroom) as (p' & Hrun & Hr').
  destruct ch as [|k [|k' ch]]; [by exists p'| |by exists p'].
  destruct (room_append k p m Hroom) as (p2 & -> & Hr2). by exists p2.
Qed.

Lemma commit_step_room fuel u buf p e m :
  batch_inv b u buf -> buf <> [] -> room p (chunk_len b u + m) ->
  exists p', room p' m /\
    commit_rec renableProc cfg (S fuel) u p e = commit_rec renableProc cfg fuel
      (mk (flag u) ((back u + Z.of_nat (chunk_len b u)) mod b) (front u) (size u - Z.of_nat (chunk_len b u)) (tasks u)) p' e.
Proof.
  intros Hi Hne Hroom. pose proof Hi as [(ts & Ht & Hl & Hrd) _ _ _ _].
  destruct (offer_room u buf ts p m Hi Ht Hl Hrd Hne Hroom) as (p' & Hrun & Hr'). exists p'. split; [done|].
  rewrite (commit_step_eq renableProc cfg b Hcfg Hb fuel u buf ts p e (chunk_len b u) p') by done.
  by rewrite decide_True.
Qed.

(** All of the batch goes into the pool. *)
Lemma commit_room u buf p e l m :
  batch_inv b u buf -> flag u = true -> holding p l -> room p (length buf + m) ->
  exists u' p', commit renableProc cfg u p e = Some (u', p', e) /\ batch_inv b u' [] /\ flag u' = true /\
    holding p' (l ++ buf) /\ room p' m.
Proof.
  intros Hi Hf Hp Hroom.
  assert (Hrun : exists u' p', commit renableProc cfg u p e = Some (u', p', e) /\ flag u' = true /\ room p' m).
  { pose proof Hi as [_ Hbk Hfr Hsz Hfit]. destruct (decide (buf = [])) as [->|Hne].
    { exists u, p. split; [|done]. unfold commit. simpl. by rewrite Hsz. }
    assert (Hck : (chunk_len b u <= length buf)%nat) by (unfold chunk_len; lia).
    destruct (commit_step_room 1 u buf p e (length buf - chunk_len b u + m) Hi Hne) as (p1 & Hr1 & Hrun1).
    { eapply room_le; [exact Hroom|lia]. }
    unfold commit. rewrite Hrun1. set (u1 := mk _ _ _ _ _).
    pose proof (consume_batch b Hb u buf _ (flag u) Hi Hck) as Hi1. fold u1 in Hi1.
    pose proof (bi_size _ _ _ Hi1) as Hs1. rewrite length_drop in Hs1.
    destruct (decide (drop (chunk_len b u) buf = [])) as [Hz|Hne1].
    { assert (Hl0 : length (drop (chunk_len b u) buf) = 0%nat) by (by rewrite Hz). rewrite length_drop in Hl0.
      exists u1, p1. cbn [commit_rec]. rewrite Hs1, Hl0. split; [done|]. split; [done|].
      eapply room_le; [exact Hr1|lia]. }
    pose proof (second_chunk b Hb u buf (flag u) Hi Hne1) as Hc1. fold u1 in Hc1.
    destruct (commit_step_room 0 u1 _ p1 e m Hi1 Hne1) as (p2 & Hr2 & ->); [by rewrite Hc1|].
    assert (Hz : size u1 - Z.of_nat (chunk_len b u1) = 0) by lia.
    eexists _, p2. cbn [commit_rec size]. rewrite Hz. split; [reflexivity|by split]. }
  destruct Hrun as (u' & p' & Hrun & Hf' & Hr').
  destruct (commit_spec renableProc cfg b Hcfg Hb Hcap u buf p e l Hi Hp)
    as (n & u2 & p2 & Hn & Hp2 & Hi2 & Hf2 & Hrun2).
  cbv zeta in Hrun2. rewrite Hrun in Hrun2. injection Hrun2 as <- <- _.
  exists u', p'. split; [done|]. split; [done|]. split; [done|]. split; [|done].
  rewrite Hf', Hf in Hf2. symmetry in Hf2. apply bool_decide_eq_true in Hf2. by rewrite take_ge in Hp2 by lia.
Qed.

(** The task is taken, or buffered. *)
Lemma append_room u buf k p e l n :
  batch_ready b u buf -> flag u = true -> holding p l -> room p (length buf + S n) ->
  exists u' p' buf', append renableProc cfg (ctx k) (proc k) u p e = Some (u', p', e) /\
    batch_ready b u' buf' /\ flag u' = true /\ room p' (length buf' + n).
Proof.
  intros [Hi Hlt] Hf Hp Hroom.
  destruct (append_buffer renableProc cfg b Hcfg Hb u buf (ctx k) (proc k) p e l Hi Hlt Hp)
    as (u1 & Hi1 & Hf1 & _ & ->). rewrite Hf.
  pose proof (bi_size _ _ _ Hi) as Hsz. destruct (Z.eqb_spec (size u + 1) b).
  - destruct (commit_room u1 _ p e l n Hi1) as (u2 & p2 & Hrun & Hi2 & Hf2 & _ & Hr2); [congruence|done| |].
    { eapply room_le; [exact Hroom|]. rewrite length_app. simpl. lia. }
    exists u2, p2, []. split; [done|]. split; [split; [done|simpl; lia]|done].
  - exists u1, p, (buf ++ [mkTask (proc k) (ctx k)]). split; [done|].
    rewrite length_app. simpl. split; [split; [done|rewrite length_app; simpl; lia]|].
    split; [congruence|]. eapply room_le; [exact Hroom|lia].
Qed.
End roomy.

(** A ring holds one list. *)
Lemma batch_inv_inj b u buf buf' : batch_inv b u buf -> batch_inv b u buf' -> buf = buf'.
Proof.
  intros [(ts & Ht & _ & Hrd) _ _ Hs _] [(ts' & Ht' & _ & Hrd') _ _ Hs' _].
  rewrite Ht in Ht'. injection Ht' as <-. rewrite <- Hrd, <- Hrd'. f_equal. lia.
Qed.
