(* ===== verification/TaskProps.v ===== *)
(** * TaskProps: the correctness theorems of the task submission *)

From S2P Require Import Prelude Types TaskPool BlockQueue BlockQueueSpec ThreadPool ThreadPoolSpec.
From S2P Require Import ThreadPoolInv Task TaskSpec.
Import UtilTaskTcp_Multipe.

Section props.
Context {P E : Type} {cap : Z} `{HP : TaskPoolLaws SockTaskTcp P cap}.
Context (renableProc : Z -> E -> E).

(** ** Properties *)

(** C26: the outcome of a commit, for any pool.  [commit] always returns (two
    levels of its recursion are enough), accesses [tasks] in bounds, empties
    the buffer and hands the pool a prefix of the buffered tasks, in order.
    If that is all of them nothing is re-enabled and [flag] stays; otherwise
    [flag] is cleared and exactly the tasks between the prefix and the end of
    the chunk being offered are re-enabled.  So when the first of two chunks
    is refused, the tasks of the second are neither submitted nor re-enabled. *)
Theorem task_commit_outcome cfg b u buf p e l :
  batch_config cfg b cap -> batch_inv b u buf -> holding p l ->
  exists n u' p', (n <= length buf)%nat /\ holding p' (l ++ take n buf) /\
    batch_inv b u' [] /\ flag u' = flag u && bool_decide (n = length buf) /\
    let first := Z.to_nat (Z.min (size u) (b - back u)) in
    let upto := if decide (n < first)%nat then first else length buf in
    commit renableProc cfg u p e
      = Some (u', p', renable_all renableProc (ctx <$> take (upto - n) (drop n buf)) e).
Proof.
  intros (Hc & Hb & Hcap) Hi Hp. exact (commit_spec renableProc cfg b Hc Hb Hcap u buf p e l Hi Hp).
Qed.

(** The flag tells the truth.  Over any batch of events followed by a
    commit, if [flag] is still set at the end then every task was submitted to
    the pool, once and in order, and no controller was re-enabled. *)
Theorem task_flag_truth cfg b cs u buf p e l :
  batch_config cfg b cap -> batch_ready b u buf -> holding p l ->
  exists u1 p1 e1 u2 p2 e2,
    append_all renableProc cfg cs u p e = Some (u1, p1, e1) /\
    commit renableProc cfg u1 p1 e1 = Some (u2, p2, e2) /\ batch_ready b u2 [] /\
    (flag u2 = true -> holding p2 (l ++ buf ++ cs) /\ e2 = e).
Proof.
  intros Hcfg Hr Hp.
  destruct (append_all_spec renableProc cfg b cs u buf p e l Hcfg Hr Hp)
    as (u1 & p1 & e1 & buf1 & l1 & Hrun & [Hi1 _] & Hp1 & H1).
  destruct Hcfg as (Hc & Hb & Hcap).
  destruct (commit_spec renableProc cfg b Hc Hb Hcap u1 buf1 p1 e1 l1 Hi1 Hp1)
    as (n & u2 & p2 & Hn & Hp2 & Hi2 & Hf2 & Hrun2).
  eexists u1, p1, e1, u2, p2, _. split; [done|]. split; [exact Hrun2|].
  split; [split; [done|simpl; lia]|]. rewrite Hf2. intros [Hf1 ->%bool_decide_eq_true]%andb_prop.
  destruct (H1 Hf1) as (_ & Hl & ->). rewrite take_ge in Hp2 by done. rewrite Hl in Hp2.
  split; [done|]. rewrite drop_ge by done. by rewrite take_nil.
Qed.

(** Double dispatch.  Once a submission has failed, [append] re-enables the
    controller and then submits its task all the same: when the pool takes it,
    the connection is both re-armed and queued.  (The batch version buffers
    the task after re-enabling its controller.) *)
Theorem task_double_dispatch cfg b c pr (s : UtilTaskTcp_Single.t) u buf p e l :
  batch_config cfg b cap -> UtilTaskTcp_Single.flag s = false -> flag u = false ->
  batch_inv b u buf -> Z.of_nat (length buf) + 1 < b -> holding p l ->
  (exists ok s' p', UtilTaskTcp_Single.append renableProc c pr s p e
      = Some (s', p', if (ok : bool) then renableProc c e else renableProc c (renableProc c e)) /\
    holding p' (l ++ if ok then [mkTask pr c] else [])) /\
  (exists u', append renableProc cfg c pr u p e = Some (u', p, renableProc c e) /\
    batch_inv b u' (buf ++ [mkTask pr c])).
Proof.
  intros (Hc & Hb & Hcap) Hs Hf Hi Hlt Hp. split.
  - unfold UtilTaskTcp_Single.append. rewrite Hs. simpl.
    destruct (pool_emplace_law (mkTask pr c) p l Hp) as (ok & p' & -> & Hp'). simpl.
    exists ok. destruct ok; simpl; eexists _, p'; by split.
  - destruct (append_buffer renableProc cfg b Hc Hb u buf c pr p e l Hi ltac:(lia) Hp)
      as (u1 & Hi1 & _ & _ & ->). rewrite Hf. pose proof (bi_size _ _ _ Hi).
    rewrite (proj2 (Z.eqb_neq _ _)) by lia. by exists u1.
Qed.

(** Single submission.  While [flag] is set, [append] submits the task, or
    re-enables its controller exactly once and clears [flag]. *)
Theorem task_single_append c pr (s : UtilTaskTcp_Single.t) p e l :
  UtilTaskTcp_Single.flag s = true -> holding p l ->
  exists ok s' p', UtilTaskTcp_Single.append renableProc c pr s p e
      = Some (s', p', if (ok : bool) then e else renableProc c e) /\
    holding p' (l ++ if ok then [mkTask pr c] else []) /\ UtilTaskTcp_Single.flag s' = ok.
Proof.
  intros Hs Hp. unfold UtilTaskTcp_Single.append. rewrite Hs. simpl.
  destruct (pool_emplace_law (mkTask pr c) p l Hp) as (ok & p' & -> & Hp'). simpl.
  exists ok. destruct ok; simpl; eexists _, p'; by split_and!.
Qed.
End props.

(** ** Submitting one by one, and in batches of one *)

Section single_batch.
Context {E : Type} (renableProc : Z -> E -> E) (cfg : SPTcpConfig).

Fixpoint single_all (cs : list SockTaskTcp) (s : UtilTaskTcp_Single.t) (p : ThreadPool.t SockTaskTcp) (e : E) :=
  match cs with
  | [] => Some (s, p, e)
  | k :: cs =>
      '(s, p, e) ← UtilTaskTcp_Single.append renableProc (ctx k) (proc k) s p e;
      single_all cs s p e
  end.

(** The same flag, and a ring of one place with nothing in it. *)
Record same_util (s : UtilTaskTcp_Single.t) (u : t) : Prop := {
  su_flag : UtilTaskTcp_Single.flag s = flag u;
  su_ring : back u = 0 /\ front u = 0 /\ size u = 0;
  su_tasks : exists k, tasks u = Some [k] }.

(** The same result, up to [same_util]; both undefined, or neither. *)
Definition same_run (r : option (UtilTaskTcp_Single.t * ThreadPool.t SockTaskTcp * E))
    (r' : option (t * ThreadPool.t SockTaskTcp * E)) : Prop :=
  match r, r' with
  | Some (s, p, e), Some (u, p', e') => same_util s u /\ p = p' /\ e = e'
  | None, None => True
  | _, _ => False
  end.

(** Committing a batch of one task. *)
Lemma commit_one fl k p (e : E) :
  THREADPOOL_BATCH_SIZE_SUBMIT cfg = 1 ->
  commit renableProc cfg (mk fl 0 0 1 (Some [k])) p e =
    '(ok, p) ← ThreadPool.emplace k p;
    Some (mk (fl && ok) 0 0 0 (Some [k]), p, if (ok : bool) then e else renableProc (ctx k) e).
Proof.
  intros Hc. assert (HB : B cfg = 1) by (unfold B; by rewrite Hc).
  assert (Hre : renable_loop renableProc cfg 1 (0 + 0) [k] e = Some (renableProc (ctx k) e))
    by (cbn [renable_loop]; by rewrite HB).
  unfold commit. generalize 1%nat. intros n.
  cbn [commit_rec size tasks back front flag mbind option_bind]. rewrite HB.
  change (if 1 <? u32 (1 - 0) then 1 else u32 (1 - 0)) with 1.
  change (1 =? 0) with false. change (1 =? 1) with true. cbn iota.
  change ([k] !! Z.to_nat 0) with (Some k). cbn [mbind option_bind].
  change (pool_append k p) with (ThreadPool.emplace k p).
  destruct (ThreadPool.emplace k p) as [[ok p']|]; [|done]. cbn [mbind option_bind].
  destruct ok; rewrite ?andb_true_r, ?andb_false_r.
  - done.
  - change (Z.to_nat (u32 (1 - 0))) with 1%nat. cbn [Z.eqb negb]. by rewrite Hre.
Qed.

Lemma append_same k s u p e :
  THREADPOOL_BATCH_SIZE_SUBMIT cfg = 1 -> same_util s u ->
  same_run (UtilTaskTcp_Single.append renableProc (ctx k) (proc k) s p e)
           (append renableProc cfg (ctx k) (proc k) u p e).
Proof.
  intros Hc [Hf (Hb & Hfr & Hsz) [k0 Hts]].
  assert (HB : B cfg = 1) by (unfold B; by rewrite Hc).
  unfold UtilTaskTcp_Single.append, append. rewrite Hts. cbn [mbind option_bind].
  rewrite Hfr, HB, Hf, Hb, Hsz. set (e1 := if negb (flag u) then _ else _). set (task := mkTask _ _).
  change (negb (0 <? Z.of_nat (length [k0]))) with false. change (u32 (0 + 1)) with 1.
  change (u32_mod 1 1) with (Some 0). change (<[Z.to_nat 0:=task]> [k0]) with [task].
  cbn [mbind option_bind size]. change (1 =? 1) with true. cbn iota. rewrite (commit_one _ task) by done.
  change (pool_emplace task p) with (ThreadPool.emplace task p).
  destruct (ThreadPool.emplace task p) as [[ok p']|]; cbn [mbind option_bind same_run]; [|done].
  destruct ok; cbn [negb same_run]; rewrite ?andb_true_r, ?andb_false_r;
    (split; [constructor; [done|done|by eexists]|done]).
Qed.

(** C28: batches of one.  The batch submission with a batch size of one and the
    single submission, which the configuration selects then, do the same to
    the thread pool and re-enable the same controllers in the same order, over
    any sequence of events. *)
Theorem single_is_batch_of_one cs s u p e :
  THREADPOOL_BATCH_SIZE_SUBMIT cfg = 1 -> same_util s u ->
  same_run (single_all cs s p e) (append_all renableProc cfg cs u p e).
Proof.
  intros Hc. revert s u p e. induction cs as [|k cs IH]; intros s u p e Hsu; simpl; [done|].
  pose proof (append_same k s u p e Hc Hsu) as Hone.
  destruct (UtilTaskTcp_Single.append _ _ _ s p e) as [[[s1 p1] e1]|],
    (append _ _ _ _ u p e) as [[[u1 p1'] e1']|]; simpl in *; try done.
  destruct Hone as (Hsu1 & <- & <-). by apply IH.
Qed.
End single_batch.

(** ** A run against the thread pool: one worker, queue of four tasks *)

Definition w_batch_cfg : SPTcpConfig :=
  mkTcpConfig 1024 1024 1 1 10 EPOLLIN 4 4 2 float_0_6 LOG_LEVEL_WARNING.

Definition w_tpool : ThreadPool.t SockTaskTcp :=
  match ThreadPool.init (fun _ _ => true) 24 (Some [TPBlockQueue.TPBlockQueue 0 0 0 0]) 8 4 1 2
          (ThreadPool.ThreadPool 0) with
  | Some (_, p) => p | None => ThreadPool.ThreadPool 0 end.

Definition w_garbage : list SockTaskTcp := replicate 4 (mkTask 0 0).

(** [renableProc] logs the controllers it is given. *)
Definition w_log (c : Z) (e : list Z) : list Z := e ++ [c].

Definition w_util : UtilTaskTcp.t :=
  (UtilTaskTcp.init w_batch_cfg (Some w_garbage) UtilTaskTcp.UtilTaskTcp).2.

Fixpoint w_events (cs : list Z) (s : option (UtilTaskTcp.t * ThreadPool.t SockTaskTcp * list Z)) :=
  match cs with
  | [] => '(u, p, e) ← s; UtilTaskTcp.reset w_log w_batch_cfg u p e
  | c :: cs => w_events cs ('(u, p, e) ← s; UtilTaskTcp.append w_log w_batch_cfg c 1 u p e)
  end.

(** C37: Connections can be lost.  A pool of one worker with a queue of four:
    the events 1 to 4 fill it, the fifth is refused and re-enabled, which
    leaves the ring at place 1.  The next four go round the end of the ring:
    the chunk 6, 7, 8 is refused and re-enabled, and 9, the other chunk, is
    then neither in the pool, nor buffered, nor re-enabled. *)
Theorem task_commit_drops :
  exists u p q q',
    w_events [6; 7; 8; 9] (w_events [5] (w_events [4] (w_events [1; 2; 3] (Some (w_util, w_tpool, [])))))
      = Some (u, p, [5; 6; 7; 8]) /\
    ThreadPool.threadNum p = 1 /\ ThreadPool.queue_at 0 p = Some q /\
    TPBlockQueue.take_bulk 10 q = Some (mkTask 1 <$> [1; 2; 3; 4], q') /\
    size (UtilTaskTcp.tm u) = 0.
Proof.
  do 4 eexists. split; [vm_compute; reflexivity|].
  split; [reflexivity|]. split; [vm_compute; reflexivity|]. split; vm_compute; reflexivity.
Qed.

(** ** Witnesses *)

Lemma w_tpool_holding : pool_holding 4 w_tpool [].
Proof.
  destruct (pool_init_spec (fun _ _ => true) 24 [TPBlockQueue.TPBlockQueue 0 0 0 0] 8 4 1 2
              (ThreadPool.ThreadPool (T := SockTaskTcp) 0) ltac:(lia) ltac:(lia) ltac:(lia))
    as (ok & p' & Hrun & H); [by repeat constructor|done|].
  unfold w_tpool. rewrite Hrun. assert (ok = true) as Hok by (vm_compute in Hrun; congruence).
  rewrite Hok in *. exists [([], false)]. split; [apply H|done].
Qed.

Lemma w_batch_config : batch_config w_batch_cfg 4 4.
Proof. split_and!; simpl; lia. Qed.

(** A batch of [buf] from place [k] of the ring on. *)
Definition w_batch (fl : bool) (k : Z) (buf : list SockTaskTcp) : t :=
  mk fl k ((k + Z.of_nat (length buf)) mod 4) (Z.of_nat (length buf))
    (Some (ring_store w_garbage (Z.to_nat k) buf)).

Lemma w_batch_inv fl : batch_inv 4 (w_batch fl 3 [mkTask 1 7; mkTask 1 8]) [mkTask 1 7; mkTask 1 8].
Proof. constructor; simpl; [|lia|reflexivity|lia|lia]. by eexists. Qed.

Lemma w_batch_ready fl : batch_ready 4 (w_batch fl 3 [mkTask 1 7; mkTask 1 8]) [mkTask 1 7; mkTask 1 8].
Proof. split; [apply w_batch_inv|simpl; lia]. Qed.

Lemma task_commit_outcome_witness :
  batch_config w_batch_cfg 4 4 /\
  exists n u' p', (n <= 2)%nat /\
    pool_holding 4 p' (take n [mkTask 1 7; mkTask 1 8]) /\ batch_inv 4 u' [].
Proof.
  split; [exact w_batch_config|].
  destruct (task_commit_outcome (HP := thread_pool_laws 4) w_log w_batch_cfg 4 (w_batch true 3 [mkTask 1 7; mkTask 1 8])
              [mkTask 1 7; mkTask 1 8] w_tpool [] [] w_batch_config (w_batch_inv true) w_tpool_holding)
    as (n & u' & p' & Hn & Hp & Hi & _).
  exists n, u', p'. split; [exact Hn|]. split; [exact Hp|exact Hi].
Defined.

Lemma task_flag_truth_witness :
  batch_config w_batch_cfg 4 4 /\
  exists u1 p1 e1, append_all w_log w_batch_cfg [mkTask 1 9; mkTask 1 10; mkTask 1 11]
    (w_batch true 3 [mkTask 1 7; mkTask 1 8]) w_tpool [] = Some (u1, p1, e1).
Proof.
  split; [exact w_batch_config|].
  destruct (task_flag_truth (HP := thread_pool_laws 4) w_log w_batch_cfg 4 [mkTask 1 9; mkTask 1 10; mkTask 1 11]
              (w_batch true 3 [mkTask 1 7; mkTask 1 8]) [mkTask 1 7; mkTask 1 8] w_tpool [] []
              w_batch_config (w_batch_ready true) w_tpool_holding)
    as (u1 & p1 & e1 & _ & _ & _ & Hrun & _).
  exists u1, p1, e1. exact Hrun.
Defined.

Lemma task_double_dispatch_witness :
  exists u', append w_log w_batch_cfg 9 1 (w_batch false 3 [mkTask 1 7; mkTask 1 8]) w_tpool []
    = Some (u', w_tpool, [9]).
Proof.
  destruct (task_double_dispatch (HP := thread_pool_laws 4) w_log w_batch_cfg 4 9 1 (UtilTaskTcp_Single.mk false)
              (w_batch false 3 [mkTask 1 7; mkTask 1 8]) [mkTask 1 7; mkTask 1 8] w_tpool [] []
              w_batch_config eq_refl eq_refl (w_batch_inv false) ltac:(simpl; lia) w_tpool_holding)
    as (_ & u' & Hrun & _).
  exists u'. exact Hrun.
Defined.

Lemma task_single_append_witness :
  exists ok s' p', UtilTaskTcp_Single.append w_log 9 1 (UtilTaskTcp_Single.mk true) w_tpool []
      = Some (s', p', if (ok : bool) then [] else [9]) /\ UtilTaskTcp_Single.flag s' = ok.
Proof.
  destruct (task_single_append (HP := thread_pool_laws 4) w_log 9 1 (UtilTaskTcp_Single.mk true) w_tpool [] []
              eq_refl w_tpool_holding) as (ok & s' & p' & Hrun & _ & Hf).
  exists ok, s', p'. split; [exact Hrun|exact Hf].
Defined.

Definition w_one_cfg : SPTcpConfig :=
  mkTcpConfig 1024 1024 1 1 10 EPOLLIN 4 1 2 float_0_6 LOG_LEVEL_WARNING.

Lemma single_is_batch_of_one_witness :
  same_run (single_all w_log [mkTask 1 7; mkTask 1 8] (UtilTaskTcp_Single.mk true) w_tpool [])
    (append_all w_log w_one_cfg [mkTask 1 7; mkTask 1 8] (mk true 0 0 0 (Some [mkTask 0 0])) w_tpool []).
Proof.
  apply (single_is_batch_of_one w_log w_one_cfg); [reflexivity|].
  constructor; [reflexivity|split_and!; reflexivity|]. exists (mkTask 0 0). reflexivity.
Defined.
