(* ===== verification/TaskStack.v ===== *)
(** * TaskStack: the type-erased tasks of TPTask.h

    A [TaskStack] is raw storage in which an object of some type derived from
    [TaskBase] was constructed.  The model keeps, for the address of every
    [TaskStack], whether an object lives in its storage ([Some None]: none
    does) and which: objects are numbered in the order they are constructed,
    and [dead] lists those that were destroyed, in order.

    The user's function and arguments are a parameter ([UserTask]): how a tuple
    of them is copied, moved, called and destroyed, each of which may act on
    the [world], and the first three of which may throw.  An operation gives
    [None] where the code is undefined: a virtual call, or a destructor, on
    storage that holds no object. *)

From S2P Require Import Prelude.

Class UserTask (F A W : Type) := {
  sizeof : Z -> Z;
  call_lvalues : F -> list A -> W -> bool * (F * list A) * W;
  copy_tuple : F * list A -> W -> option (F * list A) * W;
  move_tuple : F * list A -> W -> option (F * list A) * (F * list A) * W;
  destroy_tuple : F * list A -> W -> W }.

(** How an operation ends: by returning, by an exception, or, for an exception
    out of a [noexcept] function, by [std::terminate]. *)
Inductive outcome := Done | Threw | Terminated.

#[export] Instance outcome_eq_dec : EqDecision outcome.
Proof. solve_decision. Defined.

(** ** TaskImpl *)

Module TaskImpl.

(** [type]: the instance [TaskImpl<F, Args...>] the object is of. *)
Record t (F A : Type) := mk { type : Z; storage : F * list A }.
Arguments mk {F A}.
Arguments type {F A}.
Arguments storage {F A}.

Section impl.
Context {F A W : Type} `{UserTask F A W}.

(** [tuple_apply]: the arguments are passed as lvalues, so the call may change
    what is stored.  The flag tells whether it returned. *)
Definition execute (x : t F A) (w : W) : bool * t F A * W :=
  let '(f, args) := storage x in
  let '(ok, st, w) := call_lvalues f args w in (ok, mk (type x) st, w).

(** What [new (memory) TaskImpl] constructs; [None]: it threw. *)
Definition cloneTo (x : t F A) (w : W) : option (t F A) * W :=
  let '(r, w) := copy_tuple (storage x) w in (mk (type x) <$> r, w).
Definition moveTo (x : t F A) (w : W) : option (t F A) * t F A * W :=
  let '(r, old, w) := move_tuple (storage x) w in (mk (type x) <$> r, mk (type x) old, w).
End impl.

End TaskImpl.

(** ** TaskStack *)

Module TaskStack.

Record mem (F A W : Type) := mkMem {
  slots : gmap Z (option (nat * TaskImpl.t F A));
  next : nat;
  dead : list nat;
  world : W }.
Arguments mkMem {F A W}.
Arguments slots {F A W}.
Arguments next {F A W}.
Arguments dead {F A W}.
Arguments world {F A W}.

Section stack.
Context {F A W : Type} `{UserTask F A W} (TSIZE : Z).
Implicit Types m : mem F A W.

Definition set_world (w : W) m : mem F A W := mkMem (slots m) (next m) (dead m) w.

(** A new object in the storage at [a]. *)
Definition place (a : Z) (x : TaskImpl.t F A) m : mem F A W :=
  mkMem (<[a := Some (next m, x)]> (slots m)) (S (next m)) (dead m) (world m).

(** [getBase], as the caller of a member of the object needs it. *)
Definition getBase (a : Z) m : option (nat * TaskImpl.t F A) := slots m !! a ≫= id.

(** [getBase()->~TaskBase()]. *)
Definition destroy_base (a : Z) m : option (mem F A W) :=
  '(i, x) ← getBase a m;
  Some (mkMem (<[a := None]> (slots m)) (next m) (dead m ++ [i])
          (destroy_tuple (TaskImpl.storage x) (world m))).

(** [other.getBase()->cloneTo(storage)]. *)
Definition clone_into (a other : Z) m : option (outcome * mem F A W) :=
  '(_, x) ← getBase other m;
  let '(r, w) := TaskImpl.cloneTo x (world m) in
  let m := set_world w m in
  Some (match r with Some x => (Done, place a x m) | None => (Threw, m) end).

(** [other.getBase()->moveTo(storage)]. *)
Definition move_into (a other : Z) m : option (outcome * mem F A W) :=
  '(i, x) ← getBase other m;
  let '(r, old, w) := TaskImpl.moveTo x (world m) in
  let m := mkMem (<[other := Some (i, old)]> (slots m)) (next m) (dead m) w in
  Some (match r with Some x => (Done, place a x m) | None => (Threw, m) end).

(** The constructor from a function and arguments: [init] constructs the tuple
    from them.  An object that does not fit is refused by the [static_assert]. *)
Definition construct (a ty : Z) (init : W -> option (F * list A) * W) m : option (outcome * mem F A W) :=
  if negb (sizeof ty <=? TSIZE) then None else
  let '(r, w) := init (world m) in
  let m := set_world w m in
  Some (match r with Some st => (Done, place a (TaskImpl.mk ty st) m) | None => (Threw, m) end).

Definition execute (a : Z) m : option (outcome * mem F A W) :=
  '(i, x) ← getBase a m;
  let '(ok, x, w) := TaskImpl.execute x (world m) in
  Some (if (ok : bool) then Done else Threw,
        mkMem (<[a := Some (i, x)]> (slots m)) (next m) (dead m) w).

Definition copy_construct : Z -> Z -> mem F A W -> option (outcome * mem F A W) := clone_into.
Definition move_construct : Z -> Z -> mem F A W -> option (outcome * mem F A W) := move_into.

(** [operator=(const TaskStack&)]. *)
Definition copy_assign (a other : Z) m : option (outcome * mem F A W) :=
  if negb (a =? other) then m ← destroy_base a m; clone_into a other m else Some (Done, m).

(** [operator=(TaskStack&&) noexcept]. *)
Definition move_assign (a other : Z) m : option (outcome * mem F A W) :=
  if negb (a =? other) then
    m ← destroy_base a m;
    '(r, m) ← move_into a other m;
    Some (match r with Threw => (Terminated, m) | r => (r, m) end)
  else Some (Done, m).

(** [~TaskStack], after which the storage is gone. *)
Definition destruct_stack (a : Z) m : option (outcome * mem F A W) :=
  m ← destroy_base a m;
  Some (Done, mkMem (delete a (slots m)) (next m) (dead m) (world m)).

(** ** What a client may do *)

Inductive op : Type :=
  | Construct (a ty : Z) (init : W -> option (F * list A) * W)
  | CopyConstruct (a other : Z)
  | MoveConstruct (a other : Z)
  | CopyAssign (a other : Z)
  | MoveAssign (a other : Z)
  | Execute (a : Z)
  | Destruct (a : Z).

Definition exec (o : op) m : option (outcome * mem F A W) :=
  match o with
  | Construct a ty init => construct a ty init m
  | CopyConstruct a other => copy_construct a other m
  | MoveConstruct a other => move_construct a other m
  | CopyAssign a other => copy_assign a other m
  | MoveAssign a other => move_assign a other m
  | Execute a => execute a m
  | Destruct a => destruct_stack a m
  end.

(** The language's own rules: an object is constructed where there is none and
    used where there is one; the task fits the storage. *)
Definition allowed (o : op) m : bool :=
  let here a := bool_decide (is_Some (slots m !! a)) in
  match o with
  | Construct a ty _ => negb (here a) && (sizeof ty <=? TSIZE)
  | CopyConstruct a other | MoveConstruct a other => negb (here a) && here other
  | CopyAssign a other | MoveAssign a other => here a && here other
  | Execute a | Destruct a => here a
  end.

(** A program goes on after an operation that returned or threw, not after
    [std::terminate]. *)
Inductive step : mem F A W -> mem F A W -> Prop :=
  | Step o r m m' : allowed o m = true -> exec o m = Some (r, m') -> r <> Terminated -> step m m'.

Definition init_mem (w : W) : mem F A W := mkMem ∅ 0 [] w.
End stack.

Arguments op : clear implicits.

End TaskStack.
