(* ===== verification/TaskStackProps.v ===== *)
(** * TaskStackProps: every object of a TaskStack is destroyed once, as what it is

    [mem_wf]: the objects constructed so far are the living ones and the dead
    ones, each once, and the living ones fit their storage.  A [TaskStack]
    whose storage holds no object ([Some None]) is what no member function and
    no destructor can be called on; [uses] names the ones an operation calls. *)

From S2P Require Import Prelude TaskStack.
Import TaskStack.

Section props.
Context {F A W : Type} `{UserTask F A W} (TSIZE : Z).
Implicit Types m : mem F A W.

(** ** Living objects *)

Definition slot_id (v : option (nat * TaskImpl.t F A)) : list nat :=
  match v with Some (i, _) => [i] | None => [] end.

Definition ids (s : gmap Z (option (nat * TaskImpl.t F A))) : list nat :=
  map_to_list s ≫= fun x => slot_id x.2.

Definition alive m : list nat := ids (slots m).

Lemma ids_insert s a v : s !! a = None -> ids (<[a := v]> s) ≡ₚ slot_id v ++ ids s.
Proof. intros Ha. unfold ids. by rewrite map_to_list_insert by done. Qed.

Lemma ids_delete s a v : s !! a = Some v -> ids s ≡ₚ slot_id v ++ ids (delete a s).
Proof.
  intros Ha. rewrite <- (insert_delete_id s a v Ha) at 1. by rewrite ids_insert by apply lookup_delete_eq.
Qed.

Lemma ids_replace s a v v' :
  s !! a = Some v -> slot_id v ++ ids (<[a := v']> s) ≡ₚ slot_id v' ++ ids s.
Proof.
  intros Ha. rewrite <- insert_delete_eq, ids_insert by apply lookup_delete_eq.
  rewrite (ids_delete s a v Ha), !app_assoc. by rewrite (Permutation_app_comm (slot_id v)).
Qed.

(** ** The invariant *)

Record mem_wf m : Prop := {
  wf_fits a i x : slots m !! a = Some (Some (i, x)) -> sizeof (TaskImpl.type x) <= TSIZE;
  wf_once : alive m ++ dead m ≡ₚ seq 0 (next m) }.

(** The [TaskStack]s whose object an operation calls. *)
Definition uses (o : op F A W) : list Z :=
  match o with
  | Construct _ _ _ => []
  | CopyConstruct _ other | MoveConstruct _ other => [other]
  | CopyAssign a other | MoveAssign a other => if a =? other then [] else [a; other]
  | Execute a | Destruct a => [a]
  end.

Lemma slot_cases a m :
  is_Some (slots m !! a) -> slots m !! a = Some None \/ exists i x, slots m !! a = Some (Some (i, x)).
Proof. intros [[[i x]|] Ha]; [right; by exists i, x|by left]. Qed.

#[local] Instance slot_empty_dec a m : Decision (slots m !! a = Some None).
Proof. destruct (slots m !! a) as [[x|]|]; [right|left|right]; congruence. Defined.

Lemma getBase_empty a m : slots m !! a = Some None -> getBase a m = None.
Proof. unfold getBase. by intros ->. Qed.

Lemma getBase_live a i x m : slots m !! a = Some (Some (i, x)) -> getBase a m = Some (i, x).
Proof. unfold getBase. by intros ->. Qed.

Lemma set_world_wf w m : mem_wf m -> mem_wf (set_world w m).
Proof. intros []. by constructor. Qed.

(** A new object where there is none. *)
Lemma place_wf a x m :
  mem_wf m -> (slots m !! a = None \/ slots m !! a = Some None) -> sizeof (TaskImpl.type x) <= TSIZE ->
  mem_wf (place a x m).
Proof.
  intros [Hf Ho] Ha Hx. constructor.
  - intros b i y. simpl. rewrite lookup_insert_Some. intros [[_ [= _ <-]]|[_ Hb]]; [done|by apply (Hf b i)].
  - unfold alive in *. cbn [place slots dead next].
    assert (Hp : ids (<[a := Some (next m, x)]> (slots m)) ≡ₚ next m :: ids (slots m)).
    { destruct Ha as [Ha|Ha]; [by apply ids_insert|]. exact (ids_replace _ a _ (Some (next m, x)) Ha). }
    rewrite Hp, seq_S. simpl. by rewrite Ho, Permutation_cons_append.
Qed.

Lemma destroy_base_spec a i x m :
  mem_wf m -> slots m !! a = Some (Some (i, x)) ->
  exists m', destroy_base a m = Some m' /\ mem_wf m' /\ slots m' = <[a := None]> (slots m) /\
    dead m' = dead m ++ [i] /\ world m' = destroy_tuple (TaskImpl.storage x) (world m).
Proof.
  intros [Hf Ho] Ha. unfold destroy_base. rewrite (getBase_live a i x m Ha).
  eexists. split; [done|]. split; [|done]. constructor.
  - intros b j y. simpl. rewrite lookup_insert_Some. intros [[_ [=]]|[_ Hb]]. by apply (Hf b j).
  - unfold alive in *. cbn [slots dead next]. pose proof (ids_replace _ a _ None Ha) as Hp. simpl in Hp.
    rewrite <- Ho, <- Hp, app_assoc. simpl. by rewrite <- Permutation_cons_append.
Qed.

(** What [clone_into] and [move_into] leave: an object of the same type. *)
Definition settled (a other : Z) (x : TaskImpl.t F A) m (r : outcome) m' : Prop :=
  mem_wf m' /\
  match r with
  | Done => exists y, slots m' !! a = Some (Some (next m, y)) /\ TaskImpl.type y = TaskImpl.type x
  | Threw => slots m' !! a = slots m !! a
  | Terminated => False
  end /\
  (forall b, b <> a -> b <> other -> slots m' !! b = slots m !! b) /\
  is_Some (slots m' !! other ≫= id) /\ dead m' = dead m.

Lemma clone_into_spec a other j x m :
  mem_wf m -> slots m !! other = Some (Some (j, x)) -> a <> other ->
  (slots m !! a = None \/ slots m !! a = Some None) ->
  exists r m', clone_into a other m = Some (r, m') /\ settled a other x m r m' /\
    slots m' !! other = slots m !! other /\
    (r = Done <-> is_Some (copy_tuple (TaskImpl.storage x) (world m)).1).
Proof.
  intros Hwf Ho Hne Ha. unfold clone_into. rewrite (getBase_live other j x m Ho). simpl.
  unfold TaskImpl.cloneTo. destruct (copy_tuple (TaskImpl.storage x) (world m)) as [[st|] w]; simpl.
  - eexists _, _. split; [done|]. split; [split_and!|].
    + apply place_wf; [by apply set_world_wf|done|]. exact (wf_fits m Hwf other j x Ho).
    + exists (TaskImpl.mk (TaskImpl.type x) st). split; [apply lookup_insert_eq|done].
    + intros b Hb _. by apply lookup_insert_ne.
    + simpl. rewrite lookup_insert_ne, Ho by done. by eexists.
    + done.
    + split; [by apply lookup_insert_ne|]. split; [by eexists|done].
  - eexists _, _. split; [done|]. split; [split_and!|].
    + by apply set_world_wf.
    + done.
    + done.
    + simpl. rewrite Ho. by eexists.
    + done.
    + split; [done|]. split; [done|by intros [? ?]].
Qed.

Lemma move_into_spec a other j x m :
  mem_wf m -> slots m !! other = Some (Some (j, x)) -> a <> other ->
  (slots m !! a = None \/ slots m !! a = Some None) ->
  exists r m', move_into a other m = Some (r, m') /\ settled a other x m r m'.
Proof.
  intros Hwf Ho Hne Ha. unfold move_into. rewrite (getBase_live other j x m Ho). simpl.
  unfold TaskImpl.moveTo. destruct (move_tuple (TaskImpl.storage x) (world m)) as [[r old] w]; simpl.
  set (m1 := mkMem _ (next m) (dead m) w).
  assert (Hwf1 : mem_wf m1).
  { destruct Hwf as [Hf Hon]. constructor.
    - intros b i y. simpl. rewrite lookup_insert_Some.
      intros [[_ [= _ <-]]|[_ Hb]]; [exact (Hf other j x Ho)|by apply (Hf b i)].
    - unfold alive in *. simpl. rewrite <- Hon. apply Permutation_app_tail.
      pose proof (ids_replace _ other _ (Some (j, TaskImpl.mk (TaskImpl.type x) old)) Ho) as Hp.
      by apply Permutation_app_inv_l in Hp. }
  assert (Ha1 : slots m1 !! a = slots m !! a) by (by apply lookup_insert_ne).
  destruct r as [st|]; simpl; eexists _, _; (split; [done|]); split_and!.
  - apply place_wf; [done|by rewrite Ha1|]. exact (wf_fits m Hwf other j x Ho).
  - exists (TaskImpl.mk (TaskImpl.type x) st). split; [apply lookup_insert_eq|done].
  - intros b Hb Hb2. simpl. by rewrite !lookup_insert_ne.
  - simpl. rewrite lookup_insert_ne, lookup_insert_eq by done. by eexists.
  - done.
  - done.
  - done.
  - intros b Hb Hb2. simpl. by rewrite lookup_insert_ne.
  - simpl. rewrite lookup_insert_eq. by eexists.
  - done.
Qed.

(** ** Operations *)

(** No slot becomes empty. *)
Definition occupied m m' : Prop := forall b, slots m' !! b = Some None -> slots m !! b = Some None.

Lemma settled_occupied a other x m r m' : settled a other x m r m' -> occupied m m'.
Proof.
  intros (_ & Hr & Hb & Ho & _) b Hn. destruct (decide (b = other)) as [->|Hbo].
  { rewrite Hn in Ho. by destruct Ho. }
  destruct (decide (b = a)) as [->|Hba]; [|by rewrite <- Hb].
  destruct r; [|by rewrite <- Hr|done]. destruct Hr as (y & Hy & _). by rewrite Hy in Hn.
Qed.

Lemma construct_spec a ty init m :
  mem_wf m -> slots m !! a = None -> sizeof ty <= TSIZE ->
  exists r m', construct TSIZE a ty init m = Some (r, m') /\ mem_wf m' /\ occupied m m'.
Proof.
  intros Hwf Ha Hs. unfold construct. rewrite (proj2 (Z.leb_le _ _)) by done. simpl.
  destruct (init (world m)) as [[st|] w]; simpl; eexists _, _; (split; [done|]); split.
  - apply place_wf; [by apply set_world_wf|by left|done].
  - intros b. simpl. by rewrite lookup_insert; case_decide.
  - by apply set_world_wf.
  - by intros b.
Qed.

Lemma execute_spec a i x m :
  mem_wf m -> slots m !! a = Some (Some (i, x)) ->
  exists r m', TaskStack.execute a m = Some (r, m') /\ mem_wf m' /\ occupied m m'.
Proof.
  intros Hwf Hx. unfold TaskStack.execute. rewrite (getBase_live a i x m Hx). simpl. unfold TaskImpl.execute.
  destruct (TaskImpl.storage x) as [f args]. destruct (call_lvalues f args (world m)) as [[ok st] w]. simpl.
  set (x' := TaskImpl.mk (TaskImpl.type x) st). eexists _, _. split; [done|].
  pose proof (ids_replace _ a _ (Some (i, x')) Hx) as Hp. apply Permutation_app_inv_l in Hp.
  destruct Hwf as [Hfit Ho]. split; [constructor|].
  - intros b j y. simpl. rewrite lookup_insert_Some.
    intros [[_ [= _ <-]]|[_ Hb]]; [exact (Hfit a i x Hx)|by apply (Hfit b j)].
  - unfold alive in *. simpl. by rewrite Hp.
  - intros b. simpl. by rewrite lookup_insert; case_decide.
Qed.

Lemma destruct_spec a i x m :
  mem_wf m -> slots m !! a = Some (Some (i, x)) ->
  exists m', destruct_stack a m = Some (Done, m') /\ mem_wf m' /\ occupied m m'.
Proof.
  intros Hwf Hx. destruct (destroy_base_spec a i x m Hwf Hx) as (m1 & Hrun & [Hfit Hon] & Hs1 & Hd & _).
  unfold destruct_stack. rewrite Hrun. simpl. eexists. split; [done|]. split; [constructor|].
  - intros b j y. simpl. rewrite lookup_delete_Some. intros [_ Hb]. by apply (Hfit b j).
  - unfold alive in *. simpl. rewrite <- Hon. apply Permutation_app_tail.
    rewrite (ids_delete (slots m1) a None); [done|]. by rewrite Hs1, lookup_insert_eq.
  - intros b. simpl. by rewrite Hs1, delete_insert_eq, lookup_delete; case_decide.
Qed.

(** Destroying the object at [a] and putting another in its place: what may
    end with [a] empty is an exception. *)
Lemma assign_spec a other i x j y m (put : Z -> Z -> mem F A W -> option (outcome * mem F A W)) :
  (forall m, mem_wf m -> slots m !! other = Some (Some (j, y)) -> slots m !! a = Some None ->
     exists r m', put a other m = Some (r, m') /\ settled a other y m r m') ->
  mem_wf m -> slots m !! a = Some (Some (i, x)) -> slots m !! other = Some (Some (j, y)) -> a <> other ->
  exists r m', (m ← destroy_base a m; put a other m) = Some (r, m') /\ mem_wf m' /\ r <> Terminated /\
    forall b, slots m' !! b = Some None -> slots m !! b = Some None \/ b = a /\ r = Threw.
Proof.
  intros Hput Hwf Hx Hy Hne.
  destruct (destroy_base_spec a i x m Hwf Hx) as (m1 & -> & Hwf1 & Hs1 & _ & _). simpl.
  destruct (Hput m1 Hwf1) as (r & m' & -> & Hset);
    [by rewrite Hs1, lookup_insert_ne|by rewrite Hs1, lookup_insert_eq|].
  exists r, m'. split; [done|]. split; [apply Hset|]. split; [by destruct Hset as (_ & Hr & _); destruct r|].
  intros b Hb. destruct (decide (b = a)) as [->|Hba].
  - destruct Hset as (_ & Hr & _). destruct r; [|by right|done]. destruct Hr as (z & Hz & _). by rewrite Hz in Hb.
  - left. apply (settled_occupied _ _ _ _ _ _ Hset) in Hb. by rewrite Hs1, lookup_insert_ne in Hb.
Qed.

(** What an operation leaves: a consistent memory, and no slot emptied but by
    a copy assignment that threw (or by what ends in [std::terminate]). *)
Definition left_by (o : op F A W) m (r : outcome) m' : Prop :=
  mem_wf m' /\ forall b, slots m' !! b = Some None ->
    slots m !! b = Some None \/ r = Terminated \/ r = Threw /\ exists other, o = CopyAssign b other.

Lemma left_by_occupied o m r m' : mem_wf m' -> occupied m m' -> left_by o m r m'.
Proof. intros Hwf Ho. split; [done|]. intros b Hb. left. by apply Ho. Qed.

Lemma copy_assign_spec a other m :
  mem_wf m -> is_Some (slots m !! a) -> is_Some (slots m !! other) ->
  Forall (fun b => slots m !! b <> Some None) (uses (CopyAssign a other)) ->
  exists r m', copy_assign a other m = Some (r, m') /\ left_by (CopyAssign a other) m r m'.
Proof.
  unfold copy_assign, uses. intros Hwf Ha Ho. destruct (Z.eqb_spec a other) as [E|Hne]; cbn [negb].
  { intros _. exists Done, m. split; [done|]. by apply left_by_occupied; [|intros b]. }
  intros [Hna [Hno _]%Forall_cons]%Forall_cons.
  destruct (slot_cases a m Ha) as [|(i & x & Hx)]; [done|]. destruct (slot_cases other m Ho) as [|(j & y & Hy)]; [done|].
  destruct (assign_spec a other i x j y m clone_into) as (r & m' & Hrun & Hwf' & _ & He); try done.
  { intros m1 H1 H2 H3. destruct (clone_into_spec a other j y m1 H1 H2 Hne (or_intror H3)) as (r & m' & ? & ? & _).
    by exists r, m'. }
  exists r, m'. split; [done|]. split; [done|]. intros b Hb.
  destruct (He b Hb) as [|[-> ->]]; [by left|]. right; right. split; [done|by exists other].
Qed.

Lemma move_assign_spec a other m :
  mem_wf m -> is_Some (slots m !! a) -> is_Some (slots m !! other) ->
  Forall (fun b => slots m !! b <> Some None) (uses (MoveAssign a other)) ->
  exists r m', move_assign a other m = Some (r, m') /\ left_by (MoveAssign a other) m r m'.
Proof.
  unfold move_assign, uses. intros Hwf Ha Ho. destruct (Z.eqb_spec a other) as [E|Hne]; cbn [negb].
  { intros _. exists Done, m. split; [done|]. by apply left_by_occupied; [|intros b]. }
  intros [Hna [Hno _]%Forall_cons]%Forall_cons.
  destruct (slot_cases a m Ha) as [|(i & x & Hx)]; [done|]. destruct (slot_cases other m Ho) as [|(j & y & Hy)]; [done|].
  destruct (assign_spec a other i x j y m move_into) as (r & m' & Hrun & Hwf' & Hr & He); try done.
  { intros m1 H1 H2 H3. exact (move_into_spec a other j y m1 H1 H2 Hne (or_intror H3)). }
  destruct (destroy_base a m) as [m1|]; [|done]. simpl in *. rewrite Hrun. simpl.
  destruct r; [| |done]; (eexists _, m'; split; [done|]; split; [done|]); intros b Hb.
  - destruct (He b Hb) as [|[_ ?]]; [by left|done].
  - by right; left.
Qed.

(** An operation the language allows is defined when the objects it calls are
    there, and only then. *)
Lemma exec_spec o m :
  mem_wf m -> allowed TSIZE o m = true -> Forall (fun b => slots m !! b <> Some None) (uses o) ->
  exists r m', exec TSIZE o m = Some (r, m') /\ left_by o m r m'.
Proof.
  intros Hwf Hal Hu. destruct o as [a ty init|a other|a other|a other|a other|a|a]; simpl in Hal |- *;
    rewrite ?andb_true_iff, ?negb_true_iff, ?bool_decide_eq_true, ?bool_decide_eq_false, ?Z.leb_le in Hal.
  - destruct Hal as [Ha%eq_None_not_Some Hs]. destruct (construct_spec a ty init m Hwf Ha Hs) as (r & m' & ? & ? & ?).
    exists r, m'. split; [done|]. by apply left_by_occupied.
  - destruct Hal as [Ha%eq_None_not_Some Ho]. apply Forall_cons in Hu as [Hu _].
    destruct (slot_cases other m Ho) as [|(j & y & Hy)]; [done|].
    destruct (clone_into_spec a other j y m Hwf Hy) as (r & m' & Hrun & Hset & _); [congruence|by left|].
    exists r, m'. split; [exact Hrun|]. apply left_by_occupied; [apply Hset|by eapply settled_occupied].
  - destruct Hal as [Ha%eq_None_not_Some Ho]. apply Forall_cons in Hu as [Hu _].
    destruct (slot_cases other m Ho) as [|(j & y & Hy)]; [done|].
    destruct (move_into_spec a other j y m Hwf Hy) as (r & m' & Hrun & Hset); [congruence|by left|].
    exists r, m'. split; [exact Hrun|]. apply left_by_occupied; [apply Hset|by eapply settled_occupied].
  - destruct Hal. by apply copy_assign_spec.
  - destruct Hal. by apply move_assign_spec.
  - apply Forall_cons in Hu as [Hu _]. destruct (slot_cases a m Hal) as [|(i & x & Hx)]; [done|].
    destruct (execute_spec a i x m Hwf Hx) as (r & m' & ? & ? & ?).
    exists r, m'. split; [done|]. by apply left_by_occupied.
  - apply Forall_cons in Hu as [Hu _]. destruct (slot_cases a m Hal) as [|(i & x & Hx)]; [done|].
    destruct (destruct_spec a i x m Hwf Hx) as (m' & ? & ? & ?).
    exists Done, m'. split; [done|]. by apply left_by_occupied.
Qed.

Lemma exec_empty o m a : a ∈ uses o -> slots m !! a = Some None -> exec TSIZE o m = None.
Proof.
  intros Hin Ha. pose proof (getBase_empty a m Ha) as Hg.
  assert (Hassign : forall b other (put : Z -> Z -> mem F A W -> option (outcome * mem F A W)),
    (forall m, getBase other m = None -> put b other m = None) -> a = b \/ a = other ->
    (m ← destroy_base b m; put b other m) = None).
  { intros b other put Hput [<-|<-]; unfold destroy_base.
    - by rewrite Hg.
    - destruct (getBase b m) as [[i x]|] eqn:E; [|done]. simpl. apply Hput. unfold getBase. simpl.
      rewrite lookup_insert. case_decide; [done|]. by rewrite Ha. }
  assert (Hclone : forall b other m, getBase other m = None -> clone_into b other m = None)
    by (intros b other m1 E; unfold clone_into; by rewrite E).
  assert (Hmove : forall b other m, getBase other m = None -> move_into b other m = None)
    by (intros b other m1 E; unfold move_into; by rewrite E).
  destruct o as [b ty init|b other|b other|b other|b other|b|b]; simpl in Hin |- *.
  - by apply not_elem_of_nil in Hin.
  - apply list_elem_of_singleton in Hin as <-. by apply Hclone.
  - apply list_elem_of_singleton in Hin as <-. by apply Hmove.
  - unfold copy_assign. destruct (b =? other); [by apply not_elem_of_nil in Hin|]. cbn [negb].
    apply Hassign; [apply Hclone|set_solver].
  - unfold move_assign. destruct (b =? other); [by apply not_elem_of_nil in Hin|]. cbn [negb].
    pose proof (Hassign b other move_into (Hmove b other) ltac:(set_solver)) as E.
    destruct (destroy_base b m) as [m1|]; [|done]. simpl in *. by rewrite E.
  - apply list_elem_of_singleton in Hin as <-. unfold TaskStack.execute. by rewrite Hg.
  - apply list_elem_of_singleton in Hin as <-. unfold destruct_stack, destroy_base. by rewrite Hg.
Qed.

Lemma exec_defined o m :
  mem_wf m -> allowed TSIZE o m = true ->
  (exec TSIZE o m = None <-> exists a, a ∈ uses o /\ slots m !! a = Some None).
Proof.
  intros Hwf Hal. split; [|intros (a & Hin & Ha); by apply (exec_empty o m a)].
  intros Hn. destruct (decide (Exists (fun b => slots m !! b = Some None) (uses o))) as [He|He].
  - apply Exists_exists in He as (a & Hin & Ha). by exists a.
  - apply Forall_Exists_neg in He. destruct (exec_spec o m Hwf Hal He) as (r & m' & Hrun & _). congruence.
Qed.

Lemma exec_left o m r m' :
  mem_wf m -> allowed TSIZE o m = true -> exec TSIZE o m = Some (r, m') -> left_by o m r m'.
Proof.
  intros Hwf Hal Hrun. destruct (exec_spec o m Hwf Hal) as (r' & m1 & Hrun' & Hl); [|congruence].
  apply Forall_forall. intros a Hin Ha. rewrite (exec_empty o m a) in Hrun; done.
Qed.

Lemma stack_reach_inv w m : rtc (step TSIZE) (init_mem w) m -> mem_wf m.
Proof.
  intros Hr. remember (init_mem w) as m0 eqn:E0. assert (Hinit : mem_wf m0).
  { subst m0. constructor; [done|by vm_compute]. }
  clear E0. induction Hr as [|m1 m2 m3 [o r m4 m5 Hal Hrun Hsv] _ IH]; [done|].
  apply IH. by apply (exec_left o m4 r m5 Hinit Hal Hrun).
Qed.

(** A list of operations, each allowed. *)
Fixpoint run (l : list (op F A W)) m : option (mem F A W) :=
  match l with
  | [] => Some m
  | o :: l =>
      if allowed TSIZE o m then
        '(r, m) ← exec TSIZE o m; if decide (r = Terminated) then None else run l m
      else None
  end.

Lemma run_reach l m m' : run l m = Some m' -> rtc (step TSIZE) m m'.
Proof.
  revert m. induction l as [|o l IH]; intros m; simpl; [intros [= ->]; apply rtc_refl|].
  destruct (allowed TSIZE o m) eqn:Ha; [|done].
  destruct (exec TSIZE o m) as [[r m1]|] eqn:Hx; [|done]. simpl.
  destruct (decide (r = Terminated)) as [|Hs]; [done|]. intros Hr. eapply rtc_l; [by eapply Step|by apply IH].
Qed.

(** ** Properties *)

(** C22: type-erased tasks.  However a program constructs, copies, moves,
    assigns, executes and destroys [TaskStack]s, exceptions included: each
    object ever constructed is alive or was destroyed, once, and the living
    ones fit their storage.  An operation is undefined exactly when an object
    it calls, or destroys, is not there; and a [TaskStack] comes to hold no
    object in one way only: a copy assignment to it threw.  (Its destructor,
    which will run, is then undefined: [copy_assign_outcome].) *)
Theorem task_objects_once w m :
  rtc (step TSIZE) (init_mem w) m ->
  (forall a i x, slots m !! a = Some (Some (i, x)) -> sizeof (TaskImpl.type x) <= TSIZE) /\
  alive m ++ dead m ≡ₚ seq 0 (next m) /\
  (forall o, allowed TSIZE o m = true ->
     (exec TSIZE o m = None <-> exists a, a ∈ uses o /\ slots m !! a = Some None)) /\
  (forall o r m' a, allowed TSIZE o m = true -> exec TSIZE o m = Some (r, m') -> r <> Terminated ->
     slots m !! a <> Some None -> slots m' !! a = Some None ->
     r = Threw /\ exists other, o = CopyAssign a other).
Proof.
  intros Hr. pose proof (stack_reach_inv w m Hr) as Hwf. split; [apply Hwf|]. split; [apply Hwf|].
  split; [intros o; by apply exec_defined|]. intros o r m' a Hal Hrun Hnt Hfull He.
  destruct (exec_left o m r m' Hwf Hal Hrun) as [_ Hl]. by destruct (Hl a He) as [|[|]].
Qed.

(** C38: Copy assignment.  It destroys the old object first; if the copy then
    succeeds, the task holds a copy of the other's function and arguments, of
    the same type, and nothing else changed.  If the copy throws, the storage
    is left without an object, and the destructor that will run is undefined. *)
Theorem copy_assign_outcome a other i j x y m :
  slots m !! a = Some (Some (i, x)) -> slots m !! other = Some (Some (j, y)) -> a <> other ->
  match (copy_tuple (TaskImpl.storage y) (destroy_tuple (TaskImpl.storage x) (world m))).1 with
  | Some st => exists m', copy_assign a other m = Some (Done, m') /\
      slots m' = <[a := Some (next m, TaskImpl.mk (TaskImpl.type y) st)]> (slots m) /\
      dead m' = dead m ++ [i]
  | None => exists m', copy_assign a other m = Some (Threw, m') /\ destruct_stack a m' = None
  end.
Proof.
  intros Ha Ho Hne. unfold copy_assign. rewrite (proj2 (Z.eqb_neq _ _) Hne). cbn [negb].
  unfold destroy_base. rewrite (getBase_live a i x m Ha). cbn [mbind option_bind].
  set (m1 := mkMem _ _ _ _).
  assert (Ho1 : slots m1 !! other = Some (Some (j, y))) by (simpl; by rewrite lookup_insert_ne).
  unfold clone_into. rewrite (getBase_live other j y m1 Ho1). cbn [mbind option_bind]. unfold TaskImpl.cloneTo.
  change (world m1) with (destroy_tuple (TaskImpl.storage x) (world m)).
  destruct (copy_tuple _ _) as [[st|] w]; simpl; eexists; (split; [done|]).
  - simpl. by rewrite insert_insert_eq.
  - unfold destruct_stack, destroy_base, getBase. simpl. by rewrite lookup_insert_eq.
Qed.
End props.

(** ** Witnesses: a function is a number, and copying a negative one throws;
    the world counts the calls. *)

#[local] Instance w_user : UserTask Z Z nat := {
  sizeof ty := 8 * ty;
  call_lvalues f args w := (true, (f, map (Z.add f) args), S w);
  copy_tuple st w := (if st.1 <? 0 then None else Some st, w);
  move_tuple st w := (Some st, (0, []), w);
  destroy_tuple st w := w }.

Definition w_make (f : Z) (w : nat) : option (Z * list Z) * nat := (Some (f, [1; 2]), w).

Definition w_script : list (op Z Z nat) :=
  [Construct 10 2 (w_make 5); Construct 20 3 (w_make (-1)); MoveConstruct 30 20; CopyAssign 20 10; Execute 20].

Definition w_after (l : list (op Z Z nat)) : mem Z Z nat :=
  match run 64 l (init_mem 0%nat) with Some m => m | None => init_mem 0%nat end.

Definition w_mem : mem Z Z nat := w_after w_script.

(** The copy assignment throws: 10 is left empty, and the program goes on. *)
Definition w_threw : mem Z Z nat := w_after (w_script ++ [CopyAssign 10 30; Execute 20]).

Lemma w_threw_reach : rtc (step 64) (init_mem 0%nat) w_threw.
Proof. apply (run_reach 64 (w_script ++ [CopyAssign 10 30; Execute 20])). vm_compute. reflexivity. Qed.

Lemma task_objects_once_witness :
  rtc (step 64) (init_mem 0%nat) w_threw /\
  alive w_threw ++ dead w_threw ≡ₚ [0; 1; 2; 3]%nat /\ dead w_threw = [1; 0]%nat /\
  exec 64 (Destruct 10) w_threw = None /\ exec 64 (Destruct 20) w_threw <> None.
Proof.
  split; [exact w_threw_reach|].
  destruct (task_objects_once 64 0%nat w_threw w_threw_reach) as (_ & Hp & Hd & _).
  split; [exact Hp|]. split; [vm_compute; reflexivity|]. split.
  - apply Hd; [vm_compute; reflexivity|]. exists 10. split; [by left|vm_compute; reflexivity].
  - intros E. apply Hd in E; [|vm_compute; reflexivity].
    destruct E as (a & ->%list_elem_of_singleton & E). vm_compute in E. discriminate E.
Defined.

Lemma copy_assign_outcome_witness :
  exists m', copy_assign 10 30 w_mem = Some (Threw, m') /\ destruct_stack 10 m' = None.
Proof.
  assert (Ha : slots w_mem !! 10 = Some (Some (0%nat, TaskImpl.mk 2 (5, [1; 2])))) by (vm_compute; reflexivity).
  assert (Ho : slots w_mem !! 30 = Some (Some (2%nat, TaskImpl.mk 3 (-1, [1; 2])))) by (vm_compute; reflexivity).
  pose proof (copy_assign_outcome 10 30 0%nat 2%nat _ _ w_mem Ha Ho ltac:(lia)) as Hrun.
  exact Hrun.
Defined.
