(* ===== verification/State.v ===== *)
(** * State: the state and error monad of the server's handlers

    A handler reads and changes the state of the server and may run into
    undefined behaviour: [st S A] maps a state to [None], or to a result and
    the state after. *)

From S2P Require Import Prelude.

Definition st (S A : Type) : Type := S -> option (A * S).

#[export] Instance st_ret {S} : MRet (st S) := fun A x s => Some (x, s).
#[export] Instance st_bind {S} : MBind (st S) := fun A B f m s => '(x, s) ← m s; f x s.

Section ops.
Context {S : Type}.

(** Reading and updating the state. *)
Definition gets {A} (f : S -> A) : st S A := fun s => Some (f s, s).
Definition modify (f : S -> S) : st S unit := fun s => Some (tt, f s).

(** An operation of a component of the state. *)
Definition lift {A} (o : option A) : st S A := fun s => x ← o; Some (x, s).

Definition when (b : bool) (m : st S unit) : st S unit := if b then m else mret tt.

(** A loop over a list. *)
Fixpoint for_each {A} (f : A -> st S unit) (l : list A) : st S unit :=
  match l with
  | [] => mret tt
  | x :: l => _ ← f x; for_each f l
  end.

Lemma bind_run {A B} (m : st S A) (f : A -> st S B) s :
  (m ≫= f) s = '(x, s) ← m s; f x s.
Proof. done. Qed.

Lemma ret_run {A} (x : A) (s : S) : mret (M := st S) x s = Some (x, s).
Proof. done. Qed.

Lemma gets_run {A} (f : S -> A) s : gets f s = Some (f s, s).
Proof. done. Qed.

Lemma modify_run (f : S -> S) s : modify f s = Some (tt, f s).
Proof. done. Qed.

Lemma when_run b m (s : S) : when b m s = if b then m s else Some (tt, s).
Proof. by destruct b. Qed.

Lemma bind_some {A B} (m : st S A) (f : A -> st S B) s x s' :
  m s = Some (x, s') -> (m ≫= f) s = f x s'.
Proof. intros H. by rewrite bind_run, H. Qed.

(** A loop whose body never fails and keeps an invariant runs to its end. *)
Lemma for_each_inv {A} (I : list A -> S -> Prop) (f : A -> st S unit) l s :
  I l s ->
  (forall x l s, I (x :: l) s -> exists s', f x s = Some (tt, s') /\ I l s') ->
  exists s', for_each f l s = Some (tt, s') /\ I [] s'.
Proof.
  intros Hi Hstep. revert s Hi. induction l as [|x l IH]; intros s Hi; simpl; [by exists s|].
  destruct (Hstep x l s Hi) as (s1 & Hf & Hi1). rewrite (bind_some _ _ _ _ _ Hf). by apply IH.
Qed.

(** [m] is undefined wherever it differs from [m']. *)
Definition below {A} (m m' : st S A) : Prop := forall s, m s = None \/ m s = m' s.

Lemma below_refl {A} (m : st S A) : below m m.
Proof. intros s. by right. Qed.

Lemma below_bind {A B} (m m' : st S A) (f f' : A -> st S B) :
  below m m' -> (forall x, below (f x) (f' x)) -> below (m ≫= f) (m' ≫= f').
Proof.
  intros Hm Hf s. rewrite !bind_run. destruct (Hm s) as [->| ->]; [by left|].
  destruct (m' s) as [[x s1]|]; [apply Hf|by left].
Qed.

Lemma below_for_each {A} (f f' : A -> st S unit) l :
  (forall x, below (f x) (f' x)) -> below (for_each f l) (for_each f' l).
Proof. intros Hf. induction l as [|x l IH]; [apply below_refl|]. by apply below_bind. Qed.
End ops.

(** Along the structure of two programs that differ in some operations. *)
Ltac below_step :=
  first
    [ apply below_refl
    | apply below_bind; [|intros ?]
    | apply below_for_each; intros ?
    | match goal with |- below (match ?x with _ => _ end) _ => destruct x end ].

(** Running a block of monadic code one operation at a time. *)
Ltac st_step :=
  rewrite ?bind_run, ?ret_run, ?gets_run, ?modify_run, ?when_run; cbn [mbind option_bind].
