(* ===== verification/Tcp.v ===== *)
(** * Tcp: the TCP server, SPSockTcp of SPSock.h and SPSock.cpp

    One definition per member function, in the monad of [State] over the state
    of the process: the instance's members, the globals, the heap of
    controllers, the kernel, the buffer pool, the thread pool and the user's
    own state.

    A controller is known by its address: [connections] maps descriptors to
    addresses and [nodes] holds the controllers that exist.  Addresses are
    never reused; a controller that was erased moves to [freed], and [stale]
    says what reading it gives ([None] is undefined behaviour).  [None] as a
    result also stands for the other undefined operations: a lookup past the
    end of [loopInfo], [find] of a descriptor that is not there. *)

From S2P Require Import Prelude Types State BufferProvider Kernel Controller TaskPool Task.

(** ** Addresses, SOCKADDR_IN *)

Module SOCKADDR_IN.

Record TYPE := mk { family : ADDRESS_FAMILY; sin_port : Z; sin_addr : list byte }.

(** Network byte order on a little-endian machine. *)
Definition htons (p : Z) : Z := (p mod 256) * 256 + (p / 256) mod 256.

(** [INADDR_ANY] and [in6addr_any]. *)
Definition any (af : ADDRESS_FAMILY) : list byte :=
  replicate (match af with ADDRESS_FAMILY_INET => 4 | ADDRESS_FAMILY_INET6 => 16 end)%nat "000"%byte.

(** [INIT], for both specialisations. *)
Definition INIT {W} `{Kernel W} (af : ADDRESS_FAMILY) (ip : option string) (port : Z)
    (e : Env W) : option TYPE * Env W :=
  match ip with
  | Some ip =>
      let '(r, e) := call (Inet_pton af ip) e in
      (match r with inr a => Some (mk af (htons port) a) | inl _ => None end, e)
  | None => (Some (mk af (htons port) (any af)), e)
  end.

End SOCKADDR_IN.

(** What EventLoop asks of the thread pool, beyond submission. *)
Class PoolLifecycle (TP : Type) := {
  pool_init : Z -> Z -> Z -> TP -> option (bool * TP);
  pool_exit : bool -> TP -> option TP }.

(** The buffer pool's [reset]. *)
Class BufferReset (P : Type) := { buffer_reset : P -> option P }.

(** The user's functions, called through [SPSockProc]. *)
Class Callbacks (U : Type) := {
  cnp_call : Z -> string -> Z -> U -> option Z * U;
  csp_call : Z -> SOCKController.t -> U -> U }.

Module SPSockTcp.

(** ** State *)

Record t := mk {
  status : Z;
  listenfd : Z;
  lin : linger;
  proc : SPSockProc;
  alive : SPSockAlive;
  cList : list Z;
  loops : list (Z * Z);
  loopInfo : list IOThreadInfo;
  connections : gmap Z Z }.

(** The constructor leaves [proc] as it finds it. *)
Definition SPSockTcp (proc0 : SPSockProc) : t :=
  mk 0 (-1) (mkLinger 0 0) proc0 (mkAlive 0 0 0 0) [] [] [] ∅.

Definition set_status (v : Z) (s : t) : t :=
  mk v (listenfd s) (lin s) (proc s) (alive s) (cList s) (loops s) (loopInfo s) (connections s).
Definition set_listenfd (v : Z) (s : t) : t :=
  mk (status s) v (lin s) (proc s) (alive s) (cList s) (loops s) (loopInfo s) (connections s).
Definition set_lin (v : linger) (s : t) : t :=
  mk (status s) (listenfd s) v (proc s) (alive s) (cList s) (loops s) (loopInfo s) (connections s).
Definition set_proc (v : SPSockProc) (s : t) : t :=
  mk (status s) (listenfd s) (lin s) v (alive s) (cList s) (loops s) (loopInfo s) (connections s).
Definition set_alive (v : SPSockAlive) (s : t) : t :=
  mk (status s) (listenfd s) (lin s) (proc s) v (cList s) (loops s) (loopInfo s) (connections s).
Definition set_cList (v : list Z) (s : t) : t :=
  mk (status s) (listenfd s) (lin s) (proc s) (alive s) v (loops s) (loopInfo s) (connections s).
Definition set_loops (v : list (Z * Z)) (s : t) : t :=
  mk (status s) (listenfd s) (lin s) (proc s) (alive s) (cList s) v (loopInfo s) (connections s).
Definition set_loopInfo (v : list IOThreadInfo) (s : t) : t :=
  mk (status s) (listenfd s) (lin s) (proc s) (alive s) (cList s) (loops s) v (connections s).
Definition set_connections (v : gmap Z Z) (s : t) : t :=
  mk (status s) (listenfd s) (lin s) (proc s) (alive s) (cList s) (loops s) (loopInfo s) v.

Section state.
Context {W P TP U : Type}.

Record state := mkState {
  inst : t;
  instance : bool;
  g : Globals;
  exitFlag : bool;
  nodes : gmap Z SOCKController.t;
  freed : gmap Z SOCKController.t;
  next_node : Z;
  env : Env W;
  bufp : P;
  tpool : TP;
  user : U }.

Definition set_inst (v : t) (s : state) : state :=
  mkState v (instance s) (g s) (exitFlag s) (nodes s) (freed s) (next_node s) (env s) (bufp s) (tpool s) (user s).
Definition set_instance (v : bool) (s : state) : state :=
  mkState (inst s) v (g s) (exitFlag s) (nodes s) (freed s) (next_node s) (env s) (bufp s) (tpool s) (user s).
Definition set_g (v : Globals) (s : state) : state :=
  mkState (inst s) (instance s) v (exitFlag s) (nodes s) (freed s) (next_node s) (env s) (bufp s) (tpool s) (user s).
Definition set_exitFlag (v : bool) (s : state) : state :=
  mkState (inst s) (instance s) (g s) v (nodes s) (freed s) (next_node s) (env s) (bufp s) (tpool s) (user s).
Definition set_nodes (v : gmap Z SOCKController.t) (s : state) : state :=
  mkState (inst s) (instance s) (g s) (exitFlag s) v (freed s) (next_node s) (env s) (bufp s) (tpool s) (user s).
Definition set_freed (v : gmap Z SOCKController.t) (s : state) : state :=
  mkState (inst s) (instance s) (g s) (exitFlag s) (nodes s) v (next_node s) (env s) (bufp s) (tpool s) (user s).
Definition set_next_node (v : Z) (s : state) : state :=
  mkState (inst s) (instance s) (g s) (exitFlag s) (nodes s) (freed s) v (env s) (bufp s) (tpool s) (user s).
Definition set_env (v : Env W) (s : state) : state :=
  mkState (inst s) (instance s) (g s) (exitFlag s) (nodes s) (freed s) (next_node s) v (bufp s) (tpool s) (user s).
Definition set_bufp (v : P) (s : state) : state :=
  mkState (inst s) (instance s) (g s) (exitFlag s) (nodes s) (freed s) (next_node s) (env s) v (tpool s) (user s).
Definition set_tpool (v : TP) (s : state) : state :=
  mkState (inst s) (instance s) (g s) (exitFlag s) (nodes s) (freed s) (next_node s) (env s) (bufp s) v (user s).
Definition set_user (v : U) (s : state) : state :=
  mkState (inst s) (instance s) (g s) (exitFlag s) (nodes s) (freed s) (next_node s) (env s) (bufp s) (tpool s) v.
End state.

Arguments state : clear implicits.

Section tcp.
Context {W P TP U : Type} `{Kernel W} `{BufferProvider P} `{TaskPool SockTaskTcp TP}.
Context `{PoolLifecycle TP} `{BufferReset P} `{Callbacks U}.

(** [af]: the template argument; [ifuel]: how often a call interrupted by
    signals is tried again; [uninit]: what new buffer memory holds; [stale]:
    what reading a destroyed controller gives. *)
Context (af : ADDRESS_FAMILY) (ifuel : nat) (uninit : BUFFER_TYPE -> list byte).
Context (stale : SOCKController.t -> option SOCKController.t).

Abbreviation state := (state W P TP U).
Abbreviation M := (st state).

Definition field {A} (f : t -> A) : M A := gets (fun s => f (inst s)).
Definition update (f : t -> t) : M unit := modify (fun s => set_inst (f (inst s)) s).

(** A system call. *)
Definition sys {A} (c : syscall A) : M (errno + A) :=
  fun s => let '(r, e) := call c (env s) in Some (r, set_env e s).
Definition sys_ {A} (c : syscall A) : M unit := _ ← sys c; mret tt.

(** [*controller]. *)
Definition deref (a : Z) : M SOCKController.t := fun s =>
  c ← match nodes s !! a with Some c => Some c | None => freed s !! a ≫= stale end;
  Some (c, s).
Definition put (a : Z) (c : SOCKController.t) : M unit := fun s =>
  _ ← nodes s !! a; Some (tt, set_nodes (<[a := c]> (nodes s)) s).

(** [connections.find(fd)->second]. *)
Definition find (fd : Z) : M Z := fun s => a ← connections (inst s) !! fd; Some (a, s).

(** [steady_clock::now()], in nanoseconds. *)
Definition clock : M Z := r ← sys Steady_clock_ns; mret (match r with inr n => n | inl _ => 0 end).

Definition O_NONBLOCK : Z := 0x800.

(** A member function of the controller at [a] that does input or output. *)
Definition on_io {A} (a : Z)
    (f : SOCKController.t -> Env W -> option (A * SOCKController.t * Env W)) : M A :=
  c ← deref a;
  e ← gets env;
  '(x, c, e) ← lift (f c e);
  _ ← put a c;
  _ ← modify (set_env e);
  mret x.

(** [controller->info]: an element of [loopInfo]. *)
Definition loop_of (c : SOCKController.t) : M IOThreadInfo :=
  infos ← field loopInfo;
  i ← lift (SOCKController.info c);
  lift (infos !! Z.to_nat i).
Definition add_count (d : Z) (c : SOCKController.t) : M unit :=
  infos ← field loopInfo;
  i ← lift (SOCKController.info c);
  info ← lift (infos !! Z.to_nat i);
  update (set_loopInfo (<[Z.to_nat i :=
    mkIOThreadInfo (i32 (count info + d)) (epollfd info) (exitfd info)]> infos)).

(** ** Configuration *)

Definition EnableLinger (enable : bool) (waitSeconds : Z) : M bool :=
  l ← field lin;
  if negb enable then _ ← update (set_lin (mkLinger 0 (l_linger l))); mret true
  else if waitSeconds <=? 0 then mret false
  else _ ← update (set_lin (mkLinger 1 waitSeconds)); mret true.

Definition EnableKeepAlive (enable : bool) (aliveSeconds' detectTimes' detectInterval' : Z) : M bool :=
  a ← field alive;
  if negb enable then
    _ ← update (set_alive (mkAlive 0 (aliveSeconds a) (detectTimes a) (detectInterval a))); mret true
  else if (aliveSeconds' <=? 0) || (detectTimes' <=? 0) || (detectInterval' <=? 0) then mret false
  else _ ← update (set_alive (mkAlive 1 aliveSeconds' detectTimes' detectInterval')); mret true.

Definition SetCallback (cnp' csp' rdp' wtp' : option Z) : M bool :=
  match cnp', csp', rdp', wtp' with
  | None, None, None, None => mret false
  | _, _, _, _ =>
      _ ← update (set_proc (mkProc rdp' wtp' cnp' csp'));
      x ← field status;
      _ ← update (set_status (Z.lor x 0x2));
      mret true
  end.

Definition SetWaterMark (readMark' writeMark' : Z) : M unit :=
  modify (fun s => set_g (mkGlobals (tcpConfig (g s)) (udpConfig (g s))
                            (mkWaterMark readMark' writeMark') (minLevel (g s)) (hooks (g s))) s).

Definition SetSignalExit (sg : Z) : M bool :=
  x ← field status;
  if Z.land x 0x4 =? 0x4 then mret false else
  r ← sys (Sigaction sg);
  match r with
  | inl _ => mret false
  | inr _ => _ ← update (set_status (Z.lor x 0x4)); mret true
  end.

(** [SetExitFlag], and [HandleExit], the signal handler, which logs too. *)
Definition SetExitFlag : M unit := modify (set_exitFlag false).
Definition HandleExit (sg : Z) : M unit :=
  x ← gets exitFlag; if (x : bool) then modify (set_exitFlag false) else mret tt.

(** The load of [exitFlag] in the loops: other threads and signal handlers
    may have stored [false] since the last one, which the environment tells. *)
Definition load_exitFlag : M bool :=
  r ← sys Exit_flag;
  _ ← match r with inr false => SetExitFlag | _ => mret tt end;
  gets exitFlag.

(** ** Listen *)

(** [close(listenfd); listenfd = -1; return false;]. *)
Definition listen_failed : M bool :=
  l ← field listenfd;
  _ ← sys_ (Close l);
  _ ← update (set_listenfd (-1));
  mret false.

(** [bind] and [listen]. *)
Definition bind_listen (fd : Z) (addr : SOCKADDR_IN.TYPE) : M bool :=
  r ← sys (Bind fd (SOCKADDR_IN.sin_addr addr) (SOCKADDR_IN.sin_port addr));
  match r with
  | inl _ => listen_failed
  | inr _ =>
      r ← sys (Listen_on fd);
      match r with
      | inl _ => listen_failed
      | inr _ =>
          x ← field status;
          _ ← update (set_status (Z.lor x 0x1));
          mret true
      end
  end.

Definition Listen (port : Z) (ip : option string) : M bool :=
  x ← field status;
  if Z.land x 0x1 =? 0x1 then mret false else
  e ← gets env;
  let '(addr, e) := SOCKADDR_IN.INIT af ip port e in
  _ ← modify (set_env e);
  match addr with
  | None => mret false
  | Some addr =>
      r ← sys (Socket_create af true);
      match r with
      | inl _ => _ ← update (set_listenfd (-1)); mret false
      | inr fd =>
          _ ← update (set_listenfd fd);
          r ← sys (Setsockopt fd (SO_REUSEADDR 1));
          r ← match r with inl e => mret (inl e) | inr _ => sys (Setsockopt fd (SO_REUSEPORT 1)) end;
          match r with inl _ => listen_failed | inr _ => bind_listen fd addr end
      end
  end.

(** ** Closing *)

(** [ActiveClose]: stop watching the connection and leave it to the main
    loop. *)
Definition ActiveClose (a : Z) : M unit :=
  c ← deref a;
  info ← loop_of c;
  _ ← sys_ (Epoll_ctl (epollfd info) EPOLL_CTL_DEL (SOCKController.fd c) 0);
  l ← field cList;
  update (set_cList (l ++ [a])).

(** [connections.erase(fd)] destroys the controller. *)
Definition erase (fd : Z) : M unit := fun s =>
  match connections (inst s) !! fd with
  | None => Some (tt, s)
  | Some a =>
      c ← nodes s !! a;
      p ← SOCKController.destroy c (bufp s);
      Some (tt, set_bufp p (set_freed (<[a := c]> (freed s)) (set_nodes (delete a (nodes s))
                 (set_inst (set_connections (delete fd (connections (inst s))) (inst s)) s))))
  end.

(** [if (proc.csp) proc.csp(controller);]. *)
Definition call_csp (a : Z) : M unit :=
  p ← field proc;
  match csp p with
  | None => mret tt
  | Some f => c ← deref a; modify (fun s => set_user (csp_call f c (user s)) s)
  end.

Definition CloseConnection (a : Z) : M unit :=
  _ ← call_csp a;
  c ← deref a;
  _ ← sys_ (Close (SOCKController.fd c));
  erase (SOCKController.fd c).

(** [CloseConnection(controller); controller->info->count--;]. *)
Definition close_one (a : Z) : M unit :=
  _ ← CloseConnection a;
  c ← deref a;
  add_count (-1) c.

(** With more than ten connections the list is taken over and the lock
    released first. *)
Definition HandleCloseList : M unit :=
  l ← field cList;
  if 10 <? Z.of_nat (length l) then
    _ ← update (set_cList []);
    for_each close_one l
  else
    _ ← for_each close_one l;
    update (set_cList []).

(** ** Events of a connection *)

Definition EnableEvent (c : SOCKController.t) (rd wr : bool) : M bool :=
  let events := Z.lor (Z.lor EPOLLERR EPOLLRDHUP) (Z.lor EPOLLHUP EPOLLONESHOT) in
  let events := if rd then Z.lor events EPOLLIN else events in
  let events := if wr then Z.lor events EPOLLOUT else events in
  info ← loop_of c;
  r ← sys (Epoll_ctl (epollfd info) EPOLL_CTL_MOD (SOCKController.fd c) events);
  mret (match r with inl _ => false | inr _ => true end).

(** [funcEvent] and [funcClose] on a state that may be undefined already. *)
Definition funcEvent (c : SOCKController.t) (rd wr : bool) (o : option state) : bool * option state :=
  match o ≫= EnableEvent c rd wr with Some (b, s) => (b, Some s) | None => (false, None) end.
Definition funcClose (a : Z) (c : SOCKController.t) (o : option state) : option state :=
  snd <$> (o ≫= ActiveClose a).

(** A member function of the controller at [a] that changes its events. *)
Definition on_events {A} (a : Z)
    (f : SOCKController.t -> option state -> A * SOCKController.t * option state) : M A := fun s =>
  '(c, s) ← deref a s;
  let '(x, c, o) := f c (Some s) in
  s ← o;
  '(_, s) ← put a c s;
  Some (x, s).

Definition enableEvents (a : Z) (rd wr : bool) : M bool :=
  on_events a (SOCKController.enableEvents funcEvent rd wr).
Definition renableEvents (a : Z) : M bool := on_events a (SOCKController.renableEvents funcEvent).

(** [renableProc], as the submission utilities call it. *)
Definition REnableFunc (a : Z) : M unit :=
  on_events a (fun c o =>
    let '(c, o) := SOCKController.REnableFunc funcEvent (funcClose a) c o in (tt, c, o)).
Definition renableProc (a : Z) (o : option state) : option state := snd <$> (o ≫= REnableFunc a).

(** [utilTask->append(controller, proc)], [utilTask.reset()]. *)
Definition submit (a f : Z) (u : UtilTaskTcp.t) : M UtilTaskTcp.t := fun s =>
  '(u, p, o) ← UtilTaskTcp.append renableProc (tcpConfig (g s)) a f u (tpool s) (Some s);
  s ← o; Some (u, set_tpool p s).
Definition flush (u : UtilTaskTcp.t) : M UtilTaskTcp.t := fun s =>
  '(u, p, o) ← UtilTaskTcp.reset renableProc (tcpConfig (g s)) u (tpool s) (Some s);
  s ← o; Some (u, set_tpool p s).

Definition HandleRead (a : Z) (u : UtilTaskTcp.t) : M (bool * UtilTaskTcp.t) :=
  p ← field proc;
  match rdp p with
  | Some f =>
      ok ← on_io a (SOCKController.readSocket ifuel);
      if negb (ok : bool) then mret (false, u) else
      c ← deref a;
      if SOCKController.isPeerClosed c && (SOCKController.getReadBufferSize c =? 0)
      then mret (false, u) else
      mark ← gets (fun s => readMark (markGlobal (g s)));
      if mark =? 0 then u ← submit a f u; mret (true, u)
      else if mark <=? SOCKController.getReadBufferSize c then u ← submit a f u; mret (true, u)
      else ok ← renableEvents a; mret ((ok : bool), u)
  | None =>
      match wtp p with
      | Some _ => ok ← enableEvents a false true; mret (negb ok, u)
      | None => mret (false, u)
      end
  end.

Definition HandleWrite (a : Z) (u : UtilTaskTcp.t) : M (bool * UtilTaskTcp.t) :=
  p ← field proc;
  match wtp p with
  | Some f =>
      c ← deref a;
      if SOCKController.isPeerClosed c && (SOCKController.getReadBufferSize c =? 0)
      then mret (false, u) else
      mark ← gets (fun s => writeMark (markGlobal (g s)));
      if mark =? 0xffffffff then u ← submit a f u; mret (true, u) else
      r ← on_io a (SOCKController.commitWrite ifuel);
      if r =? -1 then mret (false, u) else
      c ← deref a;
      if SOCKController.getWriteBufferSize c <=? mark then u ← submit a f u; mret (true, u)
      else ok ← renableEvents a; mret ((ok : bool), u)
  | None =>
      match rdp p with
      | Some _ => ok ← enableEvents a true false; mret (negb ok, u)
      | None => mret (false, u)
      end
  end.

(** ** Accepting connections *)

Definition SetLinger (fd : Z) : M unit := l ← field lin; sys_ (Setsockopt fd (SO_LINGER l)).
Definition SetKeepAlive (fd : Z) : M unit :=
  a ← field alive;
  _ ← sys_ (Setsockopt fd (SO_KEEPALIVE (keepAlive a)));
  _ ← sys_ (Setsockopt fd (TCP_KEEPIDLE (aliveSeconds a)));
  _ ← sys_ (Setsockopt fd (TCP_KEEPCNT (detectTimes a)));
  sys_ (Setsockopt fd (TCP_KEEPINTVL (detectInterval a))).

(** The descriptor a failed call leaves in its variable is -1. *)
Definition fd_or {A} (r : errno + Z * A) : Z := match r with inr (fd, _) => fd | inl _ => -1 end.

(** The choice of the loop with the fewest connections, from index [i] on. *)
Fixpoint least_loaded (i : nat) (infos : list IOThreadInfo) (best : nat) (bestCount : Z) : nat :=
  match infos with
  | [] => best
  | x :: infos =>
      if count x <? bestCount then least_loaded (S i) infos i (count x)
      else least_loaded (S i) infos best bestCount
  end.

(** [connections.emplace(fd, SOCKController{})]: the address of the node. *)
Definition emplace (fd : Z) : M (option Z) := fun s =>
  match connections (inst s) !! fd with
  | Some _ => Some (None, s)
  | None =>
      let a := next_node s in
      Some (Some a, set_next_node (a + 1) (set_nodes (<[a := SOCKController.SOCKController]> (nodes s))
        (set_inst (set_connections (<[fd := a]> (connections (inst s))) (inst s)) s)))
  end.

(** [controller.init(fd, ctx, info)]. *)
Definition init_node (a fd : Z) (ctx : option Z) (info : nat) : M bool :=
  c ← deref a;
  s ← gets id;
  '(ok, c, p) ← lift (SOCKController.init (tcpConfig (g s)) fd ctx (Z.of_nat info)
                        (uninit BUFFER_TYPE_READ) (uninit BUFFER_TYPE_WRITE) c (bufp s));
  _ ← put a c;
  _ ← modify (set_bufp p);
  mret ok.

Definition connect_events (cfg : SPTcpConfig) : Z :=
  Z.lor (Z.lor (Z.lor EPOLLERR EPOLLHUP) (Z.lor EPOLLRDHUP EPOLLONESHOT)) (EPOLL_DEFAULT_EVENT cfg).

(** [if (proc.cnp) ctx = proc.cnp(controller.ip, controller.port);]. *)
Definition call_cnp (ip : string) (port : Z) : M (option Z) := fun s =>
  match cnp (proc (inst s)) with
  | None => Some (None, s)
  | Some f => let '(x, u) := cnp_call f ip port (user s) in Some (x, set_user u s)
  end.

(** The address, the user's context, the IO thread and the buffers of the new
    connection [fd]. *)
Definition prepare (a fd : Z) (ip : string) (port : Z) : M bool :=
  c ← deref a;
  _ ← put a (SOCKController.set_addr ip port c);
  ctx ← call_cnp ip port;
  infos ← field loopInfo;
  first ← lift (infos !! 0%nat);
  init_node a fd ctx (least_loaded 1 (tail infos) 0 (count first)).

(** Its registration with the IO thread. *)
Definition watch (a fd : Z) : M bool :=
  c ← deref a;
  loop ← loop_of c;
  cfg ← gets (fun s => tcpConfig (g s));
  r ← sys (Epoll_ctl (epollfd loop) EPOLL_CTL_ADD fd (connect_events cfg));
  match r with
  | inl _ => _ ← CloseConnection a; mret true
  | inr _ => _ ← add_count 1 c; mret true
  end.

Definition register (a fd : Z) (ip : string) (port : Z) : M bool :=
  ok ← prepare a fd ip port;
  if negb (ok : bool) then _ ← CloseConnection a; mret true else watch a fd.

(** From [fcntl] on. *)
Definition enrol (fd : Z) (ip : string) (port : Z) : M bool :=
  r ← sys (Fcntl_getfl fd);
  match r with
  | inl _ => _ ← sys_ (Close fd); mret true
  | inr flags =>
      r ← sys (Fcntl_setfl fd (Z.lor flags O_NONBLOCK));
      match r with
      | inl _ => _ ← sys_ (Close fd); mret true
      | inr _ =>
          node ← emplace fd;
          match node with
          | None => _ ← sys_ (Close fd); mret true
          | Some a => register a fd ip port
          end
      end
  end.

(** When the process is out of descriptors the reserve one is given up, the
    connection accepted and closed. *)
Definition HandleConnect (idlefd : Z) : M bool :=
  l ← field listenfd;
  r ← sys (Accept l);
  match r with
  | inl err =>
      _ ← when (bool_decide (err = EMFILE))
            (_ ← sys_ (Close idlefd);
             r ← sys (Accept l);
             _ ← sys_ (Close (fd_or r));
             sys_ Open_devnull);
      mret false
  | inr (fd, (ip, port)) =>
      al ← field alive;
      _ ← when (negb (keepAlive al =? 0)) (SetKeepAlive fd);
      ln ← field lin;
      _ ← when (negb (l_onoff ln =? 0)) (SetLinger fd);
      enrol fd ip port
  end.

(** ** Event loops *)

(** [hardware_threads * weight + 0.5], converted to [int]: a product of
    [float]s, a sum of [double]s.  [None]: out of the range of [int]. *)
Definition scaled_threads (hardware : Z) (weight : spec_float) : option Z :=
  let x := SFmul 24 128 (binary_normalize 24 128 hardware 0 false) weight in
  let widened := match x with
                 | S754_finite s m e => binary_normalize 53 1024 (cond_Zopp s (Zpos m)) e s
                 | x => x end in
  let half := S754_finite false (2 ^ 52) (-53) in
  match SFadd 53 1024 widened half with
  | S754_zero _ => Some 0
  | S754_finite s m e =>
      let v := cond_Zopp s (if 0 <=? e then Zpos m * 2 ^ e else Zpos m / 2 ^ (- e)) in
      if (- 2 ^ 31 <=? v) && (v <? 2 ^ 31) then Some v else None
  | _ => None
  end.

(** The result is [(ioThreads, workerThreads)]. *)
Definition split_threads (hardware : Z) (weight : spec_float) : option (Z * Z) :=
  if hardware <=? 2 then Some (1, 1) else
  worker ← scaled_threads hardware weight;
  let io := i32 (u32 (hardware - worker)) in
  if worker =? 0 then Some (io - 1, worker + 1)
  else if io =? 0 then Some (io + 1, worker - 1)
  else Some (io, worker).

Definition CalculateOptimalThreadCounts : M (option (Z * Z)) :=
  r ← sys Hardware_concurrency;
  let hardware := match r with inr n => n | inl _ => 0 end in
  if hardware =? 0 then mret None else
  cfg ← gets (fun s => tcpConfig (g s));
  n ← lift (split_threads hardware (WORKER_THREAD_RATIO cfg));
  mret (Some n).

(** One turn of the first loop of CreateIOEventLoop: [false] is [break]. *)
Definition create_loop : M bool :=
  r ← sys Epoll_create1;
  match r with
  | inl _ => mret false
  | inr epollfd' =>
      r ← sys Eventfd;
      match r with
      | inl _ => _ ← sys_ (Close epollfd'); mret false
      | inr exitfd' =>
          r ← sys (Epoll_ctl epollfd' EPOLL_CTL_ADD exitfd'
                     (Z.lor EPOLLIN (Z.lor EPOLLERR EPOLLHUP)));
          match r with
          | inl _ => _ ← sys_ (Close epollfd'); _ ← sys_ (Close exitfd'); mret false
          | inr _ =>
              infos ← field loopInfo;
              _ ← update (set_loopInfo (infos ++ [mkIOThreadInfo 0 epollfd' exitfd']));
              mret true
          end
      end
  end.

Fixpoint create_loops (num : nat) : M unit :=
  match num with
  | O => mret tt
  | S num => ok ← create_loop; if (ok : bool) then create_loops num else mret tt
  end.

Definition close_loop (i : IOThreadInfo) : M unit :=
  _ ← sys_ (Close (epollfd i)); sys_ (Close (exitfd i)).

Definition CreateIOEventLoop (num : Z) : M bool :=
  _ ← create_loops (Z.to_nat num);
  infos ← field loopInfo;
  if negb (Z.of_nat (length infos) =? num) then
    _ ← for_each close_loop infos; mret false
  else
    ls ← field loops;
    _ ← update (set_loops (ls ++ ((fun i => (epollfd i, exitfd i)) <$> infos)));
    mret true.

(** The threads end when their [exitfd] becomes readable: [join] returns. *)
Definition ExitIOEventLoop : M unit :=
  ls ← field loops;
  infos ← field loopInfo;
  used ← lift (if (length ls <=? length infos)%nat then Some (take (length ls) infos) else None);
  _ ← for_each (fun i => sys_ (Eventfd_write (exitfd i) 1)) used;
  for_each close_loop used.

(** One turn of the main loop: the time of the last visit to the close list,
    or the value returned. *)
Definition main_round (idlefd last : Z) : M (Z + bool) :=
  go ← load_exitFlag;
  if negb (go : bool) then _ ← sys_ (Close idlefd); mret (inr true) else
  now ← clock;
  let elapsed := Z.quot (now - last) 1000000 in
  let timeout := i32 (50 - elapsed) in
  l ← field listenfd;
  r ← sys (Poll_in l (if timeout <? 0 then 0 else timeout));
  match r with
  | inl EINTR => mret (inl last)
  | inl _ => _ ← sys_ (Close idlefd); mret (inr false)
  | inr ready =>
      now ← clock;
      let due := 50 <=? Z.quot (now - last) 1000000 in
      _ ← when due HandleCloseList;
      let last := if due then now else last in
      ok ← (if 0 <? ready then HandleConnect idlefd else mret true);
      if (ok : bool) then mret (inl last) else _ ← sys_ (Close idlefd); mret (inr false)
  end.

(** [fuel] turns; [None] when the loop is still running.  [others] is what
    the IO threads, the workers and signal handlers do between two turns. *)
Fixpoint main_loop (fuel : nat) (others : M unit) (idlefd last : Z) : M (option bool) :=
  match fuel with
  | O => mret None
  | S fuel =>
      r ← main_round idlefd last;
      match r with
      | inl last => _ ← others; main_loop fuel others idlefd last
      | inr b => mret (Some b)
      end
  end.

Definition MainEventLoop (fuel : nat) (others : M unit) : M (option bool) :=
  r ← sys Open_devnull;
  match r with
  | inl _ => mret (Some false)
  | inr idlefd => last ← clock; main_loop fuel others idlefd last
  end.

(** One event of an IO thread; [None]: the thread returns. *)
Definition io_event (exitfd' : Z) (ev : Z * Z) (u : UtilTaskTcp.t) : M (option UtilTaskTcp.t) :=
  let '(fd, events) := ev in
  if fd =? exitfd' then mret None else
  if has_event events (Z.lor EPOLLHUP EPOLLERR) then
    a ← find fd; _ ← ActiveClose a; mret (Some u)
  else if has_event events (Z.lor EPOLLIN EPOLLRDHUP) then
    a ← find fd;
    _ ← when (has_event events EPOLLRDHUP)
          (c ← deref a; put a (SOCKController.set_peerClosed true c));
    '(ok, u) ← HandleRead a u;
    _ ← when (negb ok) (ActiveClose a);
    mret (Some u)
  else if has_event events EPOLLOUT then
    a ← find fd;
    '(ok, u) ← HandleWrite a u;
    _ ← when (negb ok) (ActiveClose a);
    mret (Some u)
  else mret (Some u).

Fixpoint io_events (exitfd' : Z) (evs : list (Z * Z)) (u : UtilTaskTcp.t) : M (option UtilTaskTcp.t) :=
  match evs with
  | [] => u ← flush u; mret (Some u)
  | ev :: evs =>
      r ← io_event exitfd' ev u;
      match r with None => mret None | Some u => io_events exitfd' evs u end
  end.

(** How an IO thread ends: by its exit event, or by an exception. *)
Inductive io_end := Exited | Thrown.

Definition io_round (epollfd' exitfd' : Z) (u : UtilTaskTcp.t) : M (UtilTaskTcp.t + io_end) :=
  cfg ← gets (fun s => tcpConfig (g s));
  r ← sys (Epoll_wait epollfd' (EPOLL_MAX_EVENT_BSIZE cfg));
  match r with
  | inl EINTR => mret (inl u)
  | inl _ => mret (inr Thrown)
  | inr evs =>
      r ← io_events exitfd' evs u;
      mret (match r with None => inr Exited | Some u => inl u end)
  end.

Fixpoint io_loop (fuel : nat) (others : M unit) (epollfd' exitfd' : Z) (u : UtilTaskTcp.t) :
    M (option io_end) :=
  match fuel with
  | O => mret None
  | S fuel =>
      r ← io_round epollfd' exitfd' u;
      match r with
      | inl u => _ ← others; io_loop fuel others epollfd' exitfd' u
      | inr e => mret (Some e)
      end
  end.

(** [ts], [events]: the arrays [new (std::nothrow)] gave. *)
Definition IOEventLoop (fuel : nat) (others : M unit) (ts : option (list SockTaskTcp)) (events : bool)
    (epollfd' exitfd' : Z) : M (option io_end) :=
  cfg ← gets (fun s => tcpConfig (g s));
  let '(ok, u) := UtilTaskTcp.init cfg ts UtilTaskTcp.UtilTaskTcp in
  if negb ok || negb events then mret (Some Thrown) else io_loop fuel others epollfd' exitfd' u.

(** The end of EventLoop, after the main loop; [None]: that is still running. *)
Definition leave_loop (others : M unit) (r : option bool) : M (option bool) :=
  match r with
  | None => mret None
  | Some _ =>
      p ← gets tpool; p ← lift (pool_exit true p); _ ← modify (set_tpool p);
      _ ← others;
      _ ← ExitIOEventLoop;
      x ← field status;
      _ ← update (set_status (Z.lor x 0x8));
      mret (Some true)
  end.

(** The pool and the IO threads; [false] when EventLoop returns [false]. *)
Definition start_threads (pool0 : TP) (ioThreads workerThreads : Z) : M bool :=
  cfg ← gets (fun s => tcpConfig (g s));
  '(ok, p) ← lift (pool_init (THREADPOOL_QUEUE_LENGTH cfg) (u32 workerThreads)
                     (THREADPOOL_BATCH_SIZE_PROCESS cfg) pool0);
  _ ← modify (set_tpool p);
  if negb (ok : bool) then mret false else
  ok ← CreateIOEventLoop ioThreads;
  if negb (ok : bool) then
    p ← gets tpool; p ← lift (pool_exit false p); _ ← modify (set_tpool p); mret false
  else mret true.

Definition EventLoop (fuel : nat) (others : M unit) (pool0 : TP) : M (option bool) :=
  x ← field status;
  if Z.land x 0x8 =? 0x8 then mret (Some false) else
  if negb (Z.land x 0x1 =? 0x1) then mret (Some false) else
  if negb (Z.land x 0x2 =? 0x2) then mret (Some false) else
  n ← CalculateOptimalThreadCounts;
  match n with
  | None => mret (Some false)
  | Some (ioThreads, workerThreads) =>
      ok ← start_threads pool0 ioThreads workerThreads;
      if negb (ok : bool) then mret (Some false) else
      r ← MainEventLoop fuel others;
      leave_loop others r
  end.

(** ** Life of the instance *)

(** [GetInstance]; [alloc]: whether [new (std::nothrow)] gave memory. *)
Definition GetInstance (alloc : bool) (proc0 : SPSockProc) : M bool :=
  here ← gets instance;
  if (here : bool) then mret true else
  if alloc then
    _ ← modify (fun s => set_instance true (set_inst (SPSockTcp proc0) s)); mret true
  else mret false.

(** The controllers of the map, destroyed in some order. *)
Definition clear_connections : M unit :=
  l ← gets (fun s => (map_to_list (connections (inst s))).*1);
  for_each erase l.

Definition Cleanup : M unit :=
  l ← gets (fun s => map_to_list (connections (inst s)));
  _ ← for_each (fun x => _ ← call_csp x.2; sys_ (Close x.1)) l;
  clear_connections.

(** The destructor: its body, then the members. *)
Definition destroy_instance : M unit :=
  l ← field listenfd;
  _ ← when (negb (l =? -1)) (sys_ (Close l));
  clear_connections.

Definition Release : M unit :=
  here ← gets instance;
  if (here : bool) then
    _ ← destroy_instance;
    _ ← modify (set_instance false);
    p ← gets bufp;
    p ← lift (buffer_reset p);
    modify (set_bufp p)
  else mret tt.
End tcp.

End SPSockTcp.
