(* ===== verification/TcpSpec.v ===== *)
(** * TcpSpec: what the server keeps true, and its acceptance and closing

    [conn_inv]: the map of connections and the controllers that exist
    correspond one to one, the buffers out of the pool are those the
    controllers hold, and the count of each IO thread is the number of its
    connections. *)

From S2P Require Import Prelude Types State BufferProvider Buffer BufferSpec Kernel Controller.
From S2P Require Import ControllerSpec TaskPool Task Tcp.
Import SPSockTcp.

(** Connections of the IO thread [i]. *)
Definition load (i : Z) (m : gmap Z SOCKController.t) : Z :=
  Z.of_nat (size (filter (fun x => SOCKController.info x.2 = Some i) m)).

(** The buffers all controllers hold. *)
Definition held_all (m : gmap Z SOCKController.t) : list (BUFFER_TYPE * buf_addr) :=
  map_to_list m ≫= fun x => held x.2.

Lemma load_insert i m a c :
  m !! a = None ->
  load i (<[a := c]> m) = load i m + if decide (SOCKController.info c = Some i) then 1 else 0.
Proof.
  intros Ha. unfold load. case_decide as E.
  - rewrite map_filter_insert_True by done. rewrite map_size_insert_None; [lia|].
    apply map_lookup_filter_None. by left.
  - rewrite map_filter_insert_False by done. rewrite delete_id by done. lia.
Qed.

Lemma load_delete i m a c :
  m !! a = Some c ->
  load i (delete a m) = load i m - if decide (SOCKController.info c = Some i) then 1 else 0.
Proof.
  intros Ha. rewrite <- (insert_delete_id m a c Ha) at 2.
  rewrite load_insert by apply lookup_delete_eq. lia.
Qed.

Lemma load_nonneg i m : 0 <= load i m.
Proof. unfold load. lia. Qed.

Lemma load_le_size i m : load i m <= Z.of_nat (size m).
Proof.
  unfold load. pose proof (map_filter_subseteq (fun x => SOCKController.info x.2 = Some i) m) as Hs.
  apply subseteq_dom, subseteq_size in Hs. rewrite !size_dom in Hs. lia.
Qed.

Lemma held_all_insert m a c :
  m !! a = None -> held_all (<[a := c]> m) ≡ₚ held c ++ held_all m.
Proof. intros Ha. unfold held_all. by rewrite map_to_list_insert by done. Qed.

Lemma held_all_delete m a c :
  m !! a = Some c -> held_all m ≡ₚ held c ++ held_all (delete a m).
Proof.
  intros Ha. rewrite <- (insert_delete_id m a c Ha) at 1.
  by rewrite held_all_insert by apply lookup_delete_eq.
Qed.

(** ** The choice of an IO thread *)

Lemma least_loaded_spec infos pre best b :
  pre !! best = Some b -> Forall (fun x => count b <= count x) pre ->
  exists k x, least_loaded (length pre) infos best (count b) = k /\
    (pre ++ infos) !! k = Some x /\ Forall (fun y => count x <= count y) (pre ++ infos).
Proof.
  revert pre best b. induction infos as [|y infos IH]; intros pre best b Hb Hmin; simpl.
  { exists best, b. by rewrite app_nil_r. }
  assert (Hl : S (length pre) = length (pre ++ [y])) by (rewrite length_app; simpl; lia).
  rewrite Hl. replace (pre ++ y :: infos) with ((pre ++ [y]) ++ infos) by (by rewrite <- app_assoc).
  destruct (Z.ltb_spec (count y) (count b)).
  - apply IH.
    + by rewrite lookup_app_r, Nat.sub_diag by lia.
    + apply Forall_app. split; [|by repeat constructor].
      eapply Forall_impl; [exact Hmin|]. simpl. intros. lia.
  - apply IH.
    + by apply lookup_app_l_Some.
    + apply Forall_app. split; [done|]. by repeat constructor.
Qed.

Section spec.
Context {W P TP U : Type} {cap : BUFFER_TYPE -> Z}.
Context `{HW : Kernel W} `{HP : BufferProviderLaws P cap} `{HT : TaskPool SockTaskTcp TP}.
Context `{HB : BufferReset P} `{HC : Callbacks U}.
Context (uninit : BUFFER_TYPE -> list byte) (stale : SOCKController.t -> option SOCKController.t).
Context (cfg : SPTcpConfig).

Implicit Types s : state W P TP U.

(** [d i]: by how much the count of thread [i] is off, for the states inside
    an operation. *)
Record conn_inv (d : Z -> Z) s : Prop := {
  ci_cfg : tcpConfig (g s) = cfg;
  ci_conn f a : connections (inst s) !! f = Some a ->
    exists c, nodes s !! a = Some c /\ SOCKController.fd c = f;
  ci_node a c : nodes s !! a = Some c ->
    connections (inst s) !! SOCKController.fd c = Some a /\ typed c /\ ctl_wf c /\
    exists i, SOCKController.info c = Some (Z.of_nat i) /\ (i < length (loopInfo (inst s)))%nat;
  ci_next a : is_Some (nodes s !! a) -> a < next_node s;
  ci_lent : lent (bufp s) (held_all (nodes s));
  ci_count i info : loopInfo (inst s) !! i = Some info ->
    count info = load (Z.of_nat i) (nodes s) + d (Z.of_nat i);
  ci_size : Z.of_nat (size (nodes s)) < 2 ^ 31 - 1 }.

(** Two states that differ in the kernel and the user's state only. *)
Definition same_conns s s' : Prop := s' = set_user (user s') (set_env (env s') s).

#[local] Instance same_conns_preorder : PreOrder same_conns.
Proof.
  split.
  - by intros [].
  - intros s1 s2 s3. unfold same_conns. intros -> ->. done.
Qed.

Lemma same_conns_inv d s s' : same_conns s s' -> conn_inv d s -> conn_inv d s'.
Proof. intros -> []. by constructor. Qed.

(** ** Running monadic code *)

Lemma sys_run {A} (c : syscall A) s :
  sys c s = Some ((call c (env s)).1, set_env (call c (env s)).2 s).
Proof. unfold sys. by destruct (call c (env s)). Qed.

Lemma field_run {A} (f : t -> A) s : field f s = Some (f (inst s), s).
Proof. done. Qed.

Lemma sys__run {A} (c : syscall A) s : sys_ c s = Some (tt, set_env (call c (env s)).2 s).
Proof. unfold sys_. by rewrite (bind_some _ _ _ _ _ (sys_run c s)). Qed.

Definition closes {A} (c : syscall A) : list Z := match c with Close fd => [fd] | _ => [] end.

Lemma closed_closes {A} (c : syscall A) (e : Env W) :
  closed (call c e).2 = closed e ++ closes c.
Proof. rewrite closed_call. by destruct c. Qed.

(** Between [e] and [e'] the calls closed [l] and did nothing else to what is
    watched. *)
Definition shuts (e e' : Env W) (l : list Z) : Prop :=
  closed e' = closed e ++ l /\ effect e e' [] l.

Lemma shuts_refl e : shuts e e [].
Proof. split; [by rewrite app_nil_r|apply effect_refl]. Qed.

Lemma shuts_trans e1 e2 e3 l1 l2 : shuts e1 e2 l1 -> shuts e2 e3 l2 -> shuts e1 e3 (l1 ++ l2).
Proof.
  intros [C1 E1] [C2 E2]. split; [by rewrite C2, C1, app_assoc|].
  exact (effect_trans _ _ _ _ _ _ _ E1 E2).
Qed.

(** Calls that do not concern [epoll]. *)
Definition calm {A} (c : syscall A) : bool :=
  match c with Epoll_ctl _ _ _ _ | Epoll_wait _ _ | Eventfd_write _ _ => false | _ => true end.

Lemma shuts_call {A} (c : syscall A) e : calm c = true -> shuts e (call c e).2 (closes c).
Proof.
  intros Hc. split; [apply closed_closes|].
  assert (Hs : signalled_ev (Ev c (call c e).1) = []) by (by destruct c).
  pose proof (effect_call c e Hs) as He. by destruct c.
Qed.

(** [m] makes system calls only and closes [fds]. *)
Definition calls {A} (fds : list Z) (m : st (state W P TP U) A) : Prop :=
  forall s, exists x e, m s = Some (x, set_env e s) /\ shuts (env s) e fds.

Lemma calls_sys {A} (c : syscall A) : calm c = true -> calls (closes c) (sys c).
Proof. intros Hc s. rewrite sys_run. eexists _, _. split; [done|]. by apply shuts_call. Qed.

Lemma calls_sys_ {A} (c : syscall A) : calm c = true -> calls (closes c) (sys_ c).
Proof. intros Hc s. rewrite sys__run. eexists _, _. split; [done|]. by apply shuts_call. Qed.

Lemma calls_ret {A} (x : A) : calls [] (mret x).
Proof. intros s. exists x, (env s). split; [by destruct s|apply shuts_refl]. Qed.

Lemma calls_bind {A B} l1 l2 (m : st _ A) (f : A -> st _ B) :
  calls l1 m -> (forall x, calls l2 (f x)) -> calls (l1 ++ l2) (m ≫= f).
Proof.
  intros Hm Hf s. destruct (Hm s) as (x & e & Hrun & He).
  destruct (Hf x (set_env e s)) as (y & e' & Hrun' & He').
  exists y, e'. rewrite (bind_some _ _ _ _ _ Hrun), Hrun'. split; [done|].
  by apply shuts_trans with e.
Qed.

Lemma calls_field {A B} l (h : t -> A) (f : A -> st _ B) :
  (forall x, calls l (f x)) -> calls l (field h ≫= f).
Proof. intros Hf s. apply (Hf _ s). Qed.

Lemma calls_when b m : calls [] m -> calls [] (when b m).
Proof. intros Hm. destruct b; [done|]. apply calls_ret. Qed.

Lemma calls_SetLinger fd : calls [] (SetLinger fd).
Proof. apply calls_field. intros x. by apply (calls_sys_ (Setsockopt fd _)). Qed.

Lemma calls_SetKeepAlive fd : calls [] (SetKeepAlive fd).
Proof.
  apply calls_field. intros x.
  do 3 (apply (calls_bind [] []); [by apply (calls_sys_ (Setsockopt fd _))|intros _]).
  by apply (calls_sys_ (Setsockopt fd _)).
Qed.

Lemma calls_run {A B} l (m : st _ A) (f : A -> st _ B) s :
  calls l m -> exists x e, (m ≫= f) s = f x (set_env e s) /\ shuts (env s) e l.
Proof.
  intros Hm. destruct (Hm s) as (x & e & Hrun & He). exists x, e.
  by rewrite (bind_some _ _ _ _ _ Hrun).
Qed.

Lemma deref_live a c s : nodes s !! a = Some c -> deref stale a s = Some (c, s).
Proof. intros Ha. unfold deref. by rewrite Ha. Qed.

Lemma put_live a c c' s :
  nodes s !! a = Some c -> put a c' s = Some (tt, set_nodes (<[a := c']> (nodes s)) s).
Proof. intros Ha. unfold put. by rewrite Ha. Qed.

(** ** Closing a connection *)

Lemma conn_inv_ext d d' s : (forall i, d i = d' i) -> conn_inv d s -> conn_inv d' s.
Proof.
  intros Hd []. constructor; try done. intros i info Hi. rewrite <- Hd. by apply ci_count0.
Qed.

(** [s] without the controller [c], at [a]. *)
Definition erased a c p s : state W P TP U :=
  set_bufp p (set_freed (<[a := c]> (freed s)) (set_nodes (delete a (nodes s))
    (set_inst (set_connections (delete (SOCKController.fd c) (connections (inst s))) (inst s)) s))).

(** [s] with the controller [c] for [fd] at the next address. *)
Definition extended fd c p u e s : state W P TP U :=
  set_bufp p (set_user u (set_env e (set_next_node (next_node s + 1)
    (set_nodes (<[next_node s := c]> (nodes s))
      (set_inst (set_connections (<[fd := next_node s]> (connections (inst s))) (inst s)) s))))).

Definition bump (d : Z -> Z) (i n : Z) : Z -> Z := fun j => d j + if decide (j = i) then n else 0.

Lemma erase_spec d s a c i :
  conn_inv d s -> nodes s !! a = Some c -> SOCKController.info c = Some i ->
  exists p, erase (SOCKController.fd c) s = Some (tt, erased a c p s) /\
    conn_inv (bump d i 1) (erased a c p s) /\ forall n, can_lend n (bufp s) -> can_lend n p.
Proof.
  intros Hs Ha Hi. pose proof Hs as [Hcfg Hcn Hnd Hnx Hl Hct Hsz].
  destruct (Hnd a c Ha) as (Hf & Hty & Hwf & _).
  rewrite (held_all_delete _ _ _ Ha) in Hl.
  destruct (controller_destroy_spec c (bufp s) _ Hty Hl) as (p & Hd & Hl' & Hcan).
  exists p. split; [unfold erase; rewrite Hf, Ha; simpl; by rewrite Hd|]. split; [|done].
  constructor; simpl; [done| | | |done| |].
  - intros f b. rewrite lookup_delete_Some. intros [Hne Hb].
    destruct (Hcn f b Hb) as (c' & Hc' & Hfd). exists c'. split; [|done].
    rewrite lookup_delete_ne; [done|]. intros ->. rewrite Ha in Hc'. by simplify_eq.
  - intros b c'. rewrite lookup_delete_Some. intros [Hne Hb].
    destruct (Hnd b c' Hb) as (Hf' & ? & ? & ?). split_and!; try done.
    rewrite lookup_delete_ne; [done|]. intros E. rewrite <- E, Hf in Hf'. by simplify_eq.
  - intros b Hb. apply Hnx. destruct Hb as [x [_ Hx]%lookup_delete_Some]. by exists x.
  - intros j info Hj. rewrite (Hct j info Hj), (load_delete _ _ _ _ Ha), Hi. unfold bump.
    repeat case_decide; simplify_eq; lia.
  - rewrite map_size_delete_Some by (by exists c). lia.
Qed.

(** What [csp] does to the user's state. *)
Definition user_closed s (c : SOCKController.t) : U :=
  match csp (proc (inst s)) with None => user s | Some f => csp_call f c (user s) end.

Lemma call_csp_run s a c :
  nodes s !! a = Some c -> call_csp stale a s = Some (tt, set_user (user_closed s c) s).
Proof.
  intros Ha. unfold call_csp, user_closed. rewrite (bind_some _ _ _ _ _ (field_run _ s)).
  destruct (csp (proc (inst s))); [|by destruct s].
  by rewrite (bind_some _ _ _ _ _ (deref_live a c s Ha)).
Qed.

Lemma CloseConnection_spec d s a c i :
  conn_inv d s -> nodes s !! a = Some c -> SOCKController.info c = Some i ->
  exists e p, let s' := erased a c p (set_env e (set_user (user_closed s c) s)) in
    CloseConnection stale a s = Some (tt, s') /\
    shuts (env s) e [SOCKController.fd c] /\ conn_inv (bump d i 1) s' /\
    forall n, can_lend n (bufp s) -> can_lend n p.
Proof.
  intros Hs Ha Hi. unfold CloseConnection.
  set (s1 := set_user (user_closed s c) s).
  rewrite (bind_some _ _ _ _ _ (call_csp_run s a c Ha)). fold s1.
  rewrite (bind_some _ _ _ _ _ (deref_live a c s1 Ha)).
  rewrite (bind_some _ _ _ _ _ (sys__run (Close (SOCKController.fd c)) s1)).
  set (e := (call (Close (SOCKController.fd c)) (env s1)).2).
  destruct (erase_spec d (set_env e s1) a c i) as (p & Hrun & Hinv & Hcan); [|done|done|].
  { apply (same_conns_inv d s); [done|done]. }
  exists e, p. split; [exact Hrun|]. split; [|by split; [exact Hinv|]].
  by apply (shuts_call (Close (SOCKController.fd c)) (env s1)).
Qed.

Lemma add_count_spec d s n c i info :
  conn_inv d s -> SOCKController.info c = Some (Z.of_nat i) -> loopInfo (inst s) !! i = Some info ->
  (- 2 ^ 31 <= count info + n < 2 ^ 31) ->
  let s' := set_inst (set_loopInfo (<[i := mkIOThreadInfo (count info + n) (epollfd info) (exitfd info)]>
              (loopInfo (inst s))) (inst s)) s in
  add_count n c s = Some (tt, s') /\ conn_inv (bump d (Z.of_nat i) n) s'.
Proof.
  intros Hs Hi Hinfo Hr. split.
  - unfold add_count. rewrite (bind_some _ _ _ _ _ (field_run _ s)), Hi.
    rewrite (bind_some _ _ s _ _ (eq_refl : lift (Some _) s = Some (_, s))), Nat2Z.id, Hinfo.
    rewrite (bind_some _ _ s _ _ (eq_refl : lift (Some _) s = Some (_, s))).
    by rewrite i32_small by lia.
  - destruct Hs as [Hcfg Hcn Hnd Hnx Hl Hct Hsz]. constructor; simpl; try done.
    + intros a c' Ha. rewrite length_insert. by apply Hnd.
    + intros j info' Hj. unfold bump. destruct (decide (j = i)) as [->|Hne].
      * rewrite list_lookup_insert_eq in Hj by (by apply lookup_lt_Some in Hinfo).
        injection Hj as <-. simpl. rewrite (Hct i info Hinfo), decide_True by done. lia.
      * rewrite list_lookup_insert_ne in Hj by done.
        rewrite decide_False by lia. rewrite (Hct j info' Hj). lia.
Qed.

Lemma lift_run {A} (x : A) s : lift (Some x) s = Some (x, s).
Proof. done. Qed.

Definition exact : Z -> Z := fun _ => 0.

Lemma bump_back i n : forall j, bump (bump exact i n) i (- n) j = exact j.
Proof. intros j. unfold bump, exact. case_decide; lia. Qed.

Lemma count_range s i info n :
  conn_inv (bump exact i n) s -> - 2 <= n <= 1 -> loopInfo (inst s) !! Z.to_nat i = Some info -> 0 <= i ->
  - 2 <= count info < 2 ^ 31.
Proof.
  intros Hs Hn Hi H0. pose proof (ci_size _ _ Hs).
  rewrite (ci_count _ _ Hs _ _ Hi), Z2Nat.id by lia. unfold bump, exact. rewrite decide_True by done.
  pose proof (load_nonneg i (nodes s)). pose proof (load_le_size i (nodes s)). lia.
Qed.

(** The controllers that exist or existed, the callbacks: what no operation of
    the server takes away. *)
Definition known s (a : Z) : Prop := is_Some (nodes s !! a) \/ is_Some (freed s !! a).
Record steady s s' : Prop := {
  sd_proc : proc (inst s') = proc (inst s);
  sd_known a : known s a -> known s' a }.

Lemma steady_refl s : steady s s.
Proof. by split. Qed.

Lemma steady_trans s1 s2 s3 : steady s1 s2 -> steady s2 s3 -> steady s1 s3.
Proof. intros [P1 K1] [P2 K2]. split; [congruence|auto]. Qed.

(** [erase] keeps what it destroys among the destroyed. *)
Lemma steady_erased a c p s : steady s (erased a c p s).
Proof.
  split; [done|]. unfold known. simpl. intros b. destruct (decide (a = b)) as [<-|Hne].
  - rewrite lookup_insert_eq. by right; eexists.
  - by rewrite lookup_delete_ne, lookup_insert_ne.
Qed.

Lemma steady_extended fd c p u e s : nodes s !! next_node s = None -> steady s (extended fd c p u e s).
Proof.
  split; [done|]. intros b [Hb|Hb]; [left|by right]. simpl. apply lookup_insert_is_Some'. by right.
Qed.

(** One connection of the close list. *)
Record one_closed s s' a c : Prop := {
  oc_inv : conn_inv exact s';
  oc_nodes : nodes s' = delete a (nodes s);
  oc_closed : shuts (env s) (env s') [SOCKController.fd c];
  oc_user : user s' = user_closed s c;
  oc_steady : steady s s';
  oc_list : cList (inst s') = cList (inst s);
  oc_loops : length (loopInfo (inst s')) = length (loopInfo (inst s));
  oc_lend n : can_lend n (bufp s) -> can_lend n (bufp s') }.

Lemma close_one_spec s a c :
  conn_inv exact s -> nodes s !! a = Some c ->
  (stale c = None -> close_one stale a s = None) /\
  (stale c = Some c -> exists s', close_one stale a s = Some (tt, s') /\ one_closed s s' a c).
Proof.
  intros Hs Ha. destruct (ci_node _ _ Hs a c Ha) as (_ & _ & _ & i & Hi & Hil).
  destruct (CloseConnection_spec exact s a c (Z.of_nat i) Hs Ha Hi) as (e & p & Hrun & He & Hinv & Hcan).
  set (s1 := erased a c p (set_env e (set_user (user_closed s c) s))) in *.
  unfold close_one. rewrite (bind_some _ _ _ _ _ Hrun).
  assert (Hd : deref stale a s1 = x ← stale c; Some (x, s1)).
  { unfold deref. simpl. rewrite lookup_delete_eq, lookup_insert_eq. done. }
  split; intros Hst; rewrite Hst in Hd; simpl in Hd.
  { rewrite bind_run, Hd. done. }
  rewrite (bind_some _ _ _ _ _ Hd).
  destruct (lookup_lt_is_Some_2 (loopInfo (inst s1)) i Hil) as [info Hinfo].
  pose proof (count_range s1 (Z.of_nat i) info 1 Hinv ltac:(lia) ltac:(by rewrite Nat2Z.id) ltac:(lia)).
  destruct (add_count_spec _ s1 (-1) c i info Hinv Hi Hinfo ltac:(lia)) as [Hadd Hinv2].
  eexists. split; [exact Hadd|]. constructor; simpl; try done; [| |apply length_insert].
  - exact (conn_inv_ext _ _ _ (bump_back _ 1) Hinv2).
  - destruct (steady_erased a c p (set_env e (set_user (user_closed s c) s))) as [_ Hk].
    split; [done|]. intros b Hb. by apply (Hk b).
Qed.

(** All of them, in order. *)
Definition user_closed_all s (l : list Z) : U :=
  foldl (fun u a => match csp (proc (inst s)), nodes s !! a with
                    | Some f, Some c => csp_call f c u | _, _ => u end) (user s) l.

Definition fds_at s (l : list Z) : list Z :=
  omap (fun a => SOCKController.fd <$> nodes s !! a) l.

Lemma fds_at_ext s s' l :
  (forall b, b ∈ l -> nodes s' !! b = nodes s !! b) -> fds_at s' l = fds_at s l.
Proof.
  unfold fds_at. induction l as [|b l IH]; intros Hs; cbn [omap list_omap]; [done|].
  rewrite Hs by left. rewrite IH; [done|]. intros b' Hb'. apply Hs. by right.
Qed.

Record all_closed s s' (l : list Z) : Prop := {
  ac_inv : conn_inv exact s';
  ac_nodes : forall a, nodes s' !! a = if decide (a ∈ l) then None else nodes s !! a;
  ac_closed : shuts (env s) (env s') (fds_at s l);
  ac_user : user s' = user_closed_all s l;
  ac_steady : steady s s';
  ac_list : cList (inst s') = cList (inst s);
  ac_loops : length (loopInfo (inst s')) = length (loopInfo (inst s));
  ac_lend n : can_lend n (bufp s) -> can_lend n (bufp s') }.

Lemma close_all_spec l s :
  (forall c, stale c = Some c) -> conn_inv exact s -> NoDup l ->
  Forall (fun a => is_Some (nodes s !! a)) l ->
  exists s', for_each (close_one stale) l s = Some (tt, s') /\ all_closed s s' l.
Proof.
  intros Hst. revert s. induction l as [|a l IH]; intros s Hs Hnd Hl.
  { exists s. split; [done|]. constructor; try done. apply shuts_refl. }
  apply NoDup_cons in Hnd as [Hna Hnd]. apply Forall_cons in Hl as [[c Ha] Hl].
  destruct (close_one_spec s a c Hs Ha) as [_ Hone].
  destruct (Hone (Hst c)) as (s1 & Hrun & [Hi1 Hn1 Hc1 Hu1 Hp1 Hl1 Hlo1 Hca1]).
  simpl. rewrite (bind_some _ _ _ _ _ Hrun).
  assert (Hsame : forall b, b ∈ l -> nodes s1 !! b = nodes s !! b).
  { intros b Hb. rewrite Hn1, lookup_delete_ne; [done|]. by intros ->. }
  destruct (IH s1 Hi1 Hnd) as (s2 & Hrun2 & [Hi2 Hn2 Hc2 Hu2 Hp2 Hl2 Hlo2 Hca2]).
  { apply Forall_forall. intros b Hb. rewrite (Hsame b Hb). by eapply Forall_forall in Hl. }
  exists s2. split; [done|].
  constructor; [done| | | |by apply steady_trans with s1|congruence|congruence|by auto].
  - intros b. rewrite Hn2, Hn1. destruct (decide (b = a)) as [->|Hne].
    + rewrite (decide_True (P := a ∈ a :: l)) by left. rewrite lookup_delete_eq. by case_decide.
    + rewrite lookup_delete_ne by done. by repeat case_decide; set_unfold; naive_solver.
  - rewrite (fds_at_ext s s1) in Hc2 by done. pose proof (shuts_trans _ _ _ _ _ Hc1 Hc2) as Hc.
    unfold fds_at at 1. cbn [omap list_omap]. by rewrite Ha.
  - rewrite Hu2. unfold user_closed_all. simpl. rewrite Ha, (sd_proc _ _ Hp1), Hu1. unfold user_closed.
    generalize (match csp (proc (inst s)) with Some f => csp_call f c (user s) | None => user s end).
    clear -Hsame. induction l as [|b l IHl]; intros u; [done|]. simpl.
    rewrite Hsame by left. apply IHl. intros b' Hb'. apply Hsame. by right.
Qed.

Lemma set_cList_inv d l s :
  conn_inv d s -> conn_inv d (set_inst (set_cList l (inst s)) s).
Proof. intros []. by constructor. Qed.

Lemma HandleCloseList_spec s :
  (forall c, stale c = Some c) -> conn_inv exact s -> NoDup (cList (inst s)) ->
  Forall (fun a => is_Some (nodes s !! a)) (cList (inst s)) ->
  exists s', HandleCloseList stale s = Some (tt, s') /\ cList (inst s') = [] /\
    conn_inv exact s' /\
    (forall a, nodes s' !! a = if decide (a ∈ cList (inst s)) then None else nodes s !! a) /\
    shuts (env s) (env s') (fds_at s (cList (inst s))) /\
    user s' = user_closed_all s (cList (inst s)) /\
    length (loopInfo (inst s')) = length (loopInfo (inst s)) /\
    (forall n, can_lend n (bufp s) -> can_lend n (bufp s')) /\ steady s s'.
Proof.
  intros Hst Hs Hnd Hl. unfold HandleCloseList.
  rewrite (bind_some _ _ _ _ _ (field_run _ s)). destruct (10 <? _).
  - set (s1 := set_inst (set_cList [] (inst s)) s).
    rewrite (bind_some _ _ s tt s1 (eq_refl : update (set_cList []) s = Some (tt, s1))).
    destruct (close_all_spec (cList (inst s)) s1 Hst (set_cList_inv _ _ _ Hs) Hnd Hl)
      as (s2 & Hrun & [? ? ? ? Hsd E ? ?]). exists s2. split_and!; try done.
    apply (steady_trans _ s1); [by split|exact Hsd].
  - destruct (close_all_spec (cList (inst s)) s Hst Hs Hnd Hl) as (s2 & Hrun & [? ? ? ? Hsd E ? ?]).
    rewrite (bind_some _ _ _ _ _ Hrun). eexists. split; [done|].
    split_and!; try done; [by apply set_cList_inv|].
    apply (steady_trans _ s2); [exact Hsd|by split].
Qed.

(** Reading a destroyed controller is undefined or gives its old contents;
    [resilient]: the latter. *)
Definition faithful : Prop := forall c, stale c = None \/ stale c = Some c.
Definition resilient : Prop := forall c, stale c = Some c.

Lemma below_deref st st' a :
  (forall c, st c = None \/ st c = st' c) -> below (deref (W := W) (P := P) (TP := TP) (U := U) st a) (deref st' a).
Proof.
  intros Hf s. unfold deref. destruct (nodes s !! a) as [c|]; [by right|].
  destruct (freed s !! a) as [c|]; [|by left]. simpl. destruct (Hf c) as [->| ->]; [by left|by right].
Qed.

Lemma below_close_list st st' :
  (forall c, st c = None \/ st c = st' c) ->
  below (HandleCloseList (W := W) (P := P) (TP := TP) (U := U) st) (HandleCloseList st').
Proof.
  intros Hf. unfold HandleCloseList, close_one, CloseConnection, call_csp.
  repeat first [by apply below_deref | below_step].
Qed.

(** With a connection to close it is undefined, or does what it does when the
    memory of destroyed controllers is still there. *)
Lemma close_list_cases s :
  faithful -> HandleCloseList stale s = None /\ cList (inst s) <> [] /\ ~ resilient \/
    HandleCloseList stale s = HandleCloseList Some s.
Proof.
  intros Hf. destruct (cList (inst s)) as [|a l] eqn:E.
  - right. unfold HandleCloseList. by rewrite !(bind_some _ _ _ _ _ (field_run _ s)), E.
  - destruct (below_close_list stale Some Hf s) as [Hn|Hn]; [|by right].
    destruct (HandleCloseList Some s) as [r|] eqn:Er; [|by right]. left. split_and!; [done|done|].
    intros Hst. destruct (below_close_list Some stale (fun c => or_intror (eq_sym (Hst c))) s); congruence.
Qed.

(** ** Accepting a connection *)

Context (Hcap : forall ty, cap ty = match ty with
                  | BUFFER_TYPE_READ => READ_BSIZE cfg | BUFFER_TYPE_WRITE => WRITE_BSIZE cfg end).
Context (Hbounds : tcp_config_bounds cfg) (Hint : tcp_config_int cfg).
Context (Huninit : forall ty, Z.of_nat (length (uninit ty)) = cap ty).

Lemma emplace_run fd e s :
  connections (inst s) !! fd = None ->
  emplace fd (set_env e s)
    = Some (Some (next_node s), extended fd SOCKController.SOCKController (bufp s) (user s) e s).
Proof. intros Hf. unfold emplace. simpl. by rewrite Hf. Qed.

Lemma extended_put fd c c' p u e s :
  put (next_node s) c' (extended fd c p u e s) = Some (tt, extended fd c' p u e s).
Proof.
  erewrite put_live by apply lookup_insert_eq. unfold extended. simpl.
  by rewrite insert_insert_eq.
Qed.

Lemma call_cnp_run ip port s :
  exists ctx u, call_cnp ip port s = Some (ctx, set_user u s).
Proof.
  unfold call_cnp. destruct (cnp (proc (inst s))) as [f|].
  - destruct (cnp_call f ip port (user s)) as [x u]. by exists x, u.
  - exists None, (user s). by destruct s.
Qed.

(** The controller of a new connection. *)
Record fresh_ctl (c : SOCKController.t) (fd : Z) (ip : string) (port : Z) (i : nat) : Prop := {
  fc_typed : typed c;
  fc_wf : ctl_wf c;
  fc_read : contents (SOCKController.readBuf c) = [];
  fc_write : contents (SOCKController.writeBuf c) = [];
  fc_fd : SOCKController.fd c = fd;
  fc_events : SOCKController.events c = EPOLL_DEFAULT_EVENT cfg;
  fc_closed : SOCKController.peerClosed c = false;
  fc_info : SOCKController.info c = Some (Z.of_nat i);
  fc_ip : SOCKController.ip c = ip;
  fc_port : SOCKController.port c = port }.

(** The thread chosen: one with the fewest connections. *)
Definition chosen (infos : list IOThreadInfo) (i : nat) : Prop :=
  exists info, infos !! i = Some info /\ Forall (fun x => count info <= count x) infos.

Lemma choose infos first :
  infos !! 0%nat = Some first -> chosen infos (least_loaded 1 (tail infos) 0 (count first)).
Proof.
  destruct infos as [|x infos]; [done|]. intros [= ->]. simpl.
  destruct (least_loaded_spec infos [first] 0 first eq_refl ltac:(by repeat constructor))
    as (k & y & Hk & Hy & Hall). simpl in Hk. rewrite Hk. by exists y.
Qed.

Lemma prepare_spec fd ip port e s :
  conn_inv exact s -> connections (inst s) !! fd = None -> loopInfo (inst s) <> [] ->
  can_lend 2 (bufp s) ->
  exists ok c p u i, let s' := extended fd c p u e s in
    prepare uninit stale (next_node s) fd ip port
      (extended fd SOCKController.SOCKController (bufp s) (user s) e s) = Some (ok, s') /\
    chosen (loopInfo (inst s)) i /\ lent p (held c ++ held_all (nodes s)) /\
    if (ok : bool) then fresh_ctl c fd ip port i
    else SOCKController.fd c = 0 /\ SOCKController.info c = None /\
      exists ty p1 p2, get_buffer ty p1 = Some (None, p2).
Proof.
  intros Hs Hf Hne Hcan. set (a := next_node s). set (c0 := SOCKController.SOCKController).
  unfold prepare.
  erewrite bind_some by (apply deref_live; apply lookup_insert_eq).
  rewrite (bind_some _ _ _ _ _ (extended_put fd c0 _ (bufp s) (user s) e s)).
  set (s1 := extended fd (SOCKController.set_addr ip port c0) (bufp s) (user s) e s).
  destruct (call_cnp_run ip port s1) as (ctx & u & Hcnp). rewrite (bind_some _ _ _ _ _ Hcnp).
  rewrite (bind_some _ _ _ _ _ (field_run _ _)).
  change (loopInfo (inst (set_user u s1))) with (loopInfo (inst s)).
  destruct (loopInfo (inst s)) as [|first infos] eqn:Hinfos; [done|].
  change ((first :: infos) !! 0%nat) with (Some first). rewrite (bind_some _ _ _ _ _ (lift_run _ _)).
  change (set_user u s1) with (extended fd (SOCKController.set_addr ip port c0) (bufp s) u e s).
  set (i := least_loaded _ _ _ _). unfold init_node.
  erewrite bind_some by (apply deref_live; apply lookup_insert_eq).
  rewrite (bind_some _ _ _ _ _ (gets_run _ _)). unfold id. simpl tcpConfig. simpl bufp.
  rewrite (ci_cfg _ _ Hs).
  destruct (controller_init_spec cfg Hcap Hbounds Hint ip port fd ctx (Z.of_nat i)
              (uninit BUFFER_TYPE_READ) (uninit BUFFER_TYPE_WRITE) (bufp s) _ (ci_lent _ _ Hs) Hcan)
    as (ok & c & p & Hini & Hty & Hl & Hres); [by rewrite Huninit, Hcap..|].
  unfold c0. rewrite Hini, (bind_some _ _ _ _ _ (lift_run _ _)).
  rewrite (bind_some _ _ _ _ _ (extended_put fd _ c (bufp s) u e s)).
  rewrite (bind_some _ _ _ _ _ (modify_run _ _)).
  exists ok, c, p, u, i. split; [done|]. split; [by apply choose|]. split; [done|].
  destruct ok; [|tauto]. destruct Hres as (? & ? & ? & ? & ? & ? & ? & ? & ?). by constructor.
Qed.

Lemma next_fresh d s : conn_inv d s -> nodes s !! next_node s = None.
Proof.
  intros Hs. destruct (nodes s !! next_node s) eqn:E; [|done].
  assert (next_node s < next_node s) by (apply (ci_next _ _ Hs); by rewrite E). lia.
Qed.

Lemma extended_inv fd ip port i c p u e s :
  conn_inv exact s -> connections (inst s) !! fd = None -> chosen (loopInfo (inst s)) i ->
  fresh_ctl c fd ip port i -> lent p (held c ++ held_all (nodes s)) ->
  Z.of_nat (size (nodes s)) < 2 ^ 31 - 2 ->
  conn_inv (bump exact (Z.of_nat i) (-1)) (extended fd c p u e s).
Proof.
  intros Hs Hf (info & Hinfo & _) [Hty Hwf _ _ Hfd _ _ Hci _ _] Hl Hsz.
  pose proof (next_fresh _ _ Hs) as Hn. destruct Hs as [Hcfg Hcn Hnd Hnx _ Hct _].
  apply lookup_lt_Some in Hinfo. constructor; simpl; [done| | | | | |].
  - intros f a. rewrite lookup_insert_Some. intros [[<- <-]|[Hne Ha]].
    + exists c. by rewrite lookup_insert_eq.
    + destruct (Hcn f a Ha) as (c' & Hc' & ?). exists c'. split; [|done].
      rewrite lookup_insert_ne; [done|]. intros <-. by rewrite Hn in Hc'.
  - intros a c'. rewrite lookup_insert_Some. intros [[<- <-]|[Hne Ha]].
    + rewrite Hfd, lookup_insert_eq. split_and!; [done|done|done|by exists i].
    + destruct (Hnd a c' Ha) as (Hc' & ? & ? & ?). split_and!; try done.
      rewrite lookup_insert_ne; [done|]. intros E. rewrite <- E in Hc'. by rewrite Hf in Hc'.
  - intros a. rewrite lookup_insert_is_Some. intros [<-|[_ Ha]]; [lia|]. specialize (Hnx a Ha). lia.
  - by rewrite held_all_insert.
  - intros j info' Hj. rewrite load_insert, (Hct j info' Hj), Hci by done. unfold bump, exact.
    repeat case_decide; simplify_eq; lia.
  - rewrite map_size_insert_None by done. lia.
Qed.

(** The ways an accepted connection ends up. *)
Inductive connect_outcome s (fd : Z) (ip : string) (port : Z) (s' : state W P TP U) : Prop :=
  | Dropped :
      nodes s' = nodes s -> connections (inst s') = connections (inst s) ->
      loopInfo (inst s') = loopInfo (inst s) -> conn_inv exact s' -> cList (inst s') = cList (inst s) ->
      shuts (env s) (env s') [fd] -> steady s s' -> connect_outcome s fd ip port s'
  | Added c i info :
      chosen (loopInfo (inst s)) i -> loopInfo (inst s) !! i = Some info ->
      fresh_ctl c fd ip port i -> conn_inv exact s' -> cList (inst s') = cList (inst s) ->
      connections (inst s) !! fd = None ->
      connections (inst s') = <[fd := next_node s]> (connections (inst s)) ->
      nodes s' = <[next_node s := c]> (nodes s) ->
      loopInfo (inst s') = <[i := mkIOThreadInfo (count info + 1) (epollfd info) (exitfd info)]>
                             (loopInfo (inst s)) ->
      closed (env s') = closed (env s) -> effect (env s) (env s') [fd] [] -> steady s s' ->
      connect_outcome s fd ip port s'
  | Starved c ty p1 p2 :
      get_buffer ty p1 = Some (None, p2) ->
      connections (inst s') = <[fd := next_node s]> (connections (inst s)) ->
      nodes s' = <[next_node s := c]> (nodes s) -> SOCKController.info c = None ->
      shuts (env s) (env s') [0] -> connect_outcome s fd ip port s'.

Lemma bump_forth i : forall j, bump (bump exact i (-1)) i 1 j = exact j.
Proof. intros j. unfold bump, exact. case_decide; lia. Qed.

Lemma connect_oneshot c : has_event (connect_events c) EPOLLONESHOT = true.
Proof.
  unfold has_event, connect_events. apply negb_true_iff, Z.eqb_neq. intros E.
  apply (f_equal (fun z => Z.testbit z 30)) in E. by rewrite Z.land_spec, !Z.lor_spec in E.
Qed.

Lemma watch_spec fd ip port i c p u e s :
  conn_inv exact s -> connections (inst s) !! fd = None -> chosen (loopInfo (inst s)) i ->
  fresh_ctl c fd ip port i -> lent p (held c ++ held_all (nodes s)) ->
  Z.of_nat (size (nodes s)) < 2 ^ 31 - 2 -> shuts (env s) e [] ->
  exists s', watch stale (next_node s) fd (extended fd c p u e s) = Some (true, s') /\
    connect_outcome s fd ip port s'.
Proof.
  intros Hs Hf Hch Hc Hl Hsz He. set (a := next_node s).
  pose proof (extended_inv fd ip port i c p u e s Hs Hf Hch Hc Hl Hsz) as Hinv.
  set (s1 := extended fd c p u e s) in *.
  assert (Ha : nodes s1 !! a = Some c) by apply lookup_insert_eq.
  destruct Hch as (info & Hinfo & Hmin). unfold watch.
  rewrite (bind_some _ _ _ _ _ (deref_live a c s1 Ha)).
  assert (Hloop : loop_of c s1 = Some (info, s1)).
  { unfold loop_of. rewrite (bind_some _ _ _ _ _ (field_run _ s1)), (fc_info _ _ _ _ _ Hc).
    rewrite (bind_some _ _ _ _ _ (lift_run _ _)), Nat2Z.id. simpl loopInfo. by rewrite Hinfo. }
  rewrite (bind_some _ _ _ _ _ Hloop), (bind_some _ _ _ _ _ (gets_run _ s1)).
  set (ctl := Epoll_ctl _ _ _ _). rewrite (bind_some _ _ _ _ _ (sys_run ctl s1)).
  change (env s1) with e.
  assert (Hw : effect e (call ctl e).2 (match (call ctl e).1 with inr _ => [fd] | inl _ => [] end) []).
  { pose proof (effect_call ctl e eq_refl) as Hw. unfold ctl in Hw |- *. simpl in Hw.
    rewrite connect_oneshot in Hw. exact Hw. }
  pose proof (closed_closes ctl e) as He1.
  change (closes ctl) with (@nil Z) in He1. rewrite app_nil_r in He1.
  destruct (call ctl e) as [r e1]. simpl in He1, Hw |- *. destruct He as [He Hef].
  pose proof (effect_trans _ _ _ _ _ _ _ Hef Hw) as Hef1.
  assert (Hinv1 : conn_inv (bump exact (Z.of_nat i) (-1)) (set_env e1 s1)).
  { by apply (same_conns_inv _ s1). }
  destruct r as [err|[]].
  - destruct (CloseConnection_spec _ (set_env e1 s1) a c (Z.of_nat i) Hinv1 Ha (fc_info _ _ _ _ _ Hc))
      as (e2 & p2 & Hrun & He2 & Hinv2 & _).
    rewrite (bind_some _ _ _ _ _ Hrun). eexists. split; [done|].
    apply Dropped; simpl.
    + apply delete_insert_id. by eapply next_fresh.
    + rewrite (fc_fd _ _ _ _ _ Hc). by apply delete_insert_id.
    + done.
    + exact (conn_inv_ext _ _ _ (bump_forth _) Hinv2).
    + done.
    + rewrite (fc_fd _ _ _ _ _ Hc) in He2. apply (shuts_trans _ e1 _ [] [fd]); [|exact He2].
      split; [by rewrite He1|exact Hef1].
    + apply (steady_trans _ s1); [by apply steady_extended, (next_fresh _ _ Hs)|].
      apply (steady_trans _ (set_env e2 (set_user (user_closed (set_env e1 s1) c) (set_env e1 s1))));
        [by split|apply steady_erased].
  - destruct (add_count_spec _ (set_env e1 s1) 1 c i info Hinv1 (fc_info _ _ _ _ _ Hc) Hinfo) as [Hadd Hinv2].
    { rewrite (ci_count _ _ Hs _ _ Hinfo). unfold exact.
      pose proof (load_nonneg (Z.of_nat i) (nodes s)). pose proof (load_le_size (Z.of_nat i) (nodes s)). lia. }
    rewrite (bind_some _ _ _ _ _ Hadd). eexists. split; [done|].
    eapply Added with (i := i) (info := info); try done.
    + by exists info.
    + exact (conn_inv_ext _ _ _ (bump_forth _) Hinv2).
    + simpl. rewrite He1, He. apply app_nil_r.
    + apply (steady_trans _ s1); [by apply steady_extended, (next_fresh _ _ Hs)|by split].
Qed.

(** When there is no buffer memory, [fd] is not yet in the controller. *)
Lemma starved_spec fd ip port c p u e s ty p1 p2 :
  get_buffer ty p1 = Some (None, p2) ->
  conn_inv exact s -> connections (inst s) !! fd = None -> connections (inst s) !! 0 = None ->
  0 < fd -> SOCKController.fd c = 0 -> SOCKController.info c = None -> shuts (env s) e [] ->
  exists s', CloseConnection stale (next_node s) (extended fd c p u e s) = Some (tt, s') /\
    connect_outcome s fd ip port s'.
Proof.
  intros Hget Hs Hf H0 Hpos Hfd Hi He. set (s1 := extended fd c p u e s).
  assert (Ha : nodes s1 !! next_node s = Some c) by apply lookup_insert_eq.
  unfold CloseConnection. rewrite (bind_some _ _ _ _ _ (call_csp_run s1 _ c Ha)).
  set (s2 := set_user (user_closed s1 c) s1).
  rewrite (bind_some _ _ _ _ _ (deref_live _ c s2 Ha)).
  rewrite (bind_some _ _ _ _ _ (sys__run _ _)), Hfd. unfold erase. simpl.
  rewrite lookup_insert_ne, H0 by lia. eexists. split; [done|].
  apply (Starved _ _ _ _ _ c ty p1 p2); simpl; try done.
  apply (shuts_trans _ e _ [] [0]); [done|]. by apply (shuts_call (Close 0) e).
Qed.

Definition accept_answer s : errno + (Z * (string * Z)) :=
  (call (Accept (listenfd (inst s))) (env s)).1.

Lemma register_spec fd ip port e s :
  conn_inv exact s -> connections (inst s) !! fd = None -> connections (inst s) !! 0 = None ->
  0 < fd -> loopInfo (inst s) <> [] -> can_lend 2 (bufp s) ->
  Z.of_nat (size (nodes s)) < 2 ^ 31 - 2 -> shuts (env s) e [] ->
  exists s', register uninit stale (next_node s) fd ip port
      (extended fd SOCKController.SOCKController (bufp s) (user s) e s) = Some (true, s') /\
    connect_outcome s fd ip port s'.
Proof.
  intros Hs Hf H0 Hpos Hne Hcan Hsz He. unfold register.
  destruct (prepare_spec fd ip port e s Hs Hf Hne Hcan) as (ok & c & p & u & i & Hrun & Hch & Hl & Hres).
  cbv zeta in Hrun. rewrite (bind_some _ _ _ _ _ Hrun). destruct ok; cbn [negb].
  - by apply (watch_spec fd ip port i).
  - destruct Hres as (Hfd & Hi & ty & p1 & p2 & Hget).
    destruct (starved_spec fd ip port c p u e s ty p1 p2 Hget Hs Hf H0 Hpos Hfd Hi He) as (s' & Hrun' & Hout).
    rewrite (bind_some _ _ _ _ _ Hrun'). by exists s'.
Qed.

(** What a failed [accept] may close: the reserve descriptor, given up, and
    what a second [accept] gave. *)
Definition refused (idlefd : Z) s s' : Prop :=
  shuts (env s) (env s') [] \/
  exists e1, shuts (env s) e1 [idlefd] /\
    shuts (env s) (env s') [idlefd; fd_or (call (Accept (listenfd (inst s))) e1).1].

(** The descriptor given up and taken again. *)
Lemma give_up_run idlefd l s :
  exists e1 e2, (_ ← sys_ (Close idlefd); r ← sys (Accept l); _ ← sys_ (Close (fd_or r)); sys_ Open_devnull) s
      = Some (tt, set_env e2 s) /\
    shuts (env s) e1 [idlefd] /\ shuts (env s) e2 [idlefd; fd_or (call (Accept l) e1).1].
Proof.
  pose proof (shuts_call (Close idlefd) (env s) eq_refl) as H1.
  rewrite (bind_some _ _ _ _ _ (sys__run _ s)). set (e1 := (call (Close idlefd) (env s)).2) in *.
  pose proof (shuts_call (Accept l) e1 eq_refl) as H2.
  rewrite (bind_some _ _ _ _ _ (sys_run (Accept l) (set_env e1 s))).
  change (env (set_env e1 s)) with e1. set (r := (call (Accept l) e1).1). set (e2 := (call (Accept l) e1).2) in *.
  pose proof (shuts_call (Close (fd_or r)) e2 eq_refl) as H3.
  rewrite (bind_some _ _ _ _ _ (sys__run (Close (fd_or r)) (set_env e2 (set_env e1 s)))).
  change (env (set_env e2 (set_env e1 s))) with e2. set (e3 := (call (Close (fd_or r)) e2).2) in *.
  pose proof (shuts_call Open_devnull e3 eq_refl) as H4. rewrite sys__run.
  exists e1. eexists. split; [done|]. split; [done|].
  exact (shuts_trans _ _ _ _ _ (shuts_trans _ _ _ _ _ (shuts_trans _ _ _ _ _ H1 H2) H3) H4).
Qed.

Lemma give_up_when (b : bool) idlefd l s :
  exists e', when b (_ ← sys_ (Close idlefd); r ← sys (Accept l); _ ← sys_ (Close (fd_or r)); sys_ Open_devnull) s
      = Some (tt, set_env e' s) /\
    (shuts (env s) e' [] \/ exists e1, shuts (env s) e1 [idlefd] /\
       shuts (env s) e' [idlefd; fd_or (call (Accept l) e1).1]).
Proof.
  destruct b.
  - destruct (give_up_run idlefd l s) as (e1 & e2 & Hrun & H1 & H2). exists e2. split; [exact Hrun|].
    right. by exists e1.
  - exists (env s). split; [by destruct s|]. left. apply shuts_refl.
Qed.

Lemma dropped_env fd ip port e s :
  conn_inv exact s -> shuts (env s) e [fd] ->
  connect_outcome s fd ip port (set_env e s).
Proof.
  intros Hs He. apply Dropped; [done|done|done| |done|done|by split]. by apply (same_conns_inv exact s).
Qed.

(** Dropping the new connection. *)
Lemma drop_run fd ip port e s :
  conn_inv exact s -> shuts (env s) e [] ->
  exists s', (_ ← sys_ (Close fd); mret true) (set_env e s) = Some (true, s') /\
    connect_outcome s fd ip port s'.
Proof.
  intros Hs He. rewrite (bind_some _ _ _ _ _ (sys__run _ _)).
  exists (set_env (call (Close fd) e).2 s). split; [done|].
  apply dropped_env; [done|]. apply (shuts_trans _ e _ [] [fd]); [done|]. by apply (shuts_call (Close fd) e).
Qed.

Lemma enrol_spec fd ip port e s :
  conn_inv exact s -> connections (inst s) !! 0 = None -> loopInfo (inst s) <> [] ->
  can_lend 2 (bufp s) -> Z.of_nat (size (nodes s)) < 2 ^ 31 - 2 -> 0 < fd ->
  shuts (env s) e [] ->
  exists s', enrol uninit stale fd ip port (set_env e s) = Some (true, s') /\
    connect_outcome s fd ip port s'.
Proof.
  intros Hs H0 Hne Hcan Hsz Hpos He. unfold enrol.
  destruct (calls_sys (Fcntl_getfl fd) eq_refl (set_env e s)) as (r & e1 & Hrun1 & He1).
  rewrite (bind_some _ _ _ _ _ Hrun1). change (set_env e1 (set_env e s)) with (set_env e1 s).
  pose proof (shuts_trans _ _ _ _ _ He He1) as He1'.
  destruct r as [?|flags]; [by apply drop_run|].
  destruct (calls_sys (Fcntl_setfl fd (Z.lor flags O_NONBLOCK)) eq_refl (set_env e1 s))
    as (r & e2 & Hrun2 & He2).
  rewrite (bind_some _ _ _ _ _ Hrun2). change (set_env e2 (set_env e1 s)) with (set_env e2 s).
  pose proof (shuts_trans _ _ _ _ _ He1' He2) as He2'.
  destruct r as [?|[]]; [by apply drop_run|].
  destruct (connections (inst s) !! fd) as [a|] eqn:Hf.
  - assert (Hem : emplace fd (set_env e2 s) = Some (None, set_env e2 s)).
    { unfold emplace. simpl. by rewrite Hf. }
    rewrite (bind_some _ _ _ _ _ Hem). by apply drop_run.
  - rewrite (bind_some _ _ _ _ _ (emplace_run fd e2 s Hf)). by apply register_spec.
Qed.

Lemma HandleConnect_spec idlefd s :
  conn_inv exact s -> connections (inst s) !! 0 = None ->
  loopInfo (inst s) <> [] -> can_lend 2 (bufp s) ->
  Z.of_nat (size (nodes s)) < 2 ^ 31 - 2 ->
  (forall fd x, accept_answer s = inr (fd, x) -> 0 < fd) ->
  exists b s', HandleConnect uninit stale idlefd s = Some (b, s') /\
    match accept_answer s with
    | inl _ => b = false /\ same_conns s s' /\ refused idlefd s s'
    | inr (fd, (ip, port)) => b = true /\ connect_outcome s fd ip port s'
    end.
Proof.
  intros Hs H0 Hne Hcan Hsz Hpos. unfold HandleConnect, accept_answer in *.
  rewrite (bind_some _ _ _ _ _ (field_run _ s)).
  set (acc := Accept (listenfd (inst s))) in *.
  rewrite (bind_some _ _ _ _ _ (sys_run acc s)).
  pose proof (shuts_call acc (env s) eq_refl) as He. change (closes acc) with (@nil Z) in He.
  destruct (call acc (env s)) as [r e]. simpl in He, Hpos |- *.
  destruct r as [err|[fd [ip port]]].
  - destruct (give_up_when (bool_decide (err = EMFILE)) idlefd (listenfd (inst s)) (set_env e s))
      as (e' & Hrun & Hout).
    rewrite (bind_some _ _ _ _ _ Hrun). eexists false, _. split; [done|]. split; [done|]. split; [done|].
    destruct Hout as [Hout|(e1 & H1 & H2)]; [left|right; exists e1; split].
    + exact (shuts_trans _ _ _ _ _ He Hout).
    + exact (shuts_trans _ _ _ _ _ He H1).
    + exact (shuts_trans _ _ _ _ _ He H2).
  - specialize (Hpos fd _ eq_refl).
    rewrite (bind_some _ _ _ _ _ (field_run _ _)).
    destruct (calls_when (negb (keepAlive (alive (inst (set_env e s))) =? 0)) _
                (calls_SetKeepAlive fd) (set_env e s)) as ([] & e1 & Hrun1 & He1).
    rewrite (bind_some _ _ _ _ _ Hrun1), (bind_some _ _ _ _ _ (field_run _ _)).
    destruct (calls_when (negb (l_onoff (lin (inst (set_env e1 (set_env e s)))) =? 0)) _
                (calls_SetLinger fd) (set_env e1 (set_env e s))) as ([] & e2 & Hrun2 & He2).
    rewrite (bind_some _ _ _ _ _ Hrun2).
    destruct (enrol_spec fd ip port e2 s Hs H0 Hne Hcan Hsz Hpos) as (s' & Hrun & Hout).
    { exact (shuts_trans _ _ _ _ _ (shuts_trans _ _ _ _ _ He He1) He2). }
    exists true, s'. split; [exact Hrun|done].
Qed.
End spec.
