(* ===== verification/TcpIo.v ===== *)
(** * TcpIo: the IO threads, the controllers, the submission and the pool together

    [io_rel s s']: what the operations of an IO thread may do to the state: the
    map of connections, the callbacks, the configuration and the user's state
    stay, no descriptor is closed, no controller appears or disappears, and
    the close list only grows, by controllers that exist. *)

From S2P Require Import Prelude Types State BufferProvider Buffer BufferSpec Kernel Controller.
From S2P Require Import ControllerSpec TaskPool Task TaskSpec Tcp TcpSpec.
Import SPSockTcp.

Section io.
Context {W P TP U : Type} {cap : BUFFER_TYPE -> Z}.
Context `{HK : KernelLaws W} `{HP : BufferProviderLaws P cap} `{HT : TaskPool SockTaskTcp TP}.
Context `{HC : Callbacks U}.
Context (ifuel : nat) `{HPat : !Patient W ifuel}.
Context (stale : SOCKController.t -> option SOCKController.t) (cfg : SPTcpConfig).
Implicit Types s : state W P TP U.

Definition live s (a : Z) : Prop := is_Some (nodes s !! a).

Record io_rel s s' : Prop := {
  ir_inv : conn_inv cfg exact s -> conn_inv cfg exact s';
  ir_live a : live s' a <-> live s a;
  ir_conn : connections (inst s') = connections (inst s);
  ir_proc : proc (inst s') = proc (inst s);
  ir_loops : loopInfo (inst s') = loopInfo (inst s);
  ir_g : g s' = g s;
  ir_user : user s' = user s;
  ir_freed : freed s' = freed s;
  ir_closed : closed (env s') = closed (env s);
  ir_list : exists l, cList (inst s') = cList (inst s) ++ l /\ Forall (live s) l }.

(** The same, leaving the thread pool alone. *)
Record io_quiet s s' : Prop := {
  iq_rel :> io_rel s s';
  iq_pool : tpool s' = tpool s }.

Lemma io_rel_refl s : io_rel s s.
Proof. constructor; try done. exists []. by rewrite app_nil_r. Qed.

Lemma io_rel_trans s1 s2 s3 : io_rel s1 s2 -> io_rel s2 s3 -> io_rel s1 s3.
Proof.
  intros [I1 L1 C1 P1 O1 G1 U1 D1 K1 (l1 & E1 & F1)] [I2 L2 C2 P2 O2 G2 U2 D2 K2 (l2 & E2 & F2)].
  constructor; try congruence; [by auto|intros a; by rewrite L2|].
  exists (l1 ++ l2). rewrite E2, E1, app_assoc. split; [done|]. apply Forall_app. split; [done|].
  eapply Forall_impl; [exact F2|]. intros a. apply L1.
Qed.

Lemma io_rel_live s s' l : io_rel s s' -> Forall (live s) l -> Forall (live s') l.
Proof. intros Hr Hl. eapply Forall_impl; [exact Hl|]. intros a. apply Hr. Qed.

(** Only the thread pool changed. *)
Lemma io_rel_tpool p s : io_rel s (set_tpool p s).
Proof.
  constructor; try done; [by intros []; constructor|]. exists []. by rewrite app_nil_r.
Qed.

Lemma io_quiet_refl s : io_quiet s s.
Proof. split; [apply io_rel_refl|done]. Qed.

Lemma io_quiet_trans s1 s2 s3 : io_quiet s1 s2 -> io_quiet s2 s3 -> io_quiet s1 s3.
Proof. intros [R1 P1] [R2 P2]. split; [by apply io_rel_trans with s2|congruence]. Qed.

(** A system call that closes nothing. *)
Lemma io_quiet_env e s : closed e = closed (env s) -> io_quiet s (set_env e s).
Proof.
  intros He. split; [|done]. constructor; try done; [|exists []; by rewrite app_nil_r].
  intros Hs. by apply (same_conns_inv cfg exact s).
Qed.

(** Between two states the descriptors [ar] were armed and the connections [cl]
    given to the close list; [epoll] stopped watching no others than these. *)
Record acts (ar cl : list Z) s s' : Prop := {
  at_list : cList (inst s') = cList (inst s) ++ cl;
  at_conn : connections (inst s') = connections (inst s);
  at_watch : exists un, effect (env s) (env s') ar un /\
    Forall (fun f => exists a, a ∈ cl /\ connections (inst s) !! f = Some a) un }.

Lemma acts_none s s' : effect (env s) (env s') [] [] -> inst s' = inst s -> acts [] [] s s'.
Proof. intros He Hi. split; rewrite ?Hi, ?app_nil_r; [done..|]. by exists []. Qed.

Lemma acts_same s s' : env s' = env s -> inst s' = inst s -> acts [] [] s s'.
Proof. intros He Hi. apply acts_none; [rewrite He; apply effect_refl|done]. Qed.

Lemma acts_trans a1 c1 a2 c2 s1 s2 s3 :
  acts a1 c1 s1 s2 -> acts a2 c2 s2 s3 -> acts (a1 ++ a2) (c1 ++ c2) s1 s3.
Proof.
  intros [L1 C1 (u1 & E1 & F1)] [L2 C2 (u2 & E2 & F2)]. split.
  - by rewrite L2, L1, app_assoc.
  - congruence.
  - exists (u1 ++ u2). split; [exact (effect_trans _ _ _ _ _ _ _ E1 E2)|]. rewrite C1 in F2.
    apply Forall_app. split; (eapply Forall_impl; [eassumption|]); simpl; intros f (a & Ha & Hf);
      exists a; rewrite elem_of_app; auto.
Qed.

(** Controllers that differ in events, flags and buffer contents only. *)
Record same_ctl (c c' : SOCKController.t) : Prop := {
  sc_fd : SOCKController.fd c' = SOCKController.fd c;
  sc_info : SOCKController.info c' = SOCKController.info c;
  sc_held : held c' = held c;
  sc_typed : typed c -> typed c';
  sc_wf : ctl_wf c -> ctl_wf c' }.

Lemma put_rel a c c' s :
  nodes s !! a = Some c -> same_ctl c c' -> io_quiet s (set_nodes (<[a := c']> (nodes s)) s).
Proof.
  intros Ha [Hfd Hi Hh Ht Hw]. split; [|done]. constructor; try done; simpl; [| |exists []; by rewrite app_nil_r].
  - intros Hs. destruct Hs as [Hcfg Hcn Hnd Hnx Hl Hct Hsz].
    constructor; simpl; [done| | | | | |].
    + intros f b Hb. destruct (Hcn f b Hb) as (x & Hx & Hf). destruct (decide (a = b)) as [<-|Hne].
      * exists c'. rewrite lookup_insert_eq. rewrite Ha in Hx. injection Hx as <-. by rewrite Hfd.
      * exists x. by rewrite lookup_insert_ne.
    + intros b x. rewrite lookup_insert_Some. intros [[<- <-]|[Hne Hb]]; [|by apply Hnd].
      destruct (Hnd a c Ha) as (? & ? & ? & ?). rewrite Hfd, Hi. by auto.
    + intros b Hb. apply Hnx. destruct (decide (a = b)) as [<-|Hne]; [by exists c|].
      by rewrite lookup_insert_ne in Hb.
    + unfold held_all in *. rewrite <- insert_delete_eq, map_to_list_insert by apply lookup_delete_eq.
      rewrite <- (insert_delete_id _ _ _ Ha), map_to_list_insert in Hl by apply lookup_delete_eq.
      simpl in *. by rewrite Hh.
    + intros j info Hj. rewrite (Hct j info Hj). f_equal.
      rewrite <- insert_delete_eq, load_insert by apply lookup_delete_eq.
      rewrite (load_delete _ _ _ _ Ha), Hi. lia.
    + by rewrite map_size_insert_Some by (by exists c).
  - intros b. unfold live. simpl. destruct (decide (a = b)) as [<-|Hne].
    + rewrite lookup_insert_eq, Ha. by split; intros _; eexists.
    + by rewrite lookup_insert_ne.
Qed.

Lemma same_ctl_events v c : same_ctl c (SOCKController.set_events v c).
Proof. by constructor. Qed.
Lemma same_ctl_peer v c : same_ctl c (SOCKController.set_peerClosed v c).
Proof. by constructor. Qed.

Lemma same_ctl_readBuf b c :
  buf_wf b -> same_block (SOCKController.readBuf c) b -> same_ctl c (SOCKController.set_readBuf b c).
Proof.
  intros Hb (_ & Hbuf & Hty). constructor; try done.
  - unfold held. simpl. by rewrite Hbuf.
  - intros [Hr Hw]. split; simpl; [congruence|done].
  - intros [Hr Hw]. by split.
Qed.

Lemma same_ctl_writeBuf b c :
  buf_wf b -> same_block (SOCKController.writeBuf c) b -> same_ctl c (SOCKController.set_writeBuf b c).
Proof.
  intros Hb (_ & Hbuf & Hty). constructor; try done.
  - unfold held. simpl. by rewrite Hbuf.
  - intros [Hr Hw]. split; simpl; [done|congruence].
  - intros [Hr Hw]. by split.
Qed.

(** ** Closing and re-arming *)

Lemma loop_of_live d s a c :
  conn_inv cfg d s -> nodes s !! a = Some c ->
  exists info, forall c' s', SOCKController.info c' = SOCKController.info c -> inst s' = inst s ->
    loop_of c' s' = Some (info, s').
Proof.
  intros Hs Ha. destruct (ci_node _ _ _ Hs a c Ha) as (_ & _ & _ & i & Hi & Hl).
  apply lookup_lt_is_Some_2 in Hl as [info Hinfo]. exists info. intros c' s' Hc' Hs'. unfold loop_of.
  rewrite (bind_some _ _ _ _ _ (field_run _ s')), Hc', Hi, (bind_some _ _ _ _ _ (lift_run _ _)).
  by rewrite Nat2Z.id, Hs', Hinfo.
Qed.

Lemma ActiveClose_rel s a :
  conn_inv cfg exact s -> live s a ->
  exists s', ActiveClose stale a s = Some (tt, s') /\ io_quiet s s' /\ nodes s' = nodes s /\ acts [] [a] s s'.
Proof.
  intros Hs [c Ha]. destruct (loop_of_live exact s a c Hs Ha) as (info & Hloop).
  unfold ActiveClose. rewrite (bind_some _ _ _ _ _ (deref_live stale a c s Ha)).
  rewrite (bind_some _ _ _ _ _ (Hloop c s eq_refl eq_refl)).
  set (ctl := Epoll_ctl _ _ _ _). rewrite (bind_some _ _ _ _ _ (sys__run ctl s)).
  rewrite (bind_some _ _ _ _ _ (field_run _ _)). eexists. split; [done|]. split; [|split; [done|]].
  2:{ split; [done|done|]. exists [SOCKController.fd c]. split.
      - exact (effect_call ctl (env s) eq_refl).
      - apply Forall_singleton. exists a. split; [by left|]. by destruct (ci_node _ _ _ Hs a c Ha). }
  assert (He : closed (call ctl (env s)).2 = closed (env s)) by (rewrite closed_closes; apply app_nil_r).
  apply (io_quiet_trans _ (set_env (call ctl (env s)).2 s)); [by apply io_quiet_env|].
  split; [|done]. constructor; try done; [by intros []; constructor|]. exists [a]. split; [done|].
  apply Forall_singleton. by exists c.
Qed.

Lemma enable_oneshot (rd wr : bool) :
  has_event (let events := Z.lor (Z.lor EPOLLERR EPOLLRDHUP) (Z.lor EPOLLHUP EPOLLONESHOT) in
    let events := if rd then Z.lor events EPOLLIN else events in
    if wr then Z.lor events EPOLLOUT else events) EPOLLONESHOT = true.
Proof. by destruct rd, wr. Qed.

Lemma EnableEvent_run c s info rd wr :
  loop_of c s = Some (info, s) ->
  exists b e, EnableEvent c rd wr s = Some (b, set_env e s) /\ closed e = closed (env s) /\
    effect (env s) e (if (b : bool) then [SOCKController.fd c] else []) [].
Proof.
  intros Hl. unfold EnableEvent. rewrite (bind_some _ _ _ _ _ Hl). set (ctl := Epoll_ctl _ _ _ _).
  rewrite (bind_some _ _ _ _ _ (sys_run ctl s)). eexists _, _. split; [done|]. split.
  - rewrite closed_closes. apply app_nil_r.
  - pose proof (effect_call ctl (env s) eq_refl) as He. unfold ctl in He |- *. simpl in He.
    rewrite enable_oneshot in He. by destruct (call _ (env s)).1.
Qed.

(** A member function that changes a controller's events by [f]. *)
Lemma on_events_rel {A} (Q : Z -> A -> state W P TP U -> Prop) a f s :
  live s a ->
  (forall c, nodes s !! a = Some c ->
    exists x c' s1, f c (Some s) = (x, c', Some s1) /\ same_ctl c c' /\ io_quiet s s1 /\ nodes s1 = nodes s /\
      Q (SOCKController.fd c) x s1) ->
  (forall fd x s1 s', inst s1 = inst s' -> env s1 = env s' -> Q fd x s1 -> Q fd x s') ->
  exists (x : A) s', on_events stale a f s = Some (x, s') /\ io_quiet s s' /\
    forall c, nodes s !! a = Some c -> Q (SOCKController.fd c) x s'.
Proof.
  intros [c Ha] Hf HQ. destruct (Hf c Ha) as (x & c' & s1 & Hrun & Hsame & Hrel & Hn & HQ1).
  unfold on_events. rewrite (deref_live stale a c s Ha). cbn [mbind option_bind]. rewrite Hrun.
  cbn [mbind option_bind]. rewrite (put_live a c c' s1) by (by rewrite Hn).
  eexists x, _. split; [done|]. split.
  - apply (io_quiet_trans _ s1); [done|]. apply (put_rel a c); [by rewrite Hn|done].
  - intros c0 Hc0. rewrite Ha in Hc0. injection Hc0 as <-. by eapply HQ; [| |exact HQ1].
Qed.

(** What was armed or closed is not affected by the store of controllers. *)
Lemma acts_ext ar cl s s1 s' : inst s1 = inst s' -> env s1 = env s' -> acts ar cl s s1 -> acts ar cl s s'.
Proof. intros Hi He [L C E]. split; rewrite <- ?Hi, <- ?He; assumption. Qed.

Lemma funcEvent_rel c s info rd wr :
  loop_of c s = Some (info, s) ->
  exists b s1, funcEvent c rd wr (Some s) = (b, Some s1) /\ io_quiet s s1 /\
    nodes s1 = nodes s /\ acts (if (b : bool) then [SOCKController.fd c] else []) [] s s1.
Proof.
  intros Hl. destruct (EnableEvent_run c s info rd wr Hl) as (b & e & Hrun & He & Har).
  exists b, (set_env e s). unfold funcEvent. cbn [mbind option_bind]. rewrite Hrun.
  split; [done|]. split; [by apply io_quiet_env|]. split; [done|].
  split; [by rewrite app_nil_r|done|]. by exists [].
Qed.

(** Re-arming tells whether it armed the connection. *)
Definition rearmed s (fd : Z) (b : bool) s' : Prop := acts (if b then [fd] else []) [] s s'.

Lemma renableEvents_rel s a :
  conn_inv cfg exact s -> live s a ->
  exists b s', renableEvents stale a s = Some (b, s') /\ io_quiet s s' /\
    forall c, nodes s !! a = Some c -> rearmed s (SOCKController.fd c) b s'.
Proof.
  intros Hs Ha. apply (on_events_rel (rearmed s)); [done| |by intros *; apply acts_ext]. intros c Hc.
  destruct (loop_of_live exact s a c Hs Hc) as (info & Hloop). unfold SOCKController.renableEvents.
  edestruct (funcEvent_rel c s info) as (b & s1 & Hrun & Hrel & Hn & Hact); [by apply Hloop|].
  rewrite Hrun. exists b. destruct b; (eexists _, s1; split; [done|]); split_and!; done.
Qed.

Lemma enableEvents_rel s a rd wr :
  conn_inv cfg exact s -> live s a ->
  exists b s', enableEvents stale a rd wr s = Some (b, s') /\ io_quiet s s' /\
    forall c, nodes s !! a = Some c -> rearmed s (SOCKController.fd c) b s'.
Proof.
  intros Hs Ha. apply (on_events_rel (rearmed s)); [done| |by intros *; apply acts_ext]. intros c Hc.
  destruct (loop_of_live exact s a c Hs Hc) as (info & Hloop). unfold SOCKController.enableEvents.
  edestruct (funcEvent_rel c s info) as (b & s1 & Hrun & Hrel & Hn & Hact); [by apply Hloop|].
  rewrite Hrun. eexists b, _, s1. split; [done|]. split_and!; done.
Qed.

(** [renableProc] arms the connection or closes it. *)
Definition arm_or_close s (a fd : Z) s' : Prop := acts [fd] [] s s' \/ acts [] [a] s s'.

Lemma REnableFunc_rel s a :
  conn_inv cfg exact s -> live s a ->
  exists s', REnableFunc stale a s = Some (tt, s') /\ io_quiet s s' /\
    forall c, nodes s !! a = Some c -> arm_or_close s a (SOCKController.fd c) s'.
Proof.
  intros Hs Ha. destruct (on_events_rel (fun fd (_ : unit) => arm_or_close s a fd) a (fun c o =>
      let '(c, o) := SOCKController.REnableFunc funcEvent (funcClose stale a) c o in (tt, c, o)) s Ha)
    as ([] & s' & Hrun & Hrel); [| |by exists s'].
  2:{ intros fd _ s1 s' Hi He [|]; [left|right]; by eapply acts_ext. }
  intros c Hc. destruct (loop_of_live exact s a c Hs Hc) as (info & Hloop).
  unfold SOCKController.REnableFunc, SOCKController.renableEvents.
  edestruct (funcEvent_rel c s info) as (b & s1 & Hrun & Hrel & Hn & Hact); [by apply Hloop|].
  rewrite Hrun. destruct b.
  - exists tt, c, s1. split_and!; [done..|by left].
  - unfold SOCKController.close, funcClose. cbn [mbind option_bind].
    destruct (ActiveClose_rel s1 a) as (s2 & Hrun2 & Hrel2 & Hn2 & Hact2).
    { by apply Hrel. }
    { unfold live. rewrite Hn. by exists c. }
    rewrite Hrun2. eexists tt, _, s2. split; [done|]. split; [apply same_ctl_events|].
    split; [by apply io_quiet_trans with s1|]. split; [congruence|].
    right. exact (acts_trans _ _ _ _ _ _ _ Hact Hact2).
Qed.

(** [renableProc] on live controllers, one after the other. *)
Lemma renable_all_rel l s :
  conn_inv cfg exact s -> Forall (live s) l ->
  exists s', renable_all (renableProc stale) l (Some s) = Some s' /\ io_quiet s s'.
Proof.
  revert s. induction l as [|a l IH]; intros s Hs Hl; [by exists s; split; [|apply io_quiet_refl]|].
  apply Forall_cons in Hl as [Ha Hl]. destruct (REnableFunc_rel s a Hs Ha) as (s1 & Hrun & Hr1 & _).
  destruct (IH s1) as (s2 & Hrun2 & Hr2); [by apply Hr1|by apply (io_rel_live s); [apply Hr1|]|].
  exists s2. split; [|by apply io_quiet_trans with s1].
  unfold renable_all in *. cbn [foldl]. unfold renableProc at 2. cbn [mbind option_bind]. by rewrite Hrun.
Qed.

Lemma renableProc_rel s a :
  conn_inv cfg exact s -> live s a -> exists s', renableProc stale a (Some s) = Some s' /\ io_quiet s s'.
Proof. intros Hs Ha. apply (renable_all_rel [a] s Hs). by apply Forall_singleton. Qed.

(** ** Reading and writing *)

(** [s] after input or output of the controller at [a]. *)
Definition after_io a c e s : state W P TP U := set_env e (set_nodes (<[a := c]> (nodes s)) s).

Lemma on_io_run {A} a c f (x : A) c' e s :
  nodes s !! a = Some c -> f c (env s) = Some (x, c', e) ->
  on_io stale a f s = Some (x, after_io a c' e s).
Proof.
  intros Ha Hf. unfold on_io. rewrite (bind_some _ _ _ _ _ (deref_live stale a c s Ha)).
  rewrite (bind_some _ _ _ _ _ (gets_run _ s)), Hf, (bind_some _ _ _ _ _ (lift_run _ _)).
  by rewrite (bind_some _ _ _ _ _ (put_live a c c' s Ha)).
Qed.

Lemma wf_empty b : buf_wf b -> (SPBuffer.bytesRead b =? 0) = bool_decide (contents b = []).
Proof.
  intros Hb. unfold SPBuffer.bytesRead. rewrite <- (contents_length b Hb).
  destruct (contents b) as [|x l]; [done|]. rewrite bool_decide_false by done.
  apply Z.eqb_neq. simpl. lia.
Qed.

(** The whole of HandleRead, when there is a read callback. *)
Lemma HandleRead_spec a c f u s :
  nodes s !! a = Some c -> ctl_wf c -> rdp (proc (inst s)) = Some f ->
  exists ok b e d,
    let c1 := SOCKController.set_readBuf b c in
    let s1 := after_io a c1 e s in
    let mark := readMark (markGlobal (g s)) in
    SOCKController.readSocket ifuel c (env s) = Some (ok, c1, e) /\
    io_step (SOCKController.fd c) (env s) e d [] /\ ctl_wf c1 /\ same_block (SOCKController.readBuf c) b /\
    contents b = contents (SOCKController.readBuf c) ++ d /\
    HandleRead ifuel stale a u s =
      if negb ok || (SOCKController.peerClosed c && bool_decide (contents b = []))
      then Some ((false, u), s1)
      else if (mark =? 0) || (mark <=? Z.of_nat (length (contents b)))
      then '(u', s2) ← submit stale a f u s1; Some ((true, u'), s2)
      else '(r, s2) ← renableEvents stale a s1; Some ((r, u), s2).
Proof.
  intros Ha [Hr Hw] Hf.
  destruct (readSocket_spec (ifuel := ifuel) c (env s) Hr) as (ok & b & e & d & Hrun & Hio & Hb & Hsb & Hc).
  exists ok, b, e, d. split; [done|]. split; [done|]. split; [by split|]. split; [done|]. split; [done|].
  unfold HandleRead. rewrite (bind_some _ _ _ _ _ (field_run _ s)), Hf.
  rewrite (bind_some _ _ _ _ _ (on_io_run a c _ ok _ e s Ha Hrun)).
  destruct ok; [|done]. cbn [negb orb].
  set (c1 := SOCKController.set_readBuf b c). set (s1 := after_io a c1 e s).
  rewrite (bind_some _ _ _ _ _ (deref_live stale a c1 s1 (lookup_insert_eq _ _ _))).
  unfold SOCKController.isPeerClosed, SOCKController.getReadBufferSize.
  change (SOCKController.readBuf c1) with b. rewrite (wf_empty b Hb).
  change (SOCKController.peerClosed c1) with (SOCKController.peerClosed c).
  destruct (_ && _); [done|]. rewrite (bind_some _ _ _ _ _ (gets_run _ s1)).
  change (readMark (markGlobal (g s1))) with (readMark (markGlobal (g s))).
  rewrite (contents_length b Hb). unfold SPBuffer.bytesRead.
  by destruct (_ =? 0); [|destruct (_ <=? _)].
Qed.

(** The whole of HandleWrite, when there is a write callback. *)
Lemma HandleWrite_spec a c f u s :
  nodes s !! a = Some c -> ctl_wf c -> wtp (proc (inst s)) = Some f ->
  let mark := writeMark (markGlobal (g s)) in
  if SOCKController.peerClosed c && bool_decide (contents (SOCKController.readBuf c) = [])
  then HandleWrite ifuel stale a u s = Some ((false, u), s)
  else if mark =? 0xffffffff
  then HandleWrite ifuel stale a u s = ('(u', s2) ← submit stale a f u s; Some ((true, u'), s2))
  else exists r b e d,
    let c1 := SOCKController.set_writeBuf b c in
    let s1 := after_io a c1 e s in
    SOCKController.commitWrite ifuel c (env s) = Some (r, c1, e) /\
    io_step (SOCKController.fd c) (env s) e [] d /\ ctl_wf c1 /\ same_block (SOCKController.writeBuf c) b /\
    contents (SOCKController.writeBuf c) = d ++ contents b /\
    HandleWrite ifuel stale a u s =
      if r =? -1 then Some ((false, u), s1)
      else if Z.of_nat (length (contents b)) <=? mark
      then '(u', s2) ← submit stale a f u s1; Some ((true, u'), s2)
      else '(r, s2) ← renableEvents stale a s1; Some ((r, u), s2).
Proof.
  intros Ha [Hr Hw] Hf. cbv zeta.
  assert (Hstart : HandleWrite ifuel stale a u s =
    if SOCKController.peerClosed c && bool_decide (contents (SOCKController.readBuf c) = [])
    then Some ((false, u), s) else
    (mark ← gets (fun s => writeMark (markGlobal (g s)));
     if mark =? 0xffffffff then u ← submit stale a f u; mret (true, u) else
     r ← on_io stale a (SOCKController.commitWrite ifuel);
     if r =? -1 then mret (false, u) else
     c ← deref stale a;
     if SOCKController.getWriteBufferSize c <=? mark then u ← submit stale a f u; mret (true, u)
     else ok ← renableEvents stale a; mret ((ok : bool), u)) s).
  { unfold HandleWrite. rewrite (bind_some _ _ _ _ _ (field_run _ s)), Hf.
    rewrite (bind_some _ _ _ _ _ (deref_live stale a c s Ha)).
    unfold SOCKController.isPeerClosed, SOCKController.getReadBufferSize.
    rewrite (wf_empty _ Hr). by destruct (_ && _). }
  rewrite Hstart. destruct (_ && _); [done|].
  rewrite (bind_some _ _ _ _ _ (gets_run _ s)). destruct (_ =? 0xffffffff); [done|].
  destruct (commitWrite_spec (ifuel := ifuel) c (env s) Hw) as (r & b & e & d & Hrun & Hio & Hb & Hsb & Hc & _).
  exists r, b, e, d. split; [done|]. split; [done|]. split; [by split|]. split; [done|]. split; [done|].
  rewrite (bind_some _ _ _ _ _ (on_io_run a c _ r _ e s Ha Hrun)). destruct (r =? -1); [done|].
  rewrite (bind_some _ _ _ _ _ (deref_live stale a _ _ (lookup_insert_eq _ _ _))).
  unfold SOCKController.getWriteBufferSize, SPBuffer.bytesRead.
  change (SOCKController.writeBuf (SOCKController.set_writeBuf b c)) with b.
  rewrite (contents_length b Hb). by destruct (_ <=? _).
Qed.

Lemma after_io_quiet a c c1 e s :
  nodes s !! a = Some c -> same_ctl c c1 -> closed e = closed (env s) -> io_quiet s (after_io a c1 e s).
Proof.
  intros Ha Hc He. apply (io_quiet_trans _ (set_nodes (<[a := c1]> (nodes s)) s)).
  - by apply (put_rel a c).
  - by apply (io_quiet_env e (set_nodes (<[a := c1]> (nodes s)) s)).
Qed.

(** ** Submission and the state of an IO thread *)

Context {tcap : Z} `{HL : !TaskPoolLaws SockTaskTcp TP tcap} (b : Z) (Hbatch : batch_config cfg b tcap).

(** The thread's utility has [buf] buffered, the pool holds [l]. *)
Record ready (u : UtilTaskTcp.t) (buf l : list SockTaskTcp) s : Prop := {
  rd_inv : conn_inv cfg exact s;
  rd_buf : if b =? 1 then buf = [] else batch_ready b (UtilTaskTcp.tm u) buf;
  rd_live : Forall (live s) (ctx <$> buf);
  rd_pool : holding (tpool s) l }.

(** From [s] to [s'] the connections of [new] were handed to the utility. *)
Definition handed (new : list Z) (buf l : list SockTaskTcp) s (u' : UtilTaskTcp.t) s' : Prop :=
  exists buf' taken, io_rel s s' /\ ready u' buf' (l ++ taken) s' /\
    ctx <$> taken ++ buf' `sublist_of` (ctx <$> buf) ++ new.

Lemma handed_none u buf l s s' :
  ready u buf l s -> io_quiet s s' -> handed [] buf l s u s'.
Proof.
  intros [Hi Hb Hl Hp] [Hr Hq]. exists buf, []. split; [done|].
  split; [|by rewrite app_nil_r]. rewrite app_nil_r.
  constructor; [by apply Hr|done|by apply (io_rel_live s)|by rewrite Hq].
Qed.

Lemma handed_trans new1 new2 buf l s s' u2 s'' :
  (exists buf1 taken, io_rel s s' /\ ctx <$> taken ++ buf1 `sublist_of` (ctx <$> buf) ++ new1 /\
     handed new2 buf1 (l ++ taken) s' u2 s'') ->
  handed (new1 ++ new2) buf l s u2 s''.
Proof.
  intros (buf1 & t1 & Hr1 & Hs1 & buf2 & t2 & Hr2 & Hrd & Hs2). exists buf2, (t1 ++ t2).
  split; [by apply io_rel_trans with s'|]. rewrite app_assoc. split; [done|].
  rewrite <- app_assoc, fmap_app, app_assoc. rewrite fmap_app in Hs1.
  etransitivity; [apply sublist_app; [reflexivity|exact Hs2]|].
  rewrite app_assoc. by apply sublist_app.
Qed.

Lemma handed_weaken new buf l s u' s' :
  handed [] buf l s u' s' -> handed new buf l s u' s'.
Proof.
  intros (buf' & taken & Hr & Hrd & Hsub). exists buf', taken. split_and!; [done..|].
  rewrite app_nil_r in Hsub. by apply sublist_inserts_r.
Qed.

Lemma handed_quiet new buf l s s1 u' s' :
  handed new buf l s u' s1 -> io_quiet s1 s' -> handed new buf l s u' s'.
Proof.
  intros (buf' & taken & Hr & Hrd & Hsub) Hq.
  rewrite <- (app_nil_r new). apply handed_trans with s1. exists buf', taken. split_and!; try done.
  exact (handed_none _ _ _ _ _ Hrd Hq).
Qed.

Lemma renable_all_app {E} (f : Z -> E -> E) l1 l2 e :
  renable_all f (l1 ++ l2) e = renable_all f l2 (renable_all f l1 e).
Proof. apply foldl_app. Qed.

(** What the utility leaves: its state, the pool, and the controllers [rs] re-enabled. *)
Lemma handed_finish u u' buf buf' l taken rs p' s :
  ready u buf l s -> Forall (live s) rs -> holding p' (l ++ taken) ->
  (if b =? 1 then buf' = [] else batch_ready b (UtilTaskTcp.tm u') buf') ->
  Forall (live s) (ctx <$> buf') ->
  exists s', (s1 ← renable_all (renableProc stale) rs (Some s); Some (u', set_tpool p' s1)) = Some (u', s') /\
    io_rel s s' /\ ready u' buf' (l ++ taken) s'.
Proof.
  intros [Hi _ _ _] Hrs Hp Hb Hl. destruct (renable_all_rel rs s Hi Hrs) as (s1 & -> & [Hr _]).
  eexists. split; [done|].
  assert (Hr' : io_rel s (set_tpool p' s1)) by (apply io_rel_trans with s1; [done|apply io_rel_tpool]).
  split; [done|]. constructor; [by apply Hr'|done|by apply (io_rel_live s)|done].
Qed.

Lemma Forall_sub {A} (Q : A -> Prop) l k : l `sublist_of` k -> Forall Q k -> Forall Q l.
Proof. intros Hs. rewrite !Forall_forall. intros Hk x Hx. apply Hk. by eapply elem_of_sublist. Qed.

Lemma fmap_take_sub {A B} (f : A -> B) n (l : list A) : f <$> take n l `sublist_of` f <$> l.
Proof. apply fmap_sublist, sublist_take. Qed.

Lemma submit_single a f u buf l s :
  b = 1 -> ready u buf l s -> live s a ->
  exists u' s', submit stale a f u s = Some (u', s') /\ handed [a] buf l s u' s'.
Proof.
  intros Hb1 Hrd Ha. pose proof Hrd as [Hi Hb Hlv Hp]. destruct Hbatch as (Hc & _ & _).
  unfold submit, UtilTaskTcp.append. rewrite (ci_cfg _ _ _ Hi), Hc.
  assert (E : (b =? 1) = true) by (by apply Z.eqb_eq). rewrite E in *. subst buf.
  unfold UtilTaskTcp_Single.append.
  destruct (pool_emplace_law (mkTask f a) (tpool s) l Hp) as (ok & p' & Hrun & Hp'). rewrite Hrun.
  cbn [mbind option_bind]. set (fl := UtilTaskTcp_Single.flag (UtilTaskTcp.ts u)).
  destruct (handed_finish u (UtilTaskTcp.mk (if ok then UtilTaskTcp.ts u else UtilTaskTcp_Single.mk false)
      (UtilTaskTcp.tm u)) [] [] l (if ok then [mkTask f a] else [])
      ((if fl then [] else [a]) ++ if ok then [] else [a]) p' s) as (s' & Hfin & Hr & Hd);
    [done| |done|by rewrite E|done|].
  { by destruct fl, ok; rewrite ?Forall_app, ?Forall_singleton. }
  eexists _, s'. split; [|eexists _, _; split_and!; [exact Hr|exact Hd|by destruct ok; [|apply sublist_nil_l]]].
  rewrite <- Hfin, renable_all_app. by destruct fl, ok.
Qed.

Lemma submit_batch a f u buf l s :
  b <> 1 -> ready u buf l s -> live s a ->
  exists u' s', submit stale a f u s = Some (u', s') /\ handed [a] buf l s u' s'.
Proof.
  intros Hne Hrd Ha. pose proof Hrd as [Hi Hb Hlv Hp]. destruct Hbatch as (Hc & Hb1 & Hcap).
  unfold submit, UtilTaskTcp.append. rewrite (ci_cfg _ _ _ Hi), Hc.
  assert (E : (b =? 1) = false) by (by apply Z.eqb_neq). rewrite E in *. destruct Hb as [Hbi Hlt].
  destruct (append_buffer (renableProc stale) cfg b Hc Hb1 (UtilTaskTcp.tm u) buf a f (tpool s) (Some s) l
              Hbi Hlt Hp) as (u1 & Hi1 & Hf1 & _ & Hrun). rewrite Hrun. clear Hrun.
  set (fl := UtilTaskTcp_Multipe.flag (UtilTaskTcp.tm u)).
  assert (Hall : Forall (live s) (ctx <$> buf ++ [mkTask f a])).
  { rewrite fmap_app. apply Forall_app. split; [done|]. by apply Forall_singleton. }
  assert (Hfl : Forall (live s) (if fl then [] else [a])) by (destruct fl; by rewrite ?Forall_singleton).
  replace (if fl then Some s else renableProc stale a (Some s))
    with (renable_all (renableProc stale) (if fl then [] else [a]) (Some s)) by (by destruct fl).
  pose proof (bi_size _ _ _ Hbi) as Hsz.
  destruct (Z.eqb_spec (UtilTaskTcp_Multipe.size (UtilTaskTcp.tm u) + 1) b) as [Eb|Eb].
  - destruct (commit_spec (renableProc stale) cfg b Hc Hb1 Hcap u1 _ (tpool s)
        (renable_all (renableProc stale) (if fl then [] else [a]) (Some s)) l Hi1 Hp)
      as (n & u2 & p2 & Hn & Hp2 & Hi2 & _ & Hrun).
    cbv zeta in Hrun. rewrite Hrun. cbn [mbind option_bind]. rewrite <- renable_all_app. set (rs := take _ _).
    destruct (handed_finish u (UtilTaskTcp.mk (UtilTaskTcp.ts u) u2) buf [] l
        (take n (buf ++ [mkTask f a])) ((if fl then [] else [a]) ++ (ctx <$> rs)) p2 s)
      as (s' & Hfin & Hr & Hd); [done| |done|by rewrite E; split; [|simpl; lia]|done|
        eexists _, s'; split; [done|]; eexists _, _; split_and!; [exact Hr|exact Hd|]].
    + apply Forall_app. split; [done|]. eapply Forall_sub; [|exact Hall].
      apply fmap_sublist. unfold rs. etransitivity; [apply sublist_take|apply sublist_drop].
    + rewrite app_nil_r. etransitivity; [apply fmap_take_sub|]. by rewrite fmap_app.
  - cbn [mbind option_bind].
    destruct (handed_finish u (UtilTaskTcp.mk (UtilTaskTcp.ts u) u1) buf (buf ++ [mkTask f a]) l
        [] (if fl then [] else [a]) (tpool s) s)
      as (s' & Hfin & Hr & Hd); [done|done|by rewrite app_nil_r| |done|
        eexists _, s'; split; [done|]; eexists _, _; split_and!; [exact Hr|exact Hd|]].
    + rewrite E. split; [done|]. rewrite length_app. simpl. lia.
    + cbn [app]. by rewrite fmap_app.
Qed.

Lemma submit_spec a f u buf l s :
  ready u buf l s -> live s a ->
  exists u' s', submit stale a f u s = Some (u', s') /\ handed [a] buf l s u' s'.
Proof. intros. destruct (decide (b = 1)); [by apply submit_single|by apply submit_batch]. Qed.

Lemma flush_spec u buf l s :
  ready u buf l s ->
  exists u' s', flush stale u s = Some (u', s') /\ exists taken, io_rel s s' /\
    ready u' [] (l ++ taken) s' /\ ctx <$> taken `sublist_of` ctx <$> buf.
Proof.
  intros Hrd. pose proof Hrd as [Hi Hb Hlv Hp]. destruct Hbatch as (Hc & Hb1 & Hcap).
  pose proof (ci_cfg _ _ _ Hi) as Hcfg. unfold flush, UtilTaskTcp.reset. rewrite Hcfg, Hc.
  destruct (b =? 1) eqn:E.
  - cbn [mbind option_bind]. eexists _, _. split; [done|]. exists [].
    split; [apply io_rel_tpool|]. split; [|apply sublist_nil_l]. rewrite app_nil_r.
    constructor; [by apply (io_rel_tpool (tpool s) s)|by rewrite E|done|done].
  - destruct Hb as [Hbi Hlt].
    destruct (commit_spec (renableProc stale) cfg b Hc Hb1 Hcap _ _ (tpool s) (Some s) l Hbi Hp)
      as (n & u2 & p2 & Hn & Hp2 & Hi2 & _ & Hrun).
    cbv zeta in Hrun. rewrite Hrun. cbn [mbind option_bind]. set (rs := take (_ - n) _).
    destruct (handed_finish u (UtilTaskTcp.mk (UtilTaskTcp.ts u)
        (UtilTaskTcp_Multipe.mk true (UtilTaskTcp_Multipe.back u2) (UtilTaskTcp_Multipe.front u2)
           (UtilTaskTcp_Multipe.size u2) (UtilTaskTcp_Multipe.tasks u2))) buf [] l (take n buf) (ctx <$> rs) p2 s)
      as (s' & Hfin & Hr & Hd); [done| |done| |done|].
    + eapply Forall_sub; [|exact Hlv].
      apply fmap_sublist. unfold rs. etransitivity; [apply sublist_take|apply sublist_drop].
    + rewrite E. split; [|simpl; lia]. by destruct Hi2; constructor.
    + eexists _, s'. split; [done|]. exists (take n buf). by split_and!; [| |apply fmap_take_sub].
Qed.

(** ** Events *)

(** The end of HandleRead and HandleWrite, after input or output. *)
Lemma handed_submit a f u buf l s s1 :
  ready u buf l s -> io_quiet s s1 -> live s a ->
  exists u' s', submit stale a f u s1 = Some (u', s') /\ handed [a] buf l s u' s'.
Proof.
  intros Hrd Hq Ha. destruct (handed_none u buf l s s1 Hrd Hq) as (buf1 & t1 & Hr & Hrd1 & Hs1).
  destruct (submit_spec a f u buf1 (l ++ t1) s1 Hrd1) as (u' & s' & Hrun & Hh); [by apply Hr|].
  exists u', s'. split; [done|]. apply (handed_trans [] [a] buf l s s1). by exists buf1, t1.
Qed.

Lemma handed_rearm a u buf l s s1 :
  ready u buf l s -> io_quiet s s1 -> live s a ->
  exists b s', renableEvents stale a s1 = Some (b, s') /\ handed [a] buf l s u s'.
Proof.
  intros Hrd Hq Ha. destruct (renableEvents_rel s1 a) as (x & s' & Hrun & Hq' & _).
  { by apply Hq, Hrd. }
  { by apply Hq. }
  exists x, s'. split; [done|]. apply handed_weaken, handed_none; [done|by apply io_quiet_trans with s1].
Qed.

Lemma handed_enable a rd wr u buf l s :
  ready u buf l s -> live s a ->
  exists b s', enableEvents stale a rd wr s = Some (b, s') /\ handed [a] buf l s u s'.
Proof.
  intros Hrd Ha. destruct (enableEvents_rel s a rd wr) as (x & s' & Hrun & Hq & _); [apply Hrd|done|].
  exists x, s'. split; [done|]. by apply handed_weaken, handed_none.
Qed.

Lemma HandleRead_rel a u buf l s :
  ready u buf l s -> live s a ->
  exists ok u' s', HandleRead ifuel stale a u s = Some ((ok, u'), s') /\ handed [a] buf l s u' s'.
Proof.
  intros Hrd Ha. pose proof Ha as [c Hc]. pose proof (rd_inv _ _ _ _ Hrd) as Hi.
  destruct (rdp (proc (inst s))) as [f|] eqn:Ef.
  - destruct (ci_node _ _ _ Hi a c Hc) as (_ & _ & Hwf & _).
    destruct (HandleRead_spec a c f u s Hc Hwf Ef) as (ok & bf & e & d & _ & Hio & [Hbf _] & Hsb & _ & Hrun).
    cbv zeta in Hrun. rewrite Hrun. clear Hrun.
    assert (Hq : io_quiet s (after_io a (SOCKController.set_readBuf bf c) e s))
      by (apply (after_io_quiet a c); [done|by apply same_ctl_readBuf|apply Hio]).
    destruct (_ || _); [|destruct (_ || _)].
    + eexists _, _, _. split; [done|]. by apply handed_weaken, handed_none.
    + destruct (handed_submit a f u buf l s _ Hrd Hq Ha) as (u' & s' & -> & Hh). by eexists _, _, _.
    + destruct (handed_rearm a u buf l s _ Hrd Hq Ha) as (x & s' & -> & Hh). by eexists _, _, _.
  - unfold HandleRead. rewrite (bind_some _ _ _ _ _ (field_run _ s)), Ef.
    destruct (wtp (proc (inst s))).
    + destruct (handed_enable a false true u buf l s Hrd Ha) as (x & s' & Hrun & Hh).
      rewrite (bind_some _ _ _ _ _ Hrun). by eexists _, _, _.
    + eexists _, _, _. split; [done|]. by apply handed_weaken, handed_none; [|apply io_quiet_refl].
Qed.

Lemma HandleWrite_rel a u buf l s :
  ready u buf l s -> live s a ->
  exists ok u' s', HandleWrite ifuel stale a u s = Some ((ok, u'), s') /\ handed [a] buf l s u' s'.
Proof.
  intros Hrd Ha. pose proof Ha as [c Hc]. pose proof (rd_inv _ _ _ _ Hrd) as Hi.
  assert (Hgive : handed [a] buf l s u s) by (apply handed_weaken, handed_none; [done|apply io_quiet_refl]).
  destruct (wtp (proc (inst s))) as [f|] eqn:Ef.
  - destruct (ci_node _ _ _ Hi a c Hc) as (_ & _ & Hwf & _).
    pose proof (HandleWrite_spec a c f u s Hc Hwf Ef) as Hrun. cbv zeta in Hrun.
    destruct (_ && _); [|destruct (_ =? 0xffffffff)]; [by eexists _, _, _| |].
    + rewrite Hrun. destruct (handed_submit a f u buf l s s Hrd (io_quiet_refl s) Ha) as (u' & s' & -> & Hh).
      by eexists _, _, _.
    + destruct Hrun as (r & bf & e & d & _ & Hio & [_ Hbf] & Hsb & _ & Hrun). rewrite Hrun. clear Hrun.
      assert (Hq : io_quiet s (after_io a (SOCKController.set_writeBuf bf c) e s))
        by (apply (after_io_quiet a c); [done|by apply same_ctl_writeBuf|apply Hio]).
      destruct (r =? -1); [|destruct (_ <=? _)].
      * eexists _, _, _. split; [done|]. by apply handed_weaken, handed_none.
      * destruct (handed_submit a f u buf l s _ Hrd Hq Ha) as (u' & s' & -> & Hh). by eexists _, _, _.
      * destruct (handed_rearm a u buf l s _ Hrd Hq Ha) as (x & s' & -> & Hh). by eexists _, _, _.
  - unfold HandleWrite. rewrite (bind_some _ _ _ _ _ (field_run _ s)), Ef.
    destruct (rdp (proc (inst s))); [|by eexists _, _, _].
    destruct (handed_enable a true false u buf l s Hrd Ha) as (x & s' & Hrun & Hh).
    rewrite (bind_some _ _ _ _ _ Hrun). by eexists _, _, _.
Qed.

(** A connection that a handler gave up. *)
Lemma close_unless_rel a u buf l s s1 (ok : bool) :
  live s a -> handed [a] buf l s u s1 ->
  exists s', when (negb ok) (ActiveClose stale a) s1 = Some (tt, s') /\ handed [a] buf l s u s'.
Proof.
  intros Ha Hh. destruct ok; [by exists s1|]. pose proof Hh as (buf' & taken & Hr & Hrd & _).
  destruct (ActiveClose_rel s1 a) as (s' & Hrun & Hq & _); [apply Hrd|by apply Hr|].
  exists s'. split; [done|]. by apply handed_quiet with s1.
Qed.

(** [epoll_wait] reports descriptors that are registered. *)
Definition registered (exitfd' : Z) s (ev : Z * Z) : Prop :=
  ev.1 = exitfd' \/ is_Some (connections (inst s) !! ev.1).

(** The connections an event, or a list of events, is about. *)
Definition about s (evs : list (Z * Z)) : list Z := omap (fun ev => connections (inst s) !! ev.1) evs.

Lemma io_event_rel exitfd' ev u buf l s :
  ready u buf l s -> registered exitfd' s ev -> ev.1 <> exitfd' ->
  exists u' s', io_event ifuel stale exitfd' ev u s = Some (Some u', s') /\ handed (about s [ev]) buf l s u' s'.
Proof.
  destruct ev as [fd events]. intros Hrd [?|[a Ha]] Hne; [done|]. simpl in Ha, Hne.
  pose proof (rd_inv _ _ _ _ Hrd) as Hi. destruct (ci_conn _ _ _ Hi fd a Ha) as (c & Hc & _).
  assert (Hlive : live s a) by (by exists c).
  assert (Hab : about s [(fd, events)] = [a]) by (unfold about; simpl; by rewrite Ha). rewrite Hab.
  assert (Hfind : find fd s = Some (a, s)) by (unfold find; by rewrite Ha).
  unfold io_event. rewrite (proj2 (Z.eqb_neq _ _) Hne).
  destruct (has_event events (Z.lor EPOLLHUP EPOLLERR)).
  { rewrite (bind_some _ _ _ _ _ Hfind). destruct (ActiveClose_rel s a Hi Hlive) as (s' & Hrun & Hq & _).
    rewrite (bind_some _ _ _ _ _ Hrun). eexists _, _. split; [done|]. by apply handed_weaken, handed_none. }
  destruct (has_event events (Z.lor EPOLLIN EPOLLRDHUP)).
  { rewrite (bind_some _ _ _ _ _ Hfind).
    assert (Hpeer : exists s1, when (has_event events EPOLLRDHUP)
        (c ← deref stale a; put a (SOCKController.set_peerClosed true c)) s = Some (tt, s1) /\ io_quiet s s1).
    { destruct (has_event events EPOLLRDHUP); [|by exists s; split; [|apply io_quiet_refl]].
      cbn [when]. rewrite (bind_some _ _ _ _ _ (deref_live stale a c s Hc)), (put_live a c) by done.
      eexists. split; [done|]. apply (put_rel a c); [done|apply same_ctl_peer]. }
    destruct Hpeer as (s1 & Hrun1 & Hq1). rewrite (bind_some _ _ _ _ _ Hrun1).
    destruct (handed_none u buf l s s1 Hrd Hq1) as (buf1 & t1 & Hr1 & Hrd1 & Hsub1).
    destruct (HandleRead_rel a u buf1 (l ++ t1) s1 Hrd1) as (ok & u' & s2 & Hrun2 & Hh2); [by apply Hr1|].
    rewrite (bind_some _ _ _ _ _ Hrun2).
    destruct (close_unless_rel a u' buf1 (l ++ t1) s1 s2 ok) as (s3 & Hrun3 & Hh3); [by apply Hr1|done|].
    rewrite (bind_some _ _ _ _ _ Hrun3). eexists _, _. split; [done|].
    apply (handed_trans [] [a] buf l s s1). by exists buf1, t1. }
  destruct (has_event events EPOLLOUT).
  { rewrite (bind_some _ _ _ _ _ Hfind).
    destruct (HandleWrite_rel a u buf l s Hrd Hlive) as (ok & u' & s2 & Hrun2 & Hh2).
    rewrite (bind_some _ _ _ _ _ Hrun2).
    destruct (close_unless_rel a u' buf l s s2 ok Hlive Hh2) as (s3 & Hrun3 & Hh3).
    rewrite (bind_some _ _ _ _ _ Hrun3). by eexists _, _. }
  eexists _, _. split; [done|]. by apply handed_weaken, handed_none; [|apply io_quiet_refl].
Qed.

Lemma about_cons s ev evs : about s (ev :: evs) = about s [ev] ++ about s evs.
Proof. unfold about. simpl. by destruct (connections (inst s) !! ev.1). Qed.

Lemma about_rel s s' evs : io_rel s s' -> about s' evs = about s evs.
Proof. intros Hr. unfold about. by rewrite (ir_conn _ _ Hr). Qed.

Lemma registered_rel x s s' evs : io_rel s s' -> Forall (registered x s) evs -> Forall (registered x s') evs.
Proof. intros Hr. unfold registered. by rewrite (ir_conn _ _ Hr). Qed.

(** Distinct descriptors are distinct connections. *)
Lemma about_nodup d s evs : conn_inv cfg d s -> NoDup evs.*1 -> NoDup (about s evs).
Proof.
  intros Hs. induction evs as [|[fd x] evs IH]; [constructor|]. cbn [fmap list_fmap fst].
  intros [Hn Hnd]%NoDup_cons. rewrite about_cons. apply NoDup_app. split; [|split; [|by apply IH]].
  - unfold about. simpl. destruct (_ !! fd); [apply NoDup_singleton|constructor].
  - intros a Ha Hin. unfold about in Ha. simpl in Ha. destruct (connections (inst s) !! fd) as [a'|] eqn:E;
      [apply list_elem_of_singleton in Ha as ->|by apply not_elem_of_nil in Ha].
    apply list_elem_of_omap in Hin as ([fd2 x2] & Hin & Ha2). simpl in Ha2.
    destruct (ci_conn _ _ _ Hs fd a' E) as (c & Hc & Hf). destruct (ci_conn _ _ _ Hs fd2 a' Ha2) as (c2 & Hc2 & Hf2).
    apply Hn. apply list_elem_of_fmap. exists (fd2, x2). split; [simpl; congruence|done].
Qed.

(** What a list of events, or a turn of the loop, leaves behind. *)
Record batch_done (evs : list Z) (l taken : list SockTaskTcp) s s' : Prop := {
  bd_rel : io_rel s s';
  bd_inv : conn_inv cfg exact s';
  bd_pool : holding (tpool s') (l ++ taken);
  bd_sub : ctx <$> taken `sublist_of` evs }.

Lemma io_events_rel exitfd' evs u buf l s :
  ready u buf l s -> Forall (registered exitfd' s) evs ->
  exists r s' taken, io_events ifuel stale exitfd' evs u s = Some (r, s') /\
    batch_done ((ctx <$> buf) ++ about s evs) l taken s s' /\
    match r with
    | Some u' => ready u' [] (l ++ taken) s'
    | None => exitfd' ∈ evs.*1
    end.
Proof.
  revert u buf l s. induction evs as [|ev evs IH]; intros u buf l s Hrd Hreg; cbn [io_events].
  - destruct (flush_spec u buf l s Hrd) as (u' & s' & Hrun & taken & Hr & Hrd' & Hsub).
    rewrite (bind_some _ _ _ _ _ Hrun). exists (Some u'), s', taken. split; [done|]. split; [|done].
    rewrite app_nil_r. constructor; [done|apply Hrd'|apply Hrd'|done].
  - apply Forall_cons in Hreg as [Hev Hreg]. destruct (decide (ev.1 = exitfd')) as [Hx|Hx].
    { destruct ev as [fd x]. simpl in Hx. subst fd. unfold io_event. rewrite Z.eqb_refl.
      rewrite (bind_some _ _ s None s) by done. exists None, s, []. split; [done|].
      split; [|by left]. destruct Hrd. constructor; [apply io_rel_refl|done|by rewrite app_nil_r|apply sublist_nil_l]. }
    destruct (io_event_rel exitfd' ev u buf l s Hrd Hev Hx) as (u1 & s1 & Hrun & buf1 & t1 & Hr1 & Hrd1 & Hsub1).
    rewrite (bind_some _ _ _ _ _ Hrun).
    destruct (IH u1 buf1 (l ++ t1) s1 Hrd1) as (r & s' & t2 & Hrun2 & [Hr2 Hi2 Hp2 Hsub2] & Hend).
    { by apply (registered_rel _ s). }
    exists r, s', (t1 ++ t2). split; [done|]. split.
    + constructor; [by apply io_rel_trans with s1|done|by rewrite app_assoc|].
      rewrite about_cons, app_assoc, fmap_app. rewrite fmap_app in Hsub1. rewrite (about_rel s s1 _ Hr1) in Hsub2.
      etransitivity; [apply sublist_app; [reflexivity|exact Hsub2]|].
      rewrite app_assoc. by apply sublist_app.
    + destruct r; [by rewrite app_assoc|]. by right.
Qed.

(** What [epoll_wait] reports next. *)
Definition reported (epollfd' : Z) s : list (Z * Z) :=
  match (call (Epoll_wait epollfd' (EPOLL_MAX_EVENT_BSIZE cfg)) (env s)).1 with
  | inr evs => evs
  | inl _ => []
  end.

(** The state once [epoll_wait] has answered. *)
Definition after_wait (epollfd' : Z) s : state W P TP U :=
  set_env (call (Epoll_wait epollfd' (EPOLL_MAX_EVENT_BSIZE cfg)) (env s)).2 s.

Lemma io_round_rel epollfd' exitfd' u l s :
  ready u [] l s -> Forall (registered exitfd' s) (reported epollfd' s) ->
  exists r s' taken, io_round ifuel stale epollfd' exitfd' u s = Some (r, s') /\
    batch_done (about s (reported epollfd' s)) l taken s s' /\
    match r with
    | inl u' => ready u' [] (l ++ taken) s'
    | inr Exited => exitfd' ∈ (reported epollfd' s).*1
    | inr Thrown => taken = []
    end.
Proof.
  intros Hrd Hreg. pose proof (rd_inv _ _ _ _ Hrd) as Hi. unfold io_round, reported in *.
  rewrite (bind_some _ _ _ _ _ (gets_run _ s)), (ci_cfg _ _ _ Hi). set (wait := Epoll_wait _ _) in *.
  rewrite (bind_some _ _ _ _ _ (sys_run wait s)). set (e := (call wait (env s)).2).
  assert (Hq : io_quiet s (set_env e s)).
  { apply io_quiet_env. unfold e. rewrite closed_closes. apply app_nil_r. }
  destruct (handed_none u [] l s _ Hrd Hq) as (buf1 & t1 & Hr & Hrd1 & Hsub).
  simpl in Hsub. apply sublist_nil_r, fmap_nil_inv, app_nil in Hsub as [-> ->]. rewrite app_nil_r in Hrd1.
  assert (Hnone : batch_done [] l [] s (set_env e s)).
  { destruct Hrd1. constructor; [done|done|by rewrite app_nil_r|apply sublist_nil_l]. }
  destruct (call wait (env s)).1 as [err|evs].
  - destruct err; (eexists _, _, []; split; [done|]; split; [exact Hnone|]); by rewrite ?app_nil_r.
  - destruct (io_events_rel exitfd' evs u [] l (set_env e s) Hrd1) as (r & s' & taken & Hrun & [Hr2 Hi2 Hp2 Hs2] & Hend).
    { by apply (registered_rel _ s). }
    rewrite (bind_some _ _ _ _ _ Hrun). eexists _, s', taken. split; [done|]. split; [|by destruct r].
    rewrite (about_rel s (set_env e s) _ Hr) in Hs2. constructor; [by apply io_rel_trans with (set_env e s)|done..].
Qed.

(** The other threads leave a consistent state, a pool and a kernel that only
    reports what is registered. *)
Definition considerate (epollfd' exitfd' : Z) (others : state W P TP U -> option (unit * state W P TP U)) : Prop :=
  forall u l s, ready u [] l s -> exists s' l', others s = Some (tt, s') /\ ready u [] l' s' /\
    Forall (registered exitfd' s') (reported epollfd' s').

Lemma io_loop_rel fuel others epollfd' exitfd' u l s :
  considerate epollfd' exitfd' others -> ready u [] l s ->
  Forall (registered exitfd' s) (reported epollfd' s) ->
  exists r s', io_loop ifuel stale fuel others epollfd' exitfd' u s = Some (r, s') /\ conn_inv cfg exact s'.
Proof.
  intros Hoth. revert u l s. induction fuel as [|fuel IH]; intros u l s Hrd Hreg; cbn [io_loop].
  { exists None, s. split; [done|]. apply Hrd. }
  destruct (io_round_rel epollfd' exitfd' u l s Hrd Hreg) as (r & s1 & taken & Hrun & Hdone & Hend).
  rewrite (bind_some _ _ _ _ _ Hrun). destruct r as [u1|end'].
  - destruct (Hoth u1 _ s1 Hend) as (s2 & l2 & Hrun2 & Hrd2 & Hreg2).
    rewrite (bind_some _ _ _ _ _ Hrun2). by apply (IH u1 l2 s2).
  - exists (Some end'), s1. split; [done|]. by destruct Hdone.
Qed.
End io.
