(* ===== verification/TcpToken.v ===== *)
(** * TcpToken: what becomes of a connection whose event was reported

    [epoll] watches the connections with [EPOLLONESHOT]: once an event of a
    connection was reported nothing watches it any more until it is armed
    again.  [token] lists the three ways to go on: its task is in the pool (or
    buffered for it), it was armed again, or it is in the close list.  Never
    none of them, never two. *)

From S2P Require Import Prelude Types State BufferProvider Buffer BufferSpec Kernel Controller.
From S2P Require Import ControllerSpec TaskPool Task TaskSpec Tcp TcpSpec TcpIo.
Import SPSockTcp.

Section token.
Context {W P TP U : Type} {cap : BUFFER_TYPE -> Z} {tcap : Z}.
Context `{HK : KernelLaws W} `{HP : BufferProviderLaws P cap} `{HT : TaskPoolLaws SockTaskTcp TP tcap}.
Context `{HR : !TaskPoolRoom SockTaskTcp TP} `{HC : Callbacks U}.
Context (ifuel : nat) `{HPat : !Patient W ifuel}.
Context (stale : SOCKController.t -> option SOCKController.t) (cfg : SPTcpConfig).
Context (b : Z) (Hbatch : batch_config cfg b tcap).
Implicit Types s : state W P TP U.

(** [all], [all']: the tasks in the pool and buffered, before and after. *)
Inductive token (f a fd : Z) s s' (all all' : list SockTaskTcp) : Prop :=
  | Queued : all' = all ++ [mkTask f a] -> acts [] [] s s' -> token f a fd s s' all all'
  | Armed : all' = all -> acts [fd] [] s s' -> token f a fd s s' all all'
  | Closed : all' = all -> acts [] [a] s s' -> token f a fd s s' all all'.

(** No submission of the current batch has failed. *)
Definition util_flag (u : UtilTaskTcp.t) : bool :=
  if b =? 1 then UtilTaskTcp_Single.flag (UtilTaskTcp.ts u) else UtilTaskTcp_Multipe.flag (UtilTaskTcp.tm u).

Abbreviation ready := (ready cfg b).

(** With a batch the tasks buffered are given up together when the pool
    refuses them: then the flag is cleared.  A pool with room refuses none. *)
Definition token_out (f a fd : Z) (buf l : list SockTaskTcp) s (u' : UtilTaskTcp.t) s' : Prop :=
  exists buf' l', io_rel cfg s s' /\ ready u' buf' l' s' /\
    (b = 1 \/ util_flag u' = true -> token f a fd s s' (l ++ buf) (l' ++ buf')) /\
    (forall n, room (tpool s) (length buf + S n) -> util_flag u' = true /\ room (tpool s') (length buf' + n)).

Lemma token_pre f a fd buf l s s1 u' s' :
  io_quiet cfg s s1 -> acts [] [] s s1 -> token_out f a fd buf l s1 u' s' -> token_out f a fd buf l s u' s'.
Proof.
  intros [Hr Hp] Ha (buf' & l' & Hr' & Hrd & Ht & Hn). exists buf', l'. rewrite Hp in Hn.
  split; [by apply io_rel_trans with s1|]. split; [done|]. split; [|done].
  intros Hf. destruct (Ht Hf) as [E A|E A|E A]; pose proof (acts_trans _ _ _ _ _ _ _ Ha A);
    [by apply Queued|by apply Armed|by apply Closed].
Qed.

Lemma quiet_ready u buf l s s' : ready u buf l s -> io_quiet cfg s s' -> ready u buf l s'.
Proof.
  intros [Hi Hb Hl Hp] [Hr Hq]. constructor; [by apply Hr|done|by apply (io_rel_live cfg s)|by rewrite Hq].
Qed.

Lemma quiet_room u (buf : list SockTaskTcp) s s' n :
  util_flag u = true -> io_quiet cfg s s' -> room (tpool s) (length buf + S n) ->
  util_flag u = true /\ room (tpool s') (length buf + n).
Proof. intros Hf [_ ->] Hn. split; [done|]. eapply room_le; [exact Hn|lia]. Qed.

Lemma submit_token_single a f c u buf l s :
  b = 1 -> ready u buf l s -> nodes s !! a = Some c -> util_flag u = true ->
  exists u' s', submit stale a f u s = Some (u', s') /\
    token_out f a (SOCKController.fd c) buf l s u' s'.
Proof.
  intros Hone Hrd Hc Hf. assert (Ha : live s a) by (by exists c). pose proof Hrd as [Hi Hb Hlv Hp].
  pose proof Hbatch as (Hbe & _ & _). assert (E : (b =? 1) = true) by (by apply Z.eqb_eq).
  unfold util_flag in Hf. unfold submit, UtilTaskTcp.append. rewrite (ci_cfg _ _ _ Hi), Hbe.
  rewrite E in *. subst buf. unfold UtilTaskTcp_Single.append. rewrite Hf. cbn [negb].
  destruct (pool_emplace_law (mkTask f a) (tpool s) l Hp) as (ok & p' & Hemp & Hp'). rewrite Hemp. cbn [mbind option_bind].
  set (u' := UtilTaskTcp.mk (if ok then UtilTaskTcp.ts u else UtilTaskTcp_Single.mk false) (UtilTaskTcp.tm u)).
  destruct (handed_finish stale cfg b u u' [] [] l (if ok then [mkTask f a] else []) (if ok then [] else [a]) p' s)
    as (s' & Hfin & Hr & Hd);
    [done|by destruct ok; [|apply Forall_singleton]|done|by rewrite E|done|].
  exists u', s'. split; [rewrite <- Hfin; by destruct ok|]. eexists _, _. split; [exact Hr|]. split; [exact Hd|].
  split.
  2:{ intros n Hroom. destruct (room_emplace (mkTask f a) _ _ Hroom) as (p2 & Hrun2 & Hr2).
      rewrite Hemp in Hrun2. injection Hrun2 as -> <-. unfold util_flag. rewrite E. split; [done|].
      cbn [renable_all foldl mbind option_bind] in Hfin. by injection Hfin as <-. }
  intros _. destruct ok; cbn [renable_all foldl mbind option_bind] in Hfin.
  - injection Hfin as <-. apply Queued; [by rewrite !app_nil_r|by apply acts_same].
  - destruct (REnableFunc_rel stale cfg s a Hi Ha) as (s1 & Hrun & _ & Hact). unfold renableProc in Hfin.
    cbn [mbind option_bind] in Hfin. rewrite Hrun in Hfin. injection Hfin as <-.
    destruct (Hact c Hc) as [Hx|Hx]; [apply Armed|apply Closed];
      [by rewrite !app_nil_r|by eapply acts_ext; [..|exact Hx]|by rewrite !app_nil_r|by eapply acts_ext; [..|exact Hx]].
Qed.

Lemma submit_token_batch a f c u buf l s :
  b <> 1 -> ready u buf l s -> nodes s !! a = Some c -> util_flag u = true ->
  exists u' s', submit stale a f u s = Some (u', s') /\
    token_out f a (SOCKController.fd c) buf l s u' s'.
Proof.
  intros Hmany Hrd Hc Hf. assert (Ha : live s a) by (by exists c). pose proof Hrd as [Hi Hb Hlv Hp].
  pose proof Hbatch as (Hbe & Hb1 & _). assert (E : (b =? 1) = false) by (by apply Z.eqb_neq).
  unfold util_flag in Hf.
  destruct (submit_spec stale cfg b Hbatch a f u buf l s Hrd Ha) as (u0 & s0 & Hrun & buf0 & t0 & Hr0 & Hd0 & _).
  unfold submit, UtilTaskTcp.append in *. rewrite (ci_cfg _ _ _ Hi), Hbe, E in *.
  destruct (append_ok (renableProc stale) cfg b (UtilTaskTcp.tm u) buf (mkTask f a) (tpool s) (Some s) l
              Hbatch Hb Hf Hp) as (u1 & p1 & e1 & buf1 & l1 & Happ & Hrd1 & Hp1 & Hf1).
  simpl in Happ. rewrite Happ in *. cbn [mbind option_bind] in *.
  destruct e1 as [s1|]; [|discriminate Hrun]. cbn [mbind option_bind] in *. injection Hrun as <- <-.
  eexists _, _. split; [done|].
  assert (Hroom : forall n, room (tpool s) (length buf + S n) -> UtilTaskTcp_Multipe.flag u1 = true /\
            room p1 (length buf1 + n)).
  { intros n Hn. destruct (append_room (renableProc stale) cfg b Hbe Hb1 ltac:(apply Hbatch)
      (UtilTaskTcp.tm u) buf (mkTask f a) (tpool s) (Some s) l n Hb Hf Hp Hn)
      as (u2 & p2 & buf2 & Hrun2 & [Hi2 _] & Hf2 & Hr2). simpl in Hrun2. rewrite Happ in Hrun2.
    injection Hrun2 as -> -> _. destruct Hrd1 as [Hi1 _]. by rewrite (batch_inv_inj b u2 buf1 buf2 Hi1 Hi2). }
  destruct (UtilTaskTcp_Multipe.flag u1) eqn:F.
  - destruct (Hf1 eq_refl) as (Hl1 & Hs1 & Hbuf1). injection Hs1 as ->. exists buf1, l1.
    split; [apply io_rel_tpool|]. split; [|split].
    + constructor; [by apply (io_rel_tpool cfg p1 s)|by rewrite E| |done].
      destruct Hbuf1 as [-> | ->]; [constructor|]. rewrite fmap_app. apply Forall_app. split; [done|].
      by apply Forall_singleton.
    + intros _. apply Queued; [by rewrite Hl1|by apply acts_same].
    + intros n Hn. unfold util_flag. rewrite E. split; [done|by apply Hroom].
  - exists buf0, (l ++ t0). split; [done|]. split; [done|].
    split; [|intros n Hn; by destruct (Hroom n Hn)]. intros [-> | Hx]; [by rewrite Z.eqb_refl in E|].
    unfold util_flag in Hx. rewrite E in Hx. simpl in Hx. congruence.
Qed.

Lemma submit_token a f c u buf l s :
  ready u buf l s -> nodes s !! a = Some c -> util_flag u = true ->
  exists u' s', submit stale a f u s = Some (u', s') /\
    token_out f a (SOCKController.fd c) buf l s u' s'.
Proof. intros. destruct (decide (b = 1)); [by apply submit_token_single|by apply submit_token_batch]. Qed.

(** A handler, and the close that follows when it gives the connection up. *)
Definition resolves (run : state W P TP U -> option ((bool * UtilTaskTcp.t) * state W P TP U))
    (f a fd : Z) (buf l : list SockTaskTcp) s : Prop :=
  exists ok u' s1 s', run s = Some ((ok, u'), s1) /\
    when (negb ok) (ActiveClose stale a) s1 = Some (tt, s') /\ token_out f a fd buf l s u' s'.

(** Giving the connection up. *)
Lemma give_up_token f a fd u buf l s s1 :
  ready u buf l s -> live s a -> io_quiet cfg s s1 -> acts [] [] s s1 -> util_flag u = true ->
  exists s', ActiveClose stale a s1 = Some (tt, s') /\ token_out f a fd buf l s u s'.
Proof.
  intros Hrd Ha Hq Hact Hf. pose proof (quiet_ready u buf l s s1 Hrd Hq) as Hrd1.
  destruct (ActiveClose_rel stale cfg s1 a) as (s' & Hrun & Hq' & _ & Hact'); [apply Hrd1|by apply Hq|].
  exists s'. split; [done|]. assert (Hq2 : io_quiet cfg s s') by (by apply io_quiet_trans with s1).
  exists buf, l. split; [apply Hq2|]. split; [by apply (quiet_ready u buf l s)|].
  split; [intros _|by intros n; apply quiet_room]. apply Closed; [done|]. exact (acts_trans _ _ _ _ _ _ _ Hact Hact').
Qed.

(** The end of a handler: submit, or arm the connection again. *)
Lemma submit_resolves f a c u buf l s s1 :
  ready u buf l s -> nodes s1 !! a = Some c -> io_quiet cfg s s1 -> acts [] [] s s1 -> util_flag u = true ->
  exists u' s', submit stale a f u s1 = Some (u', s') /\ token_out f a (SOCKController.fd c) buf l s u' s'.
Proof.
  intros Hrd Hc Hq Hact Hf. pose proof (quiet_ready u buf l s s1 Hrd Hq) as Hrd1.
  destruct (submit_token a f c u buf l s1 Hrd1 Hc Hf) as (u' & s' & Hrun & Hout).
  exists u', s'. split; [done|]. by apply token_pre with s1.
Qed.

Lemma rearm_resolves f a c u buf l s s1 :
  ready u buf l s -> nodes s1 !! a = Some c -> io_quiet cfg s s1 -> acts [] [] s s1 -> util_flag u = true ->
  exists ok s2 s', renableEvents stale a s1 = Some (ok, s2) /\
    when (negb ok) (ActiveClose stale a) s2 = Some (tt, s') /\
    token_out f a (SOCKController.fd c) buf l s u s'.
Proof.
  intros Hrd Hc Hq Hact Hf. pose proof (quiet_ready u buf l s s1 Hrd Hq) as Hrd1.
  assert (Ha1 : live s1 a) by (by exists c). assert (Ha : live s a) by (by apply Hq).
  destruct (renableEvents_rel stale cfg s1 a) as (ok & s2 & Hrun & Hq2 & Hre); [apply Hrd1|done|].
  specialize (Hre c Hc). assert (Hq02 : io_quiet cfg s s2) by (by apply io_quiet_trans with s1).
  pose proof (acts_trans _ _ _ _ _ _ _ Hact Hre) as Hact2. destruct ok.
  - exists true, s2, s2. split; [done|]. split; [done|]. exists buf, l. split; [apply Hq02|].
    split; [by apply (quiet_ready u buf l s)|]. split; [intros _; by apply Armed|by intros n; apply quiet_room].
  - destruct (give_up_token f a (SOCKController.fd c) u buf l s s2 Hrd Ha Hq02 Hact2 Hf) as (s' & Hrun' & Hout).
    by exists false, s2, s'.
Qed.

(** The state after input or output keeps the controller, its descriptor and
    what is armed. *)
Lemma after_io_acts a c e s : effect (env s) e [] [] -> acts [] [] s (after_io a c e s).
Proof. intros He. by apply acts_none. Qed.

Lemma HandleRead_token f a c u buf l s :
  ready u buf l s -> nodes s !! a = Some c -> util_flag u = true -> rdp (proc (inst s)) = Some f ->
  resolves (HandleRead ifuel stale a u) f a (SOCKController.fd c) buf l s.
Proof.
  intros Hrd Hc Hf Hp. assert (Ha : live s a) by (by exists c). pose proof (rd_inv _ _ _ _ _ _ Hrd) as Hi.
  destruct (ci_node _ _ _ Hi a c Hc) as (_ & _ & Hwf & _). unfold resolves.
  destruct (HandleRead_spec ifuel stale a c f u s Hc Hwf Hp) as (ok & bf & e & d & _ & Hio & [Hbf _] & Hsb & _ & Hrun).
  cbv zeta in Hrun. rewrite Hrun. clear Hrun. set (c1 := SOCKController.set_readBuf bf c).
  assert (Hq : io_quiet cfg s (after_io a c1 e s))
    by (apply (after_io_quiet cfg a c); [done|by apply same_ctl_readBuf|apply Hio]).
  pose proof (after_io_acts a c1 e s (io_effect _ _ _ _ _ Hio)) as Hact.
  assert (Hc1 : nodes (after_io a c1 e s) !! a = Some c1) by apply lookup_insert_eq.
  destruct (_ || _); [|destruct (_ || _)].
  - destruct (give_up_token f a (SOCKController.fd c) u buf l s _ Hrd Ha Hq Hact Hf) as (s' & Hrun & Hout).
    by exists false, u, (after_io a c1 e s), s'.
  - destruct (submit_resolves f a c1 u buf l s _ Hrd Hc1 Hq Hact Hf) as (u' & s' & -> & Hout).
    by exists true, u', s', s'.
  - destruct (rearm_resolves f a c1 u buf l s _ Hrd Hc1 Hq Hact Hf) as (x & s2 & s' & -> & Hw & Hout).
    by exists x, u, s2, s'.
Qed.

Lemma HandleWrite_token f a c u buf l s :
  ready u buf l s -> nodes s !! a = Some c -> util_flag u = true -> wtp (proc (inst s)) = Some f ->
  resolves (HandleWrite ifuel stale a u) f a (SOCKController.fd c) buf l s.
Proof.
  intros Hrd Hc Hf Hp. assert (Ha : live s a) by (by exists c). pose proof (rd_inv _ _ _ _ _ _ Hrd) as Hi.
  destruct (ci_node _ _ _ Hi a c Hc) as (_ & _ & Hwf & _). unfold resolves.
  assert (Hno : acts [] [] s s) by (by apply acts_same).
  pose proof (HandleWrite_spec ifuel stale a c f u s Hc Hwf Hp) as Hrun. cbv zeta in Hrun.
  destruct (_ && _); [|destruct (_ =? 0xffffffff)].
  - rewrite Hrun. destruct (give_up_token f a (SOCKController.fd c) u buf l s s Hrd Ha (io_quiet_refl cfg s) Hno Hf)
      as (s' & Hrun' & Hout). by exists false, u, s, s'.
  - rewrite Hrun. destruct (submit_resolves f a c u buf l s s Hrd Hc (io_quiet_refl cfg s) Hno Hf)
      as (u' & s' & -> & Hout). by exists true, u', s', s'.
  - destruct Hrun as (r & bf & e & d & _ & Hio & [_ Hbf] & Hsb & _ & Hrun). rewrite Hrun. clear Hrun.
    set (c1 := SOCKController.set_writeBuf bf c).
    assert (Hq : io_quiet cfg s (after_io a c1 e s))
      by (apply (after_io_quiet cfg a c); [done|by apply same_ctl_writeBuf|apply Hio]).
    pose proof (after_io_acts a c1 e s (io_effect _ _ _ _ _ Hio)) as Hact.
    assert (Hc1 : nodes (after_io a c1 e s) !! a = Some c1) by apply lookup_insert_eq.
    destruct (r =? -1); [|destruct (_ <=? _)].
    + destruct (give_up_token f a (SOCKController.fd c) u buf l s _ Hrd Ha Hq Hact Hf) as (s' & Hrun & Hout).
      by exists false, u, (after_io a c1 e s), s'.
    + destruct (submit_resolves f a c1 u buf l s _ Hrd Hc1 Hq Hact Hf) as (u' & s' & -> & Hout).
      by exists true, u', s', s'.
    + destruct (rearm_resolves f a c1 u buf l s _ Hrd Hc1 Hq Hact Hf) as (x & s2 & s' & -> & Hw & Hout).
      by exists x, u, s2, s'.
Qed.

(** The server has a callback, [f], for what the event reports. *)
Definition served (f events : Z) s : Prop :=
  if has_event events (Z.lor EPOLLHUP EPOLLERR) then True
  else if has_event events (Z.lor EPOLLIN EPOLLRDHUP) then rdp (proc (inst s)) = Some f
  else if has_event events EPOLLOUT then wtp (proc (inst s)) = Some f
  else False.

Lemma io_event_spec exitfd' fd events f a u buf l s :
  ready u buf l s -> connections (inst s) !! fd = Some a -> fd <> exitfd' -> util_flag u = true ->
  served f events s ->
  exists u' s', io_event ifuel stale exitfd' (fd, events) u s = Some (Some u', s') /\
    token_out f a fd buf l s u' s'.
Proof.
  intros Hrd Hfd Hne Hf Hserved. pose proof (rd_inv _ _ _ _ _ _ Hrd) as Hi.
  destruct (ci_conn _ _ _ Hi fd a Hfd) as (c & Hc & Hcf). assert (Hlive : live s a) by (by exists c).
  assert (Hfind : find fd s = Some (a, s)) by (unfold find; by rewrite Hfd).
  unfold io_event. rewrite (proj2 (Z.eqb_neq _ _) Hne). unfold served in Hserved.
  destruct (has_event events (Z.lor EPOLLHUP EPOLLERR)).
  { rewrite (bind_some _ _ _ _ _ Hfind).
    destruct (give_up_token f a fd u buf l s s Hrd Hlive (io_quiet_refl cfg s)) as (s' & Hrun & Hout);
      [by apply acts_same|done|]. rewrite (bind_some _ _ _ _ _ Hrun). by exists u, s'. }
  destruct (has_event events (Z.lor EPOLLIN EPOLLRDHUP)).
  { rewrite (bind_some _ _ _ _ _ Hfind).
    assert (Hpeer : exists s1 c1, when (has_event events EPOLLRDHUP)
        (c ← deref stale a; put a (SOCKController.set_peerClosed true c)) s = Some (tt, s1) /\
        io_quiet cfg s s1 /\ acts [] [] s s1 /\ nodes s1 !! a = Some c1 /\ SOCKController.fd c1 = fd).
    { destruct (has_event events EPOLLRDHUP).
      - cbn [when]. rewrite (bind_some _ _ _ _ _ (deref_live stale a c s Hc)), (put_live a c) by done.
        eexists _, _. split; [done|]. split; [apply (put_rel cfg a c); [done|apply same_ctl_peer]|].
        split; [by apply acts_same|]. split; [apply lookup_insert_eq|done].
      - exists s, c. split_and!; [done|apply io_quiet_refl|by apply acts_same|done|done]. }
    destruct Hpeer as (s1 & c1 & Hrun1 & Hq1 & Hact1 & Hc1 & Hcf1). rewrite (bind_some _ _ _ _ _ Hrun1).
    destruct (HandleRead_token f a c1 u buf l s1) as (ok & u' & s2 & s' & Hrun2 & Hrun3 & Hout);
      [by apply (quiet_ready u buf l s)|done|done|by rewrite (ir_proc _ _ _ (iq_rel _ _ _ Hq1))|].
    rewrite (bind_some _ _ _ _ _ Hrun2), (bind_some _ _ _ _ _ Hrun3). exists u', s'. split; [done|].
    rewrite <- Hcf1. by apply token_pre with s1. }
  destruct (has_event events EPOLLOUT); [|done]. rewrite (bind_some _ _ _ _ _ Hfind).
  destruct (HandleWrite_token f a c u buf l s Hrd Hc Hf Hserved)
    as (ok & u' & s2 & s' & Hrun2 & Hrun3 & Hout).
  rewrite (bind_some _ _ _ _ _ Hrun2), (bind_some _ _ _ _ _ Hrun3). exists u', s'. by rewrite <- Hcf.
Qed.

(** ** A whole batch of events *)

(** Where the events [evs] of connections went: [qs] were submitted, [rs]
    armed again, [cs] closed. *)
Record spread (evs : list (Z * Z)) (tasks : list SockTaskTcp) s s' : Prop := {
  sp_split : exists qs rs cs, qs ++ rs ++ cs ≡ₚ evs /\
    ctx <$> tasks = about s qs /\ acts rs.*1 (about s cs) s s' }.

Lemma spread_nil s : spread [] [] s s.
Proof. split. exists [], [], []. split; [done|]. split; [done|]. by apply acts_same. Qed.

Lemma about_app s evs evs' : about s (evs ++ evs') = about s evs ++ about s evs'.
Proof. apply omap_app. Qed.

(** One more event in front. *)
Lemma spread_cons fd events f a evs tasks tasks1 s s1 s' l l1 :
  connections (inst s) !! fd = Some a -> io_rel cfg s s1 -> token f a fd s s1 l l1 ->
  l1 = l ++ tasks1 -> spread evs tasks s1 s' -> spread ((fd, events) :: evs) (tasks1 ++ tasks) s s'.
Proof.
  intros Ha Hr Ht -> [(qs & rs & cs & Hp & Hq & Hact)]. rewrite (about_rel cfg s s1 qs Hr) in Hq.
  rewrite (about_rel cfg s s1 cs Hr) in Hact.
  assert (Hone : about s [(fd, events)] = [a]) by (unfold about; simpl; by rewrite Ha).
  split. destruct Ht as [E A|E A|E A].
  - apply app_inv_head in E as ->. exists ((fd, events) :: qs), rs, cs. split; [simpl; by rewrite Hp|].
    rewrite (about_cons s), Hone, fmap_app, Hq. split; [done|].
    exact (acts_trans _ _ _ _ _ _ _ A Hact).
  - rewrite <- (app_nil_r l) in E at 2. apply app_inv_head in E as ->.
    exists qs, ((fd, events) :: rs), cs. split; [simpl; by rewrite <- Permutation_middle, Hp|].
    split; [done|]. exact (acts_trans _ _ _ _ _ _ _ A Hact).
  - rewrite <- (app_nil_r l) in E at 2. apply app_inv_head in E as ->.
    exists qs, rs, ((fd, events) :: cs). rewrite (about_cons s), Hone.
    split; [by rewrite app_assoc, <- Permutation_middle, <- app_assoc, Hp|].
    split; [done|]. exact (acts_trans _ _ _ _ _ _ _ A Hact).
Qed.

(** The connections closed are reported ones, each once if they were reported
    once. *)
Lemma spread_closed d evs tasks s s' :
  conn_inv cfg d s -> spread evs tasks s s' ->
  exists cl, cList (inst s') = cList (inst s) ++ cl /\
    (forall a, a ∈ cl -> a ∈ about s evs) /\ (NoDup evs.*1 -> NoDup cl).
Proof.
  intros Hs [(qs & rs & cs & Hp & _ & Hact)]. exists (about s cs). split; [apply Hact|].
  assert (Hab : about s evs ≡ₚ about s (qs ++ rs) ++ about s cs).
  { unfold about. by rewrite <- omap_app, <- app_assoc, Hp. }
  split.
  - intros a Ha. rewrite Hab. apply elem_of_app. by right.
  - intros Hnd. pose proof (about_nodup cfg d s evs Hs Hnd) as Hn. rewrite Hab in Hn.
    by apply NoDup_app in Hn as (_ & _ & ?).
Qed.

(** An event of a connection the server has a callback for. *)
Definition proper (exitfd' : Z) s (ev : Z * Z) : Prop :=
  ev.1 <> exitfd' /\ is_Some (connections (inst s) !! ev.1) /\ exists f, served f ev.2 s.

Lemma proper_rel x s s' evs : io_rel cfg s s' -> Forall (proper x s) evs -> Forall (proper x s') evs.
Proof. intros Hr. unfold proper, served. by rewrite (ir_conn _ _ _ Hr), (ir_proc _ _ _ Hr). Qed.

(** At the end of a batch everything buffered goes into the pool. *)
Lemma flush_room u buf l n s :
  ready u buf l s -> util_flag u = true -> room (tpool s) (length buf + n) ->
  exists u' s', flush stale u s = Some (u', s') /\ io_rel cfg s s' /\ ready u' [] (l ++ buf) s' /\
    util_flag u' = true /\ acts [] [] s s'.
Proof.
  intros Hrd Hf Hroom. pose proof Hrd as [Hi Hb Hlv Hp]. pose proof Hbatch as (Hc & Hb1 & Hcap).
  pose proof (ci_cfg _ _ _ Hi) as Hcfg. unfold flush, UtilTaskTcp.reset. rewrite Hcfg, Hc.
  unfold util_flag in *. destruct (b =? 1) eqn:E.
  - subst buf. cbn [mbind option_bind]. eexists _, _. split; [done|]. split; [apply io_rel_tpool|].
    split; [|split; [done|by apply acts_same]]. rewrite app_nil_r.
    constructor; [by apply (io_rel_tpool cfg (tpool s) s)|by rewrite E|done|done].
  - destruct Hb as [Hbi Hlt].
    destruct (commit_room (renableProc stale) cfg b Hc Hb1 Hcap _ _ (tpool s) (Some s) l n Hbi Hf Hp Hroom)
      as (u2 & p2 & Hrun & Hi2 & Hf2 & Hp2 & Hr2).
    rewrite Hrun. cbn [mbind option_bind]. eexists _, _. split; [done|]. split; [apply io_rel_tpool|].
    split; [|split; [done|by apply acts_same]].
    constructor; [by apply (io_rel_tpool cfg p2 s)|rewrite E|done|done].
    split; [|simpl; lia]. by destruct Hi2; constructor.
Qed.

Lemma io_events_spread exitfd' evs u buf l s :
  ready u buf l s -> util_flag u = true -> room (tpool s) (length buf + length evs) ->
  Forall (proper exitfd' s) evs ->
  exists u' s' tasks, io_events ifuel stale exitfd' evs u s = Some (Some u', s') /\ io_rel cfg s s' /\
    ready u' [] (l ++ buf ++ tasks) s' /\ util_flag u' = true /\ spread evs tasks s s'.
Proof.
  revert u buf l s. induction evs as [|[fd events] evs IH]; intros u buf l s Hrd Hf Hroom Hprop; cbn [io_events].
  - destruct (flush_room u buf l 0 s Hrd Hf Hroom) as (u' & s' & Hrun & Hr & Hrd' & Hf' & Hact).
    rewrite (bind_some _ _ _ _ _ Hrun). exists u', s', []. split; [done|]. split; [done|].
    rewrite app_nil_r. split; [done|]. split; [done|]. split. by exists [], [], [].
  - apply Forall_cons in Hprop as [(Hne & [a Ha] & f & Hserved) Hprop]. simpl in Hne, Ha, Hserved.
    destruct (io_event_spec exitfd' fd events f a u buf l s Hrd Ha Hne Hf Hserved)
      as (u1 & s1 & Hrun & buf1 & l1 & Hr1 & Hrd1 & Ht & Hn). rewrite (bind_some _ _ _ _ _ Hrun).
    destruct (Hn (length evs) Hroom) as [Hf1 Hroom1]. specialize (Ht (or_intror Hf1)).
    destruct (IH u1 buf1 l1 s1 Hrd1 Hf1 Hroom1) as (u' & s' & tasks & Hrun' & Hr' & Hrd' & Hf' & Hsp).
    { by apply (proper_rel _ s). }
    assert (Hl1 : exists tasks1, l1 ++ buf1 = (l ++ buf) ++ tasks1).
    { destruct Ht as [-> _ | -> _ | -> _]; [by eexists|by exists []; rewrite app_nil_r ..]. }
    destruct Hl1 as [tasks1 Hl1]. exists u', s', (tasks1 ++ tasks). split; [done|].
    split; [by apply io_rel_trans with s1|]. split; [|split; [done|]].
    + by rewrite (app_assoc buf), (app_assoc l), (app_assoc l buf), <- Hl1, <- app_assoc.
    + by apply (spread_cons fd events f a evs tasks tasks1 s s1 s' (l ++ buf) (l1 ++ buf1)).
Qed.
End token.
