(* ===== verification/TcpMain.v ===== *)
(** * TcpMain: the main thread of the TCP server

    [tidy]: what the main thread relies on between two turns of its loop: the
    state is consistent ([conn_inv]), the close list names controllers that
    exist, each once, descriptor 0 is not a connection and there is an IO
    thread.  The turns themselves are in [ServerSpec], where the main thread
    runs among the others. *)

From S2P Require Import Prelude Types State BufferProvider Buffer BufferSpec Kernel Controller.
From S2P Require Import ControllerSpec TaskPool Task Tcp TcpSpec TcpIo.
Import SPSockTcp.

Section main.
Context {W P TP U : Type} {cap : BUFFER_TYPE -> Z}.
Context `{HW : Kernel W} `{HP : BufferProviderLaws P cap} `{HT : TaskPool SockTaskTcp TP}.
Context `{HC : Callbacks U}.
Context (cfg : SPTcpConfig).
Implicit Types s : state W P TP U.

Record tidy s : Prop := {
  td_inv : conn_inv cfg exact s;
  td_nodup : NoDup (cList (inst s));
  td_live : Forall (fun a => is_Some (nodes s !! a)) (cList (inst s));
  td_zero : connections (inst s) !! 0 = None;
  td_loops : loopInfo (inst s) <> [] }.

(** Only the kernel, the exit flag or the user's state changed. *)
Definition still s s' : Prop :=
  inst s' = inst s /\ g s' = g s /\ nodes s' = nodes s /\ next_node s' = next_node s /\ bufp s' = bufp s.

Lemma still_inv d s s' : still s s' -> conn_inv cfg d s -> conn_inv cfg d s'.
Proof.
  intros (Hi & Hg & Hn & Hx & Hb) [? ? ? ? ? ? ?].
  constructor; rewrite ?Hi, ?Hg, ?Hn, ?Hx, ?Hb; assumption.
Qed.

(** A turn of an IO thread leaves a tidy state when it closes connections that
    were not closed before, each once. *)
Lemma io_tidy s s' cl :
  tidy s -> io_rel cfg s s' -> cList (inst s') = cList (inst s) ++ cl ->
  (forall a, a ∈ cl -> a ∉ cList (inst s)) -> NoDup cl -> tidy s'.
Proof.
  intros [Hi Hnd Hl Hz Hlo] Hr Hcl Hnew Hcn. split.
  - by apply Hr.
  - rewrite Hcl. apply NoDup_app. split; [done|]. split; [|done]. intros a Ha Hin. by apply (Hnew a).
  - destruct (ir_list _ _ _ Hr) as (l & Hl' & Hlive). rewrite Hl'. apply Forall_app. split.
    + exact (io_rel_live cfg s s' _ Hr Hl).
    + exact (io_rel_live cfg s s' _ Hr Hlive).
  - by rewrite (ir_conn _ _ _ Hr).
  - by rewrite (ir_loops _ _ _ Hr).
Qed.

(** ** The calls of a turn *)

Lemma load_exitFlag_run s :
  exists e b, load_exitFlag s = Some (exitFlag (set_exitFlag b s), set_exitFlag b (set_env e s)) /\
    (exitFlag s = false -> b = false) /\ shuts (env s) e [].
Proof.
  unfold load_exitFlag. pose proof (shuts_call Exit_flag (env s) eq_refl) as Hsh. rewrite (bind_some _ _ _ _ _ (sys_run Exit_flag s)).
  set (r := call Exit_flag (env s)). exists r.2.
  exists (match r.1 with inr false => false | _ => exitFlag s end).
  assert (Hsame : set_exitFlag (exitFlag s) (set_env r.2 s) = set_env r.2 s) by done.
  destruct r.1 as [err|[|]]; (split; [|by split]); rewrite ?Hsame; done.
Qed.

Lemma clock_run s : exists now e, clock s = Some (now, set_env e s) /\ shuts (env s) e [].
Proof.
  unfold clock. rewrite (bind_some _ _ _ _ _ (sys_run _ s)). eexists _, _. split; [done|].
  exact (shuts_call Steady_clock_ns (env s) eq_refl).
Qed.
End main.
