(* ===== verification/TcpFrame.v ===== *)
(** * TcpFrame: what handlers leave alone

    [respects R m]: the state after [m] is related by [R] to the state before.
    For a preorder the property is closed under the ways handlers are put
    together, so that a handler has it because its primitive operations do.
    Used for [same_pool_as] (the main thread leaves the worker pool alone) and
    [unarmed] (until the main loop runs nothing is watched). *)

From S2P Require Import Prelude Types State BufferProvider Kernel Controller TaskPool Task Tcp.
Import SPSockTcp.

Section respects.
Context {S : Type} (R : relation S) `{!PreOrder R}.

Definition respects {A} (m : st S A) : Prop := forall s x s', m s = Some (x, s') -> R s s'.

Lemma respects_ret {A} (x : A) : respects (mret x).
Proof. by intros s y s' [= _ <-]. Qed.

Lemma respects_bind {A B} (m : st S A) (f : A -> st S B) :
  respects m -> (forall x, respects (f x)) -> respects (m ≫= f).
Proof.
  intros Hm Hf s y s'. rewrite bind_run. destruct (m s) as [[x s1]|] eqn:E; [|done]. simpl.
  intros Hy. transitivity s1; [by apply (Hm s x)|by apply (Hf x s1 y)].
Qed.

Lemma respects_when b m : respects m -> respects (when b m).
Proof. intros Hm. destruct b; [done|apply respects_ret]. Qed.

Lemma respects_for_each {A} (f : A -> st S unit) l : (forall x, respects (f x)) -> respects (for_each f l).
Proof. intros Hf. induction l as [|x l IH]; [apply respects_ret|]. by apply respects_bind. Qed.

Lemma respects_gets {A} (f : S -> A) : respects (gets f).
Proof. by intros s x s' [= _ <-]. Qed.

Lemma respects_modify f : (forall s, R s (f s)) -> respects (modify f).
Proof. intros Hf s x s' [= _ <-]. apply Hf. Qed.

Lemma respects_lift {A} (o : option A) : respects (lift o).
Proof. intros s x s'. unfold lift. destruct o; by intros [= _ <-]. Qed.
End respects.

Create HintDb respects.
#[export] Hint Resolve respects_ret respects_gets respects_lift : respects.

(** Along the structure of a handler. *)
Ltac respects_step :=
  first
    [ solve [auto with respects typeclass_instances]
    | apply respects_bind; [apply _| |intros ?]
    | apply respects_when; [apply _|]
    | apply respects_for_each; [apply _|intros ?]
    | apply respects_modify; intros ?; done
    | match goal with |- respects _ (match ?x with _ => _ end) => destruct x end ].

(** ** The worker pool *)

Section pool.
Context {W P TP U : Type} `{Kernel W} `{BufferProvider P} `{TaskPool SockTaskTcp TP} `{Callbacks U}.
Context (uninit : BUFFER_TYPE -> list byte) (stale : SOCKController.t -> option SOCKController.t).
Abbreviation state := (state W P TP U).

Definition same_pool_as (s s' : state) : Prop := tpool s' = tpool s.

#[local] Instance same_pool_preorder : PreOrder same_pool_as.
Proof. split; [done|]. intros s1 s2 s3. unfold same_pool_as. congruence. Qed.

Abbreviation keeps := (respects same_pool_as).

Lemma keeps_sys {A} (c : syscall A) : keeps (sys c).
Proof. intros s x s'. unfold sys. destruct (call c (env s)). by intros [= _ <-]. Qed.

Lemma keeps_deref a : keeps (deref stale a).
Proof.
  intros s x s'. unfold deref.
  destruct (match nodes s !! a with Some _ => _ | None => _ end); by intros [= _ <-].
Qed.

Lemma keeps_put a c : keeps (put a c).
Proof. intros s x s'. unfold put. destruct (nodes s !! a); by intros [= _ <-]. Qed.

Lemma keeps_erase fd : keeps (erase fd).
Proof.
  intros s x s'. unfold erase. destruct (connections (inst s) !! fd); [|by intros [= _ <-]].
  destruct (nodes s !! _); [|done]. simpl. destruct (SOCKController.destroy _ _); [|done]. by intros [= _ <-].
Qed.

Lemma keeps_emplace fd : keeps (emplace fd).
Proof. intros s x s'. unfold emplace. destruct (connections (inst s) !! fd); by intros [= _ <-]. Qed.

Lemma keeps_call_cnp ip port : keeps (call_cnp ip port).
Proof.
  intros s x s'. unfold call_cnp. destruct (cnp (proc (inst s))) as [f|]; [|by intros [= _ <-]].
  destruct (cnp_call f ip port (user s)). by intros [= _ <-].
Qed.
#[local] Hint Resolve keeps_sys keeps_deref keeps_put keeps_erase keeps_emplace keeps_call_cnp : respects.

Lemma keeps_CloseConnection a : keeps (CloseConnection stale a).
Proof. unfold CloseConnection, call_csp, field, sys_. repeat respects_step. Qed.

Lemma keeps_add_count d c : keeps (add_count d c).
Proof. unfold add_count, field, update. repeat respects_step. Qed.
#[local] Hint Resolve keeps_CloseConnection keeps_add_count : respects.

Lemma keeps_HandleCloseList : keeps (HandleCloseList stale).
Proof. unfold HandleCloseList, close_one, field, update. repeat respects_step. Qed.

Lemma keeps_register a fd ip port : keeps (register uninit stale a fd ip port).
Proof. unfold register, prepare, init_node, watch, loop_of, field. repeat respects_step. Qed.
#[local] Hint Resolve keeps_HandleCloseList keeps_register : respects.

Lemma keeps_HandleConnect idlefd : keeps (HandleConnect uninit stale idlefd).
Proof. unfold HandleConnect, enrol, SetKeepAlive, SetLinger, field, sys_. repeat respects_step. Qed.
#[local] Hint Resolve keeps_HandleConnect : respects.

Lemma keeps_main_round idlefd last : keeps (main_round uninit stale idlefd last).
Proof. unfold main_round, load_exitFlag, SetExitFlag, clock, field, sys_. repeat respects_step. Qed.
End pool.

(** ** The kernel, before the main loop *)

Section kernel.
Context {W P TP U : Type} `{Kernel W} `{BufferProvider P} `{TaskPool SockTaskTcp TP} `{Callbacks U}.
Abbreviation state := (state W P TP U).

(** The calls made arm nothing. *)
Definition unarmed (s s' : state) : Prop := exists un, effect (env s) (env s') [] un.

#[local] Instance unarmed_preorder : PreOrder unarmed.
Proof.
  split; [intros s; exists []; apply effect_refl|]. intros s1 s2 s3 [u1 E1] [u2 E2].
  exists (u1 ++ u2). exact (effect_trans _ _ _ _ _ _ _ E1 E2).
Qed.

Lemma unarmed_env s s' : env s' = env s -> unarmed s s'.
Proof. intros E. exists []. rewrite E. apply effect_refl. Qed.

(** A call that arms nothing and writes to no event descriptor. *)
Definition tame {A} (c : syscall A) : bool :=
  match c with
  | Epoll_ctl _ _ _ events => negb (has_event events EPOLLONESHOT)
  | Eventfd_write _ _ => false
  | _ => true
  end.

Lemma unarmed_sys {A} (c : syscall A) : tame c = true -> respects unarmed (sys c).
Proof.
  intros Hc s x s'. unfold sys.
  assert (Hs : signalled_ev (Ev c (call c (env s)).1) = []) by (by destruct c).
  pose proof (effect_call c (env s) Hs) as He.
  assert (Ha : armed_ev (Ev c (call c (env s)).1) = []).
  { destruct c; try done. simpl in *. apply negb_true_iff in Hc. destruct (call _ _).1, op; simpl; by rewrite ?Hc. }
  rewrite Ha in He. destruct (call c (env s)) as [r e]. intros [= _ <-]. by eexists.
Qed.

Lemma unarmed_CreateIOEventLoop num : respects unarmed (CreateIOEventLoop num).
Proof.
  assert (Hloop : forall n, respects unarmed (create_loops n)).
  { assert (respects unarmed create_loop).
    { unfold create_loop, field, update, sys_.
      repeat first [respects_step | by apply unarmed_sys | apply respects_modify; intros ?; by apply unarmed_env]. }
    intros n. induction n as [|n IH]; [apply respects_ret, _|].
    cbn [create_loops]. repeat respects_step. }
  unfold CreateIOEventLoop, close_loop, field, update, sys_.
  repeat first [respects_step | by apply unarmed_sys | apply respects_modify; intros ?; by apply unarmed_env].
Qed.
End kernel.

(** ** The upkeep of connections: the relations that hold when the kernel is
    not called at all, or only to close, watch or set up descriptors *)

Definition upkeep {A} (c : syscall A) : bool :=
  match c with
  | Close _ | Epoll_ctl _ _ _ _ | Setsockopt _ _ | Fcntl_getfl _ | Fcntl_setfl _ _ => true
  | _ => false
  end.

Section upkeep.
Context {W P TP U : Type} `{Kernel W} `{BufferProvider P} `{TaskPool SockTaskTcp TP} `{Callbacks U}.
Context (uninit : BUFFER_TYPE -> list byte) (stale : SOCKController.t -> option SOCKController.t).
Abbreviation state := (state W P TP U).
Context (R : relation state) `{!PreOrder R}.
Context (Henv : forall s s' : state, env s' = env s -> R s s').
Context (Hsys : forall A (c : syscall A), upkeep c = true -> respects R (sys c)).

Ltac upkeep_tac :=
  repeat first [respects_step | by apply Hsys | apply respects_modify; intros ?; by apply Henv].

Lemma upkeep_deref a : respects R (deref stale a).
Proof.
  intros s x s' E. apply Henv. revert E. unfold deref. destruct (nodes s !! a); simpl; [by intros [= _ <-]|].
  destruct (freed s !! a ≫= stale); by intros [= _ <-].
Qed.

Lemma upkeep_put a c : respects R (put a c).
Proof. intros s x s'. unfold put. destruct (nodes s !! a); intros [= _ <-]. by apply Henv. Qed.

Lemma upkeep_erase fd : respects R (erase fd).
Proof.
  intros s x s'. unfold erase. destruct (connections (inst s) !! fd); [|by intros [= _ <-]].
  destruct (nodes s !! _); [|done]. simpl. destruct (SOCKController.destroy _ _); intros [= _ <-]. by apply Henv.
Qed.

Lemma upkeep_emplace fd : respects R (emplace fd).
Proof. intros s x s'. unfold emplace. destruct (connections (inst s) !! fd); intros [= _ <-]; by apply Henv. Qed.

Lemma upkeep_call_cnp ip port : respects R (call_cnp ip port).
Proof.
  intros s x s'. unfold call_cnp. destruct (cnp (proc (inst s))) as [f|]; [|by intros [= _ <-]].
  destruct (cnp_call f ip port (user s)). intros [= _ <-]. by apply Henv.
Qed.
#[local] Hint Resolve upkeep_deref upkeep_put upkeep_erase upkeep_emplace upkeep_call_cnp : respects.

Lemma upkeep_CloseConnection a : respects R (CloseConnection stale a).
Proof. unfold CloseConnection, call_csp, field, sys_. upkeep_tac. Qed.

Lemma upkeep_add_count d c : respects R (add_count d c).
Proof. unfold add_count, field, update. upkeep_tac. Qed.
#[local] Hint Resolve upkeep_CloseConnection upkeep_add_count : respects.

Lemma upkeep_HandleCloseList : respects R (HandleCloseList stale).
Proof. unfold HandleCloseList, close_one, field, update. upkeep_tac. Qed.

Lemma upkeep_register a fd ip port : respects R (register uninit stale a fd ip port).
Proof. unfold register, prepare, init_node, watch, loop_of, field. upkeep_tac. Qed.
#[local] Hint Resolve upkeep_register : respects.

(** Accepting, after [accept]. *)
Lemma upkeep_accepted fd ip port (al : SPSockAlive) :
  respects R (_ ← when (negb (keepAlive al =? 0)) (SetKeepAlive fd);
              ln ← field lin;
              _ ← when (negb (l_onoff ln =? 0)) (SetLinger fd);
              enrol uninit stale fd ip port).
Proof. unfold enrol, SetKeepAlive, SetLinger, field, sys_. upkeep_tac. Qed.
End upkeep.

(** ** Nothing is opened *)

Section opens.
Context {W P TP U : Type} `{Kernel W}.
Abbreviation state := (state W P TP U).

Definition opens_none (s s' : state) : Prop := opened (env s') = opened (env s).

#[export] Instance opens_none_preorder : PreOrder opens_none.
Proof. split; [done|]. intros s1 s2 s3. unfold opens_none. congruence. Qed.

Lemma opens_none_env s s' : env s' = env s -> opens_none s s'.
Proof. unfold opens_none. congruence. Qed.

Lemma opens_none_sys A (c : syscall A) : upkeep c = true -> respects opens_none (sys c).
Proof.
  intros Hc s x s'. unfold sys. pose proof (opened_call c (env s)) as Ho.
  destruct (call c (env s)) as [r e]. intros [= _ <-]. unfold opens_none. simpl in Ho |- *. rewrite Ho.
  destruct c; try done; apply app_nil_r.
Qed.
End opens.
