(* ===== verification/Callback.v ===== *)
(** * Callback: what runs in a worker

    A callback is the user's code: it talks to the library through the members
    of SOCKController only.  [prog] is such a program, a tree of calls, each
    followed by what the program does with the result; [user_step] makes the
    next call.  [disciplined] is the contract of SPController.h: on every path
    the callback arms its connection or closes it, once, and does nothing with
    it afterwards.

    [enableEvents] is not one step: it first arms the descriptor and then
    writes the member [events], so that another thread may already be at work
    on the connection when it does ([frame]). *)

From S2P Require Import Prelude Types State BufferProvider Kernel Controller TaskPool Task Tcp.
Import SPSockTcp.

Module Callback.

Section prog.
Context {U : Type}.

(** The calls a callback can make.  [Own] is the user's own state.  The two
    members that hand out the buffers themselves are left to the members that
    work on them. *)
Inductive prog : Type :=
  | Return
  | GetCtx (k : option Z -> prog)
  | IsPeerClosed (k : bool -> prog)
  | GetReadBufferSize (k : Z -> prog)
  | GetWriteBufferSize (k : Z -> prog)
  | GetReadBufferCapacity (k : Z -> prog)
  | GetWriteBufferCapacity (k : Z -> prog)
  | Read (len : Z) (k : Z * list byte -> prog)
  | Peek (len : Z) (k : Z * list byte -> prog)
  | WriteTemp (buf : list byte) (k : Z -> prog)
  | Write (buf : list byte) (k : Z -> prog)
  | CommitWrite (k : Z -> prog)
  | WriteBack (k : Z -> prog)
  | MoveToWriteBuffer (k : Z -> prog)
  | EnableEvents (rd wr : bool) (k : bool -> prog)
  | CloseIt (k : prog)
  | Own (f : U -> U) (k : U -> prog).

(** Every path ends by arming or closing the connection, and with that. *)
Fixpoint disciplined (p : prog) : Prop :=
  match p with
  | Return => False
  | GetCtx k => forall x, disciplined (k x)
  | IsPeerClosed k => forall b, disciplined (k b)
  | GetReadBufferSize k | GetWriteBufferSize k | GetReadBufferCapacity k | GetWriteBufferCapacity k
  | WriteTemp _ k | Write _ k | CommitWrite k
  | WriteBack k | MoveToWriteBuffer k => forall n, disciplined (k n)
  | Read _ k | Peek _ k => forall x, disciplined (k x)
  | EnableEvents _ _ k => k true = Return /\ disciplined (k false)
  | CloseIt k => k = Return
  | Own _ k => forall u, disciplined (k u)
  end.

(** The writes to [events] that end [enableEvents]: [events = 0], [|=]. *)
Inductive store := Clear | Add (mask : Z).

Definition apply_store (v : Z) (st : store) : Z :=
  match st with Clear => 0 | Add mask => Z.lor v mask end.

Definition enable_stores (rd wr ret : bool) : list store :=
  Clear :: if ret then (if rd then [Add EPOLLIN] else []) ++ (if wr then [Add EPOLLOUT] else []) else [].

(** A callback on its way: the writes still to be made, then the program. *)
Record frame := mkFrame { pending : list store; rest : prog }.

Definition start (p : prog) : frame := mkFrame [] p.
Definition finished (fr : frame) : bool :=
  match pending fr, rest fr with [], Return => true | _, _ => false end.
End prog.

Arguments prog : clear implicits.
Arguments frame : clear implicits.

(** ** Running a callback *)

Section run.
Context {W P TP U : Type} `{Kernel W} `{BufferProvider P} `{TaskPool SockTaskTcp TP}.
Context (ifuel : nat) (stale : SOCKController.t -> option SOCKController.t).

Abbreviation state := (state W P TP U).
Abbreviation M := (st state).

(** A member function of the controller at [a] that makes no call. *)
Definition on_ctl {A} (a : Z) (f : SOCKController.t -> option (A * SOCKController.t)) : M A :=
  c ← deref stale a;
  '(x, c) ← lift (f c);
  _ ← put a c;
  mret x.

(** A write to [events].  Writing to a destroyed controller is undefined; where
    [stale] says its memory is still there, that memory changes. *)
Definition write_events (a : Z) (w : store) : M unit := fun s =>
  let upd c := SOCKController.set_events (apply_store (SOCKController.events c) w) c in
  match nodes s !! a with
  | Some c => Some (tt, set_nodes (<[a := upd c]> (nodes s)) s)
  | None => c ← freed s !! a ≫= stale; Some (tt, set_freed (<[a := upd c]> (freed s)) s)
  end.

(** The next call of the callback running on the controller at [a]. *)
Definition user_call (a : Z) (p : prog U) : M (frame U) :=
  match p with
  | Return => mret (start Return)
  | GetCtx k => c ← deref stale a; mret (start (k (SOCKController.getCtx c)))
  | IsPeerClosed k => c ← deref stale a; mret (start (k (SOCKController.isPeerClosed c)))
  | GetReadBufferSize k => c ← deref stale a; mret (start (k (SOCKController.getReadBufferSize c)))
  | GetWriteBufferSize k => c ← deref stale a; mret (start (k (SOCKController.getWriteBufferSize c)))
  | GetReadBufferCapacity k =>
      cfg ← gets (fun s => tcpConfig (g s)); mret (start (k (SOCKController.getReadBufferCapacity cfg)))
  | GetWriteBufferCapacity k =>
      cfg ← gets (fun s => tcpConfig (g s)); mret (start (k (SOCKController.getWriteBufferCapacity cfg)))
  | Read len k =>
      x ← on_ctl a (fun c => '(n, d, c) ← SOCKController.read len c; Some ((n, d), c));
      mret (start (k x))
  | Peek len k =>
      x ← on_ctl a (fun c => '(n, d) ← SOCKController.peek len c; Some ((n, d), c));
      mret (start (k x))
  | WriteTemp buf k =>
      n ← on_ctl a (SOCKController.writeTemp buf (Z.of_nat (length buf))); mret (start (k n))
  | Write buf k => n ← on_io stale a (SOCKController.write ifuel buf); mret (start (k n))
  | CommitWrite k => n ← on_io stale a (SOCKController.commitWrite ifuel); mret (start (k n))
  | WriteBack k => n ← on_io stale a (SOCKController.writeBack ifuel); mret (start (k n))
  | MoveToWriteBuffer k => n ← on_ctl a SOCKController.moveToWriteBuffer; mret (start (k n))
  | EnableEvents rd wr k =>
      c ← deref stale a;
      ret ← EnableEvent c rd wr;
      mret (mkFrame (enable_stores rd wr ret) (k ret))
  | CloseIt k => _ ← ActiveClose stale a; mret (start k)
  | Own f k => u ← gets user; _ ← modify (fun s => set_user (f (user s)) s); mret (start (k u))
  end.

Definition user_step (a : Z) (fr : frame U) : M (frame U) :=
  match pending fr with
  | w :: l => _ ← write_events a w; mret (mkFrame l (rest fr))
  | [] => user_call a (rest fr)
  end.
End run.

(** ** The echo server of example/example_tcp.cpp *)

Definition echo_read_write_proc {U} : prog U :=
  IsPeerClosed (fun closed =>
    if closed then CloseIt Return else
    WriteBack (fun n =>
      if n <? 0 then CloseIt Return else
      GetReadBufferSize (fun size =>
        let arm rd wr := EnableEvents rd wr (fun ret => if ret then Return else CloseIt Return) in
        if negb (size =? 0) then arm false true else arm true false))).

Lemma echo_disciplined {U} : disciplined (U := U) echo_read_write_proc.
Proof.
  intros [|]; [done|]. intros n. destruct (n <? 0); [done|]. intros size.
  by destruct (negb (size =? 0)).
Qed.

(** Nothing interfering, arming and the writes after it are [enableEvents]. *)
Lemma enable_stores_events rd wr ret v :
  foldl apply_store v (enable_stores rd wr ret)
    = if ret then Z.lor (if rd then EPOLLIN else 0) (if wr then EPOLLOUT else 0) else 0.
Proof. by destruct rd, wr, ret. Qed.

End Callback.
