(* ===== verification/CallbackSpec.v ===== *)
(** * CallbackSpec: what a callback does to the server

    [user_call_spec]: the next call of a disciplined callback is defined as long
    as its connection exists, leaves the server consistent, and either keeps
    the connection (the program that is left is disciplined again), or arms it,
    or gives it to the close list, and is then done with it. *)

From S2P Require Import Prelude Types State BufferProvider Buffer BufferSpec Kernel Controller.
From S2P Require Import ControllerSpec TaskPool Task TaskSpec Tcp TcpSpec TcpIo Callback.
Import SPSockTcp.
Import Callback.

Section spec.
Context {W P TP U : Type} {cap : BUFFER_TYPE -> Z}.
Context `{HK : KernelLaws W} `{HP : BufferProviderLaws P cap} `{HT : TaskPool SockTaskTcp TP}.
Context (ifuel : nat) `{HPat : !Patient W ifuel}.
Context (stale : SOCKController.t -> option SOCKController.t) (cfg : SPTcpConfig).
Implicit Types s : state W P TP U.

(** What a thread other than the main one may do to the server. *)
Record mild s s' : Prop := {
  ml_inv : conn_inv cfg exact s -> conn_inv cfg exact s';
  ml_live a : live s' a <-> live s a;
  ml_conn : connections (inst s') = connections (inst s);
  ml_loops : loopInfo (inst s') = loopInfo (inst s);
  ml_steady : steady s s';
  ml_closed : closed (env s') = closed (env s) }.

Lemma steady_live s s' :
  (forall a, live s' a <-> live s a) -> freed s' = freed s -> proc (inst s') = proc (inst s) -> steady s s'.
Proof.
  intros Hl Hf Hp. split; [done|]. unfold known. rewrite Hf. intros a [Ha|Ha]; [left|by right].
  by apply Hl.
Qed.

Lemma io_rel_mild s s' : io_rel cfg s s' -> mild s s'.
Proof. intros [? ? ? ? ? ? ? ? ? ?]. split; try done. by apply steady_live. Qed.

Lemma mild_refl s : mild s s.
Proof. split; try done. Qed.

Lemma mild_user u s : mild s (set_user u s).
Proof. split; try done. by intros []; constructor. Qed.

(** ** Member functions of the controller *)

(** [f] leaves a controller that differs in events, flags and contents only. *)
Definition gentle {A} (a : Z) (f : SOCKController.t -> option (A * SOCKController.t)) s : Prop :=
  forall c, nodes s !! a = Some c -> ctl_wf c -> exists x c', f c = Some (x, c') /\ same_ctl c c'.

Lemma on_ctl_spec {A} a (f : SOCKController.t -> option (A * SOCKController.t)) s :
  conn_inv cfg exact s -> live s a -> gentle a f s ->
  exists x s', on_ctl stale a f s = Some (x, s') /\ io_quiet cfg s s' /\ acts [] [] s s'.
Proof.
  intros Hs [c Hc] Hf. destruct (ci_node _ _ _ Hs a c Hc) as (_ & _ & Hwf & _).
  destruct (Hf c Hc Hwf) as (x & c' & Hrun & Hsame). unfold on_ctl.
  rewrite (bind_some _ _ _ _ _ (deref_live stale a c s Hc)), Hrun, (bind_some _ _ _ _ _ (lift_run _ s)).
  rewrite (bind_some _ _ _ _ _ (put_live a c c' s Hc)). eexists _, _. split; [done|].
  split; [by apply (put_rel cfg a c)|by apply acts_same].
Qed.

Lemma on_io_spec {A} a (f : SOCKController.t -> Env W -> option (A * SOCKController.t * Env W)) s :
  conn_inv cfg exact s -> live s a ->
  (forall c, nodes s !! a = Some c -> ctl_wf c ->
     exists x c' e rx tx, f c (env s) = Some (x, c', e) /\ same_ctl c c' /\
       io_step (SOCKController.fd c) (env s) e rx tx) ->
  exists x s', on_io stale a f s = Some (x, s') /\ io_quiet cfg s s' /\ acts [] [] s s'.
Proof.
  intros Hs [c Hc] Hf. destruct (ci_node _ _ _ Hs a c Hc) as (_ & _ & Hwf & _).
  destruct (Hf c Hc Hwf) as (x & c' & e & rx & tx & Hrun & Hsame & Hio).
  rewrite (on_io_run stale a c f x c' e s Hc Hrun). eexists _, _. split; [done|]. split.
  - apply (after_io_quiet cfg a c); [done|done|apply Hio].
  - apply acts_none; [apply Hio|done].
Qed.

Lemma same_ctl_refl c : ctl_wf c -> same_ctl c c.
Proof. by constructor. Qed.

Lemma gentle_read a len s :
  gentle a (fun c => '(n, d, c) ← SOCKController.read len c; Some ((n, d), c)) s.
Proof.
  intros c _ [Hr Hw]. unfold SOCKController.read. pose proof (u32_range len).
  destruct (read_spec (SOCKController.readBuf c) (u32 len) Hr) as (b & -> & Hb & Hsb & _); [lia|].
  eexists _, _. split; [done|]. by apply same_ctl_readBuf.
Qed.

Lemma gentle_peek a len s :
  gentle a (fun c => '(n, d) ← SOCKController.peek len c; Some ((n, d), c)) s.
Proof.
  intros c _ [Hr Hw]. unfold SOCKController.peek. pose proof (u32_range len).
  rewrite peek_spec by (done || lia). eexists _, _. split; [done|]. by apply same_ctl_refl.
Qed.

Lemma gentle_writeTemp a buf s :
  gentle a (SOCKController.writeTemp buf (Z.of_nat (length buf))) s.
Proof.
  intros c _ [Hr Hw]. unfold SOCKController.writeTemp. set (len := Z.of_nat (length buf)).
  pose proof (u32_range len). assert (u32 len <= len) by (unfold u32, len; apply Z.mod_le; lia).
  destruct (write_spec (SOCKController.writeBuf c) buf (u32 len) Hw) as (b & -> & Hb & Hsb & _); [lia..|].
  eexists _, _. split; [done|]. by apply same_ctl_writeBuf.
Qed.

Lemma same_ctl_both rb wb c :
  buf_wf rb -> buf_wf wb -> same_block (SOCKController.readBuf c) rb ->
  same_block (SOCKController.writeBuf c) wb ->
  same_ctl c (SOCKController.set_writeBuf wb (SOCKController.set_readBuf rb c)).
Proof.
  intros Hr Hw (_ & Er & Tr) (_ & Ew & Tw). split; [done|done| | |by split].
  - unfold held. simpl. by rewrite Er, Ew.
  - intros [? ?]. split; simpl; congruence.
Qed.

Lemma gentle_move a s : gentle a SOCKController.moveToWriteBuffer s.
Proof.
  intros c _ Hwf. destruct (moveToWriteBuffer_spec c Hwf) as (rb & wb & -> & Hr & Hw & Hsr & Hsw & _).
  eexists _, _. split; [done|]. by apply same_ctl_both.
Qed.

(** ** The calls *)

(** Where the callback is after a call: still at work, or done, having armed
    the connection or closed it. *)
Inductive after_call (a : Z) s (fr : frame U) s' : Prop :=
  | Working : disciplined (rest fr) -> acts [] [] s s' -> after_call a s fr s'
  | Rearmed c : nodes s !! a = Some c -> rest fr = Return ->
      acts [SOCKController.fd c] [] s s' -> after_call a s fr s'
  | GivenUp : rest fr = Return -> acts [] [a] s s' -> after_call a s fr s'.

Lemma working {A} a s (m : st (state W P TP U) A) (k : A -> prog U) :
  (forall x, disciplined (k x)) ->
  (exists x s', m s = Some (x, s') /\ io_quiet cfg s s' /\ acts [] [] s s') ->
  exists fr s', (x ← m; mret (start (k x))) s = Some (fr, s') /\ mild s s' /\ tpool s' = tpool s /\
    after_call a s fr s'.
Proof.
  intros Hk (x & s' & Hrun & [Hr Hp] & Ha). rewrite (bind_some _ _ _ _ _ Hrun).
  eexists _, _. split; [done|]. split; [by apply io_rel_mild|]. split; [done|].
  apply Working; [apply Hk|done].
Qed.

(** A member function that only looks at the controller. *)
Lemma looking {A} a s (f : SOCKController.t -> A) (k : A -> prog U) :
  live s a -> (forall x, disciplined (k x)) ->
  exists fr s', (c ← deref stale a; mret (start (k (f c)))) s = Some (fr, s') /\ mild s s' /\
    tpool s' = tpool s /\ after_call a s fr s'.
Proof.
  intros [c Hc] Hk. rewrite (bind_some _ _ _ _ _ (deref_live stale a c s Hc)).
  eexists _, _. split; [done|]. split; [apply mild_refl|]. split; [done|].
  apply Working; [apply Hk|by apply acts_same].
Qed.

(** One that reads the configuration. *)
Lemma asking {A} a s (f : state W P TP U -> A) (k : A -> prog U) :
  (forall x, disciplined (k x)) ->
  exists fr s', (x ← gets f; mret (start (k x))) s = Some (fr, s') /\ mild s s' /\ tpool s' = tpool s /\
    after_call a s fr s'.
Proof.
  intros Hk. rewrite (bind_some _ _ _ _ _ (gets_run f s)). eexists _, _. split; [done|].
  split; [apply mild_refl|]. split; [done|]. apply Working; [apply Hk|by apply acts_same].
Qed.

Lemma user_call_spec a p s :
  conn_inv cfg exact s -> live s a -> disciplined p ->
  exists fr s', user_call ifuel stale a p s = Some (fr, s') /\ mild s s' /\ tpool s' = tpool s /\
    after_call a s fr s'.
Proof.
  intros Hs Ha Hp. destruct p as [|k|k|k|k|k|k|len k|len k|buf k|buf k|k|k|k|rd wr k|k|f k]; cbn [user_call] in *.
  - done.
  - by apply looking.
  - by apply looking.
  - by apply looking.
  - by apply looking.
  - by apply (asking a s (fun s => _)).
  - by apply (asking a s (fun s => _)).
  - apply working; [done|]. by apply on_ctl_spec, gentle_read.
  - apply working; [done|]. by apply on_ctl_spec, gentle_peek.
  - apply working; [done|]. by apply on_ctl_spec, gentle_writeTemp.
  - apply working; [done|]. apply on_io_spec; [done|done|]. intros c _ Hwf.
    destruct (direct_write_spec (ifuel := ifuel) c buf (env s)) as (r & c' & e & n & Hrun & Hio & _ & -> & _).
    eexists _, _, _, _, _. split; [exact Hrun|]. split; [apply same_ctl_peer|exact Hio].
  - apply working; [done|]. apply on_io_spec; [done|done|]. intros c _ [Hr Hw].
    destruct (commitWrite_spec (ifuel := ifuel) c (env s) Hw) as (r & b & e & d & Hrun & Hio & Hb & Hsb & _).
    eexists _, _, _, _, _. split; [exact Hrun|]. split; [by apply same_ctl_writeBuf|exact Hio].
  - apply working; [done|]. apply on_io_spec; [done|done|]. intros c _ Hwf.
    destruct (writeBack_spec (ifuel := ifuel) c (env s) Hwf)
      as (r & rb & wb & e & d1 & d2 & Hrun & Hio & [Hr Hw] & Hsr & Hsw & _).
    eexists _, _, _, _, _. split; [exact Hrun|]. split; [by apply (same_ctl_both rb wb)|exact Hio].
  - apply working; [done|]. by apply on_ctl_spec, gentle_move.
  - destruct Ha as [c Hc]. destruct Hp as [Ht Hf].
    rewrite (bind_some _ _ _ _ _ (deref_live stale a c s Hc)).
    destruct (loop_of_live cfg exact s a c Hs Hc) as (info & Hloop).
    destruct (EnableEvent_run c s info rd wr) as (ret & e & Hrun & Hcl & Heff); [by apply Hloop|].
    rewrite (bind_some _ _ _ _ _ Hrun). eexists _, _. split; [done|].
    split; [by apply io_rel_mild, (io_quiet_env cfg)|]. split; [done|].
    assert (Hact : acts (if ret then [SOCKController.fd c] else []) [] s (set_env e s)).
    { split; [by rewrite app_nil_r|done|]. by exists []. }
    destruct ret; [by apply (Rearmed _ _ _ _ c)|by apply Working].
  - destruct (ActiveClose_rel stale cfg s a Hs Ha) as (s' & Hrun & [Hr Ht] & _ & Hact).
    rewrite (bind_some _ _ _ _ _ Hrun). eexists _, _. split; [done|].
    split; [by apply io_rel_mild|]. split; [done|]. by apply GivenUp.
  - rewrite (bind_some _ _ _ _ _ (gets_run _ s)), (bind_some _ _ _ _ _ (modify_run _ s)).
    eexists _, _. split; [done|]. split; [apply mild_user|]. split; [done|].
    apply Working; [apply Hp|by apply acts_same].
Qed.

(** The writes after arming, whoever has the connection by now: undefined
    when the controller was destroyed, unless its memory is still there. *)
Lemma write_events_spec a w s :
  faithful stale -> known s a ->
  write_events stale a w s = None /\ nodes s !! a = None /\ ~ resilient stale \/
  exists s', write_events stale a w s = Some (tt, s') /\ mild s s' /\ tpool s' = tpool s /\ acts [] [] s s'.
Proof.
  intros Hst Ha. unfold write_events. destruct (nodes s !! a) as [c|] eqn:Hc.
  - right. eexists. split; [done|]. split; [|split; [done|by apply acts_same]].
    apply io_rel_mild, (put_rel cfg a c); [done|apply same_ctl_events].
  - destruct Ha as [[c Hc']|[c Hf]]; [congruence|]. rewrite Hf. cbn [mbind option_bind].
    destruct (Hst c) as [E|E]; rewrite E; cbn [mbind option_bind]; [left|right].
    { split_and!; [done|done|]. intros Hre. by rewrite Hre in E. }
    eexists. split; [done|].
    split; [|split; [done|by apply acts_same]]. split; try done; [by intros []; constructor|].
    split; [done|]. intros b [Hb|Hb]; [by left|right]. simpl. apply lookup_insert_is_Some'. by right.
Qed.
End spec.
