(* ===== verification/Stream.v ===== *)
(** * Stream: the bytes of a connection, from its socket to its socket

    [flow fd e]: what was received and what was sent on the descriptor [fd]
    since [accept] last returned it, as the trace has it.  A callback that
    [relays] sends only what was received.  [relayed]: on every connection what
    was received is what was sent followed by what its buffers hold.  [silent]:
    the operations that neither accept, receive nor send. *)

From S2P Require Import Prelude Types State BufferProvider Buffer BufferSpec Kernel Controller.
From S2P Require Import ControllerSpec TaskPool Task Tcp TcpSpec TcpIo TcpFrame Callback.
Import SPSockTcp.

(** ** What went through a descriptor *)

Definition accepted_ev (ev : sysev) : list Z :=
  match ev with
  | @Ev A c r =>
      match c in syscall A return (errno + A) -> list Z with
      | Accept _ => fun r => match r with inr (fd, _) => [fd] | inl _ => [] end
      | _ => fun _ => []
      end r
  end.

(** Received, and sent. *)
Abbreviation bytes := (list byte * list byte)%type (only parsing).

Definition flow_ev (fd : Z) (x : option bytes) (ev : sysev) : option bytes :=
  if decide (fd ∈ accepted_ev ev) then Some ([], [])
  else (fun x => (x.1 ++ recvd_ev fd ev, x.2 ++ sent_ev fd ev)) <$> x.

Definition flow {W} (fd : Z) (e : Env W) : option bytes := foldl (flow_ev fd) None (tr e).

(** Calls that accept, receive and send nothing. *)
Definition plain {A} (c : syscall A) : bool :=
  match c with Recv _ _ | Send _ _ | Accept _ => false | _ => true end.

Lemma app_nothing {A} (l k : list A) : l ++ k = l -> k = [].
Proof. intros E. apply (app_inv_head l). by rewrite app_nil_r. Qed.

Section flow.
Context {W : Type} `{Kernel W}.
Implicit Types e : Env W.

Lemma flow_call {A} (c : syscall A) e fd :
  flow fd (call c e).2 = flow_ev fd (flow fd e) (Ev c (call c e).1).
Proof. unfold flow. by rewrite call_tr, foldl_app. Qed.

Lemma flow_plain {A} (c : syscall A) e fd : plain c = true -> flow fd (call c e).2 = flow fd e.
Proof.
  intros Hc. rewrite flow_call. unfold flow_ev. destruct (flow fd e) as [[rx tx]|]; destruct c; try done; simpl;
    by rewrite ?app_nil_r.
Qed.

(** A new connection, and a refused one. *)
Lemma flow_accept l e fd :
  flow fd (call (Accept l) e).2 =
    match (call (Accept l) e).1 with
    | inr (f, _) => if decide (f = fd) then Some ([], []) else flow fd e
    | inl _ => flow fd e
    end.
Proof.
  rewrite flow_call. unfold flow_ev. simpl. destruct (call (Accept l) e).1 as [err|[f x]].
  - rewrite decide_False by (by intros ?%not_elem_of_nil). destruct (flow fd e) as [[rx tx]|]; simpl; by rewrite ?app_nil_r.
  - destruct (decide (f = fd)) as [->|Hne]; [by rewrite decide_True by (by left)|].
    rewrite decide_False by (by intros ->%list_elem_of_singleton).
    destruct (flow fd e) as [[rx tx]|]; simpl; by rewrite ?app_nil_r.
Qed.

Lemma accepted_opened ev : opened_ev ev = [] -> accepted_ev ev = [].
Proof. by destruct ev as [A [] r]. Qed.

Lemma flow_evs fd x evs :
  evs ≫= opened_ev = [] ->
  foldl (flow_ev fd) x evs = (fun x => (x.1 ++ (evs ≫= recvd_ev fd), x.2 ++ (evs ≫= sent_ev fd))) <$> x.
Proof.
  revert x. induction evs as [|ev evs IH]; intros x; [destruct x as [[]|]; simpl; by rewrite ?app_nil_r|].
  rewrite !bind_cons. intros [Hev Hevs]%app_eq_nil. cbn [foldl]. rewrite IH by done.
  unfold flow_ev. rewrite accepted_opened, decide_False by (done || by intros ?%not_elem_of_nil).
  destruct x as [[]|]; simpl; by rewrite ?app_assoc.
Qed.

(** Input and output of a connection. *)
Lemma flow_io f e e' rx tx g :
  io_step f e e' rx tx ->
  flow g e' = if decide (g = f) then (fun x => (x.1 ++ rx, x.2 ++ tx)) <$> flow g e else flow g e.
Proof.
  intros [Hr Hs Ho _ Hop (evs & Hp & _)]. pose proof (path_tr _ _ _ Hp) as Ht.
  unfold opened, recvd, sent in *. unfold flow. rewrite Ht, foldl_app.
  rewrite Ht, bind_app in Hr. rewrite Ht, bind_app in Hs. rewrite Ht, bind_app in Hop.
  apply app_inv_head in Hr, Hs. apply app_nothing in Hop.
  rewrite flow_evs by done. case_decide as E; [subst g; by rewrite Hr, Hs|].
  destruct (Ho g E) as [Hr' Hs']. rewrite Ht, bind_app in Hr'. rewrite Ht, bind_app in Hs'.
  apply app_nothing in Hr', Hs'. rewrite Hr', Hs'.
  destruct (foldl _ _ _) as [[]|]; simpl; by rewrite ?app_nil_r.
Qed.
End flow.

(** ** Operations that do not touch the streams *)

Section relation.
Context {W P TP U : Type} `{Kernel W}.
Abbreviation state := (state W P TP U).
Implicit Types s : state.

Definition silent s s' : Prop := forall fd, flow fd (env s') = flow fd (env s).

#[export] Instance silent_preorder : PreOrder silent.
Proof. split; [done|]. intros s1 s2 s3 E1 E2 fd. by rewrite E2. Qed.

Lemma silent_env s s' : env s' = env s -> silent s s'.
Proof. intros E fd. by rewrite E. Qed.

Lemma silent_sys {A} (c : syscall A) : plain c = true -> respects silent (sys c).
Proof. intros Hc s x s'. rewrite sys_run. intros [= _ <-] fd. by apply flow_plain. Qed.
End relation.

Ltac silent_tac := repeat first [respects_step | by apply silent_sys | apply respects_modify; intros ?; by apply silent_env].

Section silent.
Context {W P TP U : Type} `{Kernel W} `{BufferProvider P} `{TaskPool SockTaskTcp TP} `{Callbacks U}.
Context (uninit : BUFFER_TYPE -> list byte) (stale : SOCKController.t -> option SOCKController.t).
Abbreviation state := (state W P TP U).
Implicit Types s : state.
Abbreviation silently := (respects (@silent W P TP U)).

Lemma silent_upkeep A (c : syscall A) : upkeep c = true -> silently (sys c).
Proof. intros Hc. apply silent_sys. by destruct c. Qed.

Lemma silent_CloseConnection a : silently (CloseConnection stale a).
Proof. apply upkeep_CloseConnection; [apply _|apply silent_env|apply silent_upkeep]. Qed.

Lemma silent_add_count d c : silently (add_count d c).
Proof. apply upkeep_add_count; [apply _|apply silent_env]. Qed.

Lemma silent_HandleCloseList : silently (HandleCloseList stale).
Proof. apply upkeep_HandleCloseList; [apply _|apply silent_env|apply silent_upkeep]. Qed.

(** Accepting, after [accept]. *)
Lemma silent_accepted fd ip port (al : SPSockAlive) :
  silently (_ ← when (negb (keepAlive al =? 0)) (SetKeepAlive fd);
                   ln ← field lin;
                   _ ← when (negb (l_onoff ln =? 0)) (SetLinger fd);
                   enrol uninit stale fd ip port).
Proof. apply upkeep_accepted; [apply _|apply silent_env|apply silent_upkeep]. Qed.

Lemma silent_load_exitFlag : silently load_exitFlag.
Proof. unfold load_exitFlag, SetExitFlag. silent_tac. Qed.

Lemma silent_clock : silently clock.
Proof. unfold clock. silent_tac. Qed.

(** What leaves the controllers alone as well. *)
Definition aside s s' : Prop := nodes s' = nodes s /\ silent s s'.

#[export] Instance aside_preorder : PreOrder aside.
Proof.
  split; [by split|]. intros s1 s2 s3 [N1 E1] [N2 E2]. split; [congruence|by transitivity s2].
Qed.

Lemma aside_same s s' : nodes s' = nodes s -> env s' = env s -> aside s s'.
Proof. intros Hn He. split; [done|by apply silent_env]. Qed.

Lemma aside_sys {A} (c : syscall A) : plain c = true -> respects aside (sys c).
Proof.
  intros Hc s x s' E. split; [|by apply (silent_sys c Hc s x)].
  rewrite sys_run in E. by injection E as _ <-.
Qed.

Lemma aside_deref a : respects aside (deref stale a).
Proof.
  intros s x s'. unfold deref.
  destruct (match nodes s !! a with Some _ => _ | None => _ end); by intros [= _ <-].
Qed.
#[local] Hint Resolve aside_deref : respects.

Ltac aside_tac := repeat first [respects_step | by apply aside_sys | apply respects_modify; intros ?; by apply aside_same].

Lemma aside_EnableEvent c rd wr : respects aside (EnableEvent c rd wr).
Proof. unfold EnableEvent, loop_of, field. aside_tac. Qed.

Lemma aside_ActiveClose a : respects aside (ActiveClose stale a).
Proof. unfold ActiveClose, loop_of, field, update, sys_. aside_tac. Qed.

Lemma aside_HandleExit sg : respects aside (HandleExit sg).
Proof. unfold HandleExit. aside_tac. Qed.
End silent.

(** ** What is relayed *)

(** Received and not yet sent, in the order in which it will be. *)
Definition unsent (c : SOCKController.t) : list byte :=
  contents (SOCKController.writeBuf c) ++ contents (SOCKController.readBuf c).

(** A callback that sends nothing of its own and takes nothing away. *)
Fixpoint relays {U} (p : Callback.prog U) : Prop :=
  match p with
  | Callback.Return => True
  | Callback.Read _ _ | Callback.WriteTemp _ _ | Callback.Write _ _ => False
  | Callback.GetCtx k => forall x, relays (k x)
  | Callback.IsPeerClosed k => forall b, relays (k b)
  | Callback.GetReadBufferSize k | Callback.GetWriteBufferSize k | Callback.GetReadBufferCapacity k
  | Callback.GetWriteBufferCapacity k | Callback.CommitWrite k | Callback.WriteBack k
  | Callback.MoveToWriteBuffer k => forall n, relays (k n)
  | Callback.Peek _ k => forall x, relays (k x)
  | Callback.EnableEvents _ _ k => forall b, relays (k b)
  | Callback.CloseIt k => relays k
  | Callback.Own _ k => forall u, relays (k u)
  end.

Lemma echo_relays {U} : relays (U := U) Callback.echo_read_write_proc.
Proof.
  intros [|]; [done|]. intros n. destruct (n <? 0); [done|]. intros size.
  by destruct (negb (size =? 0)); intros [].
Qed.

Section def.
Context {W P TP U : Type}.
Implicit Types s : state W P TP U.

(** A controller that has no descriptor yet counts for nothing. *)
Record relayed s : Prop := {
  rl_prefix fd rx tx : flow fd (env s) = Some (rx, tx) -> tx `prefix_of` rx;
  rl_node a c : nodes s !! a = Some c -> SOCKController.fd c <> 0 ->
    ctl_wf c /\ exists tx, flow (SOCKController.fd c) (env s) = Some (tx ++ unsent c, tx);
  rl_apart a b c c' : nodes s !! a = Some c -> nodes s !! b = Some c' -> SOCKController.fd c <> 0 ->
    SOCKController.fd c = SOCKController.fd c' -> a = b }.
End def.
