(* ===== verification/StreamSpec.v ===== *)
(** * StreamSpec: what the server receives is what it sends and keeps

    Each operation of the server leaves a [relayed] state relayed: those that do
    not touch the sockets because they are [silent], the others by what
    ControllerSpec says of them.  [relaying] is the relation the handlers
    respect; [relayed_io_event], [relayed_user_step]: an event, a call of a
    callback. *)

From S2P Require Import Prelude Types State BufferProvider Buffer BufferSpec Kernel Controller.
From S2P Require Import ControllerSpec TaskPool Task Tcp TcpSpec TcpIo TcpFrame Callback Stream.
Import SPSockTcp.

Section relayed.
Context {W P TP U : Type} {cap : BUFFER_TYPE -> Z}.
Context `{HK : KernelLaws W} `{HP : BufferProviderLaws P cap} `{HT : TaskPool SockTaskTcp TP} `{HC : Callbacks U}.
Context (ifuel : nat) `{HPat : !Patient W ifuel}.
Context (uninit : BUFFER_TYPE -> list byte) (stale : SOCKController.t -> option SOCKController.t).
Implicit Types s : state W P TP U.

Definition relaying s s' : Prop := relayed s -> relayed s'.

#[export] Instance relaying_preorder : PreOrder relaying.
Proof. split; [by intros s Hs|]. intros s1 s2 s3 E1 E2 Hs. by apply E2, E1. Qed.

(** Fewer controllers, and none has changed. *)
Lemma silent_relaying s s' : nodes s' ⊆ nodes s -> silent s s' -> relaying s s'.
Proof.
  rewrite map_subseteq_spec. intros Hn Hf [Hp Hr Ha]. split.
  - intros fd rx tx. rewrite Hf. apply Hp.
  - intros a c Hc. rewrite Hf. by apply (Hr a), Hn.
  - intros a b c c' Hc Hc'. apply Ha; by apply Hn.
Qed.

Lemma aside_relaying s s' : aside s s' -> relaying s s'.
Proof. intros [Hn Hf]. apply silent_relaying; [by rewrite Hn|done]. Qed.

Lemma respects_aside {A} (m : st (state W P TP U) A) : respects aside m -> respects relaying m.
Proof. intros Hm s x s' Hrun. by apply aside_relaying, (Hm s x). Qed.

(** A controller changes, but for its descriptor and what is to be sent. *)
Definition kept (c c' : SOCKController.t) : Prop :=
  SOCKController.fd c' = SOCKController.fd c /\
  (ctl_wf c -> ctl_wf c' /\ unsent c' = unsent c).

Lemma relayed_change s s' a c c' rx tx :
  relayed s -> nodes s !! a = Some c -> nodes s' = <[a := c']> (nodes s) ->
  SOCKController.fd c' = SOCKController.fd c ->
  io_step (SOCKController.fd c) (env s) (env s') rx tx ->
  (SOCKController.fd c <> 0 -> ctl_wf c -> ctl_wf c' /\ tx ++ unsent c' = unsent c ++ rx) ->
  (SOCKController.fd c = 0 -> rx = [] /\ tx = []) ->
  relayed s'.
Proof.
  intros [Hp Hr Ha] Hc Hn Hfd Hio Hkept Hzero.
  assert (Hflow : forall g, flow g (env s') = if decide (g = SOCKController.fd c)
            then (fun x => (x.1 ++ rx, x.2 ++ tx)) <$> flow g (env s) else flow g (env s))
    by (intros g; by apply flow_io).
  split.
  - intros g rx' tx'. rewrite Hflow. case_decide as Eg; [|apply Hp]. subst g.
    destruct (decide (SOCKController.fd c = 0)) as [Ez|Hnz].
    + destruct (Hzero Ez) as [-> ->]. destruct (flow _ _) as [[r t]|] eqn:E; [|done]. simpl.
      rewrite !app_nil_r. intros [= <- <-]. by apply (Hp (SOCKController.fd c)).
    + destruct (Hr a c Hc Hnz) as (Hwf & t & ->). destruct (Hkept Hnz Hwf) as [_ E]. simpl.
      intros [= <- <-]. rewrite <- app_assoc, <- E, app_assoc. by apply prefix_app_r.
  - intros b c1 Hb Hnz. rewrite Hn in Hb. apply lookup_insert_Some in Hb as [[<- <-]|[Hne Hb]].
    + rewrite Hfd in *. destruct (Hr a c Hc Hnz) as (Hwf & t & E). destruct (Hkept Hnz Hwf) as [Hwf' Eu].
      split; [done|]. exists (t ++ tx). rewrite Hflow, decide_True, E by done. simpl.
      by rewrite <- !app_assoc, Eu.
    + destruct (Hr b c1 Hb Hnz) as (Hwf & t & E). split; [done|]. exists t. rewrite Hflow, decide_False; [done|].
      intros Ef. apply Hne. symmetry. by apply (Ha b a c1 c).
  - intros b b' c1 c2 Hb Hb'. rewrite Hn in Hb, Hb'.
    apply lookup_insert_Some in Hb as [[<- <-]|[Hne Hb]]; apply lookup_insert_Some in Hb' as [[<- <-]|[Hne' Hb']];
      rewrite ?Hfd; intros Hnz Ef.
    + done.
    + by apply (Ha a b' c c2).
    + by apply (Ha b a c1 c).
    + by apply (Ha b b' c1 c2).
Qed.
Lemma relayed_put s a c c' :
  relayed s -> nodes s !! a = Some c -> kept c c' -> relayed (set_nodes (<[a := c']> (nodes s)) s).
Proof.
  intros Hs Hc [Hfd Hk]. apply (relayed_change s _ a c c' [] [] Hs Hc); [done|done|apply io_refl| |done].
  intros _ Hwf. rewrite app_nil_r. by apply Hk.
Qed.

Lemma relaying_put a c c' s x s' :
  nodes s !! a = Some c -> kept c c' -> put a c' s = Some (x, s') -> relaying s s'.
Proof.
  intros Hc Hk. rewrite (put_live a c c' s Hc). intros [= _ <-] Hs. by apply (relayed_put s a c).
Qed.

(** *** Members that change events and flags *)

Lemma kept_same c c' :
  SOCKController.fd c' = SOCKController.fd c -> SOCKController.readBuf c' = SOCKController.readBuf c ->
  SOCKController.writeBuf c' = SOCKController.writeBuf c -> kept c c'.
Proof. intros Hf Hr Hw. unfold kept, ctl_wf, unsent. by rewrite Hf, Hr, Hw. Qed.

Lemma deref_state a s c s1 : deref stale a s = Some (c, s1) -> s1 = s.
Proof.
  unfold deref. destruct (match nodes s !! a with Some _ => _ | None => _ end); by intros [= _ <-].
Qed.

(** What [deref] gives when [put] succeeds. *)
Lemma deref_put_live a c c' s s1 y s' :
  deref stale a s = Some (c, s1) -> nodes s' = nodes s -> put a c' s' = Some y -> s1 = s /\ nodes s !! a = Some c.
Proof.
  intros Hd Hn Hp. unfold put in Hp. rewrite Hn in Hp. unfold deref in Hd.
  destruct (nodes s !! a) as [c0|]; [|done]. by injection Hd as <- <-.
Qed.

Lemma relaying_on_events {A} a (f : SOCKController.t -> option (state W P TP U) -> A * SOCKController.t * option _) :
  (forall c s x c' s', f c (Some s) = (x, c', Some s') -> kept c c' /\ aside s s') ->
  respects relaying (on_events stale a f).
Proof.
  intros Hf s x s'. unfold on_events. destruct (deref stale a s) as [[c s1]|] eqn:Hd; [|done]. simpl.
  pose proof (deref_state a s c s1 Hd) as ->.
  destruct (f c (Some s)) as [[y c'] [s2|]] eqn:Ef; [|done]. simpl. destruct (Hf _ _ _ _ _ Ef) as [Hk Ha].
  destruct (put a c' s2) as [[z s3]|] eqn:Hp; [|done]. intros [= _ <-].
  destruct (deref_put_live a c c' s s _ s2 Hd (proj1 Ha) Hp) as [_ Hc].
  transitivity s2; [by apply aside_relaying|].
  apply (relaying_put a c c' s2 z); [by rewrite (proj1 Ha)|done|done].
Qed.

(** [funcEvent] and [funcClose]. *)
Lemma funcEvent_aside c rd wr s b o :
  funcEvent c rd wr (Some s) = (b, o) -> forall s', o = Some s' -> aside s s'.
Proof.
  unfold funcEvent. simpl. destruct (EnableEvent c rd wr s) as [[b' s1]|] eqn:E; intros [= _ <-]; [|done].
  intros s' [= <-]. by apply (aside_EnableEvent c rd wr s b').
Qed.

Lemma funcClose_aside a c o s' :
  funcClose stale a c o = Some s' -> exists s, o = Some s /\ aside s s'.
Proof.
  unfold funcClose. destruct o as [s|]; [|done]. simpl. destruct (ActiveClose stale a s) as [[u s1]|] eqn:E; [|done].
  intros [= <-]. exists s. split; [done|]. by apply (aside_ActiveClose stale a s u).
Qed.

Lemma relaying_enableEvents a rd wr : respects relaying (enableEvents stale a rd wr).
Proof.
  apply relaying_on_events. intros c s x c' s'. unfold SOCKController.enableEvents.
  destruct (funcEvent c rd wr (Some s)) as [b o] eqn:E. intros [= _ <- ->].
  split; [by apply kept_same|]. by apply (funcEvent_aside c rd wr s b _ E).
Qed.

Lemma renableEvents_aside c s x c' s' :
  SOCKController.renableEvents funcEvent c (Some s) = (x, c', Some s') -> kept c c' /\ aside s s'.
Proof.
  unfold SOCKController.renableEvents.
  destruct (funcEvent c _ _ (Some s)) as [b o] eqn:E. intros [= _ <- ->].
  split; [by destruct b; apply kept_same|]. by apply (funcEvent_aside _ _ _ _ _ _ E).
Qed.

Lemma relaying_renableEvents a : respects relaying (renableEvents stale a).
Proof. apply relaying_on_events. intros c s x c' s'. apply renableEvents_aside. Qed.

Lemma relaying_REnableFunc a : respects relaying (REnableFunc stale a).
Proof.
  apply relaying_on_events. intros c s [] c' s'. unfold SOCKController.REnableFunc.
  destruct (SOCKController.renableEvents funcEvent c (Some s)) as [[ret c1] o] eqn:E.
  destruct ret; [intros [= <- ->]; by apply (renableEvents_aside c s true)|].
  intros [= <- Hc]. destruct (funcClose_aside a c1 o s' Hc) as (s1 & -> & Ha).
  destruct (renableEvents_aside c s false c1 s1 E) as [Hk Ha1]. split; [done|]. by transitivity s1.
Qed.

Lemma relaying_update a f : (forall c, kept c (f c)) -> respects relaying (c ← deref stale a; put a (f c)).
Proof.
  intros Hf s x s'. rewrite bind_run. destruct (deref stale a s) as [[c s1]|] eqn:Hd; [|done]. simpl.
  pose proof (deref_state a s c s1 Hd) as ->.
  intros Hp. destruct (deref_put_live a c (f c) s s _ s Hd eq_refl Hp) as [_ Hc].
  by apply (relaying_put a c (f c) s x).
Qed.
(** *** Submission *)

(** The utilities change the state they thread through with [renableProc]
    only. *)
Section thread.
Context {E : Type} (R : relation E) `{!PreOrder R} (renable : Z -> E -> E) (cfg : SPTcpConfig).
Context (Hren : forall a e, R e (renable a e)).

Lemma renable_loop_thread n from ts e e' :
  UtilTaskTcp_Multipe.renable_loop renable cfg n from ts e = Some e' -> R e e'.
Proof.
  revert from e. induction n as [|n IH]; intros from e; simpl; [by intros [= <-]|].
  destruct (u32_mod _ _); [|done]. simpl. destruct (ts !! _) as [k|]; [|done]. simpl. intros Hrun.
  transitivity (renable (Task.ctx k) e); [apply Hren|by apply (IH (from + 1))].
Qed.

Lemma commit_thread n u (p : TP) e u' p' e' :
  UtilTaskTcp_Multipe.commit_rec renable cfg n u p e = Some (u', p', e') -> R e e'.
Proof.
  revert u p. induction n as [|n IH]; intros u p; simpl; destruct (_ =? 0); try done; try by intros [= _ _ <-].
  destruct (UtilTaskTcp_Multipe.tasks u) as [ts|]; [|done]. cbn [mbind option_bind].
  destruct (if _ =? 1 then _ else _) as [[submitted p1]|]; [|done]. cbn [mbind option_bind].
  destruct (negb _).
  - destruct (UtilTaskTcp_Multipe.renable_loop _ _ _ _ _ _) as [e1|] eqn:Hl; [|done].
    intros [= _ _ <-]. by apply (renable_loop_thread _ _ _ _ _ Hl).
  - destruct (u32_mod _ _); [|done]. cbn [mbind option_bind]. destruct (negb _); [apply IH|by intros [= _ _ <-]].
Qed.

Lemma append_thread a f u (p : TP) e u' p' e' :
  UtilTaskTcp.append renable cfg a f u p e = Some (u', p', e') -> R e e'.
Proof.
  assert (Hflag : forall b : bool, R e (if b then renable a e else e)) by (intros []; [apply Hren|done]).
  unfold UtilTaskTcp.append. destruct (_ =? 1).
  - unfold UtilTaskTcp_Single.append. destruct (pool_emplace _ p) as [[ok p1]|]; [|done]. cbn [mbind option_bind].
    destruct ok; cbn [negb]; intros [= _ _ <-]; [apply Hflag|]. etransitivity; [apply Hflag|apply Hren].
  - unfold UtilTaskTcp_Multipe.append. destruct (UtilTaskTcp_Multipe.tasks _); [|done]. cbn [mbind option_bind].
    destruct (negb (_ <? _)); [done|]. destruct (u32_mod _ _); [|done]. cbn [mbind option_bind].
    destruct (_ =? UtilTaskTcp_Multipe.B cfg); [|intros [= _ _ <-]; apply Hflag].
    destruct (UtilTaskTcp_Multipe.commit _ _ _ _ _) as [[[u1 p1] e1]|] eqn:Hc; [|done]. intros [= _ _ <-].
    etransitivity; [apply Hflag|by apply (commit_thread _ _ _ _ _ _ _ Hc)].
Qed.

Lemma reset_thread u (p : TP) e u' p' e' :
  UtilTaskTcp.reset renable cfg u p e = Some (u', p', e') -> R e e'.
Proof.
  unfold UtilTaskTcp.reset. destruct (_ =? 1); [by intros [= _ _ <-]|].
  destruct (UtilTaskTcp_Multipe.commit _ _ _ _ _) as [[[u1 p1] e1]|] eqn:Hc; [|done]. intros [= _ _ <-].
  by apply (commit_thread _ _ _ _ _ _ _ Hc).
Qed.
End thread.

(** States that may be undefined. *)
Definition relaying_opt (o o' : option (state W P TP U)) : Prop :=
  match o', o with Some s', Some s => relaying s s' | Some _, None => False | None, _ => True end.

#[local] Instance relaying_opt_preorder : PreOrder relaying_opt.
Proof.
  split; [intros [s|]; simpl; [reflexivity|done]|].
  intros [s1|] [s2|] [s3|]; simpl; try done. intros ? ?. by transitivity s2.
Qed.

Lemma renableProc_relaying a o : relaying_opt o (renableProc stale a o).
Proof.
  unfold renableProc. destruct o as [s|]; [|done]. simpl.
  destruct (REnableFunc stale a s) as [[x s']|] eqn:E; [|done]. by apply (relaying_REnableFunc a s x).
Qed.

Lemma relaying_tpool p s : relaying s (set_tpool p s).
Proof. by apply aside_relaying. Qed.

Lemma relaying_submit a f u : respects relaying (submit stale a f u).
Proof.
  intros s x s'. unfold submit. destruct (UtilTaskTcp.append _ _ _ _ _ _ _) as [[[u' p] o]|] eqn:E; [|done].
  simpl. destruct o as [s1|]; [|done]. intros [= _ <-].
  apply (append_thread relaying_opt _ _ renableProc_relaying) in E. transitivity s1; [exact E|apply relaying_tpool].
Qed.

Lemma relaying_flush u : respects relaying (flush stale u).
Proof.
  intros s x s'. unfold flush. destruct (UtilTaskTcp.reset _ _ _ _ _) as [[[u' p] o]|] eqn:E; [|done].
  simpl. destruct o as [s1|]; [|done]. intros [= _ <-].
  apply (reset_thread relaying_opt _ _ renableProc_relaying) in E. transitivity s1; [exact E|apply relaying_tpool].
Qed.
(** *** Input and output *)

(** A controller that exists and has its descriptor. *)
Definition conn_at s a : Prop := exists c, nodes s !! a = Some c /\ SOCKController.fd c <> 0.

(** [f] moves [rx] and [tx] and accounts for them. *)
Definition accounts {A} (f : SOCKController.t -> Env W -> option (A * SOCKController.t * Env W)) : Prop :=
  forall c e, ctl_wf c -> exists x c' e' rx tx, f c e = Some (x, c', e') /\
    io_step (SOCKController.fd c) e e' rx tx /\ SOCKController.fd c' = SOCKController.fd c /\
    ctl_wf c' /\ tx ++ unsent c' = unsent c ++ rx.

Lemma relayed_on_io {A} a (f : SOCKController.t -> Env W -> option (A * SOCKController.t * Env W)) s x s' :
  relayed s -> conn_at s a -> accounts f -> on_io stale a f s = Some (x, s') -> relayed s'.
Proof.
  intros Hs (c & Hc & Hnz) Hf. destruct (rl_node _ Hs a c Hc Hnz) as (Hwf & _).
  destruct (Hf c (env s) Hwf) as (y & c' & e & rx & tx & Hrun & Hio & Hfd & Hwf' & Hu).
  rewrite (on_io_run stale a c f y c' e s Hc Hrun). intros [= _ <-].
  by apply (relayed_change s _ a c c' rx tx Hs Hc).
Qed.

Lemma readSocket_accounts : accounts (SOCKController.readSocket ifuel).
Proof.
  intros c e [Hr Hw]. destruct (readSocket_spec (ifuel := ifuel) c e Hr) as (ok & b & e' & d & Hrun & Hio & Hb & _ & Hc).
  eexists _, _, e', d, []. split; [exact Hrun|]. split; [exact Hio|]. split; [done|]. split; [done|].
  unfold unsent. simpl. by rewrite Hc, app_assoc.
Qed.

Lemma commitWrite_accounts : accounts (SOCKController.commitWrite ifuel).
Proof.
  intros c e [Hr Hw]. destruct (commitWrite_spec (ifuel := ifuel) c e Hw) as (r & b & e' & d & Hrun & Hio & Hb & _ & Hc & _).
  eexists _, _, e', [], d. split; [exact Hrun|]. split; [exact Hio|]. split; [done|]. split; [done|].
  unfold unsent. simpl. by rewrite Hc, app_nil_r, app_assoc.
Qed.

Lemma writeBack_accounts : accounts (SOCKController.writeBack ifuel).
Proof.
  intros c e Hwf. destruct (writeBack_spec (ifuel := ifuel) c e Hwf)
    as (r & rb & wb & e' & d1 & d2 & Hrun & Hio & [Hr Hw] & _ & _ & Hcw & Hcr & Hd & _).
  eexists _, _, e', [], (d1 ++ d2). split; [exact Hrun|]. split; [exact Hio|]. split; [done|]. split; [done|].
  unfold unsent. simpl. rewrite Hcw, Hcr, app_nil_r, <- !app_assoc. f_equal.
  destruct (contents wb) as [|y l] eqn:E; [done|]. by rewrite Hd.
Qed.

(** *** Events of an IO thread *)

Lemma relaying_run {A} (m : st (state W P TP U) A) s x s' :
  relayed s -> respects relaying m -> m s = Some (x, s') -> relayed s'.
Proof. intros Hs Hm Hrun. by apply (Hm s x s' Hrun). Qed.

Lemma relaying_kept {A} (m : st (state W P TP U) A) (f : A -> st (state W P TP U) (bool * UtilTaskTcp.t)) s x s' :
  (forall y s1, m s = Some (y, s1) -> relayed s1) -> (forall y, respects relaying (f y)) ->
  (m ≫= f) s = Some (x, s') -> relayed s'.
Proof.
  intros Hm Hf. rewrite bind_run. destruct (m s) as [[y s1]|] eqn:E; [|done]. simpl. intros Hrun.
  by apply (Hf y s1 x s' Hrun), (Hm y).
Qed.

#[local] Hint Resolve relaying_submit relaying_renableEvents relaying_enableEvents : respects.

Lemma relaying_deref a : respects relaying (deref stale a).
Proof. apply respects_aside, aside_deref. Qed.
#[local] Hint Resolve relaying_deref : respects.

Lemma relayed_HandleRead a u s x s' :
  relayed s -> conn_at s a -> HandleRead ifuel stale a u s = Some (x, s') -> relayed s'.
Proof.
  intros Hs Ha. unfold HandleRead. rewrite (bind_some _ _ _ _ _ (field_run _ s)).
  destruct (rdp (proc (inst s))) as [f|].
  - apply relaying_kept; [intros y s1; by apply relayed_on_io, readSocket_accounts|].
    intros ok. repeat respects_step.
  - apply relaying_run; [done|repeat respects_step].
Qed.

Lemma relayed_HandleWrite a u s x s' :
  relayed s -> conn_at s a -> HandleWrite ifuel stale a u s = Some (x, s') -> relayed s'.
Proof.
  intros Hs Ha. unfold HandleWrite. rewrite (bind_some _ _ _ _ _ (field_run _ s)).
  destruct (wtp (proc (inst s))) as [f|].
  - destruct Ha as (c & Hc & Hnz). rewrite (bind_some _ _ _ _ _ (deref_live stale a c s Hc)).
    destruct (_ && _); [by intros [= _ <-]|]. rewrite (bind_some _ _ _ _ _ (gets_run _ s)).
    destruct (_ =? _).
    + apply relaying_run; [done|repeat respects_step].
    + apply relaying_kept; [intros y s1; apply relayed_on_io; [done|by exists c|apply commitWrite_accounts]|].
      intros r. repeat respects_step.
  - apply relaying_run; [done|repeat respects_step].
Qed.
(** The connection of an event is known by its descriptor. *)
Lemma conn_at_put s a c c' b :
  nodes s !! a = Some c -> kept c c' -> conn_at s b -> conn_at (set_nodes (<[a := c']> (nodes s)) s) b.
Proof.
  intros Hc [Hfd _] (c1 & Hb & Hnz). unfold conn_at. simpl. destruct (decide (b = a)) as [->|Hne].
  - exists c'. rewrite lookup_insert_eq. split; [done|]. rewrite Hfd. congruence.
  - exists c1. by rewrite lookup_insert_ne.
Qed.

Lemma relayed_io_event exitfd' fd events u s x s' :
  relayed s -> (forall a, connections (inst s) !! fd = Some a -> conn_at s a) ->
  io_event ifuel stale exitfd' (fd, events) u s = Some (x, s') -> relayed s'.
Proof.
  intros Hs Hconn. unfold io_event. destruct (fd =? exitfd'); [by intros [= _ <-]|].
  assert (Hclose : forall b a, respects relaying (when b (ActiveClose stale a))).
  { intros b a. apply respects_when; [apply _|]. apply respects_aside, aside_ActiveClose. }
  assert (Hend : forall b a (v : UtilTaskTcp.t),
            respects relaying (_ ← when b (ActiveClose stale a); mret (Some v))).
  { intros b a v. apply respects_bind; [apply _|apply Hclose|intros []; apply respects_ret, _]. }
  destruct (has_event events (Z.lor EPOLLHUP EPOLLERR)).
  - unfold find. rewrite bind_run. destruct (connections (inst s) !! fd) as [a|]; [|done]. simpl.
    apply (relaying_run _ _ _ _ Hs). apply (Hend true).
  - destruct (has_event events (Z.lor EPOLLIN EPOLLRDHUP)); [|destruct (has_event events EPOLLOUT); [|by intros [= _ <-]]];
      unfold find; rewrite bind_run; destruct (connections (inst s) !! fd) as [a|] eqn:E; try done; simpl;
      destruct (Hconn a eq_refl) as (c & Hc & Hnz).
    + rewrite bind_run. destruct (when _ _ s) as [[y s1]|] eqn:Ew; [|done]. simpl.
      assert (relayed s1 /\ conn_at s1 a) as [Hs1 Ha1].
      { destruct (has_event events EPOLLRDHUP); simpl in Ew; [|injection Ew as _ <-; split; [done|by exists c]].
        rewrite (bind_some _ _ _ _ _ (deref_live stale a c s Hc)), (put_live a c _ s Hc) in Ew. injection Ew as _ <-.
        split; [apply (relayed_put s a c); [done|done|by apply kept_same]|].
        apply (conn_at_put s a c); [done|by apply kept_same|by exists c]. }
      rewrite bind_run. destruct (HandleRead ifuel stale a u s1) as [[[ok v] s2]|] eqn:Er; [|done]. simpl.
      apply relaying_run; [|apply Hend]. by apply (relayed_HandleRead a u s1 (ok, v)).
    + rewrite bind_run. destruct (HandleWrite ifuel stale a u s) as [[[ok v] s2]|] eqn:Er; [|done]. simpl.
      apply relaying_run; [|apply Hend]. apply (relayed_HandleWrite a u s (ok, v)); [done|by exists c|done].
Qed.

(** *** Callbacks *)

Lemma relaying_write_events a w : respects relaying (Callback.write_events stale a w).
Proof.
  intros s x s'. unfold Callback.write_events. destruct (nodes s !! a) as [c|] eqn:Hc.
  - intros [= _ <-] Hs. apply (relayed_put s a c); [done|done|by apply kept_same].
  - destruct (freed s !! a ≫= stale); [|done]. intros [= _ <-]. by apply aside_relaying.
Qed.

Lemma relayed_on_ctl {A} a (f : SOCKController.t -> option (A * SOCKController.t)) s x s' :
  relayed s -> conn_at s a -> (forall c, ctl_wf c -> exists y c', f c = Some (y, c') /\ kept c c') ->
  Callback.on_ctl stale a f s = Some (x, s') -> relayed s'.
Proof.
  intros Hs (c & Hc & Hnz) Hf. destruct (rl_node _ Hs a c Hc Hnz) as (Hwf & _).
  destruct (Hf c Hwf) as (y & c' & Hrun & Hk). unfold Callback.on_ctl.
  rewrite (bind_some _ _ _ _ _ (deref_live stale a c s Hc)), Hrun, (bind_some _ _ _ _ _ (lift_run _ s)).
  rewrite (bind_some _ _ _ _ _ (put_live a c c' s Hc)). intros [= _ <-]. by apply (relayed_put s a c).
Qed.

Lemma peek_kept len c :
  ctl_wf c -> exists y c', ('(n, d) ← SOCKController.peek len c; Some ((n, d), c)) = Some (y, c') /\ kept c c'.
Proof.
  intros [Hr Hw]. unfold SOCKController.peek. pose proof (u32_range len).
  rewrite peek_spec by (done || lia). eexists _, c. split; [done|by apply kept_same].
Qed.

Lemma move_kept c : ctl_wf c -> exists y c', SOCKController.moveToWriteBuffer c = Some (y, c') /\ kept c c'.
Proof.
  intros Hwf. destruct (moveToWriteBuffer_spec c Hwf) as (rb & wb & -> & Hr & Hw & _ & _ & Hcr & Hcw).
  eexists _, _. split; [done|]. split; [done|]. intros _. split; [done|]. unfold unsent. simpl.
  by rewrite Hcw, Hcr, <- app_assoc, take_drop.
Qed.

(** The frame a call returns goes on with what the callback does with the
    result. *)
Lemma relayed_call {A} (m : st (state W P TP U) A) (k : A -> Callback.frame U) s fr s' :
  (forall y s1, m s = Some (y, s1) -> relayed s1) -> (forall y, relays (Callback.rest (k y))) ->
  (y ← m; mret (k y)) s = Some (fr, s') -> relayed s' /\ relays (Callback.rest fr).
Proof.
  intros Hm Hk. rewrite bind_run. destruct (m s) as [[y s1]|] eqn:E; [|done]. intros [= <- <-].
  split; [by apply (Hm y)|apply Hk].
Qed.

Lemma relayed_user_call a p s fr s' :
  relayed s -> (p <> Callback.Return -> conn_at s a) -> relays p ->
  Callback.user_call ifuel stale a p s = Some (fr, s') -> relayed s' /\ relays (Callback.rest fr).
Proof.
  intros Hs Ha Hp.
  assert (Hkeep : forall A (m : st (state W P TP U) A), respects aside m -> forall y s1, m s = Some (y, s1) -> relayed s1)
    by (intros A m Hm y s1; apply relaying_run; [done|by apply respects_aside]).
  assert (Hlook : forall A (k : SOCKController.t -> A) (q : A -> Callback.prog U), (forall y, relays (q y)) ->
    (c ← deref stale a; mret (Callback.start (q (k c)))) s = Some (fr, s') -> relayed s' /\ relays (Callback.rest fr)).
  { intros A k q Hq. apply relayed_call; [apply Hkeep, aside_deref|intros c; apply Hq]. }
  destruct p as [|k|k|k|k|k|k|len k|len k|buf k|buf k|k|k|k|rd wr k|k|f k]; cbn [Callback.user_call relays] in *;
    try done; try (by apply (Hlook _ _ k)).
  - by intros [= <- <-].
  - apply relayed_call; [apply Hkeep, respects_gets, _|intros y; apply Hp].
  - apply relayed_call; [apply Hkeep, respects_gets, _|intros y; apply Hp].
  - apply relayed_call; [|done]. intros y s1. apply relayed_on_ctl; [done|by apply Ha|]. intros c. apply peek_kept.
  - apply relayed_call; [|done]. intros y s1. apply relayed_on_io; [done|by apply Ha|apply commitWrite_accounts].
  - apply relayed_call; [|done]. intros y s1. apply relayed_on_io; [done|by apply Ha|apply writeBack_accounts].
  - apply relayed_call; [|done]. intros y s1. apply relayed_on_ctl; [done|by apply Ha|]. intros c. apply move_kept.
  - rewrite bind_run. destruct (deref stale a s) as [[c s1]|] eqn:E; [|done].
    pose proof (deref_state a s c s1 E) as ->. simpl. apply relayed_call; [apply Hkeep, aside_EnableEvent|done].
  - apply relayed_call; [apply Hkeep, aside_ActiveClose|done].
  - rewrite (bind_some _ _ _ _ _ (gets_run _ s)). apply relayed_call; [|intros y; apply Hp].
    intros y s1 [= _ <-]. by apply (aside_relaying s).
Qed.

Lemma relayed_user_step a fr s fr' s' :
  relayed s -> (Callback.rest fr <> Callback.Return -> conn_at s a) -> relays (Callback.rest fr) ->
  Callback.user_step ifuel stale a fr s = Some (fr', s') -> relayed s' /\ relays (Callback.rest fr').
Proof.
  intros Hs Ha Hp. unfold Callback.user_step. destruct (Callback.pending fr) as [|w l].
  - by apply relayed_user_call.
  - apply (relayed_call (Callback.write_events stale a w) (fun _ => Callback.mkFrame l (Callback.rest fr))); [|done].
    intros y s1. apply relaying_run; [done|apply relaying_write_events].
Qed.
End relayed.
