(* ===== verification/Server.v ===== *)
(** * Server: the threads of the TCP server together

    The main thread, the IO threads and the workers as one transition system
    over the state of the process.  A step of the system is a step of one
    thread: a turn of [main_loop], and after it a step of [pool.exit()], for the
    main thread; one [epoll_wait], one
    event or the flush at the end of a batch for an IO thread ([io_round], cut
    where it goes from one connection to the next); for a worker, one action
    of [ThreadPool.process], or one call of the callback it is running.

    [owners] lists the connections by who has the right to go on with each:
    [epoll] (it is watched), an IO thread (it was reported, or its task is
    buffered), the pool, a worker, or the close list. *)

From S2P Require Import Prelude Types State BufferProvider Kernel Epoll Controller TaskPool BlockQueue.
From S2P Require Import ThreadPool ThreadPoolSpec ThreadPoolInv Task Tcp TcpIo Callback.
Import SPSockTcp.

Module Server.

Section server.
Context {W P U : Type} `{Kernel W} `{BufferProvider P} `{Callbacks U}.
Context (ifuel : nat) (uninit : BUFFER_TYPE -> list byte).
Context (stale : SOCKController.t -> option SOCKController.t).

(** The user's functions, by their pointers. *)
Context (body : Z -> Callback.prog U).

Abbreviation state := (state W P (ThreadPool.t SockTaskTcp) U).
Abbreviation M := (st state).

(** ** An IO thread *)

Inductive io_pc := Waiting | Handling (evs : list (Z * Z)) | Gone.

Record io_thread := mkIo { io_epollfd : Z; io_exitfd : Z; io_util : UtilTaskTcp.t; io_at : io_pc }.

Definition io_goto (pc : io_pc) (u : UtilTaskTcp.t) (t : io_thread) : io_thread :=
  mkIo (io_epollfd t) (io_exitfd t) u pc.

(** Its next step.  An error of [epoll_wait] ends the thread (and, the
    exception not being caught, the process). *)
Definition io_step (t : io_thread) : M io_thread :=
  let u := io_util t in
  match io_at t with
  | Waiting =>
      cfg ← gets (fun s => tcpConfig (g s));
      r ← sys (Epoll_wait (io_epollfd t) (EPOLL_MAX_EVENT_BSIZE cfg));
      mret (match r with
            | inl EINTR => t
            | inl _ => io_goto Gone u t
            | inr evs => io_goto (Handling evs) u t
            end)
  | Handling (ev :: evs) =>
      r ← io_event ifuel stale (io_exitfd t) ev u;
      mret (match r with None => io_goto Gone u t | Some u => io_goto (Handling evs) u t end)
  | Handling [] => u ← flush stale u; mret (io_goto Waiting u t)
  | Gone => mret t
  end.

(** [k] steps of the thread on its own. *)
Fixpoint io_steps (k : nat) (t : io_thread) : M io_thread :=
  match k with O => mret t | S k => t ← io_step t; io_steps k t end.

(** ** A worker *)

(** [wt_call]: the callback it is running, and on which controller. *)
Record worker_thread := mkWorkerThread {
  wt_worker : ThreadPool.worker SockTaskTcp;
  wt_call : option (Z * Callback.frame U) }.

(** [execute]: [proc(ctx)]. *)
Definition execute (t : SockTaskTcp) : Z * Callback.frame U :=
  (Task.ctx t, Callback.start (body (Task.proc t))).

Definition worker_step (late : bool) (w : worker_thread) : M (waited worker_thread) :=
  match wt_call w with
  | Some (a, fr) =>
      if Callback.finished fr then mret (Ready (mkWorkerThread (wt_worker w) None))
      else fr ← Callback.user_step ifuel stale a fr; mret (Ready (mkWorkerThread (wt_worker w) (Some (a, fr))))
  | None => fun s =>
      let m := ThreadPool.mode_of (THREADPOOL_BATCH_SIZE_PROCESS (tcpConfig (g s))) in
      r ← ThreadPool.process m late (wt_worker w) (tpool s);
      match r with
      | Blocked => Some (Blocked, s)
      | Ready (w, p, x) => Some (Ready (mkWorkerThread w (execute <$> x)), set_tpool p s)
      end
  end.

(** ** The system *)

(** Where the main thread is: in the main loop, with the reserve descriptor and
    the time of the last visit to the close list; then in [exit] of the pool: at
    its beginning, about to stop the queue [k] or (all being stopped) to join
    the workers, and past that. *)
Inductive main_pc := Looping (idlefd last : Z) | Leaving | Stopping (k : nat) | Joined.

Record sys := mkSys {
  srv : state;
  main_at : main_pc;
  ios : list io_thread;
  wks : list worker_thread }.

Inductive action := AMain | AIo (k : nat) | AWorker (j : nat) (late : bool) | ASignal (sg : Z).

(** A worker thread has ended. *)
Definition ended (w : worker_thread) : bool :=
  match ThreadPool.w_pc (wt_worker w), wt_call w with ThreadPool.Done, None => true | _, _ => false end.

(** The main thread: a turn of [main_loop], or the next step of [pool.exit()]
    up to the last [join]. *)
Definition main_step (ws : list worker_thread) (m : main_pc) : M (waited main_pc) :=
  match m with
  | Looping idlefd last =>
      r ← main_round uninit stale idlefd last;
      mret (Ready (match r with inl last => Looping idlefd last | inr _ => Leaving end))
  | Leaving =>
      p ← gets tpool;
      match ThreadPool.queues p with
      | None => mret (Ready Joined)
      | Some _ => _ ← modify (set_tpool (ThreadPool.set_policy true p)); mret (Ready (Stopping 0))
      end
  | Stopping k =>
      if decide (k < length ws)%nat then
        p ← gets tpool; p ← lift (ThreadPool.stop_queue (Z.of_nat k) p);
        _ ← modify (set_tpool p); mret (Ready (Stopping (S k)))
      else mret (if forallb ended ws then Ready Joined else Blocked)
  | Joined => mret Blocked
  end.

(** [None]: undefined; [Blocked]: the action is not possible now. *)
Definition act (a : action) (x : sys) : option (waited sys) :=
  match a with
  | AMain =>
      '(r, s) ← main_step (wks x) (main_at x) (srv x);
      Some (match r with Blocked => Blocked | Ready m => Ready (mkSys s m (ios x) (wks x)) end)
  | AIo k =>
      match ios x !! k with
      | None => Some Blocked
      | Some t => '(t, s) ← io_step t (srv x); Some (Ready (mkSys s (main_at x) (<[k := t]> (ios x)) (wks x)))
      end
  | AWorker j late =>
      match wks x !! j with
      | None => Some Blocked
      | Some w =>
          '(r, s) ← worker_step late w (srv x);
          Some (match r with
                | Blocked => Blocked
                | Ready w => Ready (mkSys s (main_at x) (ios x) (<[j := w]> (wks x)))
                end)
      end
  | ASignal sg => '(_, s) ← HandleExit sg (srv x); Some (Ready (mkSys s (main_at x) (ios x) (wks x)))
  end.

(** A run from a list of actions, for examples. *)
Fixpoint run (l : list action) (x : sys) : option (waited sys) :=
  match l with
  | [] => Some (Ready x)
  | a :: l => r ← act a x; match r with Blocked => Some Blocked | Ready x => run l x end
  end.

(** ** The start

    What [EventLoop] has set up when it calls [MainEventLoop]: the workers of the
    pool and a thread per loop, each with its array for a batch ([IOEventLoop]).
    [ts]: what a new array holds. *)

Definition io_start (ts : list SockTaskTcp) (cfg : SPTcpConfig) (x : Z * Z) : io_thread :=
  mkIo x.1 x.2 (UtilTaskTcp.init cfg (Some ts) UtilTaskTcp.UtilTaskTcp).2 Waiting.

Definition launch (ts : list SockTaskTcp) (idlefd last : Z) (s : state) : sys :=
  mkSys s (Looping idlefd last) (io_start ts (tcpConfig (g s)) <$> loops (inst s))
    ((fun w => mkWorkerThread w None) <$> ThreadPool.workers (ThreadPool.started (tpool s) 0)).

(** ** Who has which connection *)

Context `{HE : !EpollKernel W}.

Definition watched (s : state) : list Z :=
  omap (fun fd => connections (inst s) !! fd) (elements (kwatch (kw (env s)))).

(** The tasks in the buffer of a submission utility with batches of [b]. *)
Definition buffered (b : Z) (u : UtilTaskTcp.t) : list SockTaskTcp :=
  if b =? 1 then [] else
  let m := UtilTaskTcp.tm u in
  match UtilTaskTcp_Multipe.tasks m with
  | Some ts => ring_read ts (Z.to_nat (UtilTaskTcp_Multipe.back m)) (Z.to_nat (UtilTaskTcp_Multipe.size m))
  | None => []
  end.

Definition reports (t : io_thread) : list (Z * Z) :=
  match io_at t with Handling evs => evs | _ => [] end.

Definition io_has (b : Z) (s : state) (t : io_thread) : list Z :=
  about s (reports t) ++ (Task.ctx <$> buffered b (io_util t)).

(** A callback that has armed or closed its connection has it no more. *)
Definition call_has (c : Z * Callback.frame U) : list Z :=
  match Callback.rest c.2 with Callback.Return => [] | _ => [c.1] end.

Definition worker_has (w : worker_thread) : list Z :=
  (Task.ctx <$> held (wt_worker w)) ++ match wt_call w with Some c => call_has c | None => [] end.

(** [l]: the tasks in the queues of the pool. *)
Definition at_work (b : Z) (l : list SockTaskTcp) (x : sys) : list Z :=
  (ios x ≫= io_has b (srv x)) ++ (Task.ctx <$> l) ++ (wks x ≫= worker_has).

Definition owners (b : Z) (l : list SockTaskTcp) (x : sys) : list Z :=
  watched (srv x) ++ at_work b l x ++ cList (inst (srv x)).

End server.

Arguments worker_thread : clear implicits.
Arguments sys : clear implicits.
End Server.
