(* ===== verification/ServerSpec.v ===== *)
(** * ServerSpec: each connection has one owner

    [view O R s]: seen from one thread, the state [s] is consistent and every
    connection that exists is watched, or in the close list, or one of [O], the
    connections somebody works on, and only one of these; [R] are open
    descriptors that are no connections.  [view_acts] says what a step of an IO
    thread or of a callback does to it, [main_round_view] what a turn of the
    main thread does. *)

From S2P Require Import Prelude Types State BufferProvider Buffer BufferSpec Kernel Epoll Controller.
From S2P Require Import ControllerSpec TaskPool BlockQueue ThreadPool ThreadPoolSpec ThreadPoolInv.
From S2P Require Import Task TaskSpec Tcp TcpSpec TcpIo TcpToken TcpMain Callback CallbackSpec Stream Server.
Import SPSockTcp Server.

Section view.
Context {W P U : Type} {cap : BUFFER_TYPE -> Z}.
Context `{HK : KernelLaws W} `{HP : BufferProviderLaws P cap} `{HC : Callbacks U} `{HE : !EpollKernel W}.
Context (cfg : SPTcpConfig).
Implicit Types s : state W P (ThreadPool.t SockTaskTcp) U.
Implicit Types O R : list Z.

Definition existing s : list Z := elements (dom (nodes s)).

(** An open descriptor that is no connection. *)
Definition apart s (f : Z) : Prop :=
  0 <= f /\ f ∈ kopen (kw (env s)) /\ connections (inst s) !! f = None.

Record view O R s : Prop := {
  vw_inv : conn_inv cfg exact s;
  vw_loops : loopInfo (inst s) <> [];
  vw_own : watched s ++ O ++ cList (inst s) ≡ₚ existing s;
  vw_conn f a : connections (inst s) !! f = Some a -> 0 < f /\ f ∈ kopen (kw (env s));
  vw_watch f : f ∈ kwatch (kw (env s)) -> is_Some (connections (inst s) !! f);
  vw_signal : ksignal (kw (env s)) = ∅;
  vw_keep : Forall (apart s) R;
  vw_procs : exists f f', rdp (proc (inst s)) = Some f /\ wtp (proc (inst s)) = Some f' }.

Lemma view_nodup O R s : view O R s -> NoDup (watched s ++ O ++ cList (inst s)).
Proof. intros Hv. rewrite (vw_own _ _ _ Hv). unfold existing. apply NoDup_elements. Qed.

Lemma elem_of_existing s a : a ∈ existing s <-> live s a.
Proof. unfold existing, live. by rewrite elem_of_elements, elem_of_dom. Qed.

Lemma view_live O R s a : view O R s -> a ∈ O ++ cList (inst s) -> live s a.
Proof.
  intros Hv Ha. apply elem_of_existing. rewrite <- (vw_own _ _ _ Hv). apply elem_of_app. by right.
Qed.

Lemma elem_of_watched s a :
  a ∈ watched s <-> exists f, f ∈ kwatch (kw (env s)) /\ connections (inst s) !! f = Some a.
Proof. unfold watched. rewrite list_elem_of_omap. by setoid_rewrite elem_of_elements. Qed.

(** What somebody works on is not watched. *)
Lemma view_unwatched O R s f a :
  view O R s -> connections (inst s) !! f = Some a -> a ∈ O ++ cList (inst s) -> f ∉ kwatch (kw (env s)).
Proof.
  intros Hv Hf Ha Hw. pose proof (view_nodup _ _ _ Hv) as Hn. apply NoDup_app in Hn as (_ & Hn & _).
  apply (Hn a); [|done]. apply elem_of_watched. by exists f.
Qed.

Lemma view_perm O O' R s : O ≡ₚ O' -> view O R s -> view O' R s.
Proof. intros Hp []. split; try done. by rewrite <- Hp. Qed.

Lemma view_sub O R R' s : (forall f, f ∈ R' -> f ∈ R) -> view O R s -> view O R' s.
Proof.
  intros HR [? ? ? ? ? ? Hk ?]. split; try done. apply Forall_forall. intros f Hf.
  rewrite Forall_forall in Hk. by apply Hk, HR.
Qed.

(** What somebody works on is one of the controllers that exist. *)
Lemma view_size O R s : view O R s -> (length O <= size (nodes s))%nat.
Proof.
  intros Hv. rewrite <- size_dom. change (size (dom (nodes s))) with (length (existing s)).
  rewrite <- (vw_own _ _ _ Hv), !length_app. lia.
Qed.

(** More descriptors watched. *)
Lemma omap_conn (m : gmap Z Z) fs al :
  Forall2 (fun f a => m !! f = Some a) fs al -> omap (fun f => m !! f) fs = al.
Proof. induction 1 as [|f a fs al Hf _ IH]; simpl; [done|]. rewrite Hf. by f_equal. Qed.

Lemma watched_arm s s' ar al :
  connections (inst s') = connections (inst s) ->
  kwatch (kw (env s')) = kwatch (kw (env s)) ∪ list_to_set ar ->
  Forall2 (fun f a => connections (inst s) !! f = Some a) ar al ->
  NoDup ar -> (forall f, f ∈ ar -> f ∉ kwatch (kw (env s))) ->
  watched s' ≡ₚ watched s ++ al.
Proof.
  intros Hc Hk Har Hn Hd. unfold watched. rewrite Hc, Hk.
  rewrite elements_disj_union by set_solver. rewrite omap_app, (elements_list_to_set _ Hn).
  by rewrite (omap_conn _ _ _ Har).
Qed.

(** A step of a thread other than the main one: of the connections [al ++ cl]
    it gives up, [al] were armed and [cl] closed. *)
Lemma view_acts O O' R ar al cl s s' :
  view O R s -> mild cfg s s' -> acts ar cl s s' ->
  Forall2 (fun f a => connections (inst s) !! f = Some a) ar al ->
  O ≡ₚ al ++ cl ++ O' -> view O' R s'.
Proof.
  intros Hv [Hi Hl Hc Hlo [Hpr Hkn] Hcl] [Hlist _ (un & Heff & Hun)] Har HO.
  pose proof (view_perm _ _ _ _ HO Hv) as Hv'.
  assert (Harm : forall f a, f ∈ ar -> connections (inst s) !! f = Some a -> a ∈ al).
  { intros f a [i Hf]%list_elem_of_lookup Ha. destruct (Forall2_lookup_l _ _ _ _ _ Har Hf) as (b & Hb & E).
    rewrite Ha in E. injection E as <-. by eapply list_elem_of_lookup_2. }
  assert (Hunw : forall f, f ∈ un -> f ∉ kwatch (kw (env s)) /\ f ∉ ar).
  { intros f Hf. rewrite Forall_forall in Hun. destruct (Hun f Hf) as (a & Ha & Hfa).
    split; [apply (view_unwatched _ _ _ f a Hv' Hfa); set_solver|]. intros Hf'.
    pose proof (Harm f a Hf' Hfa) as Hal. pose proof (view_nodup _ _ _ Hv') as Hn.
    rewrite <- !app_assoc in Hn. apply NoDup_app in Hn as (_ & _ & Hn).
    apply NoDup_app in Hn as (_ & Hn & _). apply (Hn a Hal). set_solver. }
  assert (Hw : kwatch (kw (env s')) = kwatch (kw (env s)) ∪ list_to_set ar).
  { rewrite (effect_watch _ _ _ _ Heff) by (intros f Hf Hf'; by destruct (Hunw f Hf')).
    apply set_eq. intros f. specialize (Hunw f). set_solver. }
  assert (Hdis : forall f, f ∈ ar -> f ∉ kwatch (kw (env s))).
  { intros f Hf. apply list_elem_of_lookup in Hf as [i Hf]. destruct (Forall2_lookup_l _ _ _ _ _ Har Hf) as (a & Hb & E).
    apply (view_unwatched _ _ _ f a Hv' E). apply list_elem_of_lookup_2 in Hb. set_solver. }
  assert (Hnd : NoDup ar).
  { pose proof (view_nodup _ _ _ Hv') as Hn. apply NoDup_app in Hn as (_ & _ & Hn).
    rewrite <- app_assoc in Hn. apply NoDup_app in Hn as (Hn & _).
    rewrite <- (omap_conn _ _ _ Har) in Hn. clear -Hn Har.
    induction Har as [|f a fs al Hf Har IH]; [constructor|]. simpl in Hn. rewrite Hf in Hn.
    apply NoDup_cons in Hn as [Hna Hn]. constructor; [|by apply IH]. intros Hin. apply Hna.
    apply list_elem_of_omap. by exists f. }
  assert (Hop : forall f, f ∈ kopen (kw (env s)) -> f ∈ kopen (kw (env s'))).
  { intros f Hf. apply (effect_open _ _ _ _ [] f Heff); [by rewrite Hcl, app_nil_r|done|by intros ?%not_elem_of_nil]. }
  split.
  - by apply Hi, Hv.
  - rewrite Hlo. apply Hv.
  - rewrite (watched_arm s s' ar al Hc Hw Har Hnd Hdis), Hlist.
    assert (existing s' = existing s) as ->.
    { unfold existing. f_equal. apply set_eq. intros a. rewrite !elem_of_dom. apply Hl. }
    rewrite <- (vw_own _ _ _ Hv'). solve_Permutation.
  - rewrite Hc. intros f a Hf. destruct (vw_conn _ _ _ Hv f a Hf) as [? Ho]. split; [done|by apply Hop].
  - rewrite Hc, Hw. intros f [Hf|Hf]%elem_of_union; [by apply (vw_watch _ _ _ Hv)|].
    apply elem_of_list_to_set, list_elem_of_lookup in Hf as [i Hf].
    destruct (Forall2_lookup_l _ _ _ _ _ Har Hf) as (a & _ & E). by exists a.
  - pose proof (effect_signal _ _ _ _ Heff) as Hs. rewrite (vw_signal _ _ _ Hv) in Hs. set_solver.
  - eapply Forall_impl; [apply (vw_keep _ _ _ Hv)|]. intros f (? & ? & ?). unfold apart. rewrite Hc. auto.
  - rewrite Hpr. apply Hv.
Qed.

(** A step that arms and closes nothing. *)
Lemma view_quiet O R s s' : view O R s -> mild cfg s s' -> acts [] [] s s' -> view O R s'.
Proof. intros Hv Hm Ha. apply (view_acts O O R [] [] [] s s' Hv Hm Ha); [constructor|done]. Qed.
(** ** System calls *)

(** Calls that close [l], none of it a connection. *)
Lemma view_same O R R' l s s' :
  view O R s -> nodes s' = nodes s -> connections (inst s') = connections (inst s) ->
  cList (inst s') = cList (inst s) -> proc (inst s') = proc (inst s) -> conn_inv cfg exact s' ->
  loopInfo (inst s') <> [] -> shuts (env s) (env s') l ->
  Forall (fun f => connections (inst s) !! f = None) l ->
  (forall f, f ∈ R' -> f ∈ R /\ f ∉ l) -> view O R' s'.
Proof.
  intros Hv Hn Hc Hcl Hp Hi Hlo [Hsh Heff] Hl HR. rewrite Forall_forall in Hl.
  assert (Hw : kwatch (kw (env s')) = kwatch (kw (env s))).
  { rewrite (effect_watch _ _ _ _ Heff) by (by intros ? ?%not_elem_of_nil). apply set_eq. intros f.
    rewrite elem_of_union, elem_of_difference, elem_of_list_to_set. split; [set_solver|].
    intros Hf. left. split; [done|]. intros Hin. specialize (Hl f Hin).
    destruct (vw_watch _ _ _ Hv f Hf) as [a Ha]. congruence. }
  assert (Hop : forall f, f ∈ kopen (kw (env s)) -> f ∉ l -> f ∈ kopen (kw (env s'))).
  { intros f Hf Hnl. by apply (effect_open _ _ _ _ l f Heff). }
  split.
  - done.
  - done.
  - unfold watched, existing. rewrite Hw, Hc, Hcl, Hn. apply Hv.
  - rewrite Hc. intros f a Hf. destruct (vw_conn _ _ _ Hv f a Hf) as [? Ho]. split; [done|].
    apply Hop; [done|]. intros Hin. specialize (Hl f Hin). congruence.
  - rewrite Hc, Hw. apply Hv.
  - pose proof (effect_signal _ _ _ _ Heff) as Hs. rewrite (vw_signal _ _ _ Hv) in Hs. set_solver.
  - apply Forall_forall. intros f [Hf Hnl]%HR. pose proof (vw_keep _ _ _ Hv) as Hk.
    rewrite Forall_forall in Hk. destruct (Hk f Hf) as (? & ? & ?). unfold apart. rewrite Hc. auto.
  - rewrite Hp. apply Hv.
Qed.

Lemma view_calls O R s e : view O R s -> shuts (env s) e [] -> view O R (set_env e s).
Proof.
  intros Hv He. apply (view_same O R R [] s (set_env e s) Hv); try done; [|apply Hv|].
  - apply (same_conns_inv cfg exact s); [done|apply Hv].
  - intros f Hf. split; [done|by intros ?%not_elem_of_nil].
Qed.

Lemma about_fds s evs : about s evs = omap (fun f => connections (inst s) !! f) evs.*1.
Proof. induction evs as [|ev evs IH]; [done|]. rewrite about_cons, IH. unfold about. simpl. by destruct (_ !! _). Qed.

(** The connections reported by [epoll_wait] are not watched any more. *)
Lemma view_wait O R s ep n evs :
  view O R s -> (call (Epoll_wait ep n) (env s)).1 = inr evs ->
  view (about s evs ++ O) R (set_env (call (Epoll_wait ep n) (env s)).2 s) /\
    Forall (fun ev => is_Some (connections (inst s) !! ev.1) /\ reportable ev.2) evs.
Proof.
  intros Hv Hr. destruct (call_wait ep n (env s) evs Hr) as [Hnd Hall].
  assert (Hev : Forall (fun ev => ev.1 ∈ kwatch (kw (env s)) /\ reportable ev.2) evs).
  { eapply Forall_impl; [exact Hall|]. intros ev [Hs|Hs]; [|done].
    rewrite (vw_signal _ _ _ Hv) in Hs. set_solver. }
  pose proof (effect_call (Epoll_wait ep n) (env s) eq_refl) as Heff. simpl in Heff. rewrite Hr in Heff.
  set (e := (call (Epoll_wait ep n) (env s)).2) in *. set (s' := set_env e s).
  assert (Hclosed : closed e = closed (env s)).
  { unfold e. rewrite closed_closes. apply app_nil_r. }
  assert (Hsub : forall f, f ∈ evs.*1 -> f ∈ kwatch (kw (env s))).
  { intros f (ev & -> & Hin)%list_elem_of_fmap. rewrite Forall_forall in Hev. by apply Hev. }
  pose proof (effect_watch _ _ _ _ Heff ltac:(by intros ? ?%not_elem_of_nil)) as Hw.
  rewrite list_to_set_nil, union_empty_r_L in Hw.
  assert (Hwt : watched s ≡ₚ watched s' ++ about s evs).
  { rewrite about_fds. unfold watched. change (env s') with e. change (inst s') with (inst s).
    rewrite Hw, <- omap_app. apply omap_Permutation.
    rewrite <- (elements_list_to_set (C := gset Z) _ Hnd) at 2.
    rewrite <- elements_disj_union by set_solver. apply elements_proper.
    intros f. rewrite elem_of_union, elem_of_difference, elem_of_list_to_set.
    destruct (decide (f ∈ evs.*1)); naive_solver. }
  split; [split|].
  - apply (same_conns_inv cfg exact s); [done|apply Hv].
  - apply Hv.
  - change (existing s') with (existing s). change (cList (inst s')) with (cList (inst s)).
    rewrite <- (vw_own _ _ _ Hv), Hwt. solve_Permutation.
  - intros f a Hf. destruct (vw_conn _ _ _ Hv f a Hf) as [? Ho]. split; [done|].
    apply (effect_open _ _ _ _ [] f Heff); [by rewrite Hclosed, app_nil_r|done|by intros ?%not_elem_of_nil].
  - change (env s') with e. rewrite Hw. intros f [Hf _]%elem_of_difference. by apply (vw_watch _ _ _ Hv).
  - pose proof (effect_signal _ _ _ _ Heff) as Hs. rewrite (vw_signal _ _ _ Hv) in Hs. simpl. set_solver.
  - eapply Forall_impl; [apply (vw_keep _ _ _ Hv)|]. intros f (? & Ho & ?). split_and!; try done.
    apply (effect_open _ _ _ _ [] f Heff); [by rewrite Hclosed, app_nil_r|done|by intros ?%not_elem_of_nil].
  - apply Hv.
  - eapply Forall_impl; [exact Hev|]. intros ev [Hf ?]. split; [by apply (vw_watch _ _ _ Hv)|done].
Qed.
End view.

(** ** The main thread *)

Section main.
Context {W P U : Type} {cap : BUFFER_TYPE -> Z}.
Context `{HK : KernelLaws W} `{HP : BufferProviderLaws P cap} `{HC : Callbacks U} `{HE : !EpollKernel W}.
Context (uninit : BUFFER_TYPE -> list byte) (stale : SOCKController.t -> option SOCKController.t).
Context (cfg : SPTcpConfig).
Implicit Types s : state W P (ThreadPool.t SockTaskTcp) U.
Implicit Types O R : list Z.

(** Reading a destroyed controller is undefined or gives its old contents, the
    pool of buffers fits the configuration, and memory never runs out. *)
Context (Hstale : faithful stale).

(** Where the main thread touches one: undefined, unless its memory is still there. *)
Definition frees_badly s : Prop := cList (inst s) <> [] /\ ~ resilient stale.

(** The connections somebody works on stay. *)
Definition lasting O s s' : Prop :=
  forall f a, connections (inst s) !! f = Some a -> a ∈ O -> connections (inst s') !! f = Some a.

Lemma lasting_trans O s1 s2 s3 : lasting O s1 s2 -> lasting O s2 s3 -> lasting O s1 s3.
Proof. intros H1 H2 f a Hf Ha. apply H2; [|done]. by apply H1. Qed.

(** What a step of the main thread may do. *)
Record turned O s s' : Prop := {
  tu_last : lasting O s s';
  tu_steady : steady s s';
  tu_size : (size (nodes s') <= S (size (nodes s)))%nat }.

Lemma conn_inv_conn d s f a :
  conn_inv cfg d s -> connections (inst s) !! f = Some a <->
  exists c, nodes s !! a = Some c /\ SOCKController.fd c = f.
Proof.
  intros Hs. split; [apply (ci_conn _ _ _ Hs)|]. intros (c & Hc & <-). by apply (ci_node _ _ _ Hs a c Hc).
Qed.

(** The connections in [l] are gone. *)
Definition gone (l : list Z) s s' : Prop := forall a, nodes s' !! a = if decide (a ∈ l) then None else nodes s !! a.

Lemma fds_at_conn s l f :
  conn_inv cfg exact s -> f ∈ fds_at s l <-> exists a, connections (inst s) !! f = Some a /\ a ∈ l.
Proof.
  intros Hi. unfold fds_at. rewrite list_elem_of_omap. setoid_rewrite (conn_inv_conn exact s f _ Hi). split.
  - intros (a & Ha & Hf). destruct (nodes s !! a) as [c|] eqn:Hc; simpl in Hf; [|done].
    injection Hf as <-. exists a. split; [by exists c|done].
  - intros (a & (c & Hc & <-) & Ha). exists a. by rewrite Hc.
Qed.

Lemma gone_conn l s s' f a :
  gone l s s' -> conn_inv cfg exact s -> conn_inv cfg exact s' ->
  connections (inst s') !! f = Some a <-> connections (inst s) !! f = Some a /\ a ∉ l.
Proof.
  intros Hn Hi Hi'. rewrite (conn_inv_conn exact s f a Hi), (conn_inv_conn exact s' f a Hi').
  unfold gone in Hn. setoid_rewrite Hn. split.
  - intros (c & Hc & Hf). case_decide; [done|]. split; [by exists c|done].
  - intros [(c & Hc & Hf) Ha]. exists c. by rewrite decide_False.
Qed.

Lemma gone_existing l s s' :
  gone l s s' -> NoDup l -> Forall (fun a => is_Some (nodes s !! a)) l -> existing s ≡ₚ existing s' ++ l.
Proof.
  intros Hn Hnd Hlive. unfold existing. rewrite <- (elements_list_to_set (C := gset Z) _ Hnd).
  rewrite <- elements_disj_union.
  - apply elements_proper. intros a. rewrite elem_of_union, !elem_of_dom, elem_of_list_to_set, Hn.
    rewrite Forall_forall in Hlive. specialize (Hlive a). case_decide; [tauto|].
    split; [by left|by intros [?|?]].
  - intros a. rewrite elem_of_dom, elem_of_list_to_set, Hn. intros Hx Hy.
    rewrite decide_True in Hx by done. by destruct Hx.
Qed.

(** What is watched is not touched by their going. *)
Lemma gone_watched l s s' :
  gone l s s' -> conn_inv cfg exact s -> conn_inv cfg exact s' ->
  kwatch (kw (env s')) = kwatch (kw (env s)) -> (forall f, f ∈ fds_at s l -> f ∉ kwatch (kw (env s))) ->
  watched s' = watched s.
Proof.
  intros Hn Hi Hi' Hw Hfree. unfold watched. rewrite Hw. apply list_omap_ext, Forall2_same_length_lookup_2; [done|].
  intros i f f' E1 E2. rewrite E1 in E2. injection E2 as <-. apply list_elem_of_lookup_2, elem_of_elements in E1.
  apply option_eq. intros a. rewrite (gone_conn l s s' f a Hn Hi Hi'). split; [tauto|]. intros Ha. split; [done|].
  intros Hin. apply (Hfree f); [|done]. apply (fds_at_conn s l f Hi). by exists a.
Qed.

Lemma close_list_view O R s :
  view cfg O R s -> HandleCloseList stale s = None /\ frees_badly s \/
  exists s', HandleCloseList stale s = Some (tt, s') /\ view cfg O R s' /\
    lasting O s s' /\ steady s s' /\ nodes s' ⊆ nodes s /\
    (forall n, can_lend n (bufp s) -> can_lend n (bufp s')).
Proof.
  intros Hv. destruct (close_list_cases stale s Hstale) as [[? ?]|Heq]; [by left|right]. rewrite Heq. pose proof (vw_inv _ _ _ _ Hv) as Hi. pose proof (view_nodup _ _ _ _ Hv) as Hnd.
  set (l := cList (inst s)) in *. apply NoDup_app in Hnd as (_ & _ & Hnd). apply NoDup_app in Hnd as (_ & HdO & Hnd).
  assert (Hlive : Forall (fun a => is_Some (nodes s !! a)) l).
  { apply Forall_forall. intros a Ha. apply (view_live cfg O R s a Hv). apply elem_of_app. by right. }
  destruct (HandleCloseList_spec Some cfg s (fun c => eq_refl) Hi) as
    (s' & Hrun & Hcl & Hi' & Hn & [Hcd Heff] & _ & Hlo & Hcan & Hsd); [done|done|].
  change (gone l s s') in Hn. fold l in Hcd, Heff. exists s'. split; [done|].
  assert (Hfree : forall f, f ∈ fds_at s l -> f ∉ kwatch (kw (env s))).
  { intros f (a & Hf & Ha)%fds_at_conn; [|done]. apply (view_unwatched cfg O R s f a Hv Hf). apply elem_of_app. by right. }
  assert (Hw : kwatch (kw (env s')) = kwatch (kw (env s))).
  { rewrite (effect_watch _ _ _ _ Heff) by (by intros ? ?%not_elem_of_nil). apply set_eq. intros f.
    specialize (Hfree f). set_solver. }
  assert (Hop : forall f, f ∈ kopen (kw (env s)) -> f ∉ fds_at s l -> f ∈ kopen (kw (env s'))).
  { intros f Hf Hnf. by apply (effect_open _ _ _ _ _ f Heff Hcd). }
  pose proof (fun f a => gone_conn l s s' f a Hn Hi Hi') as Hconn.
  split; [split|split_and!; try done].
  - done.
  - intros E. pose proof (vw_loops _ _ _ _ Hv) as Hne. rewrite E in Hlo. by destruct (loopInfo (inst s)).
  - rewrite (gone_watched l s s') by done. rewrite Hcl, app_nil_r. apply (Permutation_app_inv_r l).
    rewrite <- (gone_existing l s s' Hn Hnd Hlive), <- (vw_own _ _ _ _ Hv), <- app_assoc. done.
  - intros f a [Hf Ha]%Hconn. destruct (vw_conn _ _ _ _ Hv f a Hf) as [? Ho]. split; [done|].
    apply Hop; [done|]. intros (b & Hb & Hin)%fds_at_conn; [|done]. rewrite Hf in Hb. by injection Hb as <-.
  - rewrite Hw. intros f Hf. destruct (vw_watch _ _ _ _ Hv f Hf) as [a Ha]. exists a.
    apply Hconn. split; [done|]. intros Hin. apply (Hfree f); [|done]. apply fds_at_conn; [done|]. by exists a.
  - pose proof (effect_signal _ _ _ _ Heff) as Hs. rewrite (vw_signal _ _ _ _ Hv) in Hs. set_solver.
  - eapply Forall_impl; [apply (vw_keep _ _ _ _ Hv)|]. intros f (Hpos & Ho & Hc). split_and!; [done| |].
    + apply Hop; [done|]. intros (b & Hb & _)%fds_at_conn; [|done]. congruence.
    + destruct (connections (inst s') !! f) as [a|] eqn:E; [|done]. apply Hconn in E as [E _]. congruence.
  - rewrite (sd_proc _ _ Hsd). apply Hv.
  - intros f a Hf Ha. apply Hconn. split; [done|]. by apply HdO.
  - apply map_subseteq_spec. intros a c. rewrite Hn. by case_decide.
Qed.

Context (Hcap : forall ty, cap ty = match ty with
                  | BUFFER_TYPE_READ => READ_BSIZE cfg | BUFFER_TYPE_WRITE => WRITE_BSIZE cfg end).
Context (Hbounds : tcp_config_bounds cfg) (Hint : tcp_config_int cfg).
Context (Huninit : forall ty, Z.of_nat (length (uninit ty)) = cap ty).
Context (Hmem : forall ty (p p' : P), get_buffer ty p <> Some (None, p')).

Lemma view_apart O R s f : view cfg O R s -> f ∉ kopen (kw (env s)) -> connections (inst s) !! f = None.
Proof.
  intros Hv Hf. destruct (connections (inst s) !! f) as [a|] eqn:E; [|done].
  by destruct (vw_conn _ _ _ _ Hv f a E).
Qed.

Lemma view_negative O R s : view cfg O R s -> connections (inst s) !! (-1) = None.
Proof.
  intros Hv. destruct (connections (inst s) !! (-1)) as [a|] eqn:E; [|done].
  destruct (vw_conn _ _ _ _ Hv (-1) a E). lia.
Qed.

Lemma view_zero O R s : view cfg O R s -> connections (inst s) !! 0 = None.
Proof.
  intros Hv. destruct (connections (inst s) !! 0) as [a|] eqn:E; [|done].
  destruct (vw_conn _ _ _ _ Hv 0 a E). lia.
Qed.

(** A new connection, watched. *)
Lemma added_view O R s s' fd c :
  view cfg O R s -> 0 < fd -> fd ∉ kopen (kw (env s)) -> conn_inv cfg exact s' ->
  cList (inst s') = cList (inst s) -> loopInfo (inst s') <> [] ->
  connections (inst s') = <[fd := next_node s]> (connections (inst s)) ->
  nodes s' = <[next_node s := c]> (nodes s) ->
  closed (env s') = closed (env s) -> effect (env s) (env s') [fd] [] -> steady s s' ->
  view cfg O R s'.
Proof.
  intros Hv Hpos Hfd Hi Hcl Hlo Hc Hn Hsh Heff Hsd. pose proof (vw_inv _ _ _ _ Hv) as Hi0.
  pose proof (view_apart _ _ _ _ Hv Hfd) as Hnone. pose proof (next_fresh cfg _ _ Hi0) as Hnext.
  pose proof (effect_watch _ _ _ _ Heff ltac:(by intros ? _ ?%not_elem_of_nil)) as Hw.
  rewrite list_to_set_nil, difference_empty_L in Hw. simpl in Hw. rewrite union_empty_r_L in Hw.
  assert (Hnw : fd ∉ kwatch (kw (env s))).
  { intros Hf. destruct (vw_watch _ _ _ _ Hv fd Hf). congruence. }
  assert (Hop : forall f, f ∈ kopen (kw (env s)) -> f ∈ kopen (kw (env s'))).
  { intros f Hf. apply (effect_open _ _ _ _ [] f Heff); [by rewrite Hsh, app_nil_r|done|by intros ?%not_elem_of_nil]. }
  split.
  - done.
  - done.
  - assert (watched s' ≡ₚ next_node s :: watched s) as ->.
    { unfold watched. rewrite Hw, union_comm_L, elements_disj_union, elements_singleton by set_solver.
      rewrite omap_app, Hc. simpl. rewrite lookup_insert_eq. apply Permutation_skip, reflexive_eq.
      apply list_omap_ext, Forall2_same_length_lookup_2; [done|]. intros i f f' E1 E2.
      rewrite E1 in E2. injection E2 as <-. apply list_elem_of_lookup_2, elem_of_elements in E1.
      apply lookup_insert_ne. by intros ->. }
    rewrite Hcl. unfold existing. rewrite Hn, dom_insert_L, elements_union_singleton by (by apply not_elem_of_dom).
    rewrite <- (vw_own _ _ _ _ Hv). done.
  - rewrite Hc. intros f a. rewrite lookup_insert_Some. intros [[<- _]|[_ Hf]].
    + split; [done|]. apply kwatch_open. rewrite Hw. set_solver.
    + destruct (vw_conn _ _ _ _ Hv f a Hf). auto.
  - rewrite Hc, Hw. intros f [Hf|Hf]%elem_of_union; apply lookup_insert_is_Some'; [right|left].
    + by apply (vw_watch _ _ _ _ Hv).
    + by apply elem_of_singleton in Hf.
  - pose proof (effect_signal _ _ _ _ Heff) as Hs. rewrite (vw_signal _ _ _ _ Hv) in Hs. set_solver.
  - eapply Forall_impl; [apply (vw_keep _ _ _ _ Hv)|]. intros f (? & Ho & ?). split_and!; [done|by apply Hop|].
    rewrite Hc, lookup_insert_ne; [done|]. by intros ->.
  - rewrite (sd_proc _ _ Hsd). apply Hv.
Qed.

(** [accept] refused: what was closed was no connection. *)
Lemma refused_view O R idlefd s s' :
  view cfg O (idlefd :: R) s -> idlefd ∉ R -> same_conns s s' -> refused idlefd s s' -> view cfg O R s'.
Proof.
  intros Hv Hni Hsame Href. pose proof (vw_keep _ _ _ _ Hv) as Hk.
  apply Forall_cons in Hk as [(Hidle & Hio & Hin) Hk]. rewrite Forall_forall in Hk.
  assert (Hi' : conn_inv cfg exact s') by (apply (same_conns_inv cfg exact s); [done|apply Hv]).
  assert (Hinst : inst s' = inst s) by (by rewrite Hsame).
  assert (Hnodes : nodes s' = nodes s) by (by rewrite Hsame).
  assert (Hall : exists l, shuts (env s) (env s') l /\
            Forall (fun f => connections (inst s) !! f = None /\ f ∉ R) l).
  { destruct Href as [Hsh|(e1 & Hsh1 & Hsh)]; (eexists; split; [exact Hsh|]).
    - constructor.
    - apply Forall_cons. split; [done|]. apply Forall_singleton.
      destruct (call (Accept (listenfd (inst s))) e1).1 as [err|[fd x]] eqn:E; simpl.
      + split; [by eapply view_negative|]. intros H1. destruct (Hk _ H1). lia.
      + destruct (call_accept _ _ _ _ E) as (_ & Hno & _). destruct Hsh1 as [Hc1 Heff1].
        assert (Hop : forall f, f ∈ kopen (kw (env s)) -> f <> idlefd -> f ∈ kopen (kw e1)).
        { intros f Hf Hne. apply (effect_open _ _ _ _ [idlefd] f Heff1); [done|done|set_solver]. }
        split.
        * destruct (decide (fd = idlefd)) as [->|Hne]; [done|]. apply (view_apart _ _ s fd Hv). auto.
        * intros Hfd. destruct (Hk fd Hfd) as (_ & Ho & _). apply Hno, Hop; [done|]. by intros ->. }
  destruct Hall as (l & Hsh & Hl). rewrite Forall_forall in Hl.
  apply (view_same cfg O (idlefd :: R) R l s s' Hv); rewrite ?Hinst; try done.
  - apply Hv.
  - apply Forall_forall. apply Hl.
  - intros f Hf. split; [by right|]. intros Hin'. by destruct (Hl f Hin').
Qed.

Lemma connect_view O R idlefd s :
  view cfg O (idlefd :: R) s -> idlefd ∉ R -> can_lend 2 (bufp s) -> Z.of_nat (size (nodes s)) < 2 ^ 31 - 2 ->
  exists (b : bool) s', HandleConnect uninit stale idlefd s = Some (b, s') /\ turned O s s' /\
    connections (inst s') !! idlefd = None /\
    view cfg O (if b then idlefd :: R else R) s'.
Proof.
  intros Hv Hni Hcan Hsz. pose proof (vw_inv _ _ _ _ Hv) as Hi.
  assert (Hacc : forall fd x, accept_answer s = inr (fd, x) -> 0 < fd /\ fd ∉ kopen (kw (env s))).
  { intros fd x Hx. destruct (call_accept _ _ _ _ Hx) as (? & ? & _). done. }
  assert (Hid : idlefd ∈ kopen (kw (env s)) /\ connections (inst s) !! idlefd = None).
  { pose proof (vw_keep _ _ _ _ Hv) as Hk. by apply Forall_cons in Hk as [(_ & ? & ?) _]. }
  destruct (HandleConnect_spec uninit stale cfg Hcap Hbounds Hint Huninit idlefd s Hi (view_zero _ _ _ Hv)
              (vw_loops _ _ _ _ Hv) Hcan Hsz) as (b & s' & Hrun & Hout).
  { intros fd x Hx. by apply (Hacc fd x). }
  exists b, s'. split; [done|]. destruct (accept_answer s) as [err|[fd [ip port]]] eqn:E.
  - destruct Hout as (-> & Hsame & Href). pose proof Hsame as Hs. unfold same_conns in Hs.
    split; [|split; [rewrite Hs; apply Hid|by apply (refused_view O R idlefd s)]].
    rewrite Hs. split; [by intros f a|by split|simpl; lia].
  - destruct Hout as [-> Hout]. destruct (Hacc fd _ eq_refl) as [Hpos Hno].
    destruct Hout as [Hn Hc Hl Hi' Hcl Hsh Hsd|c i info _ _ _ Hi' Hcl Hf Hc Hn Hl Hsh Heff Hsd|c ty p1 p2 Hget _ _ _ _].
    + split; [split; [intros f a; by rewrite Hc|done|rewrite Hn; lia]|]. split; [rewrite Hc; apply Hid|].
      apply (view_same cfg O (idlefd :: R) _ [fd] s s' Hv); try done.
      * by apply Hsd.
      * rewrite Hl. apply Hv.
      * apply Forall_singleton. by eapply view_apart.
      * intros f Hin. split; [done|]. intros ->%list_elem_of_singleton. pose proof (vw_keep _ _ _ _ Hv) as Hk.
        rewrite Forall_forall in Hk. by destruct (Hk fd Hin) as (_ & ? & _).
    + split; [split|split].
      * intros f a Ha _. rewrite Hc, lookup_insert_ne; [done|]. intros ->. congruence.
      * done.
      * rewrite Hn, map_size_insert_None; [done|]. by eapply next_fresh.
      * rewrite Hc, lookup_insert_ne; [apply Hid|]. intros ->. by apply Hno, Hid.
      * apply (added_view O _ s s' fd c Hv); try done. rewrite Hl. intros Ex%(f_equal length).
        rewrite length_insert in Ex. pose proof (vw_loops _ _ _ _ Hv). by destruct (loopInfo (inst s)).
    + by destruct (Hmem ty p1 p2).
Qed.
Lemma turned_same O s s' :
  inst s' = inst s -> nodes s' = nodes s -> freed s' = freed s -> turned O s s'.
Proof.
  intros Hi Hn Hf. split; [intros f a; by rewrite Hi|split; [by rewrite Hi|]|rewrite Hn; lia].
  intros a. unfold known. by rewrite Hn, Hf.
Qed.

(** Calls of the main thread, that close nothing. *)
Lemma calm_view O R s s' :
  view cfg O R s -> inst s' = inst s -> g s' = g s -> nodes s' = nodes s -> next_node s' = next_node s ->
  bufp s' = bufp s -> shuts (env s) (env s') [] -> view cfg O R s'.
Proof.
  intros Hv Hi Hg Hn Hx Hb Hsh. apply (view_same cfg O R R [] s s' Hv); rewrite ?Hi; try done.
  - apply (still_inv cfg exact s); [done|apply Hv].
  - apply Hv.
  - intros f Hf. split; [done|by intros ?%not_elem_of_nil].
Qed.

(** The reserve descriptor is closed when the loop is left. *)
Lemma leave_view O R R' idlefd s :
  view cfg O R' s -> connections (inst s) !! idlefd = None -> idlefd ∉ R -> (forall f, f ∈ R -> f ∈ R') ->
  view cfg O R (set_env (call (Close idlefd) (env s)).2 s).
Proof.
  intros Hv Hc Hni HR.
  apply (view_same cfg O R' R [idlefd] s _ Hv); try done.
  - apply (same_conns_inv cfg exact s); [done|apply Hv].
  - apply Hv.
  - exact (shuts_call (Close idlefd) (env s) eq_refl).
  - by apply Forall_singleton.
  - intros f Hf. split; [by apply HR|]. by intros ->%list_elem_of_singleton.
Qed.

(** The part of a turn after [poll]: closing what is due and accepting. *)
Definition serve (idlefd : Z) (due acc : bool) (last : Z) : st (state W P (ThreadPool.t SockTaskTcp) U) (Z + bool) :=
  _ ← when due (HandleCloseList stale);
  ok ← (if acc then HandleConnect uninit stale idlefd else mret true);
  if (ok : bool) then mret (inl last) else _ ← sys_ (Close idlefd); mret (inr false).

(** What comes before it waits and looks at the clock and the exit flag. *)
Lemma main_round_cases idlefd last s :
  exists e go, let s0 := set_exitFlag go (set_env e s) in
    shuts (env s) e [] /\ silent s s0 /\
    (main_round uninit stale idlefd last s = Some (inl last, s0) \/
     (exists b, main_round uninit stale idlefd last s = (_ ← sys_ (Close idlefd); mret (inr b)) s0) \/
     exists due acc last', main_round uninit stale idlefd last s = serve idlefd due acc last' s0).
Proof.
  unfold main_round. destruct (load_exitFlag_run s) as (e0 & go & Hflag & _ & He0).
  pose proof (silent_load_exitFlag _ _ _ Hflag) as Hq0. rewrite (bind_some _ _ _ _ _ Hflag).
  set (s0 := set_exitFlag go (set_env e0 s)) in *. change (exitFlag (set_exitFlag go s)) with go.
  destruct go; cbn [negb]; [|exists e0, false; split_and!; [done|done|right; left; by exists true]].
  destruct (clock_run s0) as (now & e1 & Hclock & He1). pose proof (silent_clock _ _ _ Hclock) as Hq1.
  rewrite (bind_some _ _ _ _ _ Hclock). cbv zeta. rewrite (bind_some _ _ _ _ _ (field_run _ _)).
  set (poll := Poll_in _ _). rewrite (bind_some _ _ _ _ _ (sys_run poll _)). cbn [set_env env].
  pose proof (silent_sys poll eq_refl _ _ _ (sys_run poll (set_env e1 s0))) as Hq2.
  pose proof (shuts_call poll e1 eq_refl) as He2. change (closes poll) with (@nil Z) in He2.
  pose proof (shuts_trans _ _ _ _ _ (shuts_trans _ _ _ _ _ He0 He1) He2) as He02.
  set (e2 := (call poll e1).2) in *.
  assert (Hq02 : silent s (set_env e2 s0)) by (transitivity (set_env e1 s0); [by transitivity s0|exact Hq2]).
  destruct (call poll e1).1 as [err|ready].
  { exists e2, true. split; [exact He02|]. split; [exact Hq02|].
    destruct err; [by left|right; left; by exists false ..]. }
  destruct (clock_run (set_env e2 s0)) as (now2 & e3 & Hclock2 & He3).
  pose proof (silent_clock _ _ _ Hclock2) as Hq3. rewrite (bind_some (A := Z) _ _ _ _ _ Hclock2).
  exists e3, true. split; [exact (shuts_trans _ _ _ _ _ He02 He3)|].
  split; [by transitivity (set_env e2 s0)|]. right. right. by eexists _, _, _.
Qed.

Lemma serve_view O R idlefd (due acc : bool) (last : Z) s :
  view cfg O (idlefd :: R) s -> idlefd ∉ R -> can_lend 2 (bufp s) -> Z.of_nat (size (nodes s)) < 2 ^ 31 - 2 ->
  serve idlefd due acc last s = None /\ frees_badly s \/
  exists r s', serve idlefd due acc last s = Some (r, s') /\
    turned O s s' /\ view cfg O (match r with inl _ => idlefd :: R | inr _ => R end) s'.
Proof.
  intros Hv Hni Hcan Hsz. unfold serve.
  assert (when due (HandleCloseList stale) s = None /\ frees_badly s \/
    exists s1, when due (HandleCloseList stale) s = Some (tt, s1) /\ view cfg O (idlefd :: R) s1 /\
    lasting O s s1 /\ steady s s1 /\ (size (nodes s1) <= size (nodes s))%nat /\ can_lend 2 (bufp s1))
    as [[Hn Hbad]|(s1 & Hrun1 & Hv1 & Hla1 & Hsd1 & Hsz1 & Hcan1)].
  { destruct due; [|right; exists s; split_and!; try done; by intros f a].
    destruct (close_list_view O _ s Hv) as [?|(s1 & Hrun1 & Hv1 & Hla1 & Hsd1 & Hsub & Hl)]; [by left|right].
    exists s1. split_and!; auto. apply subseteq_dom, subseteq_size in Hsub. by rewrite !size_dom in Hsub. }
  { left. split; [|done]. by rewrite bind_run, Hn. }
  right. rewrite (bind_some _ _ _ _ _ Hrun1).
  assert (exists (b : bool) s2, (if acc then HandleConnect uninit stale idlefd else mret true) s1 = Some (b, s2) /\
    turned O s1 s2 /\ connections (inst s2) !! idlefd = None /\ view cfg O (if b then idlefd :: R else R) s2)
    as (b & s2 & Hrun2 & [Hla2 Hsd2 Hsz2] & Hc2 & Hv2).
  { destruct acc; [apply connect_view; (done || lia)|]. exists true, s1. split_and!; [done|by apply turned_same| |done].
    pose proof (vw_keep _ _ _ _ Hv1) as Hk. by apply Forall_cons in Hk as [(_ & _ & ?) _]. }
  rewrite (bind_some _ _ _ _ _ Hrun2).
  assert (Ht : turned O s s2).
  { split; [by apply lasting_trans with s1|by apply steady_trans with s1|lia]. }
  destruct b; [by exists (inl last), s2|].
  rewrite (bind_some _ _ _ _ _ (sys__run _ s2)). eexists _, _. split; [done|].
  split; [destruct Ht as [? [] ?]; by split|]. by apply (leave_view O R R).
Qed.

(** A turn of the main loop. *)
Lemma main_round_view O R idlefd last s :
  view cfg O (idlefd :: R) s -> idlefd ∉ R -> can_lend 2 (bufp s) -> Z.of_nat (size (nodes s)) < 2 ^ 31 - 2 ->
  main_round uninit stale idlefd last s = None /\ frees_badly s \/
  exists r s', main_round uninit stale idlefd last s = Some (r, s') /\ turned O s s' /\
    view cfg O (match r with inl _ => idlefd :: R | inr _ => R end) s'.
Proof.
  intros Hv Hni Hcan Hsz.
  destruct (main_round_cases idlefd last s) as (e & go & He & _ & Hcases). cbv zeta in Hcases.
  set (s0 := set_exitFlag go (set_env e s)) in *.
  assert (Hidle : connections (inst s0) !! idlefd = None).
  { pose proof (vw_keep _ _ _ _ Hv) as Hk. by apply Forall_cons in Hk as [(_ & _ & ?) _]. }
  assert (Hv0 : view cfg O (idlefd :: R) s0) by (by apply (calm_view O _ s)).
  destruct Hcases as [->|[[b ->]|(due & acc & last' & ->)]].
  - right. exists (inl last), s0. split; [done|]. split; [by apply turned_same|done].
  - right. rewrite (bind_some _ _ _ _ _ (sys__run _ s0)). eexists (inr b), _. split; [done|].
    split; [by apply turned_same|]. apply (leave_view O R (idlefd :: R)); [done|done|done|]. by right.
  - destruct (serve_view O R idlefd due acc last' s0) as [?|(r & s' & Hrun & [Hla Hsd Hsz'] & Hv')]; try done; [by left|right].
    exists r, s'. split; [done|]. split; [|done]. split; [exact Hla| |exact Hsz']. destruct Hsd as [Hp Hk]. by split.
Qed.
End main.
