(* ===== verification/ServerInv.v ===== *)
(** * ServerInv: the invariant of the server's threads

    [server_inv x]: the connections that exist are each watched, in the close
    list or somebody's work ([view]); the pool's queues are running; the IO
    threads and workers are where they may be.  [server_act_inv]: whatever thread acts
    next, the action is defined and keeps this. *)

From S2P Require Import Prelude Types State BufferProvider Buffer BufferSpec Kernel Epoll Controller.
From S2P Require Import ControllerSpec TaskPool BlockQueue ThreadPool ThreadPoolSpec ThreadPoolInv.
From S2P Require Import Task TaskSpec Tcp TcpSpec TcpIo TcpToken TcpMain TcpFrame Callback CallbackSpec.
From S2P Require Import Server ServerSpec.
Import SPSockTcp Server.

Section inv.
Context {W P U : Type} {cap : BUFFER_TYPE -> Z}.
Context `{HK : KernelLaws W} `{HP : BufferProviderLaws P cap} `{HC : Callbacks U} `{HE : !EpollKernel W}.
Context (ifuel : nat) `{HPat : !Patient W ifuel}.
Context (uninit : BUFFER_TYPE -> list byte) (stale : SOCKController.t -> option SOCKController.t).
Context (body : Z -> Callback.prog U) (cfg : SPTcpConfig) (b : Z) (L n off : nat).
Abbreviation state := (state W P (ThreadPool.t SockTaskTcp) U).
Abbreviation sys := (Server.sys W P U).
Abbreviation act := (act ifuel uninit stale body).
Implicit Types (s : state) (x : sys).

(** The pool has [n] queues of [L] places, of which the first [off] have been stopped. *)
#[local] Instance running_pool : TaskPoolLaws SockTaskTcp (ThreadPool.t SockTaskTcp) (Z.of_nat L) :=
  thread_pool_live L n off.
#[local] Instance roomy_pool : TaskPoolRoom SockTaskTcp (ThreadPool.t SockTaskTcp) := thread_pool_room L.

Context (Hbatch : batch_config cfg b (Z.of_nat L)) (Hworkers : 0 < THREADPOOL_BATCH_SIZE_PROCESS cfg).
Context (Hstale : faithful stale) (Hbody : forall f, Callback.disciplined (body f)).

(** The descriptors of the threads that are no connections. *)
Definition idle_of x : list Z := match main_at x with Looping idlefd _ => [idlefd] | _ => [] end.
Definition exits x : list Z := io_exitfd <$> ios x.

Record io_ok s (t : io_thread) : Prop := {
  io_batch : if b =? 1 then True else batch_ready b (UtilTaskTcp.tm (io_util t)) (buffered b (io_util t));
  io_flag : util_flag b (io_util t) = true;
  io_reports : Forall (fun ev => is_Some (connections (inst s) !! ev.1) /\ reportable ev.2) (reports t);
  io_empty : match io_at t with Handling _ => True | _ => buffered b (io_util t) = [] end }.

(** Queues that are stopped, or not, whatever they hold. *)
Definition flags : list (list SockTaskTcp * bool) := pair [] <$> switched n off.

(** How many queues the main thread has stopped. *)
Definition stopped_by (m : main_pc) : nat :=
  match m with Looping _ _ | Leaving => 0 | Stopping k => k | Joined => n end.

Record worker_fine s (w : worker_thread U) : Prop := {
  wf_worker : worker_ok (tpool s) flags (wt_worker w);
  wf_call a fr : wt_call w = Some (a, fr) ->
    known s a /\ (Callback.rest fr = Callback.Return \/ Callback.disciplined (Callback.rest fr)) }.

Record server_inv_at l x : Prop := {
  sv_off : off = stopped_by (main_at x) /\ (off <= n)%nat;
  sv_number : length (wks x) = n;
  sv_pool : pool_live L n off (tpool (srv x)) l;
  sv_view : view cfg (at_work b l x) (idle_of x ++ exits x) (srv x);
  sv_idle : Forall (fun f => f ∉ exits x) (idle_of x);
  sv_ios : Forall (io_ok (srv x)) (ios x);
  sv_wks : Forall (worker_fine (srv x)) (wks x);
  sv_size : (size (nodes (srv x)) <= L)%nat }.

Definition server_inv x : Prop := exists l, server_inv_at l x.

(** ** What the steps of one thread leave the others *)

Lemma live_threads (p : ThreadPool.t SockTaskTcp) l : pool_live L n off p l -> ThreadPool.threadNum p = Z.of_nat n.
Proof. intros (ab & Hp & Hf & _). rewrite <- (pv_ab _ _ _ Hp). by rewrite (live_length _ _ _ Hf). Qed.

Lemma io_ok_mono s s' t :
  (forall ev, ev ∈ reports t -> connections (inst s') !! ev.1 = connections (inst s) !! ev.1) ->
  io_ok s t -> io_ok s' t.
Proof.
  intros Hc [? ? Hr ?]. split; try done. rewrite Forall_forall in *. intros ev Hev.
  rewrite Hc by done. by apply Hr.
Qed.

Lemma worker_fine_mono s s' w :
  ThreadPool.threadNum (tpool s') = ThreadPool.threadNum (tpool s) -> (forall a, known s a -> known s' a) ->
  worker_fine s w -> worker_fine s' w.
Proof.
  intros Hn Hk [Hw Hc]. split.
  - eapply worker_ok_mono; [exact Hn| |exact Hw]. by eauto.
  - intros a fr Hf. destruct (Hc a fr Hf). auto.
Qed.

(** The work of all threads but one. *)
Lemma at_work_io k t x :
  ios x !! k = Some t -> exists X, (forall l, at_work b l x ≡ₚ io_has b (srv x) t ++ (Task.ctx <$> l) ++ X) /\
    forall l s' m t', connections (inst s') = connections (inst (srv x)) ->
      at_work b l (mkSys s' m (<[k := t']> (ios x)) (wks x)) ≡ₚ io_has b s' t' ++ (Task.ctx <$> l) ++ X.
Proof.
  intros Hk. exists ((delete k (ios x) ≫= io_has b (srv x)) ++ (wks x ≫= worker_has)). split.
  - intros l. unfold at_work. rewrite (bind_delete _ _ _ _ Hk). solve_Permutation.
  - intros l s' m t' Hc. unfold at_work. simpl. rewrite (bind_insert _ _ _ _ t' Hk).
    assert (forall y, io_has b s' y = io_has b (srv x) y) as Hh.
    { intros y. unfold io_has, about. by rewrite Hc. }
    rewrite (list_bind_ext (io_has b s') (io_has b (srv x)) _ _ Hh eq_refl). solve_Permutation.
Qed.

Lemma at_work_worker j w x :
  wks x !! j = Some w -> exists X, (forall l, at_work b l x ≡ₚ worker_has w ++ (Task.ctx <$> l) ++ X) /\
    forall l s' m w', connections (inst s') = connections (inst (srv x)) ->
      at_work b l (mkSys s' m (ios x) (<[j := w']> (wks x))) ≡ₚ worker_has w' ++ (Task.ctx <$> l) ++ X.
Proof.
  intros Hj. exists ((ios x ≫= io_has b (srv x)) ++ (delete j (wks x) ≫= worker_has)). split.
  - intros l. unfold at_work. rewrite (bind_delete _ _ _ _ Hj). solve_Permutation.
  - intros l s' m w' Hc. unfold at_work. simpl. rewrite (bind_insert _ _ _ _ w' Hj).
    assert (forall y, io_has b s' y = io_has b (srv x) y) as Hh.
    { intros y. unfold io_has, about. by rewrite Hc. }
    rewrite (list_bind_ext (io_has b s') (io_has b (srv x)) _ _ Hh eq_refl). solve_Permutation.
Qed.
Lemma mild_size s s' : mild cfg s s' -> size (nodes s') = size (nodes s).
Proof.
  intros Hm. rewrite <- !size_dom. f_equal. apply set_eq. intros a. rewrite !elem_of_dom. apply Hm.
Qed.

(** After a step of the IO thread [k]. *)
Lemma io_rebuild l l' x k t t' s' X :
  server_inv_at l x -> ios x !! k = Some t -> mild cfg (srv x) s' ->
  (forall l s' m t', connections (inst s') = connections (inst (srv x)) ->
     at_work b l (mkSys s' m (<[k := t']> (ios x)) (wks x)) ≡ₚ io_has b s' t' ++ (Task.ctx <$> l) ++ X) ->
  pool_live L n off (tpool s') l' -> view cfg (io_has b s' t' ++ (Task.ctx <$> l') ++ X) (idle_of x ++ exits x) s' ->
  io_exitfd t' = io_exitfd t -> io_ok s' t' ->
  server_inv_at l' (mkSys s' (main_at x) (<[k := t']> (ios x)) (wks x)).
Proof.
  intros [Hof Hnum Hp Hv Hid Hio Hwk Hsz] Hk Hm HX Hp' Hv' He Hok. pose proof (ml_conn _ _ _ Hm) as Hc.
  assert (Hex : exits (mkSys s' (main_at x) (<[k := t']> (ios x)) (wks x)) = exits x).
  { unfold exits. simpl. rewrite list_fmap_insert, He. apply list_insert_id. by rewrite list_lookup_fmap, Hk. }
  split; rewrite ?Hex; try done.
  - eapply view_perm; [|exact Hv']. by rewrite HX.
  - simpl. apply Forall_insert; [|done]. eapply Forall_impl; [exact Hio|].
    intros t0. apply io_ok_mono. intros ev _. by rewrite Hc.
  - simpl. eapply Forall_impl; [exact Hwk|]. intros w. apply worker_fine_mono; [|apply Hm].
    by rewrite (live_threads _ _ Hp), (live_threads _ _ Hp').
  - simpl. by rewrite (mild_size _ _ Hm).
Qed.

(** After a step of the worker [j]. *)
Lemma worker_rebuild l l' x j w w' s' X :
  server_inv_at l x -> wks x !! j = Some w -> mild cfg (srv x) s' ->
  (forall l s' m w', connections (inst s') = connections (inst (srv x)) ->
     at_work b l (mkSys s' m (ios x) (<[j := w']> (wks x))) ≡ₚ worker_has w' ++ (Task.ctx <$> l) ++ X) ->
  pool_live L n off (tpool s') l' -> view cfg (worker_has w' ++ (Task.ctx <$> l') ++ X) (idle_of x ++ exits x) s' ->
  worker_fine s' w' ->
  server_inv_at l' (mkSys s' (main_at x) (ios x) (<[j := w']> (wks x))).
Proof.
  intros [Hof Hnum Hp Hv Hid Hio Hwk Hsz] Hj Hm HX Hp' Hv' Hok. pose proof (ml_conn _ _ _ Hm) as Hc.
  split; try done.
  - simpl. by rewrite length_insert.
  - eapply view_perm; [|exact Hv']. by rewrite HX.
  - simpl. eapply Forall_impl; [exact Hio|]. intros t0. apply io_ok_mono. intros ev _. by rewrite Hc.
  - simpl. apply Forall_insert; [|done]. eapply Forall_impl; [exact Hwk|]. intros w0.
    apply worker_fine_mono; [|apply Hm]. by rewrite (live_threads _ _ Hp), (live_threads _ _ Hp').
  - simpl. by rewrite (mild_size _ _ Hm).
Qed.

(** ** IO threads *)

Lemma buffered_batch u buf : b <> 1 -> batch_ready b (UtilTaskTcp.tm u) buf -> buffered b u = buf.
Proof.
  intros Hb [[(ts & Ht & _ & Hr) _ _ Hsz _] _]. unfold buffered.
  rewrite (proj2 (Z.eqb_neq _ _) Hb), Ht, Hsz, Nat2Z.id. done.
Qed.

Lemma thread_ready l x k t :
  server_inv_at l x -> ios x !! k = Some t -> ready cfg b (io_util t) (buffered b (io_util t)) l (srv x).
Proof.
  intros [_ _ Hp Hv _ Hio _ _] Hk. pose proof (Forall_lookup_1 _ _ _ _ Hio Hk) as [Hb _ _ _].
  destruct (at_work_io k t x Hk) as (X & HX & _). split; [apply Hv| | |done].
  - unfold buffered in *. by destruct (b =? 1).
  - apply Forall_forall. intros a Ha. apply (view_live cfg _ _ _ a Hv). rewrite HX.
    unfold io_has. rewrite !elem_of_app. tauto.
Qed.

(** The utility, after an operation. *)
Lemma ready_buffered u buf l s : ready cfg b u buf l s -> buffered b u = buf.
Proof.
  intros [_ Hb _ _]. destruct (Z.eqb_spec b 1) as [E|E]; [|by apply buffered_batch].
  unfold buffered. by rewrite (proj2 (Z.eqb_eq _ _) E).
Qed.

Lemma ready_batch u buf l s :
  ready cfg b u buf l s -> if b =? 1 then True else batch_ready b (UtilTaskTcp.tm u) (buffered b u).
Proof.
  intros Hr. rewrite (ready_buffered _ _ _ _ Hr). destruct Hr as [_ Hb _ _]. by destruct (b =? 1).
Qed.

Lemma reported_served events s :
  reportable events ->
  (exists f f', rdp (proc (inst s)) = Some f /\ wtp (proc (inst s)) = Some f') -> exists f, served f events s.
Proof.
  intros Hr (f & f' & Hrd & Hwt). unfold served, reportable in *.
  destruct (has_event events (Z.lor EPOLLHUP EPOLLERR)); [by exists 0|].
  destruct (has_event events (Z.lor EPOLLIN EPOLLRDHUP)); [by exists f|].
  destruct (has_event events EPOLLOUT); [by exists f'|done].
Qed.

(** [epoll_wait]. *)
Lemma wait_inv l x k t :
  server_inv_at l x -> ios x !! k = Some t -> io_at t = Waiting ->
  exists t' s', io_step ifuel stale t (srv x) = Some (t', s') /\
    server_inv_at l (mkSys s' (main_at x) (<[k := t']> (ios x)) (wks x)).
Proof.
  intros Hs Hk Hat. pose proof Hs as [_ _ Hp Hv _ Hio _ _].
  pose proof (Forall_lookup_1 _ _ _ _ Hio Hk) as [Hb Hf Hrep Hemp].
  destruct (at_work_io k t x Hk) as (X & HX & HX').
  unfold io_step. rewrite Hat, (bind_some _ _ _ _ _ (gets_run _ (srv x))).
  set (wait := Epoll_wait _ _). rewrite (bind_some _ _ _ _ _ (sys_run wait (srv x))).
  set (s' := set_env (call wait (env (srv x))).2 (srv x)).
  assert (Hm : mild cfg (srv x) s').
  { apply io_rel_mild, io_quiet_env. rewrite closed_closes. apply app_nil_r. }
  assert (Hnone : forall err, (call wait (env (srv x))).1 = inl err -> acts [] [] (srv x) s').
  { intros err E. apply acts_none; [|done]. pose proof (effect_call wait (env (srv x)) eq_refl) as He.
    simpl in He. by rewrite E in He. }
  pose proof (view_perm cfg _ _ _ _ (HX l) Hv) as Hv1.
  destruct ((call wait (env (srv x))).1) as [err|evs] eqn:E.
  - assert (Hquiet : view cfg (io_has b (srv x) t ++ (Task.ctx <$> l) ++ X) (idle_of x ++ exits x) s')
      by (by apply (view_quiet cfg _ _ (srv x)), Hnone with err).
    assert (Hgone : forall pc, reports (io_goto pc (io_util t) t) = [] ->
        io_ok s' (io_goto pc (io_util t) t) /\ io_has b s' (io_goto pc (io_util t) t) = io_has b (srv x) t).
    { intros pc Hpc. split; [split; simpl; [done|done|by rewrite Hpc|rewrite Hat in Hemp; by destruct pc]|].
      unfold io_has. rewrite Hpc. unfold reports. by rewrite Hat. }
    eexists _, s'. split; [done|]. apply (io_rebuild l l x k t _ s' X Hs Hk Hm HX' Hp).
    + destruct err; try (destruct (Hgone Gone eq_refl) as [_ ->]); done.
    + by destruct err.
    + destruct err; try apply (Hgone Gone eq_refl). by split.
  - destruct (view_wait cfg _ _ (srv x) _ _ evs Hv1 E) as [Hv2 Hevs].
    eexists _, s'. split; [done|]. apply (io_rebuild l l x k t _ s' X Hs Hk Hm HX' Hp); [|done|by split].
    eapply view_perm; [|exact Hv2]. unfold io_has, reports at 1 2. rewrite Hat. simpl. solve_Permutation.
Qed.
(** What an event handler may do, seen from the connection it is about. *)
Lemma token_view f a fd l buf l' buf' evs X R s s' :
  view cfg ((a :: about s evs ++ (Task.ctx <$> buf)) ++ (Task.ctx <$> l) ++ X) R s ->
  connections (inst s) !! fd = Some a -> mild cfg s s' -> token f a fd s s' (l ++ buf) (l' ++ buf') ->
  view cfg ((about s evs ++ (Task.ctx <$> buf')) ++ (Task.ctx <$> l') ++ X) R s'.
Proof.
  intros Hv Hfd Hm [E Ha|E Ha|E Ha]; apply (f_equal (fmap Task.ctx)) in E; rewrite !fmap_app in E; simpl in E.
  - apply (view_acts cfg _ _ R [] [] [] s s' Hv Hm Ha); [constructor|]. simpl.
    transitivity (about s evs ++ ((Task.ctx <$> l') ++ (Task.ctx <$> buf')) ++ X); [|solve_Permutation].
    rewrite E. solve_Permutation.
  - apply (view_acts cfg _ _ R [fd] [a] [] s s' Hv Hm Ha); [by repeat constructor|]. simpl.
    apply Permutation_skip.
    transitivity (about s evs ++ ((Task.ctx <$> l') ++ (Task.ctx <$> buf')) ++ X); [|solve_Permutation].
    rewrite E. solve_Permutation.
  - apply (view_acts cfg _ _ R [] [] [a] s s' Hv Hm Ha); [constructor|]. simpl.
    apply Permutation_skip.
    transitivity (about s evs ++ ((Task.ctx <$> l') ++ (Task.ctx <$> buf')) ++ X); [|solve_Permutation].
    rewrite E. solve_Permutation.
Qed.

(** One event. *)
Lemma event_inv l x k t ev evs :
  server_inv_at l x -> ios x !! k = Some t -> io_at t = Handling (ev :: evs) ->
  exists t' s', io_step ifuel stale t (srv x) = Some (t', s') /\
    server_inv (mkSys s' (main_at x) (<[k := t']> (ios x)) (wks x)).
Proof.
  intros Hs Hk Hat. pose proof Hs as [_ _ Hp Hv _ Hio _ Hsz].
  pose proof (Forall_lookup_1 _ _ _ _ Hio Hk) as [Hb Hf Hrep Hemp].
  destruct (at_work_io k t x Hk) as (X & HX & HX'). pose proof (thread_ready l x k t Hs Hk) as Hrd.
  set (buf := buffered b (io_util t)) in *. set (s := srv x) in *.
  unfold reports in Hrep. rewrite Hat in Hrep. apply Forall_cons in Hrep as [[[a Ha] Hre] Hrep].
  assert (Hio_has : io_has b s t = a :: about s evs ++ (Task.ctx <$> buf)).
  { unfold io_has, reports. rewrite Hat, about_cons. unfold about at 1. simpl. by rewrite Ha. }
  pose proof (view_perm cfg _ _ _ _ (HX l) Hv) as Hv1. rewrite Hio_has in Hv1.
  destruct (reported_served ev.2 s Hre (vw_procs _ _ _ _ Hv)) as [f Hserved].
  assert (Hne : ev.1 <> io_exitfd t).
  { intros E. pose proof (vw_keep _ _ _ _ Hv) as Hkeep. rewrite Forall_forall in Hkeep.
    destruct (Hkeep (io_exitfd t)) as (_ & _ & Hn); [|congruence]. apply elem_of_app. right.
    apply list_elem_of_fmap. exists t. split; [done|]. by eapply list_elem_of_lookup_2. }
  assert (Hroom : pool_room L (tpool s) (length buf + 1)).
  { apply (live_room L n off (tpool s) l); [done|]. pose proof (view_size cfg _ _ _ Hv1) as Hlen.
    rewrite !length_app in Hlen. simpl in Hlen. rewrite !length_app, !length_fmap in Hlen. fold s in Hsz. lia. }
  destruct ev as [fd events]. simpl in *.
  destruct (io_event_spec ifuel stale cfg b Hbatch (io_exitfd t) fd events f a (io_util t) buf l s Hrd Ha Hne Hf Hserved)
    as (u' & s' & Hrun & buf' & l' & Hrel & Hrd' & Htok & Hn).
  destruct (Hn 0%nat Hroom) as [Hf' _]. specialize (Htok (or_intror Hf')).
  unfold io_step. rewrite Hat, (bind_some _ _ _ _ _ Hrun). eexists _, s'. split; [done|].
  pose proof (io_rel_mild cfg s s' Hrel) as Hm.
  exists l'. apply (io_rebuild l l' x k t _ s' X Hs Hk Hm HX'); [apply Hrd'| |done|].
  - unfold io_has. cbn [reports io_at io_goto io_util].
    rewrite (ready_buffered _ _ _ _ Hrd'), (about_rel cfg s s' _ Hrel).
    by apply (token_view f a fd l buf).
  - split; simpl; [by eapply ready_batch|done| |done]. rewrite (ir_conn _ _ _ Hrel). exact Hrep.
Qed.

(** The end of a batch. *)
Lemma flush_inv l x k t :
  server_inv_at l x -> ios x !! k = Some t -> io_at t = Handling [] ->
  exists t' s', io_step ifuel stale t (srv x) = Some (t', s') /\
    server_inv (mkSys s' (main_at x) (<[k := t']> (ios x)) (wks x)).
Proof.
  intros Hs Hk Hat. pose proof Hs as [_ _ Hp Hv _ Hio _ Hsz].
  pose proof (Forall_lookup_1 _ _ _ _ Hio Hk) as [Hb Hf Hrep Hemp].
  destruct (at_work_io k t x Hk) as (X & HX & HX'). pose proof (thread_ready l x k t Hs Hk) as Hrd.
  set (buf := buffered b (io_util t)) in *. set (s := srv x) in *.
  pose proof (view_perm cfg _ _ _ _ (HX l) Hv) as Hv1.
  assert (Hio_has : io_has b s t = Task.ctx <$> buf) by (unfold io_has, reports; by rewrite Hat).
  rewrite Hio_has in Hv1.
  assert (Hroom : pool_room L (tpool s) (length buf + 0)).
  { apply (live_room L n off (tpool s) l); [done|]. pose proof (view_size cfg _ _ _ Hv1) as Hlen.
    rewrite !length_app, !length_fmap in Hlen. fold s in Hsz. lia. }
  destruct (flush_room (HR := roomy_pool) stale cfg b Hbatch (io_util t) buf l 0 s Hrd Hf Hroom)
    as (u' & s' & Hrun & Hrel & Hrd' & Hf' & Hact).
  unfold io_step. rewrite Hat, (bind_some _ _ _ _ _ Hrun). eexists _, s'. split; [done|].
  pose proof (io_rel_mild cfg s s' Hrel) as Hm.
  exists (l ++ buf). apply (io_rebuild l (l ++ buf) x k t _ s' X Hs Hk Hm HX'); [apply Hrd'| |done|].
  - unfold io_has. cbn [reports io_at io_goto io_util]. rewrite (ready_buffered _ _ _ _ Hrd').
    apply (view_acts cfg _ _ _ [] [] [] s s' Hv1 Hm Hact); [constructor|]. simpl.
    rewrite fmap_app. solve_Permutation.
  - split; simpl; [by eapply ready_batch|done|constructor|]. by eapply ready_buffered.
Qed.

Lemma io_inv x k t :
  server_inv x -> ios x !! k = Some t ->
  exists t' s', io_step ifuel stale t (srv x) = Some (t', s') /\
    server_inv (mkSys s' (main_at x) (<[k := t']> (ios x)) (wks x)).
Proof.
  intros [l Hs] Hk. destruct (io_at t) as [|[|ev evs]|] eqn:Hat.
  - destruct (wait_inv l x k t Hs Hk Hat) as (t' & s' & ? & ?). exists t', s'. split; [done|]. by exists l.
  - by apply (flush_inv l).
  - by apply (event_inv l x k t ev evs).
  - exists t, (srv x). unfold io_step. rewrite Hat. split; [done|]. exists l.
    rewrite (list_insert_id _ _ _ Hk). by destruct x.
Qed.
(** ** Workers *)

Lemma execute_has t : call_has (execute body t) = [Task.ctx t].
Proof.
  unfold call_has, execute. simpl. pose proof (Hbody (Task.proc t)). by destruct (body (Task.proc t)).
Qed.

(** The queues. *)
Definition pool_at (p : ThreadPool.t SockTaskTcp) ab : Prop := pool_inv L p ab /\ ab.*2 = switched n off.

Lemma flags_switched : flags.*2 = switched n off.
Proof. unfold flags. rewrite <- list_fmap_compose. by apply list_fmap_id. Qed.

Lemma worker_ok_flags p ab ab' (w : ThreadPool.worker SockTaskTcp) :
  ab.*2 = switched n off -> ab'.*2 = switched n off -> worker_ok p ab w -> worker_ok p ab' w.
Proof.
  intros E E'. apply worker_ok_mono; [done|]. intros k l Hk. apply (flag_lookup ab ab' k l true); [congruence|done].
Qed.

Abbreviation pmode := (ThreadPool.mode_of (T := SockTaskTcp) (THREADPOOL_BATCH_SIZE_PROCESS cfg)).
Abbreviation grabs := (Z.to_nat (THREADPOOL_BATCH_SIZE_PROCESS cfg)).

(** What [process] does to the queues and the worker. *)
Lemma process_live late p ab (w : ThreadPool.worker SockTaskTcp) :
  pool_at p ab -> worker_ok p flags w ->
  exists r, ThreadPool.process pmode late w p = Some r /\
    match r with
    | Blocked => waiting late ab w
    | Ready (w', p', y) => exists ab', pool_at p' ab' /\ worker_ok p' flags w' /\
        wtrans grabs (ThreadPool.stopped pmode) p ab w w' ab' y
    end.
Proof.
  intros (Hp & Hf) Hw. pose proof (mode_of_ok (T := SockTaskTcp) L _ Hworkers) as Hm.
  pose proof (worker_ok_flags _ _ ab _ flags_switched Hf Hw) as Hwo.
  destruct (process_spec Hm late p ab w Hp Hwo) as (r & Hrun & Hr).
  exists r. split; [exact Hrun|]. destruct r as [|[[w' p'] y]]; [done|].
  destruct Hr as (ab' & Hp' & Hsp & Ht). pose proof (mo_stopped _ _ _ Hm) as Hfin.
  destruct (wtrans_flags _ _ _ _ _ _ Ht) as [_ Hfl]. rewrite Hf in Hfl.
  exists ab'. split; [done|]. split; [|done]. apply (worker_ok_flags _ ab' flags _ Hfl flags_switched).
  exact (wtrans_worker_ok Hfin p p' ab w w' ab' y Hwo Hsp Ht).
Qed.

(** One action of a worker that runs no callback. *)
Lemma process_inv l ab x j w late :
  server_inv_at l x -> pool_at (tpool (srv x)) ab -> l ≡ₚ tasks ab -> wks x !! j = Some w -> wt_call w = None ->
  exists r s', worker_step ifuel stale body late w (srv x) = Some (r, s') /\
    match r with
    | Blocked => s' = srv x /\ waiting late ab (wt_worker w)
    | Ready w' => exists ab' y, pool_at (tpool s') ab' /\
        wtrans grabs (ThreadPool.stopped pmode) (tpool (srv x)) ab (wt_worker w) (wt_worker w') ab' y /\
        wt_call w' = execute body <$> y /\
        server_inv_at (tasks ab') (mkSys s' (main_at x) (ios x) (<[j := w']> (wks x)))
    end.
Proof.
  intros Hs Hab Hl Hj Hcall. pose proof Hs as [_ _ _ Hv _ _ Hwk _].
  pose proof (Forall_lookup_1 _ _ _ _ Hwk Hj) as [Hw _].
  destruct (at_work_worker j w x Hj) as (X & HX & HX').
  destruct (process_live late _ _ _ Hab Hw) as (r & Hrun & Hr).
  unfold worker_step. rewrite Hcall, (ci_cfg _ _ _ (vw_inv _ _ _ _ Hv)), Hrun. cbn [mbind option_bind].
  destruct r as [|[[w' p'] y]]; [by eexists _, _|]. destruct Hr as (ab' & Hp' & Hw' & Hwt).
  eexists _, _. split; [done|]. set (s' := set_tpool p' (srv x)).
  exists ab', y. split; [done|]. split; [done|]. split; [done|].
  assert (Ht : held (wt_worker w) ++ l ≡ₚ option_list y ++ held w' ++ tasks ab').
  { rewrite Hl. pose proof (mode_of_ok (T := SockTaskTcp) L _ Hworkers) as Hm.
    exact (wtrans_tasks (mo_stopped _ _ _ Hm) _ _ _ _ _ _ Hwt). }
  assert (Hm : mild cfg (srv x) s') by apply io_rel_mild, io_rel_tpool.
  assert (Hv' : view cfg (worker_has (mkWorkerThread w' (execute body <$> y)) ++ (Task.ctx <$> tasks ab') ++ X)
                  (idle_of x ++ exits x) s').
  { apply (view_acts cfg (at_work b l x) _ _ [] [] [] (srv x) s' Hv Hm); [by apply acts_same|constructor|].
    rewrite HX. unfold worker_has. rewrite Hcall. simpl.
    assert (match execute body <$> y with Some c => call_has c | None => [] end = Task.ctx <$> option_list y) as ->.
    { destruct y as [t|]; simpl; [apply execute_has|done]. }
    rewrite app_nil_r, app_assoc, <- fmap_app, Ht, !fmap_app. solve_Permutation. }
  assert (Hlive : pool_live L n off p' (tasks ab')) by (destruct Hp' as (? & ?); by exists ab').
  apply (worker_rebuild l (tasks ab') x j w _ s' X Hs Hj Hm HX' Hlive Hv').
  split; [exact Hw'|]. simpl. intros a fr E. destruct y as [t|]; [|done]. injection E as <- <-. simpl.
  split; [|right; apply Hbody]. left. apply (view_live cfg _ _ s' _ Hv').
  unfold worker_has. cbn [wt_call fmap option_fmap option_map]. rewrite execute_has.
  rewrite !elem_of_app. left. left. right. by left.
Qed.

(** The next thing a callback does is to write to a destroyed controller. *)
Definition writes_badly a (fr : Callback.frame U) s : Prop :=
  Callback.pending fr <> [] /\ nodes s !! a = None /\ ~ resilient stale.

(** One call of a callback, or one of the writes that end [enableEvents]. *)
Lemma callback_inv l x j w a fr :
  server_inv_at l x -> wks x !! j = Some w -> wt_call w = Some (a, fr) -> Callback.finished fr = false ->
  Callback.user_step ifuel stale a fr (srv x) = None /\ writes_badly a fr (srv x) \/
  exists fr' s', Callback.user_step ifuel stale a fr (srv x) = Some (fr', s') /\
    server_inv_at l (mkSys s' (main_at x) (ios x) (<[j := mkWorkerThread (wt_worker w) (Some (a, fr'))]> (wks x))) /\
    mild cfg (srv x) s' /\ (Callback.pending fr = [] -> live (srv x) a).
Proof.
  intros Hs Hj Hcall Hfin. pose proof Hs as [_ _ Hp Hv _ _ Hwk _].
  pose proof (Forall_lookup_1 _ _ _ _ Hwk Hj) as [Hw Hc]. destruct (Hc a fr Hcall) as [Hka Hrest].
  destruct (at_work_worker j w x Hj) as (X & HX & HX').
  pose proof (view_perm cfg _ _ _ _ (HX l) Hv) as Hv1. unfold worker_has in Hv1. rewrite Hcall in Hv1.
  set (s := srv x) in *.
  enough (Callback.user_step ifuel stale a fr s = None /\ writes_badly a fr s \/
    exists fr' s', Callback.user_step ifuel stale a fr s = Some (fr', s') /\ mild cfg s s' /\
    tpool s' = tpool s /\ (Callback.pending fr = [] -> live s a) /\ (Callback.rest fr' = Callback.Return \/ Callback.disciplined (Callback.rest fr')) /\
    view cfg (((Task.ctx <$> held (wt_worker w)) ++ call_has (a, fr')) ++ (Task.ctx <$> l) ++ X)
      (idle_of x ++ exits x) s') as [?|(fr' & s' & Hrun & Hm & Ht & Hl & Hr' & Hv')]; [by left|right|].
  { exists fr', s'. split; [done|]. split; [|done]. apply (worker_rebuild l l x j w _ s' X Hs Hj Hm HX'); [by rewrite Ht|done|].
    split; simpl; [by rewrite Ht|]. intros a0 fr0 [= <- <-]. split; [|done]. by apply Hm. }
  unfold Callback.user_step. destruct fr as [[|st pend] p]; simpl in *.
  - destruct Hrest as [->|Hd]; [done|].
    assert (Hhas : call_has (a, Callback.mkFrame [] p) = [a]) by (unfold call_has; simpl; by destruct p).
    rewrite Hhas in Hv1. right.
    assert (Hla : live s a).
    { apply (view_live cfg _ _ s a Hv1). rewrite !elem_of_app. left. left. right. by left. }
    destruct (user_call_spec ifuel stale cfg a p s) as (fr' & s' & Hrun & Hm & Ht & Hafter); [apply Hv1|done..|].
    exists fr', s'. split; [done|]. split; [done|]. split; [done|]. split; [done|].
    destruct Hafter as [Hd' Ha|c Hca Hret Ha|Hret Ha].
    + split; [by right|]. apply (view_quiet cfg _ _ s s'); [|done|done].
      assert (call_has (a, fr') = [a]) as -> by (unfold call_has; simpl; by destruct (Callback.rest fr')). done.
    + split; [by left|]. unfold call_has. simpl. rewrite Hret.
      apply (view_acts cfg _ _ _ [SOCKController.fd c] [a] [] s s' Hv1 Hm Ha); [|simpl; solve_Permutation].
      repeat constructor. by apply (ci_node _ _ _ (vw_inv _ _ _ _ Hv1) a c Hca).
    + split; [by left|]. unfold call_has. simpl. rewrite Hret.
      apply (view_acts cfg _ _ _ [] [] [a] s s' Hv1 Hm Ha); [constructor|simpl; solve_Permutation].
  - destruct (write_events_spec stale cfg a st s Hstale Hka) as [[Hn Hbad]|(s' & Hrun & Hm & Ht & Ha)].
    { left. by rewrite bind_run, Hn. }
    right. rewrite (bind_some _ _ _ _ _ Hrun). eexists _, s'. split; [done|]. split; [done|]. split; [done|].
    split; [done|]. split; [done|]. by apply (view_quiet cfg _ _ s s').
Qed.

(** The end of a callback. *)
Lemma finish_inv l x j w a fr :
  server_inv_at l x -> wks x !! j = Some w -> wt_call w = Some (a, fr) -> Callback.finished fr = true ->
  server_inv_at l (mkSys (srv x) (main_at x) (ios x) (<[j := mkWorkerThread (wt_worker w) None]> (wks x))).
Proof.
  intros Hs Hj Hcall Hfin. pose proof Hs as [_ _ Hp Hv _ _ Hwk _].
  pose proof (Forall_lookup_1 _ _ _ _ Hwk Hj) as [Hw _].
  destruct (at_work_worker j w x Hj) as (X & HX & HX').
  apply (worker_rebuild l l x j w _ _ X Hs Hj); [apply mild_refl|done|done| |by split].
  eapply view_perm; [|exact Hv]. rewrite HX. unfold worker_has. rewrite Hcall. simpl.
  unfold call_has, Callback.finished in *. simpl. destruct fr as [[|] []]; simpl in *; done.
Qed.

Lemma worker_inv x j w late :
  server_inv x -> wks x !! j = Some w ->
  (exists a fr, wt_call w = Some (a, fr) /\ worker_step ifuel stale body late w (srv x) = None /\
     writes_badly a fr (srv x)) \/
  exists r s', worker_step ifuel stale body late w (srv x) = Some (r, s') /\
    match r with
    | Blocked => s' = srv x
    | Ready w' => server_inv (mkSys s' (main_at x) (ios x) (<[j := w']> (wks x)))
    end.
Proof.
  intros [l Hs] Hj. destruct (wt_call w) as [[a fr]|] eqn:Hcall.
  - unfold worker_step. rewrite Hcall. destruct (Callback.finished fr) eqn:Hfin.
    + right. eexists _, _. split; [done|]. exists l. by apply (finish_inv l x j w a fr).
    + destruct (callback_inv l x j w a fr Hs Hj Hcall Hfin) as [[Hn Hbad]|(fr' & s' & Hrun & Hs' & _)].
      * left. exists a, fr. split; [done|]. by rewrite bind_run, Hn.
      * right. rewrite (bind_some _ _ _ _ _ Hrun). eexists _, s'. split; [done|]. by exists l.
  - right. pose proof (sv_pool _ _ Hs) as (ab & Hp & Hf & Hl).
    destruct (process_inv l ab x j w late Hs) as (r & s' & Hrun & Hr); [by split|done..|].
    exists r, s'. split; [done|]. destruct r as [|w']; [by destruct Hr|]. destruct Hr as (ab' & y & _ & _ & _ & Hs').
    by exists (tasks ab').
Qed.

End inv.

(** ** The main thread *)

Section act.
Context {W P U : Type} {cap : BUFFER_TYPE -> Z}.
Context `{HK : KernelLaws W} `{HP : BufferProviderLaws P cap} `{HC : Callbacks U} `{HE : !EpollKernel W}.
Context (ifuel : nat) `{HPat : !Patient W ifuel}.
Context (uninit : BUFFER_TYPE -> list byte) (stale : SOCKController.t -> option SOCKController.t).
Context (body : Z -> Callback.prog U) (cfg : SPTcpConfig) (b : Z) (L n : nat).
Abbreviation state := (state W P (ThreadPool.t SockTaskTcp) U).
Abbreviation sys := (Server.sys W P U).
Abbreviation act := (act ifuel uninit stale body).
Implicit Types (s : state) (x : sys).
Context (Hbatch : batch_config cfg b (Z.of_nat L)) (Hworkers : 0 < THREADPOOL_BATCH_SIZE_PROCESS cfg).
Context (Hstale : faithful stale) (Hbody : forall f, Callback.disciplined (body f)).
Context (Hcap : forall ty, cap ty = match ty with
                  | BUFFER_TYPE_READ => READ_BSIZE cfg | BUFFER_TYPE_WRITE => WRITE_BSIZE cfg end).
Context (Hbounds : tcp_config_bounds cfg) (Hint : tcp_config_int cfg).
Context (Huninit : forall ty, Z.of_nat (length (uninit ty)) = cap ty).
Context (Hmem : forall ty (p p' : P), get_buffer ty p <> Some (None, p')) (HL : Z.of_nat L < 2 ^ 31 - 2).

(** The number of connections stays within what a queue of the pool takes, and
    there are buffers for one more. *)
Definition admissible (a : action) x : Prop :=
  match a, main_at x with
  | AMain, Looping _ _ => (size (nodes (srv x)) < L)%nat /\ can_lend 2 (bufp (srv x))
  | _, _ => True
  end.

(** The invariant, however many queues have been stopped. *)
Definition server_ok x : Prop := exists off, server_inv cfg b L n off x.

Lemma lasting_about O s s' evs :
  lasting O s s' -> Forall (fun ev => is_Some (connections (inst s) !! ev.1)) evs ->
  (forall a, a ∈ about s evs -> a ∈ O) ->
  Forall (fun ev => connections (inst s') !! ev.1 = connections (inst s) !! ev.1) evs.
Proof.
  intros Hl Hev HO. apply Forall_forall. intros ev Hin. rewrite Forall_forall in Hev.
  destruct (Hev ev Hin) as [a Ha]. rewrite Ha. apply Hl; [done|]. apply HO. unfold about.
  apply list_elem_of_omap. by exists ev.
Qed.

Lemma about_same s s' evs :
  Forall (fun ev => connections (inst s') !! ev.1 = connections (inst s) !! ev.1) evs -> about s' evs = about s evs.
Proof.
  induction 1 as [|ev evs Hev _ IH]; [done|]. rewrite (about_cons s), (about_cons s'), IH. f_equal.
  unfold about. simpl. by rewrite Hev.
Qed.

(** What [a] is about to touch was destroyed: a connection of the close list,
    whose controller [HandleCloseList] reads after it erased it, or the one of
    a callback that has still to write to it ([enableEvents]). *)
Definition uses_freed (a : action) x : Prop :=
  match a with
  | AMain => match main_at x with Looping _ _ => cList (inst (srv x)) <> [] | _ => False end
  | AWorker j _ => exists w c fr, wks x !! j = Some w /\ wt_call w = Some (c, fr) /\
      Callback.pending fr <> [] /\ nodes (srv x) !! c = None
  | _ => False
  end.

(** A turn of the main loop. *)
Lemma looping_inv off x idlefd last :
  server_inv cfg b L n off x -> main_at x = Looping idlefd last ->
  (size (nodes (srv x)) < L)%nat -> can_lend 2 (bufp (srv x)) ->
  main_round uninit stale idlefd last (srv x) = None /\ frees_badly stale (srv x) \/
  exists r s', main_round uninit stale idlefd last (srv x) = Some (r, s') /\
    server_inv cfg b L n off (mkSys s' (match r with inl last => Looping idlefd last | inr _ => Leaving end) (ios x) (wks x)).
Proof.
  intros [l [Hof Hnum Hp Hv Hid Hio Hwk Hsz]] Hm Hroom Hcan. unfold idle_of in Hid, Hv. rewrite Hm in Hid, Hv, Hof.
  apply Forall_cons in Hid as [Hid _].
  destruct (main_round_view uninit stale cfg Hstale Hcap Hbounds Hint Huninit Hmem (at_work b l x)
              (exits x) idlefd last (srv x) Hv Hid Hcan) as [?|(r & s' & Hrun & [Hla Hsd Hsz'] & Hv')]; [lia|by left|right].
  exists r, s'. split; [done|]. exists l. pose proof (keeps_main_round _ _ _ _ _ _ _ Hrun : _ = _) as Hpool.
  assert (Hsame : forall t, t ∈ ios x ->
            Forall (fun ev => connections (inst s') !! ev.1 = connections (inst (srv x)) !! ev.1) (reports t)).
  { intros t Ht. apply (lasting_about (at_work b l x)); [done| |].
    - rewrite Forall_forall in Hio. destruct (Hio t Ht) as [_ _ Hr _].
      eapply Forall_impl; [exact Hr|]. by intros ev [? _].
    - intros a Ha. unfold at_work. apply elem_of_app. left. apply list_elem_of_bind.
      exists t. split; [|done]. unfold io_has. apply elem_of_app. by left. }
  split; simpl; [by destruct r|done|by rewrite Hpool| | | | |lia].
  - match goal with |- view _ (at_work b l ?y) _ _ => assert (at_work b l y = at_work b l x) as -> end.
    { unfold at_work. simpl. f_equal. clear -Hsame. induction (ios x) as [|t ts IH]; [done|].
      rewrite !bind_cons, IH by (intros t' Ht'; apply Hsame; by right). f_equal.
      unfold io_has. rewrite (about_same (srv x) s'); [done|]. apply Hsame. by left. }
    destruct r; exact Hv'.
  - destruct r; [by apply Forall_singleton|constructor].
  - apply Forall_forall. intros t Ht. rewrite Forall_forall in Hio. apply (io_ok_mono _ (srv x)); [|by apply Hio].
    specialize (Hsame t Ht). by rewrite Forall_forall in Hsame.
  - eapply Forall_impl; [exact Hwk|]. intros w. apply worker_fine_mono; [by rewrite Hpool|apply Hsd].
Qed.

(** A step after it that changes the flags of the pool at most. *)
Lemma leave_inv off off' l x m p :
  server_inv_at cfg b L n off l x -> main_at x = m -> idle_of (mkSys (srv x) m (ios x) (wks x)) = [] ->
  forall m', off' = stopped_by n m' /\ (off <= off' <= n)%nat -> idle_of (mkSys (srv x) m' (ios x) (wks x)) = [] ->
  ThreadPool.threadNum p = ThreadPool.threadNum (tpool (srv x)) -> pool_live L n off' p l ->
  server_inv_at cfg b L n off' l (mkSys (set_tpool p (srv x)) m' (ios x) (wks x)).
Proof.
  intros [Hof Hnum Hp Hv Hid Hio Hwk Hsz] Hm Hnone m' [Hof' Hle] Hnone' Hth Hp'.
  assert (Hx : idle_of x = []) by (unfold idle_of in *; by rewrite Hm).
  split; simpl; try done; [lia| |by unfold idle_of in *; simpl in *; rewrite Hnone'|..].
  - replace (idle_of (mkSys (set_tpool p (srv x)) m' (ios x) (wks x)) ++ exits (mkSys (set_tpool p (srv x)) m' (ios x) (wks x)))
      with (idle_of x ++ exits x) by (rewrite Hx; unfold idle_of in *; simpl in *; by rewrite Hnone').
    apply (calm_view cfg _ _ (srv x)); try done. apply shuts_refl.
  - eapply Forall_impl; [exact Hio|]. intros t. by apply io_ok_mono.
  - eapply Forall_impl; [exact Hwk|]. intros w [Hw Hc]. split; [|done].
    eapply worker_ok_mono; [exact Hth| |exact Hw]. unfold flags. intros k l0. rewrite !list_lookup_fmap.
    intros (f & Hf & [= -> <-])%fmap_Some. apply switched_lookup in Hf as [Hk Hf].
    unfold switched. rewrite list_lookup_fmap, lookup_seq_lt by done. simpl.
    rewrite bool_decide_true; [by eexists|]. symmetry in Hf. apply bool_decide_eq_true in Hf. lia.
Qed.

Lemma leaving_step off l x :
  server_inv_at cfg b L n off l x -> main_at x = Leaving ->
  exists s', main_step uninit stale (wks x) Leaving (srv x) = Some (Ready (Stopping 0), s') /\
    server_inv_at cfg b L n 0 l (mkSys s' (Stopping 0) (ios x) (wks x)).
Proof.
  intros Hs Hm. pose proof Hs as [[Hof Hle] _ Hp _ _ _ _ _]. rewrite Hm in Hof. simpl in Hof. subst off.
  assert (exists qs, ThreadPool.queues (tpool (srv x)) = Some qs) as [qs Hqs]
    by (destruct Hp as (ab & [_ _ _ (qs & ? & _) _] & _); by exists qs).
  cbn [main_step]. rewrite (bind_some _ _ _ _ _ (gets_run _ (srv x))), Hqs. eexists. split; [done|].
  apply (leave_inv 0 0 l x Leaving); try done. by apply policy_live.
Qed.

Lemma stopping_step off l x k :
  server_inv_at cfg b L n off l x -> main_at x = Stopping k -> (k < n)%nat ->
  exists s', main_step uninit stale (wks x) (Stopping k) (srv x) = Some (Ready (Stopping (S k)), s') /\
    server_inv_at cfg b L n (S k) l (mkSys s' (Stopping (S k)) (ios x) (wks x)).
Proof.
  intros Hs Hm Hlt. pose proof Hs as [[Hof Hle] Hnum Hp _ _ _ _ _]. rewrite Hm in Hof. simpl in Hof. subst k.
  cbn [main_step]. rewrite decide_True by (by rewrite Hnum). rewrite (bind_some _ _ _ _ _ (gets_run _ (srv x))).
  destruct (stop_live L n off _ l Hp Hlt) as (p' & Hrun & Hth & _ & Hp').
  unfold lift. rewrite Hrun. eexists. split; [done|].
  apply (leave_inv off (S off) l x (Stopping off)); try done. simpl. lia.
Qed.

(** [join] returns when every worker has ended. *)
Lemma join_step off l x :
  server_inv_at cfg b L n off l x -> main_at x = Stopping n ->
  main_step uninit stale (wks x) (Stopping n) (srv x)
    = Some (if forallb ended (wks x) then Ready Joined else Blocked, srv x) /\
  server_inv_at cfg b L n n l (mkSys (srv x) Joined (ios x) (wks x)).
Proof.
  intros Hs Hm. pose proof Hs as [[Hof Hle] Hnum Hp _ _ _ _ _]. rewrite Hm in Hof. simpl in Hof. subst off.
  cbn [main_step]. rewrite decide_False by (rewrite Hnum; lia). split; [done|].
  replace (srv x) with (set_tpool (tpool (srv x)) (srv x)) by (by destruct (srv x)).
  by apply (leave_inv n n l x (Stopping n)).
Qed.

Lemma main_inv off x :
  server_inv cfg b L n off x -> admissible AMain x ->
  main_step uninit stale (wks x) (main_at x) (srv x) = None /\ uses_freed AMain x /\ ~ resilient stale \/
  exists r s', main_step uninit stale (wks x) (main_at x) (srv x) = Some (r, s') /\
    match r with Blocked => True | Ready m => server_ok (mkSys s' m (ios x) (wks x)) end.
Proof.
  intros [l Hs] Ha. unfold admissible in Ha. unfold uses_freed. destruct (main_at x) as [idlefd last| |k|] eqn:Hm; [|right..].
  - destruct Ha as [Hroom Hcan].
    destruct (looping_inv off x idlefd last (ex_intro _ l Hs) Hm Hroom Hcan) as [[Hn Hbad]|(r & s' & Hrun & Hs')].
    { left. cbn [main_step]. split; [by rewrite bind_run, Hn|done]. }
    right. cbn [main_step]. rewrite (bind_some _ _ _ _ _ Hrun). eexists _, s'. split; [done|]. by exists off.
  - destruct (leaving_step off l x Hs Hm) as (s' & -> & Hs'). eexists _, s'. split; [done|]. by exists 0%nat, l.
  - destruct (decide (k < n)%nat) as [Hlt|Hge].
    + destruct (stopping_step off l x k Hs Hm Hlt) as (s' & -> & Hs'). eexists _, s'. split; [done|]. by exists (S k), l.
    + assert (k = n) as -> by (pose proof (sv_off _ _ _ _ _ _ _ Hs) as [Hof Hle]; rewrite Hm in Hof; simpl in Hof; lia).
      destruct (join_step off l x Hs Hm) as [-> Hs']. eexists _, _. split; [done|].
      destruct (forallb ended (wks x)); [|done]. by exists n, l.
  - eexists _, _. by split.
Qed.

(** What the main thread touches: after the main loop, the pool. *)
Lemma main_step_state ws m s r s' :
  main_step uninit stale ws m s = Some (r, s') ->
  match m with
  | Looping idlefd last => exists r', main_round uninit stale idlefd last s = Some (r', s')
  | _ => exists p, s' = set_tpool p s
  end.
Proof.
  assert (Hsame : exists p, s = set_tpool p s) by (exists (tpool s); by destruct s).
  destruct m as [idlefd last| |k|]; cbn [main_step]; rewrite ?(bind_some _ _ _ _ _ (gets_run _ s)).
  - rewrite bind_run. destruct (main_round _ _ _ _ s) as [[r' s1]|]; [|done]. intros [= _ <-]. by exists r'.
  - destruct (ThreadPool.queues (tpool s)); intros [= _ <-]; [by eexists|done].
  - case_decide; [|by intros [= _ <-]]. rewrite (bind_some _ _ _ _ _ (gets_run _ s)). unfold lift.
    destruct (ThreadPool.stop_queue _ _); [|done]. intros [= _ <-]. by eexists.
  - by intros [= _ <-].
Qed.

(** ** Every action *)

Lemma signal_inv off x sg :
  server_inv cfg b L n off x -> exists s', HandleExit sg (srv x) = Some (tt, s') /\
    server_inv cfg b L n off (mkSys s' (main_at x) (ios x) (wks x)).
Proof.
  intros [l [Hof Hnum Hp Hv Hid Hio Hwk Hsz]]. unfold HandleExit.
  rewrite (bind_some _ _ _ _ _ (gets_run _ (srv x))). destruct (exitFlag (srv x)).
  - eexists. split; [done|]. exists l. split; simpl; try done.
    + apply (calm_view cfg _ _ (srv x)); try done. apply shuts_refl.
    + eapply Forall_impl; [exact Hio|]. intros t. by apply io_ok_mono.
    + eapply Forall_impl; [exact Hwk|]. intros w. by apply worker_fine_mono.
  - exists (srv x). split; [done|]. exists l. by split.
Qed.

Lemma server_act_inv a x :
  server_ok x -> admissible a x ->
  act a x = None /\ uses_freed a x /\ ~ resilient stale \/
  exists r, act a x = Some r /\ match r with Blocked => True | Ready x' => server_ok x' end.
Proof.
  intros [off Hs] Ha. destruct a as [|k|j late|sg]; cbn [Server.act].
  - destruct (main_inv off x Hs Ha) as [[-> Hbad]|(r & s' & -> & Hs')]; [by left|right]. destruct r as [|m]; by eexists.
  - right. destruct (ios x !! k) as [t|] eqn:Hk; [|by eexists].
    destruct (io_inv ifuel stale cfg b L n off Hbatch x k t Hs Hk) as (t' & s' & -> & Hs').
    eexists. split; [done|]. by exists off.
  - destruct (wks x !! j) as [w|] eqn:Hj; [|right; by eexists].
    destruct (worker_inv ifuel stale body cfg b L n off Hworkers Hstale Hbody x j w late Hs Hj)
      as [(c & fr & Hc & -> & Hp & Hn & Hr)|(r & s' & -> & Hs')]; [left|right].
    { split; [done|]. split; [|done]. cbn [uses_freed]. exists w, c, fr. by rewrite Hj. }
    destruct r as [|w']; [by eexists|]. eexists. split; [done|]. by exists off.
  - right. destruct (signal_inv off x sg Hs) as (s' & -> & Hs'). eexists. split; [done|]. by exists off.
Qed.

(** What the server may come to. *)
Inductive reach x : sys -> Prop :=
  | reach_refl : reach x x
  | reach_step a x1 x2 : reach x x1 -> admissible a x1 -> act a x1 = Some (Ready x2) -> reach x x2.

Lemma server_reach_inv x x' : server_ok x -> reach x x' -> server_ok x'.
Proof.
  intros Hs. induction 1 as [|a x1 x2 _ IH Ha Hrun]; [done|].
  destruct (server_act_inv a x1 IH Ha) as [[Hn _]|(r & Hr & Hs')]; [congruence|]. rewrite Hrun in Hr. by injection Hr as <-.
Qed.

(** ** The start *)

(** The server when [MainEventLoop] is called: nothing is connected. *)
Record set_up idlefd s : Prop := {
  su_inv : conn_inv cfg exact s;
  su_nodes : nodes s = ∅;
  su_list : cList (inst s) = [];
  su_loops : loopInfo (inst s) <> [];
  su_procs : exists f f', rdp (proc (inst s)) = Some f /\ wtp (proc (inst s)) = Some f';
  su_watch : kwatch (kw (env s)) = ∅;
  su_signal : ksignal (kw (env s)) = ∅;
  su_apart : Forall (apart s) (idlefd :: (loops (inst s)).*2);
  su_idle : idlefd ∉ (loops (inst s)).*2;
  su_pool : pool_inv L (tpool s) (replicate n ([], false)) }.

Lemma launch_nothing ts idlefd last s : at_work b [] (launch ts idlefd last s) = [].
Proof.
  unfold at_work, launch. simpl.
  assert (((io_start ts (tcpConfig (g s)) <$> loops (inst s)) ≫= io_has b s) = []) as ->.
  { induction (loops (inst s)) as [|x ls IH]; [done|]. rewrite fmap_cons, bind_cons, IH, app_nil_r.
    unfold io_has, io_start, buffered, UtilTaskTcp.init. simpl. destruct (b =? 1); [done|].
    by destruct (_ =? 1). }
  simpl. generalize (seqZ 0 (ThreadPool.threadNum (tpool s))). intros l. induction l as [|me l IH]; [done|].
  rewrite !fmap_cons, bind_cons, IH. unfold worker_has, held, ThreadPool.worker_start. simpl.
  by case_decide.
Qed.

Lemma launch_inv ts idlefd last s :
  (b <> 1 -> Z.of_nat (length ts) = b) -> set_up idlefd s -> server_inv cfg b L n 0 (launch ts idlefd last s).
Proof.
  intros Hts [Hi Hn Hl Hlo Hpr Hw Hsg Hap Hid Hp]. exists [].
  assert (Hthr : n = Z.to_nat (ThreadPool.threadNum (tpool s))).
  { rewrite <- (pv_ab _ _ _ Hp), length_replicate. lia. }
  assert (Hc : connections (inst s) = ∅).
  { apply map_empty. intros f. destruct (connections (inst s) !! f) as [a|] eqn:E; [|done].
    destruct (ci_conn _ _ _ Hi f a E) as (c & Hcc & _). by rewrite Hn in Hcc. }
  assert (Hex : exits (launch ts idlefd last s) = (loops (inst s)).*2).
  { unfold exits, launch. simpl. rewrite <- list_fmap_compose. by apply list_fmap_ext. }
  split; rewrite ?Hex; simpl.
  - by split; [|lia].
  - by rewrite !length_fmap, length_seqZ.
  - exists (replicate n ([], false)). split; [done|]. split.
    + by rewrite fmap_replicate, switched_0.
    + clear. induction n as [|k IH]; [done|exact IH].
  - rewrite launch_nothing. split; simpl; try done.
    + unfold watched, existing. rewrite Hl, Hw, Hn, dom_empty_L, elements_empty. done.
    + intros f a. by rewrite Hc.
    + intros f. by rewrite Hw.
  - by apply Forall_singleton.
  - apply Forall_fmap, Forall_forall. intros x _. pose proof (ci_cfg _ _ _ Hi) as Hcfg.
    destruct Hbatch as (Hb & Hb1 & _). unfold io_start, UtilTaskTcp.init. rewrite Hcfg, Hb.
    split; unfold buffered, util_flag; destruct (Z.eqb_spec b 1) as [E|E]; simpl;
      try done; try constructor; simpl; try lia.
    split; simpl; try lia; [exists ts; auto|by rewrite Z.mod_0_l by lia].
  - apply Forall_fmap. pose proof Hp as Hp'. rewrite Hthr in Hp'.
    pose proof (si_workers _ _ _ (started_inv L (tpool s) 0 Hp')) as Hws. simpl in Hws.
    eapply Forall_impl; [exact Hws|]. intros w Hw'. split; [|done]. simpl.
    eapply worker_ok_mono; [done| |exact Hw']. by intros k' l [[=] _]%lookup_replicate.
  - rewrite Hn, map_size_empty. lia.
Qed.
End act.
