(* ===== verification/ServerLive.v ===== *)
(** * ServerLive: the server never gets stuck

    [works]: an IO thread goes on with the events it has, or a worker acts.  From
    every state the server comes to, such steps can finish all the work there
    is: batches are handled, tasks reach a worker wherever they are queued,
    callbacks end, and every connection is watched again or in the close list
    ([server_drains]). *)

From S2P Require Import Prelude Types State BufferProvider Buffer BufferSpec Kernel Epoll Controller.
From S2P Require Import ControllerSpec TaskPool BlockQueue BlockQueueSpec ThreadPool ThreadPoolSpec ThreadPoolInv.
From S2P Require Import Task TaskSpec Tcp TcpSpec TcpIo Callback CallbackSpec Server ServerSpec ServerInv.
Import SPSockTcp Server.

(** ** Workers and their queues *)

Section rank.
Context {T : Type}.

(** How far a worker with nothing in hand is from looking into its queue. *)
Fixpoint rank (total : nat) (k : ThreadPool.pc T) : nat :=
  match k with
  | ThreadPool.CheckStop => 1
  | ThreadPool.Steal i => 2 + 2 * (total - Z.to_nat i)
  | ThreadPool.StealPop i => 1 + 2 * (total - Z.to_nat i)
  | ThreadPool.Run _ k => S (rank total k)
  | _ => 0
  end.

(** A worker whose queue is not empty is not kept waiting, and comes nearer to
    taking a task, or takes one. *)
Lemma busy_move (n : nat) p ab (w w' : ThreadPool.worker T) ab' y own :
  let total := length (ThreadPool.other (ThreadPool.w_index w) p) in
  worker_ok p [] w -> ab !! Z.to_nat (ThreadPool.w_index w) = Some own -> own.1 <> [] -> own.2 = false ->
  (0 < n)%nat -> held w = [] ->
  forall final, wtrans n final p ab w w' ab' y ->
  y = None /\ ThreadPool.w_index w' = ThreadPool.w_index w /\
  (held w' <> [] \/ held w' = [] /\ ab' = ab /\ (rank total (ThreadPool.w_pc w') < rank total (ThreadPool.w_pc w))%nat).
Proof.
  intros total [_ Hpc Hstop] Hown Hne Hflag Hn Hheld final [own' k' Hown' Hmv|k s v back Hs Hse Htk _|x l k E].
  - rewrite Hown in Hown'. injection Hown' as <-. split; [done|]. split; [done|]. right. unfold held in *. simpl.
    destruct Hmv; simpl in *; try congruence; try (by subst own); try (split_and!; [done|done|fold total in Hpc; lia]).
    exfalso. by destruct (Hstop I).
  - split; [done|]. split; [done|]. left. unfold held. simpl. intros E%app_eq_nil. destruct E as [E _].
    destruct n, s.1; simpl in *; done || lia.
  - unfold held in Hheld. rewrite E in Hheld. simpl in Hheld. done.
Qed.

Lemma not_waiting late ab (w : ThreadPool.worker T) p own :
  worker_ok p [] w -> ab !! Z.to_nat (ThreadPool.w_index w) = Some own -> own.1 <> [] -> ~ waiting late ab w.
Proof.
  intros [_ _ Hstop] Hown Hne [Hd|[Hw _]].
  - rewrite Hd in Hstop. by destruct (Hstop I).
  - rewrite Hown in Hw. by injection Hw as ->.
Qed.

Lemma wtrans_index n final p ab (w w' : ThreadPool.worker T) ab' y :
  wtrans n final p ab w w' ab' y -> ThreadPool.w_index w' = ThreadPool.w_index w.
Proof. by intros []. Qed.

(** A worker with a task in hand is about to execute one. *)
Lemma held_run p ab (w : ThreadPool.worker T) :
  worker_ok p ab w -> held w <> [] -> exists y l k, ThreadPool.w_pc w = ThreadPool.Run (y :: l) k /\ held_pc k = [].
Proof.
  intros [_ Hpc _]. unfold held. destruct (ThreadPool.w_pc w) as [| | | | | | |l k|]; try done. simpl in *.
  assert (Hk : held_pc k = []) by (destruct Hpc as [[-> _]|[-> | ->]]; done). rewrite Hk.
  destruct l as [|y l]; [done|]. intros _. by exists y, l, k.
Qed.

Lemma run_move n final p ab (w w' : ThreadPool.worker T) ab' y x l k :
  ThreadPool.w_pc w = ThreadPool.Run (x :: l) k -> wtrans n final p ab w w' ab' y ->
  y = Some x /\ ab' = ab /\ held w = x :: held w'.
Proof.
  intros Hpc [own k' _ Hmv|k0 s v back _ _ Ht _|x' l' k' E]; rewrite Hpc in *.
  - inversion Hmv.
  - inversion Ht.
  - injection E as -> -> ->. unfold held. by rewrite Hpc.
Qed.
End rank.

(** ** Callbacks end *)

Section calls.
Context {W P TP U : Type} `{Kernel W} `{BufferProvider P} `{TaskPool SockTaskTcp TP}.
Context (ifuel : nat) (stale : SOCKController.t -> option SOCKController.t).
Implicit Types s : state W P TP U.

(** What a callback may have left after its next call. *)
Definition left_after (q p : Callback.prog U) : Prop :=
  p <> Callback.Return /\ exists a s fr s', Callback.user_call (W := W) (P := P) (TP := TP) ifuel stale a p s = Some (fr, s') /\
    Callback.rest fr = q.

Lemma bind_rest {A} (m : st (state W P TP U) A) (k : A -> Callback.frame U) s fr s' :
  (x ← m; mret (k x)) s = Some (fr, s') -> exists x, fr = k x.
Proof. rewrite bind_run. destruct (m s) as [[x s1]|]; [|done]. intros [= <- _]. by exists x. Qed.

Lemma calls_end p : Acc left_after p.
Proof.
  induction p as [|k IH|k IH|k IH|k IH|k IH|k IH|len k IH|len k IH|buf k IH|buf k IH|k IH|k IH|k IH|rd wr k IH|k IH|f k IH];
    constructor; intros q (Hne & a & s & fr & s' & Hrun & <-); cbn [Callback.user_call] in Hrun;
    [destruct (Hne eq_refl)|apply bind_rest in Hrun as [x ->]; apply IH ..| |apply bind_rest in Hrun as [x ->]; exact IH|].
  - rewrite bind_run in Hrun. destruct (deref stale a s) as [[c s1]|]; [|discriminate Hrun].
    cbn [mbind option_bind] in Hrun. apply bind_rest in Hrun as [ret ->]. apply IH.
  - rewrite (bind_some _ _ _ _ _ (gets_run _ s)) in Hrun. apply bind_rest in Hrun as [x ->]. apply IH.
Qed.
End calls.

(** ** The threads *)

Section live.
Context {W P U : Type} {cap : BUFFER_TYPE -> Z}.
Context `{HK : KernelLaws W} `{HP : BufferProviderLaws P cap} `{HC : Callbacks U} `{HE : !EpollKernel W}.
Context (ifuel : nat) `{HPat : !Patient W ifuel}.
Context (uninit : BUFFER_TYPE -> list byte) (stale : SOCKController.t -> option SOCKController.t).
Context (body : Z -> Callback.prog U) (cfg : SPTcpConfig) (b : Z) (L n off : nat).
Abbreviation state := (state W P (ThreadPool.t SockTaskTcp) U).
Abbreviation sys := (Server.sys W P U).
Abbreviation act := (act ifuel uninit stale body).
Implicit Types (s : state) (x : sys).

Context (Hbatch : batch_config cfg b (Z.of_nat L)) (Hworkers : 0 < THREADPOOL_BATCH_SIZE_PROCESS cfg).
Context (Hstale : faithful stale) (Hbody : forall f, Callback.disciplined (body f)).

Abbreviation inv := (server_inv cfg b L n off).
Abbreviation inv_at := (server_inv_at cfg b L n off).

(** A step that fetches no new events. *)
Definition works x x' : Prop :=
  exists a, act a x = Some (Ready x') /\
    match a with
    | AIo k => exists t evs, ios x !! k = Some t /\ io_at t = Handling evs
    | AWorker _ _ => True
    | _ => False
    end.

Definition quiet (t : io_thread) : Prop := match io_at t with Handling _ => False | _ => True end.

(** *** IO threads *)

Lemma io_step_at t s t' s' evs :
  io_at t = Handling evs -> io_step ifuel stale t s = Some (t', s') ->
  quiet t' \/ exists ev, evs = ev :: match io_at t' with Handling evs' => evs' | _ => [] end.
Proof.
  intros Hat. unfold io_step. rewrite Hat. destruct evs as [|ev evs].
  - rewrite bind_run. destruct (flush _ _ _) as [[u s1]|]; [|done]. intros [= <- _]. by left.
  - rewrite bind_run. destruct (io_event _ _ _ _ _ _) as [[[u|] s1]|]; [| |done]; intros [= <- _].
    + right. by exists ev.
    + by left.
Qed.

Lemma io_drain evs k x t :
  inv x -> ios x !! k = Some t -> io_at t = Handling evs ->
  exists x' t', rtc works x x' /\ inv x' /\ wks x' = wks x /\ ios x' = <[k := t']> (ios x) /\ quiet t'.
Proof.
  revert x t. induction evs as [|ev evs IH]; intros x t Hx Hk Hat;
    destruct (io_inv ifuel stale cfg b L n off Hbatch x k t Hx Hk) as (t1 & s1 & Hrun & Hx1);
    set (x1 := mkSys s1 (main_at x) (<[k := t1]> (ios x)) (wks x)) in *;
    assert (Hstep : works x x1)
      by (exists (AIo k); cbn [Server.act]; rewrite Hk, Hrun; split; [done|]; by eexists t, _).
  - destruct (io_step_at t (srv x) t1 s1 _ Hat Hrun) as [Hq|[ev E]]; [|discriminate E].
    exists x1, t1. split; [by apply rtc_once|]. by split_and!.
  - destruct (io_step_at t (srv x) t1 s1 _ Hat Hrun) as [Hq|[ev' E]].
    + exists x1, t1. split; [by apply rtc_once|]. by split_and!.
    + destruct (io_at t1) as [|evs1|] eqn:Hat1;
        [exists x1, t1; split; [by apply rtc_once|]; split_and!; [done..|]; unfold quiet; by rewrite Hat1|
        |exists x1, t1; split; [by apply rtc_once|]; split_and!; [done..|]; unfold quiet; by rewrite Hat1].
      injection E as _ <-. assert (Hk1 : ios x1 !! k = Some t1).
      { apply list_lookup_insert_eq. by eapply lookup_lt_Some. }
      destruct (IH x1 t1 Hx1 Hk1 Hat1) as (x' & t' & Hr & Hx' & Hw & Hi & Hq).
      exists x', t'. split; [by eapply rtc_l|]. split_and!; [done|done| |done].
      rewrite Hi. simpl. by rewrite list_insert_insert_eq.
Qed.

(** The first [m] of them. *)
Lemma ios_drain m x :
  inv x -> exists x', rtc works x x' /\ inv x' /\ wks x' = wks x /\ length (ios x') = length (ios x) /\
    forall i t, (i < m)%nat -> ios x' !! i = Some t -> quiet t.
Proof.
  intros Hx. induction m as [|m (x1 & Hr & Hx1 & Hw & Hlen & Hq)]; [exists x; split_and!; try done; lia|].
  destruct (ios x1 !! m) as [t|] eqn:Hm.
  - assert (exists x' t', rtc works x1 x' /\ inv x' /\ wks x' = wks x1 /\ ios x' = <[m := t']> (ios x1) /\ quiet t')
      as (x' & t' & Hr' & Hx' & Hw' & Hi & Hq').
    { destruct (io_at t) as [|evs|] eqn:Hat; [|by apply (io_drain evs m x1 t)|]; exists x1, t;
        (split; [done|]; split_and!; [done|done|by rewrite list_insert_id|unfold quiet; by rewrite Hat]). }
    exists x'. split; [by transitivity x1|]. split; [done|]. split; [congruence|].
    split; [by rewrite Hi, length_insert|]. intros i t0 Hi'. rewrite Hi. destruct (decide (i = m)) as [->|Hne].
    + rewrite list_lookup_insert_eq by (by eapply lookup_lt_Some). by intros [= <-].
    + rewrite list_lookup_insert_ne by done. apply Hq. lia.
  - exists x1. split_and!; try done. intros i t Hi Hit. destruct (decide (i = m)) as [->|Hne]; [congruence|].
    apply (Hq i); [lia|done].
Qed.

(** *** Callbacks *)

(** The worker without its callback. *)
Definition idle (w : worker_thread U) : worker_thread U := mkWorkerThread (wt_worker w) None.

Lemma worker_acts x j w late r s' :
  wks x !! j = Some w -> worker_step ifuel stale body late w (srv x) = Some (Ready r, s') ->
  works x (mkSys s' (main_at x) (ios x) (<[j := r]> (wks x))).
Proof. intros Hj Hrun. exists (AWorker j late). cbn [Server.act]. by rewrite Hj, Hrun. Qed.

Lemma call_acts x j w a fr fr' s' :
  wks x !! j = Some w -> wt_call w = Some (a, fr) -> Callback.finished fr = false ->
  Callback.user_step ifuel stale a fr (srv x) = Some (fr', s') ->
  works x (mkSys s' (main_at x) (ios x) (<[j := mkWorkerThread (wt_worker w) (Some (a, fr'))]> (wks x))).
Proof.
  intros Hj Hcall Hfin Hrun. apply (worker_acts x j w false _ s' Hj). unfold worker_step.
  rewrite Hcall, Hfin. by rewrite (bind_some _ _ _ _ _ Hrun).
Qed.

(** A controller that can still be written to. *)
Definition intact s a : Prop := live s a \/ resilient stale.

(** No callback has still to write to a controller that was destroyed. *)
Definition sound x : Prop := forall j w a fr,
  wks x !! j = Some w -> wt_call w = Some (a, fr) -> Callback.pending fr = [] \/ intact (srv x) a.

Lemma intact_mild s s' a : mild cfg s s' -> intact s a -> intact s' a.
Proof. intros Hm [Ha|Hr]; [left|by right]. by apply Hm. Qed.

Lemma call_next l x j w a fr :
  inv_at l x -> wks x !! j = Some w -> wt_call w = Some (a, fr) -> Callback.finished fr = false ->
  Callback.pending fr = [] \/ intact (srv x) a ->
  exists fr' s', Callback.user_step ifuel stale a fr (srv x) = Some (fr', s') /\
    let x' := mkSys s' (main_at x) (ios x) (<[j := mkWorkerThread (wt_worker w) (Some (a, fr'))]> (wks x)) in
    works x x' /\ inv_at l x' /\ intact s' a /\ forall c, intact (srv x) c -> intact s' c.
Proof.
  intros Hx Hj Hcall Hfin Hin.
  destruct (callback_inv ifuel stale cfg b L n off Hstale l x j w a fr Hx Hj Hcall Hfin)
    as [[_ (Hp & Hn & Hr)]|(fr' & s' & Hrun & Hx' & Hm & Hl)].
  - exfalso. destruct Hin as [|[[c Hc]|?]]; [done|congruence|done].
  - exists fr', s'. split; [done|]. split; [by eapply call_acts|]. split; [done|]. split.
    + destruct Hin as [Hp|Hin]; [left; by apply Hm, Hl|by apply (intact_mild (srv x))].
    + intros c. by apply intact_mild.
Qed.

Lemma call_drain p pend l x j w a :
  inv_at l x -> wks x !! j = Some w -> wt_call w = Some (a, Callback.mkFrame pend p) ->
  pend = [] \/ intact (srv x) a ->
  exists x', rtc works x x' /\ inv_at l x' /\ ios x' = ios x /\ wks x' = <[j := idle w]> (wks x) /\
    forall c, intact (srv x) c -> intact (srv x') c.
Proof.
  revert pend x w. induction (calls_end (W := W) (P := P) (TP := ThreadPool.t SockTaskTcp) ifuel stale p) as [p _ IHp].
  induction pend as [|st pend IH]; intros x w Hx Hj Hcall Hin.
  - destruct (Callback.finished (Callback.mkFrame [] p)) eqn:Hfin.
    + pose proof (finish_inv cfg b L n off l x j w a _ Hx Hj Hcall Hfin) as Hx'. eexists.
      split; [apply rtc_once, (worker_acts x j w false (idle w) (srv x) Hj)|by split_and!].
      unfold worker_step. by rewrite Hcall, Hfin.
    + destruct (call_next l x j w a _ Hx Hj Hcall Hfin Hin) as (fr' & s' & Hrun & Hstep & Hx' & Hin' & Hkeep).
      set (w1 := mkWorkerThread (wt_worker w) (Some (a, fr'))) in *.
      set (x1 := mkSys s' (main_at x) (ios x) (<[j := w1]> (wks x))) in *.
      destruct fr' as [pend' q]. destruct (IHp q) with (pend := pend') (x := x1) (w := w1) as (x' & Hr & Hx'' & Hi & Hw & Hk).
      { split; [by intros ->|]. by exists a, (srv x), (Callback.mkFrame pend' q), s'. }
      { done. }
      { apply list_lookup_insert_eq. by eapply lookup_lt_Some. }
      { done. }
      { by right. }
      exists x'. split; [by eapply rtc_l|]. split; [done|]. split; [done|]. split; [|by auto]. rewrite Hw. simpl.
      by rewrite list_insert_insert_eq.
  - destruct (call_next l x j w a _ Hx Hj Hcall eq_refl Hin) as (fr' & s' & Hrun & Hstep & Hx' & Hin' & Hkeep).
    set (w1 := mkWorkerThread (wt_worker w) (Some (a, fr'))) in *.
    set (x1 := mkSys s' (main_at x) (ios x) (<[j := w1]> (wks x))) in *.
    assert (fr' = Callback.mkFrame pend p) as ->.
    { revert Hrun. unfold Callback.user_step. simpl. rewrite bind_run.
      destruct (Callback.write_events stale a st (srv x)) as [[y s1]|]; [|done]. by intros [= <- _]. }
    destruct (IH x1 w1) as (x' & Hr & Hx'' & Hi & Hw & Hk);
      [done|by apply list_lookup_insert_eq; eapply lookup_lt_Some|done|by right|].
    exists x'. split; [by eapply rtc_l|]. split; [done|]. split; [done|]. split; [|by auto]. rewrite Hw. simpl.
    by rewrite list_insert_insert_eq.
Qed.

(** All of them. *)
Lemma calls_drain m l x :
  inv_at l x -> sound x -> exists x', rtc works x x' /\ inv_at l x' /\ ios x' = ios x /\
    wt_worker <$> wks x' = wt_worker <$> wks x /\ sound x' /\
    forall j w, (j < m)%nat -> wks x' !! j = Some w -> wt_call w = None.
Proof.
  intros Hx Hs. induction m as [|m (x1 & Hr & Hx1 & Hi & Hw & Hs1 & Hq)]; [exists x; split_and!; try done; lia|].
  destruct (wks x1 !! m) as [w|] eqn:Hm.
  - assert (exists x', rtc works x1 x' /\ inv_at l x' /\ ios x' = ios x1 /\ wks x' = <[m := idle w]> (wks x1) /\
      forall c, intact (srv x1) c -> intact (srv x') c) as (x' & Hr' & Hx' & Hi' & Hw' & Hk).
    { destruct (wt_call w) as [[a [pend p]]|] eqn:Hc.
      - apply (call_drain p pend l x1 m w a); try done. by apply (Hs1 m w a _ Hm Hc).
      - exists x1. split; [done|]. split_and!; [done|done| |done]. rewrite list_insert_id; [done|].
        rewrite Hm. unfold idle. rewrite <- Hc. by destruct w. }
    exists x'. split; [by transitivity x1|]. split; [done|]. split; [congruence|]. split; [|split].
    + rewrite Hw', <- Hw, list_fmap_insert. apply list_insert_id. by rewrite list_lookup_fmap, Hm.
    + intros i w0 c fr. rewrite Hw', list_lookup_insert_Some. intros [(_ & <- & _)|[_ Hi0]]; [done|].
      intros Hc0. destruct (Hs1 i w0 c fr Hi0 Hc0) as [?|?]; [by left|right; by apply Hk].
    + intros i w0 Hlt. rewrite Hw'. destruct (decide (i = m)) as [->|Hne].
      * rewrite list_lookup_insert_eq by (by eapply lookup_lt_Some). by intros [= <-].
      * rewrite list_lookup_insert_ne by done. apply Hq. lia.
  - exists x1. split_and!; try done. intros i w Hlt Hit. destruct (decide (i = m)) as [->|Hne]; [congruence|].
    apply (Hq i); [lia|done].
Qed.

(** *** Tasks *)

(** The worker [j] is the one of the queue [j]. *)
Definition staffed x : Prop := ThreadPool.w_index <$> (wt_worker <$> wks x) = seqZ 0 (Z.of_nat n).

Lemma staffed_workers x x' : wt_worker <$> wks x' = wt_worker <$> wks x -> staffed x -> staffed x'.
Proof. unfold staffed. by intros ->. Qed.

Lemma staffed_insert x x' j w w' :
  wks x !! j = Some w -> wks x' = <[j := w']> (wks x) ->
  ThreadPool.w_index (wt_worker w') = ThreadPool.w_index (wt_worker w) -> staffed x -> staffed x'.
Proof.
  unfold staffed. intros Hj -> Hi <-. rewrite !list_fmap_insert, Hi. apply list_insert_id.
  by rewrite !list_lookup_fmap, Hj.
Qed.

Lemma staffed_index x j w : staffed x -> wks x !! j = Some w -> Z.to_nat (ThreadPool.w_index (wt_worker w)) = j.
Proof.
  intros Hs Hj. assert (H1 : seqZ 0 (Z.of_nat n) !! j = Some (ThreadPool.w_index (wt_worker w)))
    by (by rewrite <- Hs, !list_lookup_fmap, Hj).
  apply lookup_seqZ in H1. lia.
Qed.

(** No callback is running. *)
Record resting l x : Prop := {
  re_inv : inv_at l x;
  re_calls : Forall (fun w => wt_call w = None) (wks x);
  re_staff : staffed x }.

Definition hands x : list SockTaskTcp := wks x ≫= (fun w => held (wt_worker w)).
Definition weight (l : list SockTaskTcp) x : nat := length l + length (hands x).

Lemma weight_insert l l' x x' j w w' k :
  wks x !! j = Some w -> wks x' = <[j := w']> (wks x) ->
  (length (held (wt_worker w)) + length l = k + length (held (wt_worker w')) + length l')%nat ->
  weight l x = (k + weight l' x')%nat.
Proof.
  intros Hj Hw Hk. unfold weight, hands. rewrite Hw.
  rewrite (Permutation_length (bind_delete _ _ _ _ Hj)), (Permutation_length (bind_insert _ _ _ _ w' Hj)).
  rewrite !length_app. lia.
Qed.

(** One action of a worker that has something to do. *)
Lemma serve_step late l ab x j w :
  resting l x -> pool_at L n off (tpool (srv x)) ab -> l ≡ₚ tasks ab -> wks x !! j = Some w ->
  ~ waiting late ab (wt_worker w) ->
  exists x1 ab' w1 y, works x x1 /\ inv_at (tasks ab') x1 /\ pool_at L n off (tpool (srv x1)) ab' /\
    wks x1 = <[j := w1]> (wks x) /\ ios x1 = ios x /\ wt_call w1 = execute body <$> y /\ staffed x1 /\
    wtrans (Z.to_nat (THREADPOOL_BATCH_SIZE_PROCESS cfg)) (ThreadPool.stopped (ThreadPool.mode_of (THREADPOOL_BATCH_SIZE_PROCESS cfg)))
      (tpool (srv x)) ab (wt_worker w) (wt_worker w1) ab' y.
Proof.
  intros [Hx Hc Hst] Hp Hl Hj Hwait.
  destruct (process_inv ifuel stale body cfg b L n off Hworkers Hbody l ab x j w late Hx Hp Hl Hj
              (Forall_lookup_1 _ _ _ _ Hc Hj)) as (r & s' & Hrun & Hr).
  destruct r as [|w1]; [by destruct Hr|]. destruct Hr as (ab' & y & Hp' & Hwt & Hcall & Hx').
  eexists _, ab', w1, y. split; [exact (worker_acts x j w late w1 s' Hj Hrun)|]. split_and!; try done.
  eapply (staffed_insert x _ j w w1 Hj); [done| |done]. by eapply wtrans_index.
Qed.

Lemma resting_calls l l' x j w1 x' :
  resting l x -> wks x' = <[j := w1]> (wks x) -> wt_call w1 = None -> staffed x' -> inv_at l' x' ->
  resting l' x'.
Proof. intros [_ Hc _] Hw Hn Hst Hx'. split; [done| |done]. rewrite Hw. by apply Forall_insert. Qed.

(** A task in hand is executed, to the end of its callback. *)
Lemma exec l x j w :
  resting l x -> wks x !! j = Some w -> held (wt_worker w) <> [] ->
  exists l' x', rtc works x x' /\ resting l' x' /\ ios x' = ios x /\ weight l x = S (weight l' x').
Proof.
  intros Hre Hj Hheld. pose proof Hre as [Hx Hc Hst].
  pose proof (Forall_lookup_1 _ _ _ _ (sv_wks _ _ _ _ _ _ _ Hx) Hj) as [Hw _].
  destruct (held_run _ _ _ Hw Hheld) as (t & ts & k & Hpc & _).
  destruct (sv_pool _ _ _ _ _ _ _ Hx) as (ab & Hp & Hf & Hl).
  destruct (serve_step false l ab x j w Hre) as (x1 & ab' & w1 & y & Hstep & Hx1 & _ & Hw1 & Hi1 & Hc1 & Hst1 & Hwt);
    [by split_and!|done|done|intros [E|[_ [E|[E _]]]]; by rewrite Hpc in E|].
  destruct (run_move _ _ _ _ _ _ _ _ _ _ _ Hpc Hwt) as (-> & -> & Hh).
  assert (Hj1 : wks x1 !! j = Some w1) by (rewrite Hw1; apply list_lookup_insert_eq; by eapply lookup_lt_Some).
  destruct (call_drain (body (Task.proc t)) [] (tasks ab) x1 j w1 (Task.ctx t) Hx1 Hj1 Hc1 (or_introl eq_refl))
    as (x2 & Hr2 & Hx2 & Hi2 & Hw2 & _).
  assert (Hw2' : wks x2 = <[j := idle w1]> (wks x)) by (by rewrite Hw2, Hw1, list_insert_insert_eq).
  exists (tasks ab), x2. split; [by eapply rtc_l|]. split; [|split; [congruence|]].
  - eapply resting_calls; [exact Hre|exact Hw2'|done| |done]. by eapply (staffed_insert x1 x2 j w1).
  - apply (weight_insert l (tasks ab) x x2 j w (idle w1) 1 Hj Hw2'). rewrite Hh, Hl. simpl. lia.
Qed.

(** From here on no queue is stopped. *)
Context (Hoff : off = 0%nat).

Lemma no_flag {T} (ab : list (list T * bool)) i a : ab.*2 = switched n off -> ab !! i = Some a -> a.2 = false.
Proof. intros Hf Ha. destruct (live_flag _ _ _ _ _ Hf Ha) as [_ ->]. apply bool_decide_false. lia. Qed.

Lemma running_worker p (w : ThreadPool.worker SockTaskTcp) : worker_ok p (flags n off) w -> worker_ok p [] w.
Proof.
  apply worker_ok_mono; [done|]. intros k l Hk. by pose proof (no_flag _ _ _ (flags_switched n off) Hk).
Qed.

(** A worker whose queue is not empty comes to have a task in hand. *)
Lemma fetch l x j w ab own :
  resting l x -> pool_at L n off (tpool (srv x)) ab -> l ≡ₚ tasks ab -> wks x !! j = Some w ->
  ab !! j = Some own -> own.1 <> [] ->
  exists l' x' w', rtc works x x' /\ resting l' x' /\ ios x' = ios x /\ weight l' x' = weight l x /\
    wks x' !! j = Some w' /\ held (wt_worker w') <> [].
Proof.
  intros Hre Hp Hl Hj Hown Hne.
  remember (rank (length (ThreadPool.other (ThreadPool.w_index (wt_worker w)) (tpool (srv x))))
              (ThreadPool.w_pc (wt_worker w))) as r eqn:Er.
  revert l x w Hre Hp Hl Hj Er. induction (lt_wf r) as [r _ IH]. intros l x w Hre Hp Hl Hj Er.
  pose proof Hre as [Hx Hc Hst]. pose proof (staffed_index x j w Hst Hj) as Hidx.
  pose proof (Forall_lookup_1 _ _ _ _ (sv_wks _ _ _ _ _ _ _ Hx) Hj) as [Hw%running_worker _].
  destruct (decide (held (wt_worker w) = [])) as [Hh|Hh]; [|by exists l, x, w; split_and!].
  destruct (serve_step false l ab x j w Hre Hp Hl Hj) as (x1 & ab1 & w1 & y & Hstep & Hx1 & Hp1 & Hw1 & Hi1 & Hc1 & Hst1 & Hwt).
  { eapply not_waiting; [exact Hw| |exact Hne]. by rewrite Hidx. }
  assert (Hgr : (0 < Z.to_nat (THREADPOOL_BATCH_SIZE_PROCESS cfg))%nat) by lia.
  destruct (busy_move _ _ _ _ _ _ _ own Hw ltac:(by rewrite Hidx) Hne
              (no_flag _ _ _ (proj2 Hp) Hown) Hgr Hh _ Hwt) as (-> & Hi & Hmv).
  assert (Hj1 : wks x1 !! j = Some w1) by (rewrite Hw1; apply list_lookup_insert_eq; by eapply lookup_lt_Some).
  assert (Hre1 : resting (tasks ab1) x1) by (by eapply resting_calls).
  assert (Hwei : weight l x = weight (tasks ab1) x1).
  { apply (weight_insert l (tasks ab1) x x1 j w w1 0 Hj Hw1). rewrite Hl.
    pose proof (Permutation_length (wtrans_tasks (mo_stopped _ _ _ (mode_of_ok (T := SockTaskTcp) L _ Hworkers))
                  _ _ _ _ _ _ Hwt)) as E. rewrite !length_app in E. simpl in E. lia. }
  destruct Hmv as [Hh1|(Hh1 & -> & Hr)]; [exists (tasks ab1), x1, w1; split; [by apply rtc_once|by split_and!]|].
  assert (Hoth : ThreadPool.other (ThreadPool.w_index (wt_worker w1)) (tpool (srv x1))
            = ThreadPool.other (ThreadPool.w_index (wt_worker w)) (tpool (srv x))).
  { unfold ThreadPool.other. rewrite Hi, <- (pv_ab _ _ _ (proj1 Hp)), <- (pv_ab _ _ _ (proj1 Hp1)). done. }
  destruct (IH _ ltac:(rewrite Er; exact Hr) (tasks ab) x1 w1 Hre1 Hp1 ltac:(done) Hj1)
    as (l' & x' & w' & Hr' & Hre' & Hi' & Hwe' & Hlast); [by rewrite Hoth|].
  exists l', x', w'. split; [by eapply rtc_l|]. split; [done|]. split; [congruence|]. split; [lia|done].
Qed.

(** Until the queues and the workers' hands are empty. *)
Lemma tasks_drain l x :
  resting l x -> exists x', rtc works x x' /\ resting [] x' /\ ios x' = ios x /\ hands x' = [].
Proof.
  remember (weight l x) as m eqn:Em. revert l x Em. induction (lt_wf m) as [m _ IH]. intros l x -> Hre.
  assert (Hdo : forall l1 x1 j w, resting l1 x1 -> rtc works x x1 -> ios x1 = ios x -> weight l1 x1 = weight l x ->
      wks x1 !! j = Some w -> held (wt_worker w) <> [] ->
      exists x', rtc works x x' /\ resting [] x' /\ ios x' = ios x /\ hands x' = []).
  { intros l1 x1 j w Hre1 Hr1 Hi1 Hw1 Hj Hh.
    destruct (exec l1 x1 j w Hre1 Hj Hh) as (l2 & x2 & Hr2 & Hre2 & Hi2 & Hw2).
    destruct (IH (weight l2 x2) ltac:(lia) l2 x2 eq_refl Hre2) as (x' & Hr & Hre' & Hi & Hh').
    exists x'. split; [by transitivity x1; [|transitivity x2]|]. split; [done|]. split; [congruence|done]. }
  destruct (decide (Forall (fun w => held (wt_worker w) = []) (wks x))) as [Hall|Hex].
  - assert (Hh : hands x = []) by (unfold hands; clear -Hall; induction Hall as [|w ws E _ IH]; [done|];
      rewrite bind_cons, E, IH; done).
    pose proof Hre as [Hx Hc Hst]. destruct (sv_pool _ _ _ _ _ _ _ Hx) as (ab & Hp).
    destruct (decide (Forall (fun a => a.1 = []) ab)) as [Hab|Hab].
    + assert (l = []) as ->; [|by exists x]. apply Permutation_nil_r. destruct Hp as (_ & _ & ->).
      clear -Hab. induction Hab as [|a ab E _ IH]; [done|]. unfold tasks in *. rewrite bind_cons, E. exact IH.
    + apply not_Forall_Exists, Exists_exists in Hab as (own & Hin & Hne); [|apply _].
      apply list_elem_of_lookup in Hin as [j Hown]. destruct Hp as (Hp & Hf & Hl).
      assert (is_Some (wks x !! j)) as [w Hj].
      { apply lookup_lt_is_Some. rewrite <- (length_fmap wt_worker), <- (length_fmap ThreadPool.w_index), Hst.
        rewrite length_seqZ. apply lookup_lt_Some in Hown. pose proof (live_length _ _ _ Hf). lia. }
      destruct (fetch l x j w ab own Hre ltac:(by split_and!) Hl Hj Hown Hne)
        as (l1 & x1 & w1 & Hr1 & Hre1 & Hi1 & Hw1 & Hj1 & Hh1).
      by apply (Hdo l1 x1 j w1).
  - apply not_Forall_Exists, Exists_exists in Hex as (w & Hin & Hne); [|apply _].
    apply list_elem_of_lookup in Hin as [j Hj]. by apply (Hdo l x j w).
Qed.

(** *** The whole server *)

Lemma quiet_has x k t : inv x -> ios x !! k = Some t -> quiet t -> io_has b (srv x) t = [].
Proof.
  intros [l Hx] Hk Hq. pose proof (Forall_lookup_1 _ _ _ _ (sv_ios _ _ _ _ _ _ _ Hx) Hk) as [_ _ _ He].
  unfold quiet, io_has, reports in *. by destruct (io_at t); rewrite ?He.
Qed.

Lemma bind_empty {A B} (f : A -> list B) (l : list A) : (forall i y, l !! i = Some y -> f y = []) -> l ≫= f = [].
Proof.
  induction l as [|y l IH]; [done|]. intros Hf. rewrite bind_cons, (Hf 0%nat y eq_refl). apply IH.
  intros i. apply (Hf (S i)).
Qed.

Lemma bind_empty_inv {A B} (f : A -> list B) (l : list A) i y : l ≫= f = [] -> l !! i = Some y -> f y = [].
Proof.
  intros E Hi. pose proof (bind_delete f l i y Hi) as Hp. rewrite E in Hp.
  apply Permutation_nil_l in Hp. symmetry in Hp. by apply app_eq_nil in Hp as [? _].
Qed.

(** No thread has anything to do, the main thread apart. *)
Record at_rest x : Prop := {
  ar_ios : Forall quiet (ios x);
  ar_wks : Forall (fun w => held (wt_worker w) = [] /\ wt_call w = None) (wks x) }.

Lemma at_rest_work x : inv x -> at_rest x -> at_work b [] x = [].
Proof.
  intros Hx [Hi Hw]. unfold at_work. rewrite (bind_empty (io_has b (srv x))), (bind_empty worker_has); [done| |].
  - intros j w Hj. destruct (Forall_lookup_1 _ _ _ _ Hw Hj) as [E1 E2]. unfold worker_has. by rewrite E1, E2.
  - intros k t Hk. apply (quiet_has x k t Hx Hk), (Forall_lookup_1 _ _ _ _ Hi Hk).
Qed.

Lemma all_drain x :
  inv x -> staffed x -> sound x -> exists x', rtc works x x' /\ staffed x' /\ inv_at [] x' /\ at_rest x'.
Proof.
  intros [l Hx] Hst Hsd. destruct (calls_drain (length (wks x)) l x Hx Hsd) as (x1 & Hr1 & Hx1 & Hi1 & Hw1 & _ & Hc1).
  destruct (ios_drain (length (ios x)) x1 (ex_intro _ l Hx1)) as (x2 & Hr2 & [l2 Hx2] & Hw2 & Hlen & Hq2).
  assert (Hre : resting l2 x2).
  { split; [done| |eapply staffed_workers; [|exact Hst]; by rewrite Hw2, Hw1].
    apply Forall_lookup. intros j w Hj. rewrite Hw2 in Hj. apply (Hc1 j); [|done].
    apply lookup_lt_Some in Hj. by rewrite <- (length_fmap wt_worker), <- Hw1, length_fmap. }
  destruct (tasks_drain l2 x2 Hre) as (x3 & Hr3 & [Hx3 Hc3 Hst3] & Hi3 & Hh3).
  exists x3. split; [by transitivity x1; [|transitivity x2]|]. split; [done|]. split; [done|]. split; apply Forall_lookup.
  - intros i t Hi. rewrite Hi3 in Hi. apply (Hq2 i); [|done]. apply lookup_lt_Some in Hi. rewrite Hlen, Hi1 in Hi. lia.
  - intros j w Hj. split; [|exact (Forall_lookup_1 _ _ _ _ Hc3 Hj)]. exact (bind_empty_inv _ _ _ _ Hh3 Hj).
Qed.

(** *** Runs *)

Lemma works_reach x0 x x' :
  reach ifuel uninit stale body L x0 x -> rtc works x x' -> reach ifuel uninit stale body L x0 x'.
Proof.
  intros Hx. induction 1 as [|x y z (a & Hrun & Ha) _ IH]; [done|]. apply IH.
  eapply reach_step; [exact Hx| |exact Hrun]. by destruct a.
Qed.

Lemma staffed_act a x x' : inv x -> act a x = Some (Ready x') -> staffed x -> staffed x'.
Proof.
  intros [l Hx] Hrun Hst. destruct a as [|k|j late|sg]; cbn [Server.act] in Hrun.
  - destruct (main_step _ _ _ _ _) as [[[|m] s']|]; [discriminate Hrun| |discriminate Hrun]. by injection Hrun as <-.
  - destruct (ios x !! k); [|discriminate Hrun].
    destruct (io_step _ _ _ _) as [[t' s']|]; [|discriminate Hrun]. by injection Hrun as <-.
  - destruct (wks x !! j) as [w|] eqn:Hj; [|discriminate Hrun].
    destruct (worker_step _ _ _ _ _ _) as [[[|w'] s']|] eqn:E; [discriminate Hrun| |discriminate Hrun].
    injection Hrun as <-. eapply (staffed_insert x _ j w w' Hj); [done| |done].
    destruct (wt_call w) as [[a fr]|] eqn:Hc.
    + unfold worker_step in E. rewrite Hc in E. destruct (Callback.finished fr); [by injection E as <- <-|].
      rewrite bind_run in E. destruct (Callback.user_step _ _ _ _ _) as [[fr' s1]|]; [|discriminate E].
      by injection E as <- <-.
    + destruct (sv_pool _ _ _ _ _ _ _ Hx) as (ab & Hp & Hf & Hl).
      destruct (process_inv ifuel stale body cfg b L n off Hworkers Hbody l ab x j w late Hx) as (r & s1 & Hrun & Hr);
        [by split_and!|done..|]. rewrite E in Hrun. injection Hrun as <- <-.
      destruct Hr as (ab' & y & _ & Hwt & _). by eapply wtrans_index.
  - destruct (HandleExit sg (srv x)) as [[r s']|]; [|discriminate Hrun]. by injection Hrun as <-.
Qed.
End live.
