(* ===== verification/ServerStop.v ===== *)
(** * ServerStop: the server stops

    When the main loop has ended the main thread stops the queues of the pool
    one by one and joins the workers.  [winds]: a step of that, or of the work
    there still is.  Once all queues are stopped such steps come to an end in
    whatever order they are taken ([winds_end]), and where they end the workers
    have been joined ([wound_up]). *)

From S2P Require Import Prelude Types State BufferProvider Buffer BufferSpec Kernel Epoll Controller.
From S2P Require Import ControllerSpec TaskPool BlockQueue BlockQueueSpec ThreadPool ThreadPoolSpec ThreadPoolInv ThreadPoolProps.
From S2P Require Import Task TaskSpec Tcp TcpSpec TcpIo Callback CallbackSpec Server ServerSpec ServerInv ServerLive.
Import SPSockTcp Server.

(** ** One of several, at every step *)

Section one.
Context {A : Type} (R : relation A).

(** [R] at one place of a list. *)
Definition at_one (l' l : list A) : Prop := exists i y z, l !! i = Some y /\ R z y /\ l' = <[i := z]> l.

Lemma at_one_acc l : Forall (Acc R) l -> Acc at_one l.
Proof.
  induction 1 as [|a l Ha _ IH]; [by constructor; intros l' (i & y & z & Hi & _)|].
  revert l IH. induction Ha as [a _ IHa]. intros l Hl. induction Hl as [l Hl IHl].
  constructor. intros l' ([|i] & y & z & Hi & Hz & ->); simpl in *.
  - injection Hi as ->. apply IHa; [done|by constructor].
  - apply IHl. by exists i, y, z.
Qed.
End one.

Section stop.
Context {W P U : Type} {cap : BUFFER_TYPE -> Z}.
Context `{HK : KernelLaws W} `{HP : BufferProviderLaws P cap} `{HC : Callbacks U} `{HE : !EpollKernel W}.
Context (ifuel : nat) `{HPat : !Patient W ifuel}.
Context (uninit : BUFFER_TYPE -> list byte) (stale : SOCKController.t -> option SOCKController.t).
Context (body : Z -> Callback.prog U) (cfg : SPTcpConfig) (b : Z) (L n : nat).
Abbreviation state := (state W P (ThreadPool.t SockTaskTcp) U).
Abbreviation sys := (Server.sys W P U).
Abbreviation act := (act ifuel uninit stale body).
Abbreviation works := (works ifuel uninit stale body).
Abbreviation inv_at := (server_inv_at cfg b L n n).
Implicit Types (s : state) (x : sys).

Context (Hbatch : batch_config cfg b (Z.of_nat L)) (Hworkers : 0 < THREADPOOL_BATCH_SIZE_PROCESS cfg).
Context (Hstale : faithful stale) (Hbody : forall f, Callback.disciplined (body f)).

(** A step that fetches no new events, after the main loop. *)
Definition left_loop x : Prop := match main_at x with Looping _ _ => False | _ => True end.
Definition winds x x' : Prop := works x x' \/ left_loop x /\ act AMain x = Some (Ready x').

(** The next step of [pool.exit()] before the workers are joined. *)
Definition next_stop (m : main_pc) : option main_pc :=
  match m with
  | Leaving => Some (Stopping 0)
  | Stopping k => if decide (k < n)%nat then Some (Stopping (S k)) else None
  | _ => None
  end.

Lemma next_stop_possible off l x m :
  server_inv_at cfg b L n off l x -> next_stop (main_at x) = Some m ->
  exists x', act AMain x = Some (Ready x') /\ main_at x' = m.
Proof.
  intros Hx. unfold next_stop. cbn [Server.act]. destruct (main_at x) as [| |k|] eqn:Hm; try done.
  - intros [= <-]. destruct (leaving_step uninit stale cfg b L n off l x Hx Hm) as (s' & -> & _). by eexists.
  - case_decide; [|done]. intros [= <-].
    destruct (stopping_step uninit stale cfg b L n off l x k Hx Hm) as (s' & -> & _); [done|]. by eexists.
Qed.

(** Every queue is stopped: the workers are being joined, or have been. *)
Definition closing x : Prop := main_at x = Stopping n \/ main_at x = Joined.

(** ** What is left *)

Definition io_left (t : io_thread) : nat := match io_at t with Handling evs => S (length evs) | _ => 0 end.
Definition events_left x : nat := sum_list (io_left <$> ios x).
Definition joins_left x : nat := match main_at x with Joined => 0 | _ => 1 end.
Definition to_do (l : list SockTaskTcp) x : Z := work_left (tpool (srv x)) (wt_worker <$> wks x) [(l, true)].

Lemma sum_list_insert (f : io_thread -> nat) ts k t t' :
  ts !! k = Some t -> (f t' < f t)%nat -> (sum_list (f <$> <[k := t']> ts) < sum_list (f <$> ts))%nat.
Proof.
  revert k. induction ts as [|y ts IH]; intros [|k] Hk Hlt; try discriminate Hk.
  - injection Hk as ->. cbn. lia.
  - specialize (IH k Hk Hlt). change (f y + sum_list (f <$> <[k := t']> ts) < f y + sum_list (f <$> ts))%nat. lia.
Qed.

Lemma tasks_one (l : list SockTaskTcp) f : tasks [(l, f)] = l.
Proof. unfold tasks. simpl. apply app_nil_r. Qed.

Lemma work_left_threads (p p' : ThreadPool.t SockTaskTcp) ws ab :
  ThreadPool.threadNum p' = ThreadPool.threadNum p -> work_left p' ws ab = work_left p ws ab.
Proof. intros E. unfold work_left, total_of, ThreadPool.other. by rewrite E. Qed.

Lemma to_do_nonneg l x : inv_at l x -> 0 <= to_do l x.
Proof.
  intros Hx. pose proof (live_threads L n n _ _ (sv_pool _ _ _ _ _ _ _ Hx)) as Hn. unfold to_do, work_left.
  assert (Hr : Forall (fun w => 0 <= ThreadPoolProps.rank (total_of (tpool (srv x)) (ThreadPool.w_index w)) (ThreadPool.w_pc w))
                 (wt_worker <$> wks x)).
  { apply Forall_fmap. eapply Forall_impl; [exact (sv_wks _ _ _ _ _ _ _ Hx)|]. intros w [[_ Hpc _] _].
    pose proof (total_of_bound (tpool (srv x)) (ThreadPool.w_index (wt_worker w))). apply rank_nonneg; [exact Hpc|lia]. }
  assert (0 <= foldr Z.add 0 ((fun w => ThreadPoolProps.rank (total_of (tpool (srv x)) (ThreadPool.w_index w))
    (ThreadPool.w_pc w)) <$> (wt_worker <$> wks x))); [|nia].
  induction Hr as [|w ws Hw _ IH]; [done|]. rewrite fmap_cons. simpl. lia.
Qed.

(** The callback of a worker goes on or ends. *)
Inductive call_left : relation (option (Z * Callback.frame U)) :=
  | CallEnds a fr : Callback.finished fr = true -> call_left None (Some (a, fr))
  | CallGoes a fr fr' s s' :
      Callback.finished fr = false ->
      Callback.user_step (W := W) (P := P) (TP := ThreadPool.t SockTaskTcp) ifuel stale a fr s = Some (fr', s') ->
      call_left (Some (a, fr')) (Some (a, fr)).

Lemma call_left_acc c : Acc call_left c.
Proof.
  assert (Hnone : Acc call_left None) by (constructor; intros c' Hc; inversion Hc).
  destruct c as [[a [pend p]]|]; [|done]. revert pend.
  induction (calls_end (W := W) (P := P) (TP := ThreadPool.t SockTaskTcp) ifuel stale p) as [p _ IHp].
  induction pend as [|st pend IH]; constructor; intros c' Hc;
    inversion Hc as [|? ? fr' s s' Hfin Hrun]; subst c'; try exact Hnone; destruct fr' as [pend' q].
  - apply IHp. split; [intros ->; discriminate Hfin|]. by exists a, s, (Callback.mkFrame pend' q), s'.
  - assert (Callback.mkFrame pend' q = Callback.mkFrame pend p) as ->; [|exact IH].
    revert Hrun. unfold Callback.user_step. simpl. rewrite bind_run.
    destruct (Callback.write_events stale a st s) as [[y s1]|]; [|discriminate]. by intros [= <- <- _].
Qed.

(** ** Each step leaves less *)

(** First the events in hand, then the join, then the tasks, then the callbacks. *)
Inductive less l' y l x : Prop :=
  | LessEvents : (events_left y < events_left x)%nat -> less l' y l x
  | LessJoins : events_left y = events_left x -> (joins_left y < joins_left x)%nat -> less l' y l x
  | LessTasks : events_left y = events_left x -> joins_left y = joins_left x -> to_do l' y < to_do l x -> less l' y l x
  | LessCalls : events_left y = events_left x -> joins_left y = joins_left x -> to_do l' y = to_do l x ->
      at_one call_left (wt_call <$> wks y) (wt_call <$> wks x) -> less l' y l x.

Lemma process_less l ab ab' x j w w1 y s' :
  inv_at l x -> pool_at L n n (tpool (srv x)) ab -> l ≡ₚ tasks ab -> wks x !! j = Some w ->
  wtrans (Z.to_nat (THREADPOOL_BATCH_SIZE_PROCESS cfg)) (ThreadPool.stopped (ThreadPool.mode_of (THREADPOOL_BATCH_SIZE_PROCESS cfg)))
    (tpool (srv x)) ab (wt_worker w) (wt_worker w1) ab' y ->
  ThreadPool.threadNum (tpool s') = ThreadPool.threadNum (tpool (srv x)) ->
  to_do (tasks ab') (mkSys s' (main_at x) (ios x) (<[j := w1]> (wks x))) < to_do l x.
Proof.
  intros Hx [Hp Hf] Hl Hj Hwt Hth. pose proof (Forall_lookup_1 _ _ _ _ (sv_wks _ _ _ _ _ _ _ Hx) Hj) as [Hw _].
  pose proof (mode_of_ok (T := SockTaskTcp) L _ Hworkers) as Hm.
  assert (Hflag : forall l0 f, ab !! Z.to_nat (ThreadPool.w_index (wt_worker w)) = Some (l0, f) -> f = true).
  { intros l0 f Hi. destruct (live_flag _ _ _ _ _ Hf Hi) as [Hb Hlk]. simpl in Hlk. rewrite Hlk. by apply bool_decide_true. }
  pose proof (wtrans_decreases _ _ _ _ _ _ _ _ (proj1 (pv_num _ _ _ Hp)) (mo_pos _ _ _ Hm) (mo_stopped _ _ _ Hm)
    (worker_ok_flags n n _ _ ab _ (flags_switched n n) Hf Hw) Hflag Hwt) as Hlt.
  unfold to_do. simpl. rewrite (work_left_threads _ _ _ _ Hth). unfold work_left.
  assert (Hjw : (wt_worker <$> wks x) !! j = Some (wt_worker w)) by (by rewrite list_lookup_fmap, Hj).
  rewrite list_fmap_insert, (sum_insert _ _ _ _ _ Hjw), !tasks_one, (Permutation_length Hl). simpl. lia.
Qed.

Lemma worker_less l x j w late w1 s' :
  inv_at l x -> wks x !! j = Some w -> worker_step ifuel stale body late w (srv x) = Some (Ready w1, s') ->
  let y := mkSys s' (main_at x) (ios x) (<[j := w1]> (wks x)) in exists l', inv_at l' y /\ less l' y l x.
Proof.
  intros Hx Hj Hrun y. destruct (wt_call w) as [[a fr]|] eqn:Hcall.
  - assert (Hsame : forall y', inv_at l y -> wt_worker w1 = wt_worker w -> wt_call w1 = y' -> call_left y' (Some (a, fr)) ->
      exists l', inv_at l' y /\ less l' y l x).
    { intros y' Hy Hw1 <- Hc. exists l. split; [done|]. apply LessCalls; [done|done| |].
      - unfold to_do. rewrite (work_left_threads (tpool (srv x)) (tpool (srv y)))
          by (by rewrite (live_threads L n n _ _ (sv_pool _ _ _ _ _ _ _ Hy)), (live_threads L n n _ _ (sv_pool _ _ _ _ _ _ _ Hx))).
        f_equal. subst y. simpl. rewrite list_fmap_insert, Hw1. apply list_insert_id. by rewrite list_lookup_fmap, Hj.
      - exists j, (Some (a, fr)), (wt_call w1). split; [by rewrite list_lookup_fmap, Hj, <- Hcall|]. split; [done|].
        subst y. simpl. by rewrite list_fmap_insert. }
    unfold worker_step in Hrun. rewrite Hcall in Hrun. destruct (Callback.finished fr) eqn:Hfin.
    + injection Hrun as <- <-. eapply Hsame; [|done|done|by constructor]. by apply (finish_inv cfg b L n n l x j w a fr).
    + rewrite bind_run in Hrun. destruct (Callback.user_step _ _ _ _ _) as [[fr' s1]|] eqn:E; [|discriminate Hrun].
      injection Hrun as <- <-.
      destruct (callback_inv ifuel stale cfg b L n n Hstale l x j w a fr Hx Hj Hcall Hfin)
        as [[E' _]|(fr2 & s2 & E' & Hy & _)]; rewrite E in E'; [discriminate E'|]. injection E' as <- <-.
      eapply Hsame; [exact Hy|done|done|by econstructor].
  - destruct (sv_pool _ _ _ _ _ _ _ Hx) as (ab & Hp & Hf & Hl).
    destruct (process_inv ifuel stale body cfg b L n n Hworkers Hbody l ab x j w late Hx) as (r & s1 & Hrun' & Hr);
      [by split|done|done|done|]. rewrite Hrun in Hrun'. injection Hrun' as <- <-.
    destruct Hr as (ab' & z & Hp' & Hwt & _ & Hy). exists (tasks ab'). split; [exact Hy|].
    apply LessTasks; [done|done|]. apply (process_less l ab ab' x j w w1 z s'); try done.
    transitivity (Z.of_nat n); [exact (live_threads L n n _ _ (sv_pool _ _ _ _ _ _ _ Hy))|symmetry].
    exact (live_threads L n n _ _ (sv_pool _ _ _ _ _ _ _ Hx)).
Qed.

Lemma io_less x k t t' evs s' :
  ios x !! k = Some t -> io_at t = Handling evs -> io_step ifuel stale t (srv x) = Some (t', s') ->
  (events_left (mkSys s' (main_at x) (<[k := t']> (ios x)) (wks x)) < events_left x)%nat.
Proof.
  intros Hk Hat Hrun. apply (sum_list_insert io_left _ _ t); [done|]. unfold io_left. rewrite Hat.
  destruct (io_step_at ifuel stale t (srv x) t' s' evs Hat Hrun) as [Hq|[ev E]]; [|rewrite E];
    unfold quiet in *; destruct (io_at t'); simpl; (done || lia).
Qed.

Lemma winds_less l x y :
  inv_at l x -> closing x -> winds x y -> exists l', inv_at l' y /\ closing y /\ less l' y l x.
Proof.
  intros Hx Hcl [(a & Hrun & Ha)|[_ Hrun]].
  - destruct a as [|k|j late|sg]; cbn [Server.act] in Hrun; try done.
    + destruct Ha as (t & evs & Hk & Hat). rewrite Hk in Hrun.
      destruct (io_inv ifuel stale cfg b L n n Hbatch x k t (ex_intro _ l Hx) Hk) as (t' & s' & Hstep & l' & Hy).
      rewrite Hstep in Hrun. injection Hrun as <-. exists l'. split; [done|]. split; [done|].
      by apply LessEvents, (io_less x k t t' evs).
    + destruct (wks x !! j) as [w|] eqn:Hj; [|discriminate Hrun].
      destruct (worker_step _ _ _ _ _ _) as [[[|w'] s']|] eqn:E; [discriminate Hrun| |discriminate Hrun].
      injection Hrun as <-. destruct (worker_less l x j w late w' s' Hx Hj E) as (l' & Hy & Hless).
      by exists l'.
  - cbn [Server.act] in Hrun. destruct Hcl as [Hm|Hm]; rewrite Hm in Hrun; [|discriminate Hrun].
    destruct (join_step uninit stale cfg b L n n l x Hx Hm) as [Hstep Hy]. rewrite Hstep in Hrun. simpl in Hrun.
    destruct (forallb ended (wks x)); [|discriminate Hrun]. injection Hrun as <-.
    exists l. split; [done|]. split; [by right|]. apply LessJoins; [done|]. unfold joins_left. rewrite Hm. simpl. lia.
Qed.

(** Whatever the order of the steps, there is no infinite sequence of them. *)
Lemma winds_end l x : inv_at l x -> closing x -> sn winds x.
Proof.
  remember (events_left x) as e eqn:Ee. revert l x Ee. induction (lt_wf e) as [e _ IHe]. intros l x.
  remember (joins_left x) as m eqn:Em. revert l x Em. induction (lt_wf m) as [m _ IHm]. intros l x.
  remember (Z.to_nat (to_do l x)) as d eqn:Ed. revert l x Ed. induction (lt_wf d) as [d _ IHd]. intros l x.
  remember (wt_call <$> wks x) as c eqn:Ec. revert l x Ec.
  assert (Hacc : Acc (at_one call_left) c) by (apply at_one_acc, Forall_forall; intros; apply call_left_acc).
  induction Hacc as [c _ IHc]. intros l x Ec Ed Em Ee Hx Hcl. constructor. intros y Hy.
  destruct (winds_less l x y Hx Hcl Hy) as (l' & Hy' & Hcl' & [Hlt|He Hlt|He Hm Hlt|He Hm Hd Hlt]).
  - by eapply (IHe (events_left y)); [lia|done|..].
  - by eapply (IHm (joins_left y)); [lia|done|lia|..].
  - pose proof (to_do_nonneg l' y Hy'). by eapply (IHd (Z.to_nat (to_do l' y))); [lia|done|lia|lia|..].
  - eapply (IHc (wt_call <$> wks y)); [by subst c|done|by rewrite Hd|lia|lia|done|done].
Qed.
(** ** Where they come to an end *)

Lemma ended_all x : Forall (fun w => wt_call w = None) (wks x) ->
  Forall (fun w => ThreadPool.w_pc (wt_worker w) = ThreadPool.Done) (wks x) -> forallb ended (wks x) = true.
Proof.
  intros Hc Hd. apply forallb_forall. intros w Hin%list_elem_of_In. rewrite Forall_forall in Hc, Hd.
  unfold ended. by rewrite (Hd w Hin), (Hc w Hin).
Qed.

(** What the workers do when they can do no more. *)
Inductive halted_at x : Prop :=
  | AllEnded : forallb ended (wks x) = true -> halted_at x
  | WritesFreed j : uses_freed (AWorker j false) x -> act (AWorker j false) x = None -> ~ resilient stale -> halted_at x.

Lemma worker_halts l x j w :
  inv_at l x -> nf winds x -> wks x !! j = Some w -> wt_call w <> None -> halted_at x.
Proof.
  intros Hx Hnf Hj Hcall. destruct (wt_call w) as [[a fr]|] eqn:Hc; [|done].
  destruct (Callback.finished fr) eqn:Hfin.
  - destruct Hnf. eexists. left. apply (worker_acts ifuel uninit stale body x j w false (idle w) (srv x) Hj).
    unfold worker_step. by rewrite Hc, Hfin.
  - destruct (callback_inv ifuel stale cfg b L n n Hstale l x j w a fr Hx Hj Hc Hfin)
      as [[Hn (Hp & Hd & Hr)]|(fr' & s' & Hrun & _)].
    + apply (WritesFreed x j); [|cbn [Server.act]|done].
      * exists w, a, fr. by split_and!.
      * rewrite Hj. unfold worker_step. by rewrite Hc, Hfin, bind_run, Hn.
    + destruct Hnf. eexists. left. by apply (call_acts ifuel uninit stale body x j w a fr fr' s').
Qed.

Lemma workers_halt l x : inv_at l x -> staffed n x -> nf winds x -> halted_at x.
Proof.
  intros Hx Hst Hnf.
  assert (Hdec : forall w : worker_thread U, Decision (wt_call w = None))
    by (intros w; destruct (wt_call w); [by right|by left]).
  destruct (decide (Forall (fun w => wt_call w = None) (wks x))) as [Hc|Hc].
  - apply AllEnded, ended_all; [done|]. apply Forall_lookup. intros j w Hj.
    destruct (ThreadPool.w_pc (wt_worker w)) eqn:Hpc; [..|done]; exfalso; apply Hnf;
      destruct (sv_pool _ _ _ _ _ _ _ Hx) as (ab & Hp & Hf & Hl);
      (destruct (serve_step ifuel uninit stale body cfg b L n n Hworkers Hbody true l ab x j w) as (x1 & _ & _ & _ & Hs & _);
        [by split|by split|done|done| |exists x1; by left]);
      (intros [E|[Hq _]]; [congruence|]; destruct (live_flag _ _ _ _ _ Hf Hq) as [Hb Hlk]; simpl in Hlk;
       rewrite bool_decide_true in Hlk by done; discriminate Hlk).
  - apply not_Forall_Exists, Exists_exists in Hc as (w & Hin & Hne); [|done].
    apply list_elem_of_lookup in Hin as [j Hj]. by apply (worker_halts l x j w).
Qed.

(** With no step left the workers have been joined and the IO threads wait. *)
Lemma wound_up l x :
  inv_at l x -> staffed n x -> closing x -> nf winds x ->
  (main_at x = Joined /\ Forall (fun w => ended w = true) (wks x) /\ Forall quiet (ios x)) \/
  exists j, uses_freed (AWorker j false) x /\ act (AWorker j false) x = None /\ ~ resilient stale.
Proof.
  intros Hx Hst Hcl Hnf. destruct (workers_halt l x Hx Hst Hnf) as [He|j Hu Ha Hr]; [left|right; by exists j].
  split_and!.
  - destruct Hcl as [Hm|]; [|done]. exfalso. apply Hnf. eexists. right. split; [unfold left_loop; by rewrite Hm|].
    cbn [Server.act]. rewrite Hm. destruct (join_step uninit stale cfg b L n n l x Hx Hm) as [-> _]. by rewrite He.
  - apply Forall_forall. intros w Hin%list_elem_of_In. rewrite forallb_forall in He. by apply He.
  - apply Forall_lookup. intros k t Hk. unfold quiet. destruct (io_at t) as [|evs|] eqn:Hat; try done.
    apply Hnf. destruct (io_inv ifuel stale cfg b L n n Hbatch x k t (ex_intro _ l Hx) Hk) as (t' & s' & Hstep & _).
    eexists. left. exists (AIo k). cbn [Server.act]. rewrite Hk, Hstep. split; [done|]. by exists t, evs.
Qed.

(** ** Runs *)

Lemma winds_reach x0 x x' :
  reach ifuel uninit stale body L x0 x -> rtc winds x x' -> reach ifuel uninit stale body L x0 x'.
Proof.
  intros Hx. induction 1 as [|x y z Hxy _ IH]; [done|]. apply IH. destruct Hxy as [Hw|[Hl Hrun]].
  - apply (works_reach ifuel uninit stale body L x0 x y Hx). by apply rtc_once.
  - eapply reach_step; [exact Hx| |exact Hrun]. unfold left_loop in Hl. simpl. by destruct (main_at x).
Qed.

Lemma winds_closing l x x' : inv_at l x -> closing x -> rtc winds x x' -> exists l', inv_at l' x' /\ closing x'.
Proof.
  intros Hx Hcl Hr. revert l Hx Hcl. induction Hr as [x|x y z Hxy _ IH]; intros l Hx Hcl; [by exists l|].
  destruct (winds_less l x y Hx Hcl Hxy) as (l' & Hy & Hcl' & _). by apply (IH l').
Qed.
End stop.
