(* ===== verification/TcpLoops.v ===== *)
(** * TcpLoops: the descriptors the server opens and closes

    [fds_step e e' op cl]: between the two environments the descriptors [op]
    were opened and [cl] closed, in these orders. *)

From S2P Require Import Prelude Types State BufferProvider Kernel Controller TaskPool Task Tcp TcpSpec.
Import SPSockTcp.

Record fds_step {W} (e e' : Env W) (op cl : list Z) : Prop := {
  fs_opened : opened e' = opened e ++ op;
  fs_closed : closed e' = closed e ++ cl }.

Lemma fds_refl {W} (e : Env W) : fds_step e e [] [].
Proof. by constructor; rewrite app_nil_r. Qed.

Lemma fds_trans {W} (e1 e2 e3 : Env W) o1 c1 o2 c2 :
  fds_step e1 e2 o1 c1 -> fds_step e2 e3 o2 c2 -> fds_step e1 e3 (o1 ++ o2) (c1 ++ c2).
Proof. intros [O1 C1] [O2 C2]. constructor; by rewrite ?O2, ?O1, ?C2, ?C1, app_assoc. Qed.

Lemma fds_call {W} `{Kernel W} {A} (c : syscall A) (e : Env W) :
  fds_step e (call c e).2 (opened_ev (Ev c (call c e).1)) (closes c).
Proof. constructor; [apply opened_call|apply closed_closes]. Qed.

Section loops.
Context {W P TP U : Type}.
Context `{HW : Kernel W} `{HB : BufferProvider P} `{HT : TaskPool SockTaskTcp TP} `{HC : Callbacks U}.
Implicit Types s : state W P TP U.

(** One system call and its effect on the descriptors. *)
Lemma sys_fds {A} (c : syscall A) s :
  exists r e, sys c s = Some (r, set_env e s) /\ fds_step (env s) e (opened_ev (Ev c r)) (closes c).
Proof. eexists _, _. split; [apply sys_run|apply fds_call]. Qed.

Lemma sys__fds {A} (c : syscall A) s :
  exists r e, sys_ c s = Some (tt, set_env e s) /\ fds_step (env s) e (opened_ev (Ev c r)) (closes c).
Proof. eexists _, _. split; [apply sys__run|apply fds_call]. Qed.

Lemma close_fds fd s :
  exists e, sys_ (Close fd) s = Some (tt, set_env e s) /\ fds_step (env s) e [] [fd].
Proof. destruct (sys__fds (Close fd) s) as (r & e & ? & ?). by exists e. Qed.

(** ** Listen *)

(** [s] with another [listenfd] and kernel. *)
Definition relisten fd e s : state W P TP U := set_inst (set_listenfd fd (inst s)) (set_env e s).

Lemma listen_failed_run fd e s :
  exists e', listen_failed (relisten fd e s) = Some (false, relisten (-1) e' s) /\
    fds_step e e' [] [fd].
Proof.
  unfold listen_failed. rewrite (bind_some _ _ _ _ _ (field_run _ _)).
  destruct (close_fds fd (relisten fd e s)) as (e' & Hrun & He).
  simpl listenfd. rewrite (bind_some _ _ _ _ _ Hrun). by exists e'.
Qed.

(** What [Listen] may end with: a refusal that changes nothing, a failure
    that leaves no descriptor behind, or a listening socket. *)
Inductive listen_outcome s : bool -> state W P TP U -> Prop :=
  | Listen_refused e : fds_step (env s) e [] [] -> listen_outcome s false (set_env e s)
  | Listen_failed e fds : fds_step (env s) e fds fds -> listen_outcome s false (relisten (-1) e s)
  | Listening fd e :
      fds_step (env s) e [fd] [] ->
      listen_outcome s true
        (set_inst (set_status (Z.lor (status (inst s)) 0x1) (set_listenfd fd (inst s))) (set_env e s)).

Lemma listen_failed_outcome fd e s :
  fds_step (env s) e [fd] [] ->
  exists s', listen_failed (relisten fd e s) = Some (false, s') /\ listen_outcome s false s'.
Proof.
  intros He. destruct (listen_failed_run fd e s) as (e' & -> & He').
  eexists. split; [done|]. apply (Listen_failed _ _ [fd]).
  exact (fds_trans _ _ _ _ _ _ _ He He').
Qed.

Lemma bind_listen_spec fd addr e s :
  fds_step (env s) e [fd] [] ->
  exists b s', bind_listen fd addr (relisten fd e s) = Some (b, s') /\ listen_outcome s b s'.
Proof.
  intros He. unfold bind_listen. set (c := Bind _ _ _).
  destruct (sys_fds c (relisten fd e s)) as (r & e1 & Hrun & He1).
  rewrite (bind_some _ _ _ _ _ Hrun). pose proof (fds_trans _ _ _ _ _ _ _ He He1) as He2. simpl in He2.
  change (set_env e1 (relisten fd e s)) with (relisten fd e1 s).
  destruct r as [?|[]]; [exists false; by apply listen_failed_outcome|].
  destruct (sys_fds (Listen_on fd) (relisten fd e1 s)) as (r & e3 & Hrun3 & He3).
  rewrite (bind_some _ _ _ _ _ Hrun3). pose proof (fds_trans _ _ _ _ _ _ _ He2 He3) as He4. simpl in He4.
  change (set_env e3 (relisten fd e1 s)) with (relisten fd e3 s).
  destruct r as [?|[]]; [exists false; by apply listen_failed_outcome|].
  eexists true, _. split; [done|]. exact (Listening s fd e3 He4).
Qed.

Lemma INIT_fds af ip port (e : Env W) :
  fds_step e (SOCKADDR_IN.INIT af ip port e).2 [] [].
Proof.
  unfold SOCKADDR_IN.INIT. destruct ip as [ip|]; [|apply fds_refl].
  pose proof (fds_call (Inet_pton af ip) e) as He. destruct (call _ e) as [r e1]. exact He.
Qed.

Lemma Listen_spec af port ip s :
  exists b s', Listen af port ip s = Some (b, s') /\ listen_outcome s b s'.
Proof.
  unfold Listen. rewrite (bind_some _ _ _ _ _ (field_run _ s)). case_match.
  { exists false, s. split; [done|]. replace s with (set_env (env s) s) at 2 by (by destruct s).
    apply Listen_refused, fds_refl. }
  rewrite (bind_some _ _ _ _ _ (gets_run _ s)).
  pose proof (INIT_fds af ip port (env s)) as He.
  destruct (SOCKADDR_IN.INIT af ip port (env s)) as [addr e]. simpl in He.
  rewrite (bind_some _ _ _ _ _ (modify_run _ s)).
  destruct addr as [addr|]; [|eexists false, _; split; [done|]; exact (Listen_refused s e He)].
  destruct (sys_fds (Socket_create af true) (set_env e s)) as (r & e1 & Hrun1 & He1).
  rewrite (bind_some _ _ _ _ _ Hrun1). pose proof (fds_trans _ _ _ _ _ _ _ He He1) as He2. simpl in He2.
  destruct r as [?|fd].
  { eexists false, _. split; [done|]. exact (Listen_failed s e1 [] He2). }
  rewrite (bind_some _ _ _ tt (relisten fd e1 s)) by done.
  destruct (sys_fds (Setsockopt fd (SO_REUSEADDR 1)) (relisten fd e1 s)) as (r & e3 & Hrun3 & He3).
  rewrite (bind_some _ _ _ _ _ Hrun3). pose proof (fds_trans _ _ _ _ _ _ _ He2 He3) as He4. simpl in He4.
  change (set_env e3 (relisten fd e1 s)) with (relisten fd e3 s).
  destruct r as [err|[]].
  { rewrite (bind_some _ _ _ _ _ (ret_run _ _)). exists false. by apply listen_failed_outcome. }
  destruct (sys_fds (Setsockopt fd (SO_REUSEPORT 1)) (relisten fd e3 s)) as (r & e5 & Hrun5 & He5).
  rewrite (bind_some _ _ _ _ _ Hrun5). pose proof (fds_trans _ _ _ _ _ _ _ He4 He5) as He6. simpl in He6.
  change (set_env e5 (relisten fd e3 s)) with (relisten fd e5 s).
  destruct r as [err|[]]; [exists false; by apply listen_failed_outcome|by apply bind_listen_spec].
Qed.

(** ** IO threads *)

(** [s] with other threads and another kernel. *)
Definition relooped infos e s : state W P TP U := set_inst (set_loopInfo infos (inst s)) (set_env e s).

Definition loop_fds (i : IOThreadInfo) : list Z := [epollfd i; exitfd i].

Lemma create_loop_spec infos e s :
  exists ok e' op cl infos',
    create_loop (relooped infos e s) = Some (ok, relooped (infos ++ infos') e' s) /\
    fds_step e e' op cl /\
    if (ok : bool) then length infos' = 1%nat /\ op = infos' ≫= loop_fds /\ cl = [] /\
      Forall (fun i => count i = 0) infos'
    else infos' = [] /\ op ≡ₚ cl.
Proof.
  unfold create_loop. set (s0 := relooped infos e s).
  destruct (sys_fds Epoll_create1 s0) as (r & e1 & Hrun1 & He1).
  rewrite (bind_some _ _ _ _ _ Hrun1). change (set_env e1 s0) with (relooped infos e1 s).
  change (env s0) with e in He1.
  destruct r as [?|ep].
  { exists false, e1, [], [], []. by rewrite app_nil_r. }
  destruct (sys_fds Eventfd (relooped infos e1 s)) as (r & e2 & Hrun2 & He2).
  rewrite (bind_some _ _ _ _ _ Hrun2). change (set_env e2 _) with (relooped infos e2 s).
  pose proof (fds_trans _ _ _ _ _ _ _ He1 He2) as He3. simpl in He3.
  destruct r as [?|ex].
  { destruct (close_fds ep (relooped infos e2 s)) as (e4 & Hrun4 & He4).
    rewrite (bind_some _ _ _ _ _ Hrun4). exists false, e4, [ep], [ep], [].
    rewrite app_nil_r. split; [done|]. split; [exact (fds_trans _ _ _ _ _ _ _ He3 He4)|done]. }
  set (c := Epoll_ctl _ _ _ _). destruct (sys_fds c (relooped infos e2 s)) as (r & e4 & Hrun4 & He4).
  rewrite (bind_some _ _ _ _ _ Hrun4). change (set_env e4 _) with (relooped infos e4 s).
  pose proof (fds_trans _ _ _ _ _ _ _ He3 He4) as He5. simpl in He5.
  destruct r as [?|[]].
  { destruct (close_fds ep (relooped infos e4 s)) as (e6 & Hrun6 & He6).
    rewrite (bind_some _ _ _ _ _ Hrun6). change (set_env e6 _) with (relooped infos e6 s).
    destruct (close_fds ex (relooped infos e6 s)) as (e7 & Hrun7 & He7).
    rewrite (bind_some _ _ _ _ _ Hrun7). exists false, e7, [ep; ex], [ep; ex], [].
    rewrite app_nil_r. split; [done|].
    split; [exact (fds_trans _ _ _ _ _ _ _ (fds_trans _ _ _ _ _ _ _ He5 He6) He7)|done]. }
  rewrite (bind_some _ _ _ _ _ (field_run _ _)).
  exists true, e4, [ep; ex], [], [mkIOThreadInfo 0 ep ex]. split_and!; try done. by apply Forall_singleton.
Qed.

Lemma create_loops_spec n infos e s :
  exists e' op cl infos',
    create_loops n (relooped infos e s) = Some (tt, relooped (infos ++ infos') e' s) /\
    fds_step e e' ((infos' ≫= loop_fds) ++ op) cl /\ op ≡ₚ cl /\
    (length infos' <= n)%nat /\ (length infos' = n -> op = [] /\ cl = []) /\
    Forall (fun i => count i = 0) infos'.
Proof.
  revert infos e. induction n as [|n IH]; intros infos e; simpl.
  { exists e, [], [], []. rewrite app_nil_r. split_and!; try done. apply fds_refl. }
  destruct (create_loop_spec infos e s) as (ok & e1 & op & cl & infos1 & Hrun & He & Hok).
  rewrite (bind_some _ _ _ _ _ Hrun). destruct ok.
  - destruct Hok as (Hl & -> & -> & Hz).
    destruct (IH (infos ++ infos1) e1) as (e2 & op2 & cl2 & infos2 & Hrun2 & He2 & Hp & Hn & Hall & Hz2).
    exists e2, op2, cl2, (infos1 ++ infos2). rewrite app_assoc, length_app. split; [done|].
    pose proof (fds_trans _ _ _ _ _ _ _ He He2) as He3. simpl in He3.
    rewrite bind_app, <- app_assoc. split_and!; [done|done|lia| |by apply Forall_app]. intros ?. apply Hall. lia.
  - destruct Hok as [-> Hp]. exists e1, op, cl, []. split_and!; [done|done|done|simpl; lia|done|done].
Qed.

Lemma close_loops_spec l s :
  exists e, for_each close_loop l s = Some (tt, set_env e s) /\
    fds_step (env s) e [] (l ≫= loop_fds).
Proof.
  revert s. induction l as [|i l IH]; intros s; simpl.
  { exists (env s). split; [by destruct s|apply fds_refl]. }
  destruct (close_fds (epollfd i) s) as (e1 & Hrun1 & He1).
  destruct (close_fds (exitfd i) (set_env e1 s)) as (e2 & Hrun2 & He2).
  assert (Hi : close_loop i s = Some (tt, set_env e2 s)).
  { unfold close_loop. by rewrite (bind_some _ _ _ _ _ Hrun1), Hrun2. }
  rewrite (bind_some _ _ _ _ _ Hi). destruct (IH (set_env e2 s)) as (e3 & Hrun3 & He3).
  exists e3. split; [exact Hrun3|].
  exact (fds_trans _ _ _ _ _ _ _ (fds_trans _ _ _ _ _ _ _ He1 He2) He3).
Qed.

Lemma CreateIOEventLoop_spec num s :
  loopInfo (inst s) = [] -> 0 <= num ->
  exists b e infos op cl s', CreateIOEventLoop num s = Some (b, s') /\
    fds_step (env s) e op cl /\
    s' = set_inst (set_loops (loops (inst s')) (inst (relooped infos e s))) (relooped infos e s) /\
    if (b : bool) then
      Z.of_nat (length infos) = num /\ op = infos ≫= loop_fds /\ cl = [] /\
      loops (inst s') = loops (inst s) ++ ((fun i => (epollfd i, exitfd i)) <$> infos) /\
      Forall (fun i => count i = 0) infos
    else op ≡ₚ cl /\ loops (inst s') = loops (inst s).
Proof.
  intros Hl Hn. unfold CreateIOEventLoop.
  destruct (create_loops_spec (Z.to_nat num) [] (env s) s)
    as (e1 & op & cl & infos & Hrun & He & Hp & Hlen & Hall & Hz).
  assert (Hs : s = relooped [] (env s) s).
  { destruct s as [[] ? ? ? ? ? ? ? ? ? ?]. simpl in Hl. by subst. }
  rewrite <- Hs in Hrun. simpl in Hrun. rewrite (bind_some _ _ _ _ _ Hrun).
  rewrite (bind_some _ _ _ _ _ (field_run _ _)). change (loopInfo (inst (relooped infos e1 s))) with infos.
  destruct (Z.eqb_spec (Z.of_nat (length infos)) num) as [E|E]; cbn [negb].
  - rewrite (bind_some _ _ _ _ _ (field_run _ _)).
    destruct Hall as [-> ->]; [lia|]. rewrite app_nil_r in He.
    eexists true, e1, infos, _, _, _. split; [done|]. split; [exact He|]. split; [done|]. by split_and!.
  - destruct (close_loops_spec infos (relooped infos e1 s)) as (e2 & Hrun2 & He2).
    rewrite (bind_some _ _ _ _ _ Hrun2).
    eexists false, e2, infos, _, _, _. split; [done|].
    split; [exact (fds_trans _ _ _ _ _ _ _ He He2)|]. split; [done|]. split; [|done].
    rewrite app_nil_r, Hp. by rewrite (Permutation_app_comm cl).
Qed.
End loops.
