(* ===== verification/TcpProps.v ===== *)
(** * TcpProps: the correctness theorems of the TCP server *)

From S2P Require Import Prelude Types State BufferProvider BufferPool BufferPoolSpec BufferPoolProps.
From S2P Require Import Buffer BufferSpec.
From S2P Require Import Kernel Controller ControllerSpec TaskPool BlockQueue ThreadPool ThreadPoolInv.
From S2P Require Import Task TaskProps TaskSpec Tcp TcpSpec TcpIo TcpFrame TcpLoops.
Import SPSockTcp.

(** What Release relies on: [reset] is defined when no buffer is out. *)
Class BufferResetLaws (P : Type) `{BufferProviderLaws P cap} `{BufferReset P} :=
  buffer_reset_law p : lent p [] -> exists p', buffer_reset p = Some p'.

#[export] Instance pool_reset : BufferReset SPTcpBufferPool.state :=
  {| buffer_reset := SPTcpBufferPool.reset |}.

#[export] Instance pool_reset_laws grant cfg :
  BufferResetLaws SPTcpBufferPool.state (H := pool_provider grant cfg) (H0 := pool_laws grant cfg).
Proof.
  intros p [Hc (v & Hinv & Hout)].
  destruct (releaseAllBlocks_spec cfg p v Hinv) as (h & q & Hrun & _).
  { by apply Permutation_nil_r. }
  exists (h, SPTcpBufferPool.init). simpl. unfold SPTcpBufferPool.reset. by rewrite Hrun.
Qed.

Section lemmas.
Context {W P TP U : Type} {cap : BUFFER_TYPE -> Z}.
Context `{HW : Kernel W} `{HP : BufferProviderLaws P cap} `{HT : TaskPool SockTaskTcp TP}.
Context `{HB : BufferReset P} `{HC : Callbacks U}.
Context (cfg : SPTcpConfig).
Implicit Types s : state W P TP U.

(** ** The descriptors of a refused connection *)


(** ** Destroying the map *)

Record clearing s0 (l : list Z) s : Prop := {
  cl_inv : exists d, conn_inv cfg d s;
  cl_nodup : NoDup l;
  cl_keys : forall f, f ∈ l <-> is_Some (connections (inst s) !! f);
  cl_env : env s = env s0;
  cl_instance : instance s = instance s0 }.

Lemma clear_connections_spec d s :
  conn_inv cfg d s ->
  exists s', clear_connections s = Some (tt, s') /\ nodes s' = ∅ /\ connections (inst s') = ∅ /\
    lent (bufp s') [] /\ env s' = env s /\ instance s' = instance s.
Proof.
  intros Hs. unfold clear_connections. rewrite (bind_some _ _ _ _ _ (gets_run _ s)).
  destruct (for_each_inv (clearing s) erase (map_to_list (connections (inst s))).*1 s)
    as (s' & Hrun & [[d' Hs'] _ Hk He Hin]).
  - constructor; [by exists d|apply NoDup_fst_map_to_list| |done|done].
    intros f. rewrite list_elem_of_fmap. split.
    + intros ([f' a] & -> & Ha%elem_of_map_to_list). by exists a.
    + intros [a Ha]. exists (f, a). by rewrite elem_of_map_to_list.
  - intros f l s1 [[d1 Hs1] [Hnl Hnd]%NoDup_cons Hk He Hin].
    destruct (proj1 (Hk f) ltac:(by left)) as [a Ha].
    destruct (ci_conn _ _ _ Hs1 f a Ha) as (c & Hc & Hf).
    destruct (ci_node _ _ _ Hs1 a c Hc) as (_ & _ & _ & i & Hi & _).
    destruct (erase_spec cfg d1 s1 a c (Z.of_nat i) Hs1 Hc Hi) as (p & Hrun & Hs2 & _).
    rewrite Hf in Hrun. eexists. split; [exact Hrun|].
    constructor; [by eexists|done| |done|done].
    intros f'. simpl. rewrite Hf. destruct (decide (f' = f)) as [->|Hne].
    + rewrite lookup_delete_eq. split; [done|by intros [? ?]].
    + rewrite lookup_delete_ne by done. rewrite <- Hk. set_solver.
  - exists s'. split; [done|].
    assert (Hc : connections (inst s') = ∅).
    { apply map_empty. intros f. apply eq_None_not_Some. rewrite <- Hk. set_solver. }
    assert (Hn : nodes s' = ∅).
    { apply map_empty. intros a. apply eq_None_not_Some. intros [c Hc'].
      destruct (ci_node _ _ _ Hs' a c Hc') as (Hf & _). by rewrite Hc in Hf. }
    split_and!; try done. pose proof (ci_lent _ _ _ Hs') as Hl. by rewrite Hn in Hl.
Qed.

(** ** The events of a connection *)

(** The mask [EnableEvent] asks for. *)
Definition enable_mask (rd wr : bool) : Z :=
  let events := Z.lor (Z.lor EPOLLERR EPOLLRDHUP) (Z.lor EPOLLHUP EPOLLONESHOT) in
  let events := if rd then Z.lor events EPOLLIN else events in
  if wr then Z.lor events EPOLLOUT else events.

(** Whether the kernel accepts a call. *)
Definition accepts {A} (c : syscall A) s : bool :=
  match (call c (env s)).1 with inl _ => false | inr _ => true end.
End lemmas.

Section props.
Context {W P TP U : Type} {cap : BUFFER_TYPE -> Z}.
Context `{HW : Kernel W} `{HP : BufferProviderLaws P cap} `{HT : TaskPool SockTaskTcp TP}.
Context `{HB : BufferReset P} `{HC : Callbacks U}.
Context (uninit : BUFFER_TYPE -> list byte) (stale : SOCKController.t -> option SOCKController.t).
Context (cfg : SPTcpConfig).
Implicit Types s : state W P TP U.



(** C35: use after free.  HandleCloseList reads [controller->info] after the
    controller was erased: with a connection to close and nothing known about
    destroyed objects, it is undefined. *)
Theorem close_list_use_after_free s a l :
  (forall c, stale c = None) -> conn_inv cfg exact s -> cList (inst s) = a :: l ->
  is_Some (nodes s !! a) -> HandleCloseList stale s = None.
Proof.
  intros Hst Hs Hl [c Ha]. unfold HandleCloseList.
  rewrite (bind_some _ _ _ _ _ (field_run _ s)), Hl. destruct (10 <? _).
  - set (s1 := set_inst (set_cList [] (inst s)) s).
    rewrite (bind_some _ _ s tt s1) by done.
    destruct (close_one_spec stale cfg s1 a c (set_cList_inv _ _ _ _ Hs) Ha) as [Hone _].
    simpl. by rewrite bind_run, (Hone (Hst c)).
  - destruct (close_one_spec stale cfg s a c Hs Ha) as [Hone _].
    simpl. by rewrite !bind_run, (Hone (Hst c)).
Qed.

(** Release.  It destroys every controller, after which no buffer is out
    and the pool can be reset; of the descriptors it closes the listening one
    only: those of connections that are still open are never closed. *)
Theorem release_outcome d s :
  (forall p : P, lent p [] -> exists p', buffer_reset p = Some p') ->
  conn_inv cfg d s -> instance s = true ->
  exists s', Release s = Some (tt, s') /\ instance s' = false /\ nodes s' = ∅ /\
    closed (env s') = closed (env s) ++
      if listenfd (inst s) =? -1 then [] else [listenfd (inst s)].
Proof.
  intros Hreset Hs Hi. unfold Release. rewrite (bind_some _ _ _ _ _ (gets_run _ s)), Hi.
  assert (Hd : exists s1, destroy_instance s = Some (tt, s1) /\ nodes s1 = ∅ /\ lent (bufp s1) [] /\
    closed (env s1) = closed (env s) ++ if listenfd (inst s) =? -1 then [] else [listenfd (inst s)]).
  { unfold destroy_instance. rewrite (bind_some _ _ _ _ _ (field_run _ s)).
    destruct (listenfd (inst s) =? -1); cbn [negb].
    - rewrite bind_run. cbn [when mret st_ret mbind option_bind].
      destruct (clear_connections_spec cfg d s Hs) as (s1 & Hrun & Hn & _ & Hl & He & _).
      exists s1. rewrite app_nil_r, He. by split_and!.
    - destruct (close_fds (listenfd (inst s)) s) as (e & Hrun & [_ He]).
      rewrite (bind_some _ _ _ _ _ Hrun : (when true _ ≫= _) s = _).
      destruct (clear_connections_spec cfg d (set_env e s)) as (s1 & Hrun1 & Hn & _ & Hl & He1 & _).
      { by apply (same_conns_inv cfg d s). }
      exists s1. rewrite He1. by split_and!. }
  destruct Hd as (s1 & Hrun & Hn & Hl & Hc). rewrite (bind_some _ _ _ _ _ Hrun).
  destruct (Hreset _ Hl) as (p' & Hp).
  rewrite (bind_some _ _ _ _ _ (modify_run _ s1)), (bind_some _ _ _ _ _ (gets_run _ _)).
  simpl bufp. rewrite Hp, (bind_some _ _ _ _ _ (lift_run _ _)). by eexists.
Qed.

(** Listen.  On every failure it closes each socket it opened; it reports
    success exactly when the socket listens, and only then sets the flag that
    refuses a second call. *)
Theorem listen_no_leak af port ip s :
  exists b s', Listen af port ip s = Some (b, s') /\ listen_outcome s b s'.
Proof. apply Listen_spec. Qed.

(** Starting the IO threads.  CreateIOEventLoop makes [num] threads, each
    with an [epoll] and an exit descriptor of its own and no connections, or fails, closing every
    descriptor it opened exactly once and starting no thread. *)
Theorem create_loops_no_leak num s :
  loopInfo (inst s) = [] -> 0 <= num ->
  exists b e infos op cl s', CreateIOEventLoop num s = Some (b, s') /\
    fds_step (env s) e op cl /\
    s' = set_inst (set_loops (loops (inst s')) (inst (relooped infos e s))) (relooped infos e s) /\
    if (b : bool) then
      Z.of_nat (length infos) = num /\ op = infos ≫= loop_fds /\ cl = [] /\
      loops (inst s') = loops (inst s) ++ ((fun i => (epollfd i, exitfd i)) <$> infos) /\
      Forall (fun i => count i = 0) infos
    else op ≡ₚ cl /\ loops (inst s') = loops (inst s).
Proof. apply CreateIOEventLoop_spec. Qed.
End props.

(** ** Events *)

Section events.
Context {W P TP U : Type} {cap : BUFFER_TYPE -> Z}.
Context `{HK : KernelLaws W} `{HP : BufferProviderLaws P cap} `{HT : TaskPool SockTaskTcp TP}.
Context `{HC : Callbacks U}.
Context (ifuel : nat) `{HPat : !Patient W ifuel}.
Context (stale : SOCKController.t -> option SOCKController.t) (cfg : SPTcpConfig).
Implicit Types s : state W P TP U.



(** The inverted test.  On a server with a write callback only, a read
    event asks the kernel to watch for writing, and the connection is closed
    exactly when the kernel agrees; when it refuses, the connection is kept
    although nothing watches it any more. *)
Theorem read_event_write_only d exitfd' fd a w u s :
  conn_inv cfg d s -> connections (inst s) !! fd = Some a -> fd <> exitfd' ->
  rdp (proc (inst s)) = None -> wtp (proc (inst s)) = Some w ->
  exists ep s', io_event ifuel stale exitfd' (fd, EPOLLIN) u s = Some (Some u, s') /\
    cList (inst s') = cList (inst s) ++
      if accepts (Epoll_ctl ep EPOLL_CTL_MOD fd (enable_mask false true)) s then [a] else [].
Proof.
  intros Hs Hfd Hne Hr Hw. destruct (ci_conn _ _ _ Hs fd a Hfd) as (c & Ha & Hc).
  destruct (loop_of_live cfg d s a c Hs Ha) as (info & Hloop).
  exists (epollfd info). unfold io_event. rewrite (proj2 (Z.eqb_neq _ _) Hne).
  change (has_event EPOLLIN (Z.lor EPOLLHUP EPOLLERR)) with false.
  change (has_event EPOLLIN (Z.lor EPOLLIN EPOLLRDHUP)) with true. cbn iota.
  assert (Hfind : find fd s = Some (a, s)) by (unfold find; by rewrite Hfd).
  rewrite (bind_some _ _ _ _ _ Hfind).
  change (has_event EPOLLIN EPOLLRDHUP) with false. rewrite (bind_some _ _ s tt s) by done.
  set (ctl := Epoll_ctl _ _ _ _). set (e := (call ctl (env s)).2).
  set (ev := if accepts ctl s then Z.lor 0 EPOLLOUT else 0).
  set (c1 := SOCKController.set_events ev c).
  assert (Hen : enableEvents stale a false true s
                = Some (accepts ctl s, set_nodes (<[a := c1]> (nodes s)) (set_env e s))).
  { unfold enableEvents, on_events. rewrite (deref_live stale a c s Ha).
    unfold SOCKController.enableEvents, funcEvent. simpl mbind at 1.
    unfold EnableEvent. rewrite (bind_some _ _ _ _ _ (Hloop c s eq_refl eq_refl)), Hc.
    change (Epoll_ctl (epollfd info) EPOLL_CTL_MOD fd _) with ctl.
    rewrite (bind_some _ _ _ _ _ (sys_run ctl s)). simpl.
    rewrite (put_live a c) by done. unfold c1, ev, accepts.
    by destruct (call ctl (env s)) as [[?|?] ?]. }
  assert (Hread : HandleRead ifuel stale a u s
                  = Some ((negb (accepts ctl s), u), set_nodes (<[a := c1]> (nodes s)) (set_env e s))).
  { unfold HandleRead. rewrite (bind_some _ _ _ _ _ (field_run _ s)), Hr, Hw.
    by rewrite (bind_some _ _ _ _ _ Hen). }
  rewrite (bind_some _ _ _ _ _ Hread). set (s1 := set_nodes _ _).
  destruct (accepts ctl s); cbn [negb].
  - assert (Hcl : exists s2, ActiveClose stale a s1 = Some (tt, s2) /\
      cList (inst s2) = cList (inst s) ++ [a]).
    { unfold ActiveClose. rewrite (bind_some _ _ _ _ _ (deref_live stale a c1 s1 (lookup_insert_eq _ _ _))).
      assert (Hl1 : loop_of c1 s1 = Some (info, s1)) by exact (Hloop c1 s1 eq_refl eq_refl).
      rewrite (bind_some _ _ _ _ _ Hl1), (bind_some _ _ _ _ _ (sys__run _ _)).
      rewrite (bind_some _ _ _ _ _ (field_run _ _)). by eexists. }
    destruct Hcl as (s2 & Hrun & Hcl). exists s2.
    by rewrite (bind_some _ _ _ _ _ (Hrun : when true _ s1 = _)).
  - exists s1. rewrite app_nil_r. by rewrite (bind_some _ _ s1 tt s1).
Qed.
End events.

(** ** The thread pool under the server *)

(** [fresh]: the queues [new] gives.  [exit] is seen once its [join]s returned. *)
#[export] Instance thread_pool_lifecycle (grant : nat -> Z -> bool) (sizeofNode cores : Z)
    (fresh : Z -> option (list (TPBlockQueue.t SockTaskTcp))) :
    PoolLifecycle (ThreadPool.t SockTaskTcp) := {
  pool_init len n b p := ThreadPool.init grant sizeofNode (fresh n) cores len n b p;
  pool_exit policy p :=
    match ThreadPool.queues p with
    | None => Some p
    | Some _ => ThreadPool.exit_joined (ThreadPool.mk policy (ThreadPool.threadNum p)
                  (ThreadPool.queueLength p) (ThreadPool.queues p) (ThreadPool.index p))
    end }.

Section after_exit.
Context {W P U : Type} `{HW : Kernel W} `{HB : BufferProvider P} `{HC : Callbacks U}.
Context (stale : SOCKController.t -> option SOCKController.t).
Context (grant : nat -> Z -> bool) (sizeofNode cores : Z).
Context (fresh : Z -> option (list (TPBlockQueue.t SockTaskTcp))).
Implicit Types s : state W P (ThreadPool.t SockTaskTcp) U.

Lemma exited_index (p : ThreadPool.t SockTaskTcp) :
  ThreadPool.threadNum p = 0 -> ThreadPool.next_index p = None.
Proof. intros Hp. unfold ThreadPool.next_index, u32_mod. by rewrite Hp. Qed.

Lemma exited_bulk l n (p : ThreadPool.t SockTaskTcp) :
  ThreadPool.threadNum p = 0 -> pool_append_bulk l n p = None.
Proof. intros Hp. simpl. unfold ThreadPool.append_bulk. rewrite (exited_index p Hp). by case_match. Qed.

Lemma exited_append x (p : ThreadPool.t SockTaskTcp) :
  ThreadPool.threadNum p = 0 -> pool_append x p = None.
Proof. intros Hp. simpl. unfold ThreadPool.append. by rewrite (exited_index p Hp). Qed.

(** C36: the order of shutting down.  EventLoop lets the pool exit before it
    stops the IO threads.  From then on an IO thread that has a connection to
    hand over is undefined: a single submission always, a batch when it is
    flushed with a task buffered. *)
Theorem submit_after_exit p p' a f u s :
  pool_exit (PoolLifecycle := thread_pool_lifecycle grant sizeofNode cores fresh) true p = Some p' ->
  ThreadPool.queues p <> None -> tpool s = p' ->
  if THREADPOOL_BATCH_SIZE_SUBMIT (tcpConfig (g s)) =? 1 then submit stale a f u s = None
  else UtilTaskTcp_Multipe.size (UtilTaskTcp.tm u) <> 0 -> flush stale u s = None.
Proof.
  intros Hexit Hq Hs. simpl in Hexit.
  assert (Hp : ThreadPool.threadNum (tpool s) = 0).
  { rewrite Hs. destruct (ThreadPool.queues p) as [qs|]; [|done].
    unfold ThreadPool.exit_joined in Hexit. simpl in Hexit.
    destruct (ThreadPool.delete_queues qs); simpl in Hexit; [|done]. by injection Hexit as <-. }
  destruct (Z.eqb_spec (THREADPOOL_BATCH_SIZE_SUBMIT (tcpConfig (g s))) 1) as [E|E].
  - unfold submit, UtilTaskTcp.append. rewrite E. simpl.
    unfold UtilTaskTcp_Single.append. simpl. unfold ThreadPool.emplace. by rewrite (exited_index _ Hp).
  - intros Hsz. unfold flush, UtilTaskTcp.reset. rewrite (proj2 (Z.eqb_neq _ _) E).
    unfold UtilTaskTcp_Multipe.commit. cbn [UtilTaskTcp_Multipe.commit_rec].
    rewrite (proj2 (Z.eqb_neq _ _) Hsz).
    destruct (UtilTaskTcp_Multipe.tasks (UtilTaskTcp.tm u)) as [ts|]; [|done]. cbn [mbind option_bind].
    destruct (_ =? 1).
    + destruct (ts !! _) as [k|]; [|done]. cbn [mbind option_bind]. by rewrite (exited_append _ _ Hp).
    + destruct (mem_load ts _ _) as [l|]; [|done]. cbn [mbind option_bind]. by rewrite (exited_bulk _ _ _ Hp).
Qed.
End after_exit.

(** ** Threads *)

Definition split_ok (weight : spec_float) (h : Z) : bool :=
  match split_threads h weight with
  | Some (io, worker) => (1 <=? io) && (1 <=? worker) && ((h =? 1) || (io + worker =? h))
  | None => false
  end.

Lemma split_ok_upto : forallb (split_ok float_0_6) (seqZ 1 1024) = true.
Proof. vm_compute. reflexivity. Qed.

(** With the default ratio and up to 1024 hardware threads there is at
    least one IO thread and one worker, and together they are as many as the
    hardware has (one of each on a single processor). *)
Theorem default_threads h :
  1 <= h <= 1024 ->
  exists io worker, split_threads h float_0_6 = Some (io, worker) /\ 1 <= io /\ 1 <= worker /\
    (h = 1 \/ io + worker = h).
Proof.
  intros Hh. pose proof split_ok_upto as Hall. rewrite forallb_forall in Hall.
  specialize (Hall h). unfold split_ok in Hall.
  destruct (split_threads h float_0_6) as [[io worker]|]; [|exfalso; by specialize (Hall ltac:(apply list_elem_of_In, elem_of_seqZ; lia))].
  exists io, worker. specialize (Hall ltac:(apply list_elem_of_In, elem_of_seqZ; lia)).
  rewrite !andb_true_iff, orb_true_iff, !Z.leb_le, !Z.eqb_eq in Hall. split; [done|]. lia.
Qed.

(** ** A scripted kernel, for examples: the answer depends on the call only *)

Record Script := mkScript { answer : forall A, syscall A -> errno + A }.

#[export] Instance script_kernel : Kernel Script := {| Kernel.sys A c w := (answer w A c, w) |}.

(** Every call succeeds, save [accept], which answers [acc]. *)
Definition well (acc : errno + (Z * (string * Z))) : Script := mkScript (fun A c =>
  match c in syscall A return errno + A with
  | Accept _ => acc
  | Recv _ _ => inr []
  | Send _ d => inr (Z.of_nat (length d))
  | Epoll_ctl _ _ _ _ | Close _ | Fcntl_setfl _ _ | Setsockopt _ _ | Bind _ _ _
  | Listen_on _ | Eventfd_write _ _ | Sigaction _ => inr tt
  | Fcntl_getfl _ => inr 2
  | Inet_pton _ _ => inr []
  | Socket_create _ _ => inr 3
  | Open_devnull => inr 4
  | Epoll_create1 => inr 5
  | Eventfd => inr 6
  | Poll_in _ _ => inr 1
  | Epoll_wait _ _ => inr []
  | Hardware_concurrency => inr 8
  | Recvfrom _ _ => inr ([], (EmptyString, 80))
  | Sendto _ d _ _ => inr (Z.of_nat (length d))
  | Steady_clock_ns => inr 0
  | Exit_flag => inr true
  end).

Section accept_error.
Context {P TP U : Type} `{HB : BufferProvider P} `{HT : TaskPool SockTaskTcp TP} `{HC : Callbacks U}.
Context (uninit : BUFFER_TYPE -> list byte) (stale : SOCKController.t -> option SOCKController.t).

Implicit Types s : state Script P TP U.

Lemma script_sys {A} (c : syscall A) w s :
  kw (env s) = w -> exists e, sys c s = Some (answer w A c, set_env e s) /\ kw e = w.
Proof. intros <-. eexists. by split. Qed.

Lemma script_clock acc s :
  kw (env s) = well acc -> exists e, clock s = Some (0, set_env e s) /\ kw e = well acc.
Proof.
  intros Hw. destruct (script_sys Steady_clock_ns _ s Hw) as (e & Hrun & He).
  exists e. unfold clock. by rewrite (bind_some _ _ _ _ _ Hrun).
Qed.

Lemma script_flag acc s :
  kw (env s) = well acc ->
  exists e, load_exitFlag s = Some (exitFlag s, set_env e s) /\ kw e = well acc.
Proof.
  intros Hw. destruct (script_sys Exit_flag _ s Hw) as (e & Hrun & He).
  exists e. unfold load_exitFlag. by rewrite (bind_some _ _ _ _ _ Hrun).
Qed.

(** A failed [accept] makes HandleConnect return [false]. *)
Lemma script_refused idlefd err s :
  kw (env s) = well (inl err) ->
  exists e, HandleConnect uninit stale idlefd s = Some (false, set_env e s).
Proof.
  intros Hw. unfold HandleConnect. rewrite (bind_some _ _ _ _ _ (field_run _ s)).
  destruct (script_sys (Accept (listenfd (inst s))) _ s Hw) as (e & Hrun & He).
  rewrite (bind_some _ _ _ _ _ Hrun). cbn [answer well].
  destruct (give_up_when (bool_decide (err = EMFILE)) idlefd (listenfd (inst s)) (set_env e s))
    as (e' & Hrun' & _).
  rewrite (bind_some _ _ _ _ _ Hrun'). by exists e'.
Qed.

(** One failed [accept] ends the server.  With every other call succeeding
    and nobody asking it to stop, the main loop returns [false] at the first
    error of [accept], also one of a single connection (a client that went
    away), and also after the reserve descriptor was used for [EMFILE]. *)
Theorem accept_error_stops_server err fuel others s :
  exitFlag s = true -> kw (env s) = well (inl err) ->
  exists s', MainEventLoop uninit stale (S fuel) others s = Some (Some false, s') /\
    exitFlag s' = true.
Proof.
  intros Hx Hw. unfold MainEventLoop.
  destruct (script_sys Open_devnull _ s Hw) as (e1 & R1 & H1). rewrite (bind_some _ _ _ _ _ R1).
  cbn [answer well].
  destruct (script_clock _ (set_env e1 s) H1) as (e2 & R2 & H2). rewrite (bind_some _ _ _ _ _ R2).
  cbn [main_loop]. set (s2 := set_env e2 _) in *.
  assert (Hround : exists s', main_round uninit stale 4 0 s2 = Some (inr false, s') /\ exitFlag s' = true).
  { unfold main_round.
    destruct (script_flag _ s2 H2) as (e3 & R3 & H3). rewrite (bind_some _ _ _ _ _ R3).
    change (exitFlag s2) with (exitFlag s). rewrite Hx. cbn [negb].
    destruct (script_clock _ (set_env e3 s2) H3) as (e4 & R4 & H4). rewrite (bind_some _ _ _ _ _ R4).
    rewrite (bind_some _ _ _ _ _ (field_run _ _)). set (s4 := set_env e4 _) in *.
    set (poll := Poll_in _ _).
    destruct (script_sys poll _ s4 H4) as (e5 & R5 & H5). rewrite (bind_some _ _ _ _ _ R5).
    cbn [answer well poll]. subst poll. cbn iota.
    destruct (script_clock _ (set_env e5 s4) H5) as (e6 & R6 & H6). rewrite (bind_some _ _ _ _ _ R6).
    set (s6 := set_env e6 _) in *. rewrite (bind_some _ _ s6 tt s6) by done.
    destruct (script_refused 4 err s6 H6) as (e7 & R7). cbn [Z.ltb Z.compare].
    rewrite (bind_some _ _ _ _ _ R7), (bind_some _ _ _ _ _ (sys__run _ _)). by eexists. }
  destruct Hround as (s' & Hrun & Hx'). rewrite (bind_some _ _ _ _ _ Hrun). by exists s'.
Qed.
End accept_error.

(** ** Witnesses: a server with two IO threads and one connection, 7 *)

#[local] Instance w_tcp_provider : BufferProvider SPTcpBufferPool.state := pool_provider w_grant w_cfg.
#[local] Instance w_tcp_laws : BufferProviderLaws SPTcpBufferPool.state (buf_cap w_cfg) :=
  pool_laws w_grant w_cfg.

(** The user's callbacks count the connections opened and closed. *)
#[local] Instance w_tcp_callbacks : Callbacks (Z * Z) := {|
  cnp_call f ip port u := (None, (u.1 + 1, u.2));
  csp_call f c u := (u.1, u.2 + 1) |}.

Abbreviation w_state := (state Script SPTcpBufferPool.state (ThreadPool.t SockTaskTcp) (Z * Z)).

Definition w_tcp_uninit (ty : BUFFER_TYPE) : list byte := replicate (Z.to_nat (buf_cap w_cfg ty)) x00.

(** [rdp] and [wtp] of the server. *)
Definition w_tcp (rd wr : option Z) (infos : list IOThreadInfo) : w_state := mkState
  (mk 3 8 (mkLinger 0 0) (mkProc rd wr (Some 3) (Some 4)) (mkAlive 0 0 0 0) [] [] infos ∅)
  true (mkGlobals w_cfg default_udp_config (mkWaterMark 0 0) LOG_LEVEL_NONE true) true ∅ ∅ 1
  (mkEnv (well (inr (7, (EmptyString, 4242)))) []) pool_start.1 w_tpool (0, 0).

Definition w_infos : list IOThreadInfo := [mkIOThreadInfo 0 5 6; mkIOThreadInfo 0 15 16].

Lemma w_tcp_inv rd wr : conn_inv w_cfg exact (w_tcp rd wr w_infos).
Proof.
  constructor; simpl; [done|done|done|by intros a [x Hx]| | |done].
  - apply (pool_lent_start w_cfg w_config).
  - by intros [|[|[]]] info; simpl; intros; simplify_eq.
Qed.

Definition w_next (s : w_state) (o : option (bool * w_state)) : w_state :=
  match o with Some (_, s') => s' | None => s end.



(** The server with connection 7, at address 1; [closing] is its close list. *)
Definition w_conn (rd wr : option Z) (closing : list Z) : w_state :=
  let s := w_tcp rd wr w_infos in
  let s := w_next s (HandleConnect w_tcp_uninit (fun _ => None) 4 s) in
  set_inst (set_cList closing (inst s)) s.


Lemma w_conn_inv rd wr cl : conn_inv w_cfg exact (w_conn rd wr cl).
Proof.
  apply set_cList_inv. set (s := w_tcp rd wr w_infos).
  assert (Hb : tcp_config_bounds w_cfg) by (apply tcp_config_ok_bounds; vm_compute; reflexivity).
  unshelve epose proof (HandleConnect_spec w_tcp_uninit (fun _ => None) w_cfg _ Hb _ _ 4 s _ _ _ _ _ _)
    as (b & s' & Hrun & Hout);
    [by intros []|repeat split; vm_compute; reflexivity
    |intros []; vm_compute; reflexivity|apply w_tcp_inv|reflexivity|discriminate
    |vm_compute; reflexivity|vm_compute; reflexivity|intros fd x [= <- _]; lia|].
  destruct Hout as [_ Hout].
  assert (Hs : s' = w_next s (HandleConnect w_tcp_uninit (fun _ => None) 4 s)) by (by rewrite Hrun).
  rewrite <- Hs. destruct Hout as [_ _ _ Hinv|? ? ? ? ? ? Hinv|c ? ? ? ? Hc Hn Hi Hcl]; [done|done|].
  exfalso. destruct Hcl as [Hcl _]. rewrite Hs in Hcl. vm_compute in Hcl. discriminate Hcl.
Qed.

Lemma w_conn_live rd wr cl : is_Some (nodes (w_conn rd wr cl) !! 1).
Proof. vm_compute. by eexists. Qed.

Lemma close_list_use_after_free_witness :
  HandleCloseList (fun _ => None) (w_conn (Some 1) None [1]) = None.
Proof.
  apply (close_list_use_after_free (fun _ => None) w_cfg (w_conn (Some 1) None [1]) 1 []);
    [reflexivity|apply w_conn_inv|reflexivity|apply w_conn_live].
Defined.

Lemma release_outcome_witness :
  exists s', Release (w_conn (Some 1) None []) = Some (tt, s') /\ closed (env s') = [8].
Proof.
  destruct (release_outcome w_cfg exact (w_conn (Some 1) None []))
    as (s' & Hrun & _ & _ & Hc);
    [exact (buffer_reset_law (H0 := w_tcp_laws))|apply w_conn_inv|vm_compute; reflexivity|].
  exists s'. split; [exact Hrun|]. rewrite Hc. vm_compute. reflexivity.
Defined.

Lemma create_loops_no_leak_witness :
  exists b s', CreateIOEventLoop 3 (w_tcp (Some 1) None []) = Some (b, s').
Proof.
  destruct (create_loops_no_leak 3 (w_tcp (Some 1) None []) eq_refl ltac:(lia))
    as (b & e & infos & op & cl & s' & Hrun & _).
  exists b, s'. exact Hrun.
Defined.




(** The kernel of [loop_kernel] under the server, for the laws of [recv]. *)
Definition on_loop (w : LoopW) (p : ThreadPool.t SockTaskTcp) (s : w_state) :
    state LoopW SPTcpBufferPool.state (ThreadPool.t SockTaskTcp) (Z * Z) :=
  mkState (inst s) true (g s) true (nodes s) ∅ (next_node s) (mkEnv w []) (bufp s) p (0, 0).

(** The invariant does not look at the kernel. *)
Lemma on_loop_inv d w p s : conn_inv w_cfg d s -> conn_inv w_cfg d (on_loop w p s).
Proof. intros []. constructor; assumption. Qed.

Definition w_loop (rd wr : option Z) : state LoopW SPTcpBufferPool.state (ThreadPool.t SockTaskTcp) (Z * Z) :=
  on_loop (mkLoopW [x11; x12] 4 true 20) w_tpool (w_conn rd wr []).



Lemma w_loop_wtp rd wr : wtp (proc (inst (w_loop rd wr))) = wr.
Proof. vm_compute. reflexivity. Qed.









Lemma read_event_write_only_witness :
  exists s', io_event 2 (fun _ => None) 6 (7, EPOLLIN) UtilTaskTcp.UtilTaskTcp (w_conn None (Some 2) [])
    = Some (Some UtilTaskTcp.UtilTaskTcp, s') /\ length (cList (inst s')) = 1%nat.
Proof.
  assert (Hc : connections (inst (w_conn None (Some 2) [])) !! 7 = Some 1) by (vm_compute; reflexivity).
  assert (Hr : rdp (proc (inst (w_conn None (Some 2) []))) = None) by (vm_compute; reflexivity).
  assert (Hw : wtp (proc (inst (w_conn None (Some 2) []))) = Some 2) by (vm_compute; reflexivity).
  destruct (read_event_write_only 2 (fun _ => None) w_cfg exact 6 7 1 2 UtilTaskTcp.UtilTaskTcp
              (w_conn None (Some 2) []) (w_conn_inv _ _ _) Hc ltac:(lia) Hr Hw)
    as (ep & s' & Hrun & Hl).
  exists s'. split; [exact Hrun|]. rewrite Hl. vm_compute. reflexivity.
Defined.

(** The pool of the example after [exit], and a batch of two tasks. *)
Definition w_exited : ThreadPool.t SockTaskTcp :=
  match pool_exit (PoolLifecycle := thread_pool_lifecycle (fun _ _ => true) 24 8 (fun _ => None)) true w_tpool with
  | Some p => p | None => w_tpool end.

Definition w_pending : UtilTaskTcp.t :=
  UtilTaskTcp.mk (UtilTaskTcp_Single.mk true) (w_batch true 3 [mkTask 1 7; mkTask 1 8]).

Lemma submit_after_exit_witness :
  flush (fun _ => None) w_pending (set_tpool w_exited (w_tcp (Some 1) None w_infos)) = None.
Proof.
  assert (He : pool_exit (PoolLifecycle := thread_pool_lifecycle (fun _ _ => true) 24 8 (fun _ => None))
                 true w_tpool = Some w_exited) by (vm_compute; reflexivity).
  assert (Hq : ThreadPool.queues w_tpool <> None) by (vm_compute; discriminate).
  assert (Hb : (THREADPOOL_BATCH_SIZE_SUBMIT (tcpConfig (g (set_tpool w_exited (w_tcp (Some 1) None w_infos))))
                =? 1) = false) by (vm_compute; reflexivity).
  assert (Hz : UtilTaskTcp_Multipe.size (UtilTaskTcp.tm w_pending) <> 0) by (vm_compute; discriminate).
  pose proof (submit_after_exit (fun _ => None) (fun _ _ => true) 24 8 (fun _ => None) w_tpool w_exited 1 1
                w_pending (set_tpool w_exited (w_tcp (Some 1) None w_infos)) He Hq eq_refl) as Hrun.
  rewrite Hb in Hrun. exact (Hrun Hz).
Defined.

Lemma default_threads_witness :
  exists io worker, split_threads 8 float_0_6 = Some (io, worker) /\ io + worker = 8.
Proof.
  destruct (default_threads 8 ltac:(lia)) as (io & worker & Hrun & _ & _ & Hs).
  exists io, worker. split; [exact Hrun|lia].
Defined.

Definition w_flaky : w_state :=
  set_env (mkEnv (well (inl (EOTHER 103))) []) (w_tcp (Some 1) None w_infos).

Lemma accept_error_stops_server_witness :
  exists s', MainEventLoop w_tcp_uninit (fun _ => None) 10 (mret tt) w_flaky = Some (Some false, s').
Proof.
  destruct (accept_error_stops_server w_tcp_uninit (fun _ => None) (EOTHER 103) 9 (mret tt) w_flaky
              eq_refl eq_refl) as (s' & Hrun & _).
  exists s'. exact Hrun.
Defined.
