(* ===== verification/IoProps.v ===== *)
(** * IoProps: the correctness theorems of the IO threads

    A turn of an IO thread over the events [epoll_wait] reports: that it is
    defined and keeps the server consistent, and what becomes of each
    connection reported. *)

From S2P Require Import Prelude Types State BufferProvider BufferPool Buffer BufferSpec Kernel Controller.
From S2P Require Import ControllerSpec TaskPool BlockQueue ThreadPool ThreadPoolInv Task TaskSpec.
From S2P Require Import Tcp TcpSpec TcpIo TcpToken TcpMain BufferPoolProps TaskProps TcpProps.
Import SPSockTcp.

(** ** The IO threads *)

Section io_threads.
Context {W P TP U : Type} {cap : BUFFER_TYPE -> Z} {tcap : Z}.
Context `{HK : KernelLaws W} `{HP : BufferProviderLaws P cap} `{HT : TaskPoolLaws SockTaskTcp TP tcap}.
Context `{HC : Callbacks U}.
Context (ifuel : nat) `{HPat : !Patient W ifuel}.
Context (stale : SOCKController.t -> option SOCKController.t) (cfg : SPTcpConfig) (b : Z).
Implicit Types s : state W P TP U.

(** C19: a turn of an IO thread.  Over the events of one [epoll_wait] the thread
    never does anything undefined; the map, the controllers, their buffers and
    the counts stay consistent, no descriptor is closed, only existing
    connections enter the close list, and the pool keeps what it had and takes
    tasks of the reported connections, in their order, at most one of each. *)
Theorem io_round_safe epollfd' exitfd' u l s :
  batch_config cfg b tcap -> ready cfg b u [] l s ->
  Forall (registered exitfd' s) (reported cfg epollfd' s) -> NoDup (reported cfg epollfd' s).*1 ->
  exists r s' taken, io_round ifuel stale epollfd' exitfd' u s = Some (r, s') /\
    batch_done cfg (about s (reported cfg epollfd' s)) l taken s s' /\ NoDup (ctx <$> taken) /\
    match r with
    | inl u' => ready cfg b u' [] (l ++ taken) s'
    | inr Exited => exitfd' ∈ (reported cfg epollfd' s).*1
    | inr Thrown => taken = []
    end.
Proof.
  intros Hb Hrd Hreg Hnd.
  destruct (io_round_rel ifuel stale cfg b Hb epollfd' exitfd' u l s Hrd Hreg)
    as (r & s' & taken & Hrun & Hdone & Hend).
  exists r, s', taken. split; [done|]. split; [done|]. split; [|done].
  eapply sublist_NoDup; [|exact (bd_sub _ _ _ _ _ _ Hdone)].
  apply (about_nodup cfg exact); [by destruct Hrd|done].
Qed.

(** An IO thread, among others.  As long as the other threads leave a
    consistent state and [epoll_wait] reports registered descriptors, the loop
    never does anything undefined, for however many turns. *)
Theorem io_loop_safe fuel others epollfd' exitfd' u l s :
  batch_config cfg b tcap -> considerate cfg b epollfd' exitfd' others -> ready cfg b u [] l s ->
  Forall (registered exitfd' s) (reported cfg epollfd' s) ->
  exists r s', io_loop ifuel stale fuel others epollfd' exitfd' u s = Some (r, s') /\
    conn_inv cfg exact s'.
Proof. intros. by eapply io_loop_rel. Qed.

End io_threads.

Section tokens.
Context {W P TP U : Type} {cap : BUFFER_TYPE -> Z} {tcap : Z}.
Context `{HK : KernelLaws W} `{HP : BufferProviderLaws P cap} `{HT : TaskPoolLaws SockTaskTcp TP tcap}.
Context `{HR : !TaskPoolRoom SockTaskTcp TP} `{HC : Callbacks U}.
Context (ifuel : nat) `{HPat : !Patient W ifuel}.
Context (stale : SOCKController.t -> option SOCKController.t) (cfg : SPTcpConfig) (b : Z).
Implicit Types s : state W P TP U.


(** C21: no connection is lost and none is doubled.  When the pool has room for
    the events [epoll_wait] reports, the connections reported in one turn of
    an IO thread are exactly those whose task entered the pool, those armed
    again and those in the close list, each in one of the three; the thread is
    ready for the next turn and its failure flag is still clear.  [epoll] stops
    watching none but the reported ones and those it closes.  What the main
    thread relies on ([tidy]) is kept.  (The server has a callback for each
    event reported, see [proper].) *)
Theorem io_round_conserves epollfd' exitfd' evs u l s :
  batch_config cfg b tcap -> ready cfg b u [] l s -> util_flag b u = true ->
  (call (Epoll_wait epollfd' (EPOLL_MAX_EVENT_BSIZE cfg)) (env s)).1 = inr evs ->
  Forall (proper exitfd' s) evs -> room (tpool s) (length evs) ->
  exists u' s' tasks, io_round ifuel stale epollfd' exitfd' u s = Some (inl u', s') /\
    ready cfg b u' [] (l ++ tasks) s' /\ util_flag b u' = true /\
    spread evs tasks (after_wait cfg epollfd' s) s' /\
    (tidy cfg s -> NoDup evs.*1 -> Forall (fun a => a ∉ cList (inst s)) (about s evs) -> tidy cfg s').
Proof.
  intros Hb Hrd Hf Hwait Hprop Hroom. unfold io_round.
  rewrite (bind_some _ _ _ _ _ (gets_run _ s)), (ci_cfg _ _ _ (rd_inv _ _ _ _ _ _ Hrd)).
  set (wait := Epoll_wait _ _) in *. rewrite (bind_some _ _ _ _ _ (sys_run wait s)), Hwait.
  set (s1 := set_env (call wait (env s)).2 s).
  assert (Hq : io_quiet cfg s s1) by (apply io_quiet_env; rewrite closed_closes; apply app_nil_r).
  destruct (io_events_spread ifuel stale cfg b Hb exitfd' evs u [] l s1) as (u' & s' & tasks & Hrun & Hr & Hrd' & Hf' & [Hsp]);
    [by apply (quiet_ready cfg b u [] l s)|done|done|by apply (proper_rel cfg _ s); [apply Hq|]|].
  rewrite (bind_some _ _ _ _ _ Hrun). exists u', s', tasks. split; [done|]. split; [done|]. split; [done|].
  assert (Hspread : spread evs tasks s1 s') by (by split).
  split; [done|]. intros Ht Hnd Hnew.
  destruct (spread_closed cfg exact evs tasks s1 s') as (cl & Hcl & Hin & Hcn); [apply Hq, Ht|done|].
  apply (io_tidy cfg s s' cl); [done|by apply io_rel_trans with s1; [apply Hq|]|done| |by apply Hcn].
  intros a Ha. rewrite Forall_forall in Hnew. by apply Hnew, Hin.
Qed.
End tokens.

(** ** Witnesses: the server of [TcpProps], about to read from connection 7 *)

#[local] Existing Instances w_tcp_provider w_tcp_laws w_tcp_callbacks.

(** Under that server a pool with one queue of twelve, and a batch of ten. *)
Definition w_io_pool : ThreadPool.t SockTaskTcp :=
  match ThreadPool.init (fun _ _ => true) 24 (Some [TPBlockQueue.TPBlockQueue 0 0 0 0]) 8 12 1 5
          (ThreadPool.ThreadPool 0) with
  | Some (_, p) => p | None => ThreadPool.ThreadPool 0 end.

Lemma w_io_pool_holding : pool_holding 12 w_io_pool [].
Proof.
  destruct (pool_init_spec (fun _ _ => true) 24 [TPBlockQueue.TPBlockQueue 0 0 0 0] 8 12 1 5
              (ThreadPool.ThreadPool (T := SockTaskTcp) 0) ltac:(lia) ltac:(lia) ltac:(lia))
    as (ok & p' & Hrun & H); [by repeat constructor|done|].
  unfold w_io_pool. rewrite Hrun. assert (ok = true) as Hok by (vm_compute in Hrun; congruence).
  rewrite Hok in *. exists [([], false)]. split; [apply H|done].
Qed.

Definition w_io_util : UtilTaskTcp.t :=
  (UtilTaskTcp.init w_cfg (Some (replicate 10 (mkTask 0 0))) UtilTaskTcp.UtilTaskTcp).2.

(** The kernel is about to report that connection 7 can be read. *)
Definition w_io : state LoopW SPTcpBufferPool.state (ThreadPool.t SockTaskTcp) (Z * Z) :=
  on_loop (mkLoopW [x11; x12] 4 false 20) w_io_pool (w_conn (Some 1) None []).

Lemma w_io_config : batch_config w_cfg 10 (Z.of_nat 12).
Proof. split_and!; [reflexivity|lia|lia|lia]. Qed.

Lemma w_io_ready : ready (tcap := Z.of_nat 12) (HL := thread_pool_laws 12) w_cfg 10 w_io_util [] [] w_io.
Proof.
  constructor; [|split; [|done]|constructor|exact w_io_pool_holding].
  - exact (on_loop_inv _ _ _ _ (w_conn_inv (Some 1) None [])).
  - constructor; [by eexists|vm_compute; done|done|done|vm_compute; done].
Qed.

Lemma w_io_reported : reported w_cfg 5 w_io = [(7, EPOLLIN)].
Proof. vm_compute. reflexivity. Qed.

Lemma w_io_about : about w_io (reported w_cfg 5 w_io) = [1].
Proof. vm_compute. reflexivity. Qed.

Lemma w_io_registered : Forall (registered 6 w_io) (reported w_cfg 5 w_io).
Proof. rewrite w_io_reported. apply Forall_singleton. right. vm_compute. by eexists. Qed.

Lemma io_round_safe_witness :
  exists r s' taken, io_round 2 (fun _ => None) 5 6 w_io_util w_io = Some (r, s') /\
    batch_done (HL := thread_pool_laws 12) w_cfg [1] [] taken w_io s' /\ NoDup (ctx <$> taken).
Proof.
  destruct (io_round_safe (HT := thread_pool_laws 12) 2 (fun _ => None) w_cfg 10 5 6 w_io_util [] w_io w_io_config
              w_io_ready w_io_registered) as (r & s' & taken & Hrun & Hdone & Hnd & _).
  { rewrite w_io_reported. apply NoDup_singleton. }
  exists r, s', taken. split; [exact Hrun|]. split; [|exact Hnd].
  rewrite w_io_about in Hdone. exact Hdone.
Defined.

Lemma w_io_connection : connections (inst w_io) !! 7 = Some 1.
Proof. vm_compute. reflexivity. Qed.

Lemma w_io_served : served 1 EPOLLIN w_io.
Proof. vm_compute. reflexivity. Qed.

Lemma w_io_room : pool_room 12 w_io_pool 1.
Proof.
  destruct (pool_init_spec (fun _ _ => true) 24 [TPBlockQueue.TPBlockQueue 0 0 0 0] 8 12 1 5
              (ThreadPool.ThreadPool (T := SockTaskTcp) 0) ltac:(lia) ltac:(lia) ltac:(lia))
    as (ok & p' & Hrun & H); [by repeat constructor|done|].
  unfold w_io_pool. rewrite Hrun. assert (ok = true) as Hok by (vm_compute in Hrun; congruence).
  rewrite Hok in *. exists [([], false)]. split; [apply H|]. apply Forall_singleton. simpl. lia.
Qed.


Lemma w_io_proper : Forall (proper 6 w_io) [(7, EPOLLIN)].
Proof.
  apply Forall_singleton. split; [simpl; lia|]. split; [exists 1; exact w_io_connection|].
  exists 1. exact w_io_served.
Qed.

Lemma io_round_conserves_witness :
  exists u' s' tasks, io_round 2 (fun _ => None) 5 6 w_io_util w_io = Some (inl u', s') /\
    spread [(7, EPOLLIN)] tasks (after_wait w_cfg 5 w_io) s'.
Proof.
  assert (Hwait : (call (Epoll_wait 5 (EPOLL_MAX_EVENT_BSIZE w_cfg)) (env w_io)).1 = inr [(7, EPOLLIN)])
    by (vm_compute; reflexivity).
  destruct (io_round_conserves (HT := thread_pool_laws 12) (HR := thread_pool_room 12) 2 (fun _ => None) w_cfg 10 5 6
              [(7, EPOLLIN)] w_io_util [] w_io w_io_config w_io_ready eq_refl Hwait w_io_proper w_io_room)
    as (u' & s' & tasks & Hrun & _ & _ & Hsp & _).
  exists u', s', tasks. split; [exact Hrun|exact Hsp].
Defined.

(** The other threads of the example put the server back to [w_io]. *)
Lemma io_loop_safe_witness :
  exists r s', io_loop 2 (fun _ => None) 3 (fun _ => Some (tt, w_io)) 5 6 w_io_util w_io = Some (r, s').
Proof.
  destruct (io_loop_safe (HT := thread_pool_laws 12) 2 (fun _ => None) w_cfg 10 3 (fun _ => Some (tt, w_io)) 5 6
              w_io_util [] w_io w_io_config) as (r & s' & Hrun & _).
  - intros u l s Hrd. exists w_io, []. split; [reflexivity|]. split; [|exact w_io_registered].
    destruct w_io_ready as [Hi _ Hl Hp]. constructor; [exact Hi| |exact Hl|exact Hp].
    exact (rd_buf _ _ _ _ _ _ Hrd).
  - exact w_io_ready.
  - exact w_io_registered.
  - exists r, s'. exact Hrun.
Defined.
