(* ===== verification/ServerStart.v ===== *)
(** * ServerStart: how EventLoop gets the server going

    [bare s]: the server is configured and listens, and nothing is connected.
    [start_threads_spec]: creating the pool and the IO threads fails, or sets up
    ([set_up]) what the transition system of [Server] starts from. *)

From S2P Require Import Prelude Types State BufferProvider Buffer BufferSpec Kernel Epoll Controller.
From S2P Require Import ControllerSpec TaskPool BlockQueue ThreadPool ThreadPoolSpec ThreadPoolInv.
From S2P Require Import Task TaskSpec Tcp TcpSpec TcpIo TcpMain TcpFrame TcpLoops TcpProps Callback Stream Server.
From S2P Require Import ServerSpec ServerInv.
Import SPSockTcp.

Section start.
Context {W P U : Type} {cap : BUFFER_TYPE -> Z}.
Context `{HK : KernelLaws W} `{HP : BufferProviderLaws P cap} `{HC : Callbacks U} `{HE : !EpollKernel W}.
Context (cfg : SPTcpConfig).
Abbreviation state := (state W P (ThreadPool.t SockTaskTcp) U).
Implicit Types s : state.

Record bare s : Prop := {
  ba_inv : conn_inv cfg exact s;
  ba_nodes : nodes s = ∅;
  ba_list : cList (inst s) = [];
  ba_infos : loopInfo (inst s) = [];
  ba_loops : loops (inst s) = [];
  ba_procs : exists f f', rdp (proc (inst s)) = Some f /\ wtp (proc (inst s)) = Some f';
  ba_watch : kwatch (kw (env s)) = ∅;
  ba_signal : ksignal (kw (env s)) = ∅ }.

Lemma bare_connections s : conn_inv cfg exact s -> nodes s = ∅ -> connections (inst s) = ∅.
Proof.
  intros Hi Hn. apply map_empty. intros f. destruct (connections (inst s) !! f) as [a|] eqn:E; [|done].
  destruct (ci_conn _ _ _ Hi f a E) as (c & Hc & _). by rewrite Hn in Hc.
Qed.

Lemma calm_still e e' : shuts e e' [] -> kwatch (kw e) = ∅ -> ksignal (kw e) = ∅ ->
  kwatch (kw e') = ∅ /\ ksignal (kw e') = ∅.
Proof.
  intros [_ He] Hw Hs. pose proof (effect_watch _ _ _ _ He ltac:(by intros ? ?%not_elem_of_nil)) as Hw'.
  pose proof (effect_signal _ _ _ _ He) as Hs'. rewrite Hs in Hs'. rewrite Hw in Hw'. split; set_solver.
Qed.

Lemma bare_env e s : bare s -> shuts (env s) e [] -> bare (set_env e s).
Proof.
  intros [Hi ? ? ? ? ? Hw Hs] He. destruct (calm_still _ _ He Hw Hs).
  split; try done. by apply (same_conns_inv cfg exact s).
Qed.

Lemma bare_pool p s : bare s -> bare (set_tpool p s).
Proof. intros [Hi ? ? ? ? ? ? ?]. split; try done. by destruct Hi; constructor. Qed.

(** The threads are there, the reserve descriptor is not yet. *)
Record threads_up (n : nat) s : Prop := {
  tu_inv : conn_inv cfg exact s;
  tu_nodes : nodes s = ∅;
  tu_list : cList (inst s) = [];
  tu_loops : loopInfo (inst s) <> [];
  tu_procs : exists f f', rdp (proc (inst s)) = Some f /\ wtp (proc (inst s)) = Some f';
  tu_watch : kwatch (kw (env s)) = ∅;
  tu_signal : ksignal (kw (env s)) = ∅;
  tu_apart : Forall (apart s) (loops (inst s)).*2;
  tu_pool : pool_inv (Z.to_nat (THREADPOOL_QUEUE_LENGTH cfg)) (tpool s) (replicate n ([], false)) }.

Lemma relooped_inv infos ls e s :
  bare s -> Forall (fun i => count i = 0) infos ->
  conn_inv cfg exact (set_inst (set_loops ls (set_loopInfo infos (inst s))) (set_env e s)).
Proof.
  intros [Hi Hn _ _ _ _ _ _] Hz. pose proof (bare_connections s Hi Hn) as Hc.
  destruct Hi as [Hcfg _ _ Hnx Hl _ Hsz]. constructor; simpl; try done.
  - intros f a. by rewrite Hc.
  - intros a c. by rewrite Hn.
  - intros i info Hinfo. rewrite (Forall_lookup_1 _ _ _ _ Hz Hinfo), Hn. unfold load, exact.
    by rewrite map_filter_empty, map_size_empty.
Qed.

(** The IO threads. *)
Lemma create_threads_up io n s :
  bare s -> 0 < io -> pool_inv (Z.to_nat (THREADPOOL_QUEUE_LENGTH cfg)) (tpool s) (replicate n ([], false)) ->
  exists (ok : bool) s1, CreateIOEventLoop io s = Some (ok, s1) /\ tpool s1 = tpool s /\
    (ok = true -> threads_up n s1).
Proof.
  intros Hb Hio Hp. pose proof Hb as [Hi Hn Hl Hinfo Hlo Hpr Hw Hs].
  destruct (CreateIOEventLoop_spec io s Hinfo ltac:(lia))
    as (ok & e & infos & op & cl & s' & Hrun & [Hop Hcl] & Hs' & Hok).
  exists ok, s'. split; [done|]. split; [by rewrite Hs'|]. intros ->.
  destruct Hok as (Hlen & -> & -> & Hls & Hz). rewrite Hlo in Hls. cbn [app] in Hls. rewrite Hls in Hs'.
  destruct (unarmed_CreateIOEventLoop io _ _ _ Hrun) as [un Heff].
  assert (He : env s' = e) by (by rewrite Hs'). rewrite <- He in Hop, Hcl.
  pose proof (effect_watch _ _ _ _ Heff ltac:(by intros ? ?%not_elem_of_nil)) as Hw'. rewrite Hw in Hw'.
  pose proof (effect_signal _ _ _ _ Heff) as Hs2. rewrite Hs in Hs2.
  assert (Hinst : inst s' = set_loops ((fun i => (epollfd i, exitfd i)) <$> infos) (set_loopInfo infos (inst s)))
    by (by rewrite Hs').
  split; rewrite ?Hinst; simpl; try done.
  - rewrite Hs'. by apply relooped_inv.
  - by rewrite Hs'.
  - intros ->. simpl in Hlen. lia.
  - set_solver.
  - set_solver.
  - rewrite <- list_fmap_compose. apply Forall_fmap, Forall_forall. intros i Hin. simpl.
    destruct (effect_opened _ _ _ _ _ _ (exitfd i) Heff Hop Hcl) as [Hpos Ho].
    + apply list_elem_of_bind. exists i. split; [|done]. unfold loop_fds. right. by left.
    + by intros ?%not_elem_of_nil.
    + split; [done|]. split; [done|]. rewrite Hinst. simpl. by rewrite (bare_connections s Hi Hn).
  - by rewrite Hs'.
Qed.

(** ** The pool *)

(** [fresh]: the array of queues [new] gives: none, or as many as asked for,
    newly constructed. *)
Context (grant : nat -> Z -> bool) (sizeofNode cores : Z).
Context (fresh : Z -> option (list (TPBlockQueue.t SockTaskTcp))).
Context (Hnode : 0 < sizeofNode <= 4032).
Context (Hfresh : forall n qs, fresh n = Some qs -> Z.of_nat (length qs) = n /\
  Forall (fun q => TPBlockQueue.memoryBlock q = None /\ TPBlockQueue.isStopped q = 0) qs).
Context (Hbounds : tcp_config_bounds cfg).
#[local] Instance lifecycle : PoolLifecycle (ThreadPool.t SockTaskTcp) :=
  thread_pool_lifecycle grant sizeofNode cores fresh.

Lemma pool_init_run wk (p : ThreadPool.t SockTaskTcp) :
  0 < wk < 2 ^ 31 ->
  exists (ok : bool) p', pool_init (THREADPOOL_QUEUE_LENGTH cfg) wk (THREADPOOL_BATCH_SIZE_PROCESS cfg) p = Some (ok, p') /\
    (ok = true -> pool_inv (Z.to_nat (THREADPOOL_QUEUE_LENGTH cfg)) p' (replicate (Z.to_nat wk) ([], false))).
Proof.
  intros Hwk. pose proof (tb_queue _ Hbounds) as Hq. simpl. destruct (fresh wk) as [qs|] eqn:E.
  - destruct (Hfresh wk qs E) as [Hlen Hqs].
    destruct (pool_init_spec grant sizeofNode qs cores (THREADPOOL_QUEUE_LENGTH cfg) wk
                (THREADPOOL_BATCH_SIZE_PROCESS cfg) p Hq Hnode Hwk Hqs Hlen) as (ok & p' & Hrun & Hok).
    exists ok, p'. split; [done|]. intros ->. destruct Hok as (Hp & _).
    by replace (Z.to_nat wk) with (length qs) by lia.
  - unfold ThreadPool.init. destruct (_ || _ || _); by eexists false, _.
Qed.

Lemma start_threads_spec io wk pool0 s :
  bare s -> 0 < io -> 0 < wk < 2 ^ 31 ->
  exists (ok : bool) s1, start_threads pool0 io wk s = Some (ok, s1) /\
    (ok = true -> threads_up (Z.to_nat wk) s1).
Proof.
  intros Hb Hio Hwk. unfold start_threads.
  rewrite (bind_some _ _ _ _ _ (gets_run _ s)), (ci_cfg _ _ _ (ba_inv _ Hb)), u32_small by lia.
  destruct (pool_init_run wk pool0 Hwk) as (ok & p & Hrun & Hp). rewrite Hrun.
  rewrite (bind_some _ _ _ _ _ (lift_run _ s)), (bind_some _ _ _ _ _ (modify_run _ s)).
  destruct ok; cbn [negb]; [|by eexists false, _]. specialize (Hp eq_refl).
  destruct (create_threads_up io (Z.to_nat wk) (set_tpool p s) (bare_pool p s Hb) Hio Hp)
    as (ok & s1 & Hrun1 & Ht & Hup). rewrite (bind_some _ _ _ _ _ Hrun1).
  destruct ok; cbn [negb]; [by exists true, s1; split; [|intros _; apply Hup]|].
  rewrite (bind_some _ _ _ _ _ (gets_run _ s1)), Ht. change (tpool (set_tpool p s)) with p.
  assert (exists p', pool_exit false p = Some p') as [p' ->].
  { simpl. destruct (ThreadPool.queues p) as [qs|] eqn:Eq; [|by eexists].
    assert (Hp2 : pool_inv (Z.to_nat (THREADPOOL_QUEUE_LENGTH cfg)) (ThreadPool.mk false (ThreadPool.threadNum p)
       (ThreadPool.queueLength p) (Some qs) (ThreadPool.index p)) (replicate (Z.to_nat wk) ([], false))).
    { destruct Hp as [? ? ? Hq ?]. constructor; try done. by rewrite Eq in Hq. }
    destruct (exit_joined_spec _ _ _ Hp2) as (p' & Hx & _). by exists p'. }
  rewrite (bind_some _ _ _ _ _ (lift_run _ s1)), (bind_some _ _ _ _ _ (modify_run _ s1)).
  by eexists false, _.
Qed.

(** ** EventLoop *)

(** The reserve descriptor completes what the server starts from. *)
Lemma reserve_set_up n s idlefd :
  threads_up n s -> (call Open_devnull (env s)).1 = inr idlefd ->
  set_up cfg (Z.to_nat (THREADPOOL_QUEUE_LENGTH cfg)) n idlefd (set_env (call Open_devnull (env s)).2 s).
Proof.
  intros [Hi Hn Hl Hlo Hpr Hw Hs Hap Hp] Hr.
  pose proof (shuts_call Open_devnull (env s) eq_refl) as Hsh. change (closes Open_devnull) with (@nil Z) in Hsh.
  destruct (calm_still _ _ Hsh Hw Hs) as [Hw' Hs']. destruct Hsh as [Hcl Heff].
  destruct (call_kernel Open_devnull (env s)) as [Hk Hkw].
  assert (Hop : idlefd ∈ opened_ev (Ev Open_devnull (Kernel.sys Open_devnull (kw (env s))).1)).
  { rewrite <- Hk, Hr. by left. }
  apply open_law in Hop as (Hpos & Hno & Ho). rewrite <- Hkw in Ho.
  split; try done.
  - by apply (same_conns_inv cfg exact s).
  - apply Forall_cons. split.
    + split; [done|]. split; [done|]. simpl. by rewrite (bare_connections s Hi Hn).
    + eapply Forall_impl; [exact Hap|]. intros f (? & Hf & ?). split; [done|]. split; [|done].
      by apply (effect_open _ _ _ _ [] f Heff); [..|intros ?%not_elem_of_nil].
  - simpl. intros Hin. rewrite Forall_forall in Hap. destruct (Hap _ Hin) as (_ & Hf & _). done.
Qed.

Lemma set_up_env n s idlefd e :
  set_up cfg (Z.to_nat (THREADPOOL_QUEUE_LENGTH cfg)) n idlefd s -> shuts (env s) e [] ->
  set_up cfg (Z.to_nat (THREADPOOL_QUEUE_LENGTH cfg)) n idlefd (set_env e s).
Proof.
  intros [Hi Hn Hl Hlo Hpr Hw Hs Hap Hid Hp] Hsh. destruct (calm_still _ _ Hsh Hw Hs). destruct Hsh as [Hcl Heff].
  split; try done; [by apply (same_conns_inv cfg exact s)|]. eapply Forall_impl; [exact Hap|].
  intros f (? & Hf & ?). split; [done|]. split; [|done].
  by apply (effect_open _ _ _ _ [] f Heff); [..|intros ?%not_elem_of_nil].
Qed.

Lemma thread_counts_run r s s0 :
  CalculateOptimalThreadCounts s = Some (r, s0) -> exists e, s0 = set_env e s /\ shuts (env s) e [].
Proof.
  unfold CalculateOptimalThreadCounts. rewrite (bind_some _ _ _ _ _ (sys_run Hardware_concurrency s)).
  pose proof (shuts_call Hardware_concurrency (env s) eq_refl) as Hsh.
  destruct (_ =? 0); [intros [= _ <-]; by eexists|].
  rewrite (bind_some _ _ _ _ _ (gets_run _ _)), bind_run. unfold lift.
  destruct (split_threads _ _); cbn [mbind option_bind]; [|done]. intros [= _ <-]. by eexists.
Qed.

(** Nothing is accepted, received or sent meanwhile. *)
Lemma silent_thread_counts : respects (@silent W P (ThreadPool.t SockTaskTcp) U) CalculateOptimalThreadCounts.
Proof. unfold CalculateOptimalThreadCounts. silent_tac. Qed.

Lemma silent_start_threads pool0 io wk : respects (@silent W P (ThreadPool.t SockTaskTcp) U) (start_threads pool0 io wk).
Proof.
  assert (Hloops : forall k, respects (@silent W P (ThreadPool.t SockTaskTcp) U) (create_loops k)).
  { intros k. induction k as [|k IH]; cbn [create_loops]; [apply respects_ret, _|].
    unfold create_loop, field, update, sys_. silent_tac. }
  unfold start_threads, CreateIOEventLoop, close_loop, field, update, sys_. silent_tac.
Qed.

(** EventLoop past its checks. *)
Lemma event_loop_checked (uninit : BUFFER_TYPE -> list byte) (stale : SOCKController.t -> option SOCKController.t)
    fuel others pool0 s :
  Z.land (status (inst s)) 0xb = 0x3 ->
  EventLoop uninit stale fuel others pool0 s =
    (n ← CalculateOptimalThreadCounts;
     match n with
     | None => mret (Some false)
     | Some (io, wk) =>
         ok ← start_threads pool0 io wk;
         if negb ok then mret (Some false) else
         r ← MainEventLoop uninit stale fuel others; leave_loop others r
     end) s.
Proof.
  intros Hst.
  assert (Hflags : (Z.land (status (inst s)) 0x8 =? 0x8) = false /\
            (Z.land (status (inst s)) 0x1 =? 0x1) = true /\ (Z.land (status (inst s)) 0x2 =? 0x2) = true).
  { change 0x8 with (Z.land 0xb 0x8) at 1. change 0x1 with (Z.land 0xb 0x1) at 1.
    change 0x2 with (Z.land 0xb 0x2) at 1. by rewrite !Z.land_assoc, Hst. }
  destruct Hflags as (Hf8 & Hf1 & Hf2).
  unfold EventLoop. by rewrite (bind_some _ _ _ _ _ (field_run _ s)), Hf8, Hf1, Hf2.
Qed.

(** What EventLoop does on a server that is configured and listens. *)
Lemma event_loop_cases (uninit : BUFFER_TYPE -> list byte) (stale : SOCKController.t -> option SOCKController.t)
    fuel others pool0 io wk s s0 :
  bare s -> Z.land (status (inst s)) 0xb = 0x3 ->
  CalculateOptimalThreadCounts s = Some (Some (io, wk), s0) -> 0 < io -> 0 < wk < 2 ^ 31 ->
  (exists s', EventLoop uninit stale fuel others pool0 s = Some (Some false, s')) \/
  (exists s', EventLoop uninit stale fuel others pool0 s = leave_loop others (Some false) s') \/
  (exists idlefd last s1, set_up cfg (Z.to_nat (THREADPOOL_QUEUE_LENGTH cfg)) (Z.to_nat wk) idlefd s1 /\ silent s s1 /\
     EventLoop uninit stale fuel others pool0 s =
       (r ← main_loop uninit stale fuel others idlefd last; leave_loop others r) s1).
Proof.
  intros Hb Hst Hcalc Hio Hwk.
  destruct (thread_counts_run _ s s0 Hcalc) as (e & Hs0 & Hsh).
  assert (Hb0 : bare s0) by (rewrite Hs0; by apply bare_env).
  rewrite (event_loop_checked _ _ _ _ _ _ Hst), (bind_some _ _ _ _ _ Hcalc).
  destruct (start_threads_spec io wk pool0 s0 Hb0 Hio Hwk)
    as (ok & s1 & Hrun & Hup).
  rewrite (bind_some _ _ _ _ _ Hrun). destruct ok; cbn [negb]; [|by left; eexists]. right.
  specialize (Hup eq_refl). unfold MainEventLoop. rewrite bind_run.
  rewrite (bind_some _ _ _ _ _ (sys_run Open_devnull s1)).
  destruct (call Open_devnull (env s1)).1 as [err|idlefd] eqn:E; [by left; eexists|]. right.
  set (s2 := set_env (call Open_devnull (env s1)).2 s1).
  destruct (clock_run s2) as (last & e3 & Hclock & Hsh3).
  rewrite (bind_some _ _ _ _ _ Hclock). exists idlefd, last, (set_env e3 s2).
  split; [apply set_up_env; [|done]; by apply reserve_set_up|]. split; [|done].
  transitivity s0; [exact (silent_thread_counts _ _ _ Hcalc)|].
  transitivity s1; [exact (silent_start_threads _ _ _ _ _ _ Hrun)|].
  transitivity s2; [exact (silent_sys Open_devnull eq_refl _ _ _ (sys_run Open_devnull s1))|exact (silent_clock _ _ _ Hclock)].
Qed.
End start.
