(* ===== verification/ServerProps.v ===== *)
(** * ServerProps: the correctness theorems of the server's threads together *)

From S2P Require Import Prelude Types State BufferProvider BufferPool BufferPoolSpec BufferPoolProps.
From S2P Require Import Buffer BufferSpec Kernel Epoll Controller ControllerSpec TaskPool BlockQueue.
From S2P Require Import ThreadPool ThreadPoolSpec ThreadPoolInv Task TaskSpec TaskProps Tcp TcpSpec TcpIo.
From S2P Require Import TcpToken TcpMain TcpProps Callback CallbackSpec Server ServerSpec ServerInv.
From S2P Require Import ServerStart ServerLive ServerStop.
Import SPSockTcp Server.

(** How many of [n] queues have been stopped. *)
Abbreviation halted n x := (stopped_by n (main_at x)).

(** ** Ownership *)

Section owner.
Context {W P U : Type} {cap : BUFFER_TYPE -> Z}.
Context `{HK : KernelLaws W} `{HP : BufferProviderLaws P cap} `{HC : Callbacks U} `{HE : !EpollKernel W}.
Context (ifuel : nat) `{HPat : !Patient W ifuel}.
Context (uninit : BUFFER_TYPE -> list byte) (stale : SOCKController.t -> option SOCKController.t).
Context (body : Z -> Callback.prog U) (cfg : SPTcpConfig).
Abbreviation state := (state W P (ThreadPool.t SockTaskTcp) U).
Abbreviation sys := (Server.sys W P U).
Abbreviation b := (THREADPOOL_BATCH_SIZE_SUBMIT cfg).
Abbreviation L := (Z.to_nat (THREADPOOL_QUEUE_LENGTH cfg)).
Implicit Types (s : state) (x : sys).

(** A valid configuration, memory that does not run out, and callbacks that arm
    or close their connection on every path.  Of destroyed controllers nothing
    is assumed but that reading one, if it is not undefined, gives what was
    there: [faithful] holds of the C++ standard's [fun _ => None]. *)
Record setting : Prop := {
  se_cap ty : cap ty = match ty with BUFFER_TYPE_READ => READ_BSIZE cfg | BUFFER_TYPE_WRITE => WRITE_BSIZE cfg end;
  se_config : tcp_config_ok cfg = true;
  se_int : tcp_config_int cfg;
  se_uninit ty : Z.of_nat (length (uninit ty)) = cap ty;
  se_stale : faithful stale;
  se_memory ty (p p' : P) : get_buffer ty p <> Some (None, p');
  se_body f : Callback.disciplined (body f) }.

Abbreviation reach := (reach ifuel uninit stale body L).

Lemma setting_batch : setting -> batch_config cfg b (Z.of_nat L).
Proof.
  intros Hs. destruct (tcp_config_ok_bounds _ (se_config Hs)) as [_ _ _ _ _ _ _ Hq Hsu _].
  split; [done|]. lia.
Qed.

Lemma reach_server n idlefd last ts s x :
  setting -> set_up cfg L n idlefd s -> Z.of_nat (length ts) = b -> reach (launch ts idlefd last s) x ->
  server_ok cfg b L n x.
Proof.
  intros Hs Hu Hts Hr. pose proof (setting_batch Hs) as Hb. pose proof Hs as [Hc Hok Hi Hun Hst Hm Hbo].
  pose proof (tcp_config_ok_bounds _ Hok) as Hbd. pose proof Hbd as [_ _ _ _ _ _ _ Hq _ Hpr].
  apply (server_reach_inv ifuel uninit stale body cfg b L n Hb ltac:(lia) Hst Hbo Hc Hbd Hi Hun Hm ltac:(lia)
           (launch ts idlefd last s) x); [|done].
  exists 0%nat. by apply launch_inv.
Qed.

(** C1: who goes on with a connection.  Start the server as [EventLoop] does,
    and let the main thread, the IO threads, the workers and a signal act in
    any order and for as long as they may, through the main loop and the end of
    the workers in [pool.exit()], with at most as many connections as a queue of
    the pool has places: at every moment each connection that exists has exactly
    one owner.  It is watched by [epoll], or reported to one
    IO thread or buffered by it, or its task is in one queue of the pool or
    with one worker, or one callback is running for it, or it is in the close
    list; and what is watched, worked on or to be closed exists. *)
Theorem one_owner n idlefd last ts s x :
  setting -> set_up cfg L n idlefd s -> Z.of_nat (length ts) = b -> reach (launch ts idlefd last s) x ->
  exists l, pool_live L n (halted n x) (tpool (srv x)) l /\ owners b l x ≡ₚ existing (srv x) /\
    NoDup (owners b l x) /\ conn_inv cfg exact (srv x).
Proof.
  intros Hs Hu Hts Hr. destruct (reach_server n idlefd last ts s x Hs Hu Hts Hr) as (off & l & [[-> _] _ Hp Hv _ _ _ _]).
  exists l. split; [done|]. split; [apply Hv|]. split; [by apply (view_nodup cfg _ _ _ Hv)|apply Hv].
Qed.

Lemma reach_staffed n idlefd last ts s x :
  setting -> set_up cfg L n idlefd s -> Z.of_nat (length ts) = b -> reach (launch ts idlefd last s) x -> staffed n x.
Proof.
  intros Hs Hu Hts. induction 1 as [|a x1 x2 Hr IH Ha Hrun].
  - unfold staffed, launch, ThreadPool.started. simpl. rewrite <- (pv_ab _ _ _ (su_pool _ _ _ _ _ Hu)), length_replicate.
    rewrite <- !list_fmap_compose. apply list_fmap_id.
  - destruct (tcp_config_ok_bounds _ (se_config Hs)) as [_ _ _ _ _ _ _ _ _ Hpr].
    destruct (reach_server n idlefd last ts s x1 Hs Hu Hts Hr) as [off Hx].
    by apply (staffed_act ifuel uninit stale body cfg b L n off ltac:(lia) (se_body Hs) a x1 x2 Hx Hrun).
Qed.

(** C5: the server never gets stuck with work to do.  From every state it comes
    to before the first queue of the pool is stopped, and in which no callback
    has still to write to a controller that was destroyed (that write is
    undefined, see [enable_events_late_write]), the IO threads and workers alone,
    without any new event, can finish everything there is: every batch is
    handled and flushed, every task reaches a worker wherever it is queued and
    its callback returns.  Then the pool is empty, the IO threads are in
    [epoll_wait] (or have ended), the workers wait, and every connection is
    watched again or in the close list: none is left to nobody. *)
Theorem server_drains n idlefd last ts s x :
  setting -> set_up cfg L n idlefd s -> Z.of_nat (length ts) = b -> reach (launch ts idlefd last s) x ->
  halted n x = 0%nat -> sound stale x ->
  exists x', rtc (works ifuel uninit stale body) x x' /\ reach (launch ts idlefd last s) x' /\ at_rest x' /\
    pool_live L n 0 (tpool (srv x')) [] /\ watched (srv x') ++ cList (inst (srv x')) ≡ₚ existing (srv x').
Proof.
  intros Hs Hu Hts Hr Hz Hsd. destruct (tcp_config_ok_bounds _ (se_config Hs)) as [_ _ _ _ _ _ _ _ _ Hpr].
  destruct (reach_server n idlefd last ts s x Hs Hu Hts Hr) as (off & l & Hx).
  pose proof (sv_off _ _ _ _ _ _ _ Hx) as [Hoff _]. rewrite Hz in Hoff.
  destruct (all_drain ifuel uninit stale body cfg b L n off (setting_batch Hs) ltac:(lia) (se_stale Hs) (se_body Hs) Hoff x
              (ex_intro _ l Hx) (reach_staffed n idlefd last ts s x Hs Hu Hts Hr) Hsd)
    as (x' & Hr' & _ & Hx' & Hrest).
  subst off. exists x'. split; [done|]. split; [by eapply works_reach|]. split; [done|]. split; [apply Hx'|].
  pose proof (vw_own _ _ _ _ (sv_view _ _ _ _ _ _ _ Hx')) as Ho.
  rewrite (at_rest_work cfg b L n 0 x' (ex_intro _ [] Hx') Hrest) in Ho. exact Ho.
Qed.


Lemma bind_nodup {A} (f : A -> list Z) (l : list A) (i j : nat) (x y : A) (a : Z) :
  NoDup (l ≫= f) -> l !! i = Some x -> l !! j = Some y -> a ∈ f x -> a ∈ f y -> i = j.
Proof.
  intros Hn Hi Hj Hx Hy. destruct (decide (i = j)) as [|Hne]; [done|]. exfalso.
  rewrite (bind_delete f l i x Hi) in Hn. apply NoDup_app in Hn as (_ & Hd & _). apply (Hd a Hx).
  apply list_elem_of_bind. exists y. split; [done|]. apply list_elem_of_lookup.
  destruct (decide (j < i)%nat).
  - exists j. by rewrite list_lookup_delete_lt.
  - exists (pred j). rewrite list_lookup_delete_ge by lia. by replace (S (pred j)) with j by lia.
Qed.

Lemma call_has_unfinished a (fr : Callback.frame U) :
  Callback.rest fr <> Callback.Return -> call_has (a, fr) = [a].
Proof. unfold call_has. simpl. by destruct (Callback.rest fr). Qed.

Lemma worker_has_call (w : worker_thread U) a fr :
  wt_call w = Some (a, fr) -> Callback.rest fr <> Callback.Return -> a ∈ worker_has w.
Proof.
  intros Hc Hr. unfold worker_has. rewrite Hc, (call_has_unfinished a fr Hr). apply elem_of_app. right. by left.
Qed.

(** C2: one callback at a time.  While a callback that has not yet armed or
    closed its connection runs, the connection exists and is its own: no other
    worker runs a callback for it, no IO thread has an event of it or its task
    in a buffer, no queue of the pool has its task, [epoll] does not watch it
    and it is not about to be closed. *)
Theorem callback_exclusive n idlefd last ts s x j w a fr :
  setting -> set_up cfg L n idlefd s -> Z.of_nat (length ts) = b -> reach (launch ts idlefd last s) x ->
  wks x !! j = Some w -> wt_call w = Some (a, fr) -> Callback.rest fr <> Callback.Return ->
  live (srv x) a /\ a ∉ watched (srv x) /\ a ∉ cList (inst (srv x)) /\
  (forall k t, ios x !! k = Some t -> a ∉ io_has b (srv x) t) /\
  (exists l, pool_live L n (halted n x) (tpool (srv x)) l /\ a ∉ (Task.ctx <$> l)) /\
  (forall j' w' fr', wks x !! j' = Some w' -> wt_call w' = Some (a, fr') ->
     Callback.rest fr' <> Callback.Return -> j' = j).
Proof.
  intros Hs Hu Hts Hr Hj Hcall Hrest.
  destruct (reach_server n idlefd last ts s x Hs Hu Hts Hr) as (off & l & [[-> _] _ Hp Hv _ _ _ _]).
  pose proof (view_nodup cfg _ _ _ Hv) as Hnd. pose proof (worker_has_call w a fr Hcall Hrest) as Ha.
  assert (Hw : a ∈ wks x ≫= worker_has).
  { apply list_elem_of_bind. exists w. split; [done|]. by eapply list_elem_of_lookup_2. }
  unfold at_work in Hnd. rewrite <- !app_assoc in Hnd.
  apply NoDup_app in Hnd as (_ & Hd1 & Hnd). apply NoDup_app in Hnd as (_ & Hd2 & Hnd).
  apply NoDup_app in Hnd as (_ & Hd3 & Hnd). apply NoDup_app in Hnd as (Hnw & Hd4 & _).
  split_and!.
  - apply (view_live cfg _ _ _ a Hv). unfold at_work. rewrite !elem_of_app. tauto.
  - intros Hin. apply (Hd1 a Hin). rewrite !elem_of_app. tauto.
  - by apply Hd4.
  - intros k t Hk Hin. apply (Hd2 a); [|rewrite !elem_of_app; tauto].
    apply list_elem_of_bind. exists t. split; [done|]. by eapply list_elem_of_lookup_2.
  - exists l. split; [done|]. intros Hin. apply (Hd3 a Hin). rewrite !elem_of_app. tauto.
  - intros j' w' fr' Hj' Hcall' Hrest'.
    exact (bind_nodup _ _ j' j w' w a Hnw Hj' Hj (worker_has_call w' a fr' Hcall' Hrest') Ha).
Qed.

Lemma server_next n a x :
  setting -> server_ok cfg b L n x -> admissible L a x ->
  act ifuel uninit stale body a x = None /\ uses_freed a x /\ ~ resilient stale \/
  exists r, act ifuel uninit stale body a x = Some r /\
    match r with Blocked => True | Ready x' => server_ok cfg b L n x' end.
Proof.
  intros Hs Hx Ha. pose proof (setting_batch Hs) as Hb. pose proof Hs as [Hc Hok Hi Hun Hst Hm Hbo].
  pose proof (tcp_config_ok_bounds _ Hok) as Hbd. pose proof Hbd as [_ _ _ _ _ _ _ Hq _ Hpr].
  exact (server_act_inv ifuel uninit stale body cfg b L n Hb ltac:(lia) Hst Hbo Hc Hbd Hi Hun Hm ltac:(lia) a x Hx Ha).
Qed.

(** C4: all the undefined behaviour there is.  In every state the server comes to
    let any thread act: the main thread (a turn of the main loop only while there
    is room for one more connection and memory for its buffers), any IO thread,
    any worker or the callback it runs, a signal handler.  What it does is
    defined, but for two accesses to a controller that was destroyed: the main
    thread's, when it visits a close list that names a connection
    ([close_list_use_after_free]), and a callback's late write to [events]
    ([enable_events_late_write]).  If the memory of destroyed controllers stays
    readable, nothing is undefined. *)
Theorem server_defined n idlefd last ts s x a :
  setting -> set_up cfg L n idlefd s -> Z.of_nat (length ts) = b -> reach (launch ts idlefd last s) x ->
  admissible L a x ->
  is_Some (act ifuel uninit stale body a x) \/
  act ifuel uninit stale body a x = None /\ uses_freed a x /\ ~ resilient stale.
Proof.
  intros Hs Hu Hts Hr Ha.
  destruct (server_next n a x Hs (reach_server n idlefd last ts s x Hs Hu Hts Hr) Ha) as [?|(r & Hrun & _)]; [by right|left].
  by exists r.
Qed.
End owner.

(** ** The start *)

Section start.
Context {W P U : Type} {cap : BUFFER_TYPE -> Z}.
Context `{HK : KernelLaws W} `{HP : BufferProviderLaws P cap} `{HC : Callbacks U} `{HE : !EpollKernel W}.
Context (uninit : BUFFER_TYPE -> list byte) (stale : SOCKController.t -> option SOCKController.t).
Context (cfg : SPTcpConfig) (grant : nat -> Z -> bool) (sizeofNode cores : Z).
Context (fresh : Z -> option (list (TPBlockQueue.t SockTaskTcp))).
Implicit Types s : state W P (ThreadPool.t SockTaskTcp) U.

#[local] Instance server_lifecycle : PoolLifecycle (ThreadPool.t SockTaskTcp) :=
  thread_pool_lifecycle grant sizeofNode cores fresh.

(** C25: what EventLoop sets up.  Called on a server that is configured and
    listens and has no connection, with thread counts of at least one each, it
    returns [false]; or, when the reserve descriptor cannot be opened, it shuts
    down at once; or it runs the main loop, and then shuts down, from a state
    the theorems above start from: nothing is watched, every worker has its
    queue, every IO thread its descriptors, open and no connections. *)
Theorem event_loop_launches fuel others pool0 io wk s s0 :
  tcp_config_ok cfg = true -> 0 < sizeofNode <= 4032 ->
  (forall n qs, fresh n = Some qs -> Z.of_nat (length qs) = n /\
     Forall (fun q => TPBlockQueue.memoryBlock q = None /\ TPBlockQueue.isStopped q = 0) qs) ->
  bare cfg s -> Z.land (status (inst s)) 0xb = 0x3 ->
  CalculateOptimalThreadCounts s = Some (Some (io, wk), s0) -> 0 < io -> 0 < wk < 2 ^ 31 ->
  (exists s', EventLoop uninit stale fuel others pool0 s = Some (Some false, s')) \/
  (exists s', EventLoop uninit stale fuel others pool0 s = leave_loop others (Some false) s') \/
  (exists idlefd last s1, set_up cfg (Z.to_nat (THREADPOOL_QUEUE_LENGTH cfg)) (Z.to_nat wk) idlefd s1 /\
     EventLoop uninit stale fuel others pool0 s =
       (r ← main_loop uninit stale fuel others idlefd last; leave_loop others r) s1).
Proof.
  intros Hok Hnode Hfresh Hb Hst Hcalc Hio Hwk.
  destruct (event_loop_cases cfg grant sizeofNode cores fresh Hnode Hfresh (tcp_config_ok_bounds _ Hok)
              uninit stale fuel others pool0 io wk s s0 Hb Hst Hcalc Hio Hwk)
    as [Hf|[Hf|(idlefd & last & s1 & Hu & _ & Hrun)]]; [by left|by right; left|].
  right. right. by exists idlefd, last, s1.
Qed.
End start.

(** ** The steps of an IO thread *)

Section rounds.
Context {W P U : Type} `{Kernel W} `{BufferProvider P} `{Callbacks U}.
Context (ifuel : nat) (stale : SOCKController.t -> option SOCKController.t).
Implicit Types s : state W P (ThreadPool.t SockTaskTcp) U.

Lemma io_steps_S k (t t1 : io_thread) s s1 :
  io_step ifuel stale t s = Some (t1, s1) -> io_steps ifuel stale (S k) t s = io_steps ifuel stale k t1 s1.
Proof. intros Ht. cbn [io_steps]. by rewrite (bind_some _ _ _ _ _ Ht). Qed.

Lemma io_steps_None k (t : io_thread) s : io_step ifuel stale t s = None -> io_steps ifuel stale (S k) t s = None.
Proof. intros Ht. cbn [io_steps]. by rewrite bind_run, Ht. Qed.

(** The steps that handle [evs] and flush are [io_events]. *)
Lemma io_events_steps evs ep ex u s :
  exists k, match io_events ifuel stale ex evs u s with
  | None => io_steps ifuel stale k (mkIo ep ex u (Handling evs)) s = None
  | Some (r, s') => exists u', io_steps ifuel stale k (mkIo ep ex u (Handling evs)) s
      = Some (mkIo ep ex u' (match r with Some _ => Waiting | None => Gone end), s') /\
      match r with Some u1 => u' = u1 | None => True end
  end.
Proof.
  revert u s. induction evs as [|ev evs IH]; intros u s; cbn [io_events].
  - exists 1%nat. rewrite bind_run. destruct (flush stale u s) as [[u' s']|] eqn:E; cbn [mbind option_bind mret st_ret].
    + exists u'. split; [|done]. unfold io_goto. erewrite io_steps_S; [reflexivity|].
      unfold io_step. simpl. by rewrite (bind_some _ _ _ _ _ E).
    + apply io_steps_None. unfold io_step. simpl. by rewrite bind_run, E.
  - rewrite bind_run. destruct (io_event ifuel stale ex ev u s) as [[[u1|] s1]|] eqn:E; cbn [mbind option_bind mret st_ret].
    + assert (Hst : io_step ifuel stale (mkIo ep ex u (Handling (ev :: evs))) s
                = Some (mkIo ep ex u1 (Handling evs), s1)).
      { unfold io_step. simpl. by rewrite (bind_some _ _ _ _ _ E). }
      destruct (IH u1 s1) as (k & Hk). exists (S k).
      destruct (io_events ifuel stale ex evs u1 s1) as [[r s']|].
      * destruct Hk as (u' & Hk & Hu). exists u'. by rewrite (io_steps_S _ _ _ _ _ Hst), Hk.
      * by rewrite (io_steps_S _ _ _ _ _ Hst).
    + exists 1%nat, u. split; [|done]. erewrite io_steps_S; [reflexivity|].
      unfold io_step. simpl. by rewrite (bind_some _ _ _ _ _ E).
    + exists 1%nat. apply io_steps_None. unfold io_step. simpl. by rewrite bind_run, E.
Qed.

(** The steps of the transition system are those of the code.  A turn of
    the loop of IOEventLoop ([io_round]: [epoll_wait], every event it reports
    and the submission of what is left in the batch) is what the thread does in
    some number of steps from waiting to waiting again, with the same state
    and utility after it, or to its end; and it is undefined only if one of
    these steps is. *)
Theorem io_round_steps ep ex u s :
  exists k, match io_round ifuel stale ep ex u s with
  | None => io_steps ifuel stale k (mkIo ep ex u Waiting) s = None
  | Some (inl u', s') => io_steps ifuel stale k (mkIo ep ex u Waiting) s = Some (mkIo ep ex u' Waiting, s')
  | Some (inr _, s') => exists u', io_steps ifuel stale k (mkIo ep ex u Waiting) s = Some (mkIo ep ex u' Gone, s')
  end.
Proof.
  unfold io_round. rewrite (bind_some _ _ _ _ _ (gets_run _ s)). set (wait := Epoll_wait _ _).
  rewrite (bind_some _ _ _ _ _ (sys_run wait s)). set (s1 := set_env (call wait (env s)).2 s).
  assert (Hst : io_step ifuel stale (mkIo ep ex u Waiting) s
            = Some (match (call wait (env s)).1 with
                    | inl EINTR => mkIo ep ex u Waiting
                    | inl _ => mkIo ep ex u Gone
                    | inr evs => mkIo ep ex u (Handling evs)
                    end, s1)).
  { unfold io_step. simpl. rewrite (bind_some _ _ _ _ _ (gets_run _ s)). unfold wait in *.
    by rewrite (bind_some _ _ _ _ _ (sys_run wait s)). }
  destruct ((call wait (env s)).1) as [err|evs].
  - exists 1%nat. destruct err; [|eexists; by rewrite (io_steps_S _ _ _ _ _ Hst) ..].
    by rewrite (io_steps_S _ _ _ _ _ Hst).
  - destruct (io_events_steps evs ep ex u s1) as (k & Hk). exists (S k). rewrite bind_run.
    destruct (io_events ifuel stale ex evs u s1) as [[r s']|]; cbn [mbind option_bind].
    + destruct Hk as (u' & Hk & Hu). destruct r as [u1|]; [subst u'|eexists];
        by rewrite (io_steps_S _ _ _ _ _ Hst), Hk.
    + by rewrite (io_steps_S _ _ _ _ _ Hst).
Qed.
End rounds.

(** ** The end of [enableEvents] *)

Section late.
Context {W P TP U : Type} {cap : BUFFER_TYPE -> Z}.
Context `{HW : Kernel W} `{HP : BufferProviderLaws P cap} `{HT : TaskPool SockTaskTcp TP} `{HC : Callbacks U}.
Context (stale : SOCKController.t -> option SOCKController.t) (cfg : SPTcpConfig).
Implicit Types s : state W P TP U.

Lemma write_events_live a c w s :
  nodes s !! a = Some c ->
  Callback.write_events stale a w s = Some (tt, set_nodes (<[a :=
    SOCKController.set_events (Callback.apply_store (SOCKController.events c) w) c]> (nodes s)) s).
Proof. intros Hc. unfold Callback.write_events. by rewrite Hc. Qed.

(** C34: [enableEvents] loses a wake-up.  It arms the descriptor first and
    writes [events] afterwards, first zero, then the bits.  When the event it
    armed for is reported in between and the water mark is not reached, the IO
    thread arms the connection again with what it finds in [events]: it asks
    [epoll] for neither input nor output, although [events] says input in the
    end. *)
Theorem enable_events_lost d a c s :
  conn_inv cfg d s -> nodes s !! a = Some c ->
  exists s1 r s2 s3 ep ev ret,
    Callback.write_events stale a Callback.Clear s = Some (tt, s1) /\
    renableEvents stale a s1 = Some (r, s2) /\
    Callback.write_events stale a (Callback.Add EPOLLIN) s2 = Some (tt, s3) /\
    tr (env s3) = tr (env s) ++ [Ev (Epoll_ctl ep EPOLL_CTL_MOD (SOCKController.fd c) ev) ret] /\
    has_event ev EPOLLIN = false /\ has_event ev EPOLLOUT = false /\
    exists c', nodes s3 !! a = Some c' /\ SOCKController.events c' = EPOLLIN.
Proof.
  intros Hs Hc. destruct (loop_of_live cfg d s a c Hs Hc) as (info & Hloop).
  set (c1 := SOCKController.set_events 0 c). set (s1 := set_nodes (<[a := c1]> (nodes s)) s).
  exists s1. set (ev := Z.lor (Z.lor EPOLLERR EPOLLRDHUP) (Z.lor EPOLLHUP EPOLLONESHOT)).
  set (ctl := Epoll_ctl (epollfd info) EPOLL_CTL_MOD (SOCKController.fd c) ev).
  set (ret := (call ctl (env s)).1). set (e2 := (call ctl (env s)).2).
  assert (Hrun : renableEvents stale a s1 = Some (match ret with inl _ => false | inr _ => true end,
            set_env e2 (set_nodes (<[a := c1]> (nodes s)) s))).
  { unfold renableEvents, on_events. rewrite (deref_live stale a c1 s1 (lookup_insert_eq _ _ _)).
    cbn [mbind option_bind]. unfold SOCKController.renableEvents, funcEvent. cbn [mbind option_bind].
    unfold EnableEvent. rewrite (bind_some _ _ _ _ _ (Hloop c1 s1 eq_refl eq_refl)).
    change (has_event (SOCKController.events c1) EPOLLIN) with false.
    change (has_event (SOCKController.events c1) EPOLLOUT) with false. cbv zeta iota. fold ev ctl.
    change (SOCKController.fd c1) with (SOCKController.fd c). fold ctl.
    rewrite (bind_some _ _ _ _ _ (sys_run ctl s1)). change (env s1) with (env s). fold ret e2.
    destruct ret as [err|[]]; cbn [mret st_ret mbind option_bind];
      (erewrite put_live by apply lookup_insert_eq); simpl; by rewrite insert_insert_eq. }
  eexists _, _, _, (epollfd info), ev, ret. split; [by apply write_events_live|]. split; [exact Hrun|].
  split; [apply write_events_live; simpl; apply lookup_insert_eq|]. split; [apply call_tr|].
  split; [reflexivity|]. split; [reflexivity|]. eexists. split; [apply lookup_insert_eq|reflexivity].
Qed.
End late.

(** ** Witnesses: the echo server with one IO thread and one worker, on the
    kernel of [Epoll] *)

Definition w_srv_cfg : SPTcpConfig :=
  mkTcpConfig 1024 2048 2 3 5000 EPOLLIN 12 10 5 float_0_6 LOG_LEVEL_WARNING.

#[local] Instance w_srv_provider : BufferProvider SPTcpBufferPool.state := pool_provider (fun _ _ => true) w_srv_cfg.
#[local] Instance w_srv_laws : BufferProviderLaws SPTcpBufferPool.state (buf_cap w_srv_cfg) :=
  pool_laws (fun _ _ => true) w_srv_cfg.
#[local] Existing Instance w_tcp_callbacks.

Definition w_srv_pool : ThreadPool.t SockTaskTcp :=
  match ThreadPool.init (fun _ _ => true) 24 (Some [TPBlockQueue.TPBlockQueue 0 0 0 0]) 8 12 1 5
          (ThreadPool.ThreadPool 0) with
  | Some (_, p) => p | None => ThreadPool.ThreadPool 0 end.

Lemma w_srv_pool_inv : pool_inv 12 w_srv_pool [([], false)].
Proof.
  destruct (pool_init_spec (fun _ _ => true) 24 [TPBlockQueue.TPBlockQueue 0 0 0 0] 8 12 1 5
              (ThreadPool.ThreadPool (T := SockTaskTcp) 0) ltac:(lia) ltac:(lia) ltac:(lia))
    as (ok & p' & Hrun & H); [by repeat constructor|done|].
  unfold w_srv_pool. rewrite Hrun. assert (ok = true) as Hok by (vm_compute in Hrun; congruence).
  rewrite Hok in *. apply H.
Qed.

Definition w_uninit (ty : BUFFER_TYPE) : list byte := replicate (Z.to_nat (buf_cap w_srv_cfg ty)) x00.
Definition w_body (f : Z) : Callback.prog (Z * Z) := Callback.echo_read_write_proc.
Definition w_array : list SockTaskTcp := replicate 10 (mkTask 0 0).

(** Descriptors: 3 listens, 4 is in reserve, 5 and 6 are the IO thread's. *)
Definition w_srv : state QuickW SPTcpBufferPool.state (ThreadPool.t SockTaskTcp) (Z * Z) := mkState
  (mk 7 3 (mkLinger 0 0) (mkProc (Some 1) (Some 2) (Some 3) (Some 4)) (mkAlive 0 0 0 0) [] [(5, 6)]
     [mkIOThreadInfo 0 5 6] ∅)
  true (mkGlobals w_srv_cfg default_udp_config (mkWaterMark 0 0xffffffff) LOG_LEVEL_NONE true) true ∅ ∅ 1
  (mkEnv (mkQuick {[3; 4; 5; 6]} ∅ ∅ 0 false [x68; x69]) []) pool_start.1 w_srv_pool (0, 0).

Lemma w_srv_pool_config : pool_config w_srv_cfg.
Proof. repeat split; vm_compute; congruence. Qed.

Lemma w_srv_inv : conn_inv w_srv_cfg exact w_srv.
Proof.
  constructor; simpl; [done|done|done|by intros a [x Hx]| | |done].
  - apply (pool_lent_start w_srv_cfg w_srv_pool_config).
  - by intros [|[]] info; simpl; intros; simplify_eq.
Qed.

Lemma w_set_up : set_up w_srv_cfg 12 1 4 w_srv.
Proof.
  split; [exact w_srv_inv|reflexivity|reflexivity|discriminate|by exists 1, 2|done|done| | |exact w_srv_pool_inv].
  - repeat constructor; simpl; try lia; set_solver.
  - simpl. by intros ?%list_elem_of_singleton.
Qed.

(** The C++ standard: reading a destroyed object is undefined. *)
Definition strict : SOCKController.t -> option SOCKController.t := fun _ => None.

Lemma w_setting : setting (cap := buf_cap w_srv_cfg) w_uninit strict w_body w_srv_cfg.
Proof.
  split.
  - by intros [].
  - vm_compute. reflexivity.
  - repeat split; vm_compute; reflexivity.
  - intros []; vm_compute; reflexivity.
  - intros c. by left.
  - intros ty p p'. by apply granted_memory.
  - intros f. apply Callback.echo_disciplined.
Qed.

Abbreviation w_sys := (Server.sys QuickW SPTcpBufferPool.state (Z * Z)).
Abbreviation w_act st := (act (W := QuickW) 1 w_uninit st w_body).

(** The server from the start, after the actions [l]; [st]: how destroyed
    controllers read. *)
Definition w_start : w_sys := launch w_array 4 0 w_srv.
Definition w_next_sys st (x : w_sys) (a : action) : w_sys :=
  match w_act st a x with Some (Ready x') => x' | _ => x end.
Definition w_run st (l : list action) : w_sys := foldl (w_next_sys st) w_start l.

#[local] Instance pool_can_lend_dec cfg n s : Decision (pool_can_lend cfg n s).
Proof. unfold pool_can_lend. apply _. Defined.

(** Which actions are possible and within the bounds of [admissible]. *)
Definition w_may st (a : action) (x : w_sys) : bool :=
  match w_act st a x with Some (Ready _) => true | _ => false end &&
  match a, main_at x with
  | AMain, Looping _ _ =>
      bool_decide (size (nodes (srv x)) < 12)%nat && bool_decide (pool_can_lend w_srv_cfg 2 (bufp (srv x)))
  | _, _ => true
  end.

Fixpoint w_allowed st (l : list action) (x : w_sys) : bool :=
  match l with [] => true | a :: l => w_may st a x && w_allowed st l (w_next_sys st x a) end.

Abbreviation w_reach st := (reach (W := QuickW) 1 w_uninit st w_body 12).

Lemma w_run_reach_from st l x :
  w_reach st w_start x -> w_allowed st l x = true -> w_reach st w_start (foldl (w_next_sys st) x l).
Proof.
  revert x. induction l as [|a l IH]; intros x Hx Hl; [done|]. cbn [w_allowed foldl] in *.
  apply andb_true_iff in Hl as [[Ha Hm]%andb_true_iff Hl]. apply IH; [|done].
  unfold w_next_sys. destruct (w_act st a x) as [[|x']|] eqn:E; [done| |done].
  apply (reach_step _ _ _ _ _ _ a x); [done| |done]. destruct a; try done. simpl. simpl in Hm.
  destruct (main_at x); try done. by apply andb_true_iff in Hm as [?%bool_decide_eq_true ?%bool_decide_eq_true].
Qed.

Lemma w_run_reach st l : w_allowed st l w_start = true -> w_reach st w_start (w_run st l).
Proof. apply w_run_reach_from, reach_refl. Qed.

(** One connection is accepted, reported, submitted and given to a worker,
    whose callback has just armed it: [w_armed].  Then it is reported again,
    hung up, closed and destroyed. *)
Definition w_handed : list action :=
  [AMain; AIo 0; AIo 0; AIo 0; AWorker 0 false; AWorker 0 false].
Definition w_armed : list action :=
  w_handed ++ [AWorker 0 false; AWorker 0 false; AWorker 0 false; AWorker 0 false].
Definition w_late : list action := w_armed ++ [AIo 0; AIo 0; AIo 0; AMain].

Lemma w_call_of (x : w_sys) a fr :
  (wks x !! 0%nat) ≫= wt_call = Some (a, fr) -> exists w, wks x !! 0%nat = Some w /\ wt_call w = Some (a, fr).
Proof. destruct (wks x !! 0%nat) as [w|]; [|done]. by exists w. Qed.

Lemma w_late_call : exists fr, (wks (w_run Some w_late) !! 0%nat) ≫= wt_call = Some (1, fr) /\
  Callback.pending fr = Callback.enable_stores true false true.
Proof. eexists. split; [vm_compute; reflexivity|reflexivity]. Qed.

(** A write to a controller that is gone. *)
Lemma late_undefined w fr (x : w_sys) :
  wks x !! 0%nat = Some w -> wt_call w = Some (1, fr) ->
  Callback.pending fr = Callback.enable_stores true false true -> nodes (srv x) !! 1 = None ->
  w_act strict (AWorker 0 false) x = None.
Proof.
  intros Hw Hc Hp Hn. unfold act. rewrite Hw. unfold worker_step. rewrite Hc. unfold Callback.finished.
  rewrite Hp. unfold Callback.user_step. rewrite Hp. cbn [Callback.enable_stores app].
  rewrite !bind_run. unfold Callback.write_events. rewrite Hn. by destruct (freed (srv x) !! 1).
Qed.

(** C33: [enableEvents] writes to a controller that is gone.  Between arming the
    descriptor and the writes to [events] the connection may be reported, hung
    up and closed by an IO thread and destroyed by the main thread, and its
    descriptor be given to a new connection: a run of the echo server gets
    there.  The next write of the worker is then to freed memory. *)
Theorem enable_events_late_write :
  exists x, w_reach Some w_start x /\ exists w fr,
    wks x !! 0%nat = Some w /\ wt_call w = Some (1, fr) /\
    Callback.pending fr = Callback.enable_stores true false true /\
    nodes (srv x) !! 1 = None /\ connections (inst (srv x)) !! 7 = Some 2 /\
    w_act strict (AWorker 0 false) x = None.
Proof.
  exists (w_run Some w_late). split; [apply w_run_reach; vm_compute; reflexivity|].
  destruct w_late_call as (fr & Hcall & Hp). destruct (w_call_of _ _ _ Hcall) as (w & Hw & Hc).
  exists w, fr. split; [exact Hw|]. split; [exact Hc|]. split; [exact Hp|].
  assert (Hnone : nodes (srv (w_run Some w_late)) !! 1 = None) by (vm_compute; reflexivity).
  split; [exact Hnone|]. split; [vm_compute; reflexivity|].
  exact (late_undefined w fr (w_run Some w_late) Hw Hc Hp Hnone).
Qed.

(** ** Witnesses *)

Lemma one_owner_witness :
  exists l, owners 10 l (w_run strict w_armed) ≡ₚ existing (srv (w_run strict w_armed)) /\ NoDup (owners 10 l (w_run strict w_armed)).
Proof.
  destruct (one_owner 1 w_uninit strict w_body w_srv_cfg 1 4 0 w_array w_srv (w_run strict w_armed)
              w_setting w_set_up eq_refl) as (l & _ & Ho & Hn & _).
  - apply (w_run_reach strict w_armed). vm_compute. reflexivity.
  - exists l. split; [exact Ho|exact Hn].
Defined.

(** No callback has a write to make. *)
Definition w_no_writes (x : w_sys) : bool :=
  forallb (fun w : worker_thread (Z * Z) =>
    match wt_call w with Some (_, Callback.mkFrame (_ :: _) _) => false | _ => true end) (wks x).

Lemma w_no_writes_sound st x : w_no_writes x = true -> sound st x.
Proof.
  intros Hp j w a [[|st' l] p] Hj Hc; [by left|]. unfold w_no_writes in Hp. rewrite forallb_forall in Hp.
  assert (Hin : In w (wks x)) by (apply list_elem_of_In; by eapply list_elem_of_lookup_2).
  specialize (Hp w Hin). by rewrite Hc in Hp.
Qed.

Lemma server_drains_witness : exists x',
  w_reach strict w_start x' /\ at_rest x' /\ watched (srv x') ++ cList (inst (srv x')) ≡ₚ existing (srv x').
Proof.
  destruct (server_drains 1 w_uninit strict w_body w_srv_cfg 1 4 0 w_array w_srv (w_run strict w_handed)
              w_setting w_set_up eq_refl) as (x' & _ & Hr & Ha & _ & Ho).
  - apply (w_run_reach strict w_handed). vm_compute. reflexivity.
  - vm_compute. reflexivity.
  - apply w_no_writes_sound. vm_compute. reflexivity.
  - exists x'. split; [exact Hr|]. split; [exact Ha|exact Ho].
Defined.



Lemma w_handed_call : exists fr, (wks (w_run strict w_handed) !! 0%nat) ≫= wt_call = Some (1, fr) /\
  Callback.rest fr <> Callback.Return.
Proof. eexists. split; [vm_compute; reflexivity|discriminate]. Qed.

Lemma callback_exclusive_witness : live (srv (w_run strict w_handed)) 1 /\ 1 ∉ watched (srv (w_run strict w_handed)).
Proof.
  destruct w_handed_call as (fr & Hcall & Hr). destruct (w_call_of _ _ _ Hcall) as (w & Hw & Hc).
  destruct (callback_exclusive 1 w_uninit strict w_body w_srv_cfg 1 4 0 w_array w_srv (w_run strict w_handed) 0 w 1 fr
              w_setting w_set_up eq_refl) as (Hl & Hn & _); [|exact Hw|exact Hc|exact Hr|].
  - apply (w_run_reach strict w_handed). vm_compute. reflexivity.
  - split; [exact Hl|exact Hn].
Defined.

(** The late write of the callback, while its controller exists. *)
Lemma server_defined_witness : is_Some (w_act strict (AWorker 0 false) (w_run strict w_armed)).
Proof.
  destruct (server_defined 1 w_uninit strict w_body w_srv_cfg 1 4 0 w_array w_srv (w_run strict w_armed) (AWorker 0 false)
              w_setting w_set_up eq_refl) as [Hr|[_ [(w & c & fr & Hw & Hc & _ & Hn) _]]]; [|exact I|exact Hr|].
  - apply (w_run_reach strict w_armed). vm_compute. reflexivity.
  - exfalso. assert (Hcall : (wks (w_run strict w_armed) !! 0%nat) ≫= wt_call = Some (c, fr)) by (by rewrite Hw).
    assert (Hone : fst <$> ((wks (w_run strict w_armed) !! 0%nat) ≫= wt_call) = Some 1) by (vm_compute; reflexivity).
    rewrite Hcall in Hone. injection Hone as ->.
    assert (Hlive : is_Some (nodes (srv (w_run strict w_armed)) !! 1)) by (vm_compute; by eexists).
    rewrite Hn in Hlive. by destruct Hlive.
Defined.

(** Connection 7 of the server of [TcpProps]. *)
Lemma enable_events_lost_witness : exists c s1 r s2 s3,
  nodes (w_conn (Some 1) None []) !! 1 = Some c /\
  Callback.write_events strict 1 Callback.Clear (w_conn (Some 1) None []) = Some (tt, s1) /\
  renableEvents strict 1 s1 = Some (r, s2) /\
  Callback.write_events strict 1 (Callback.Add EPOLLIN) s2 = Some (tt, s3) /\
  exists ep ev ret, tr (env s3) = tr (env (w_conn (Some 1) None [])) ++
      [Ev (Epoll_ctl ep EPOLL_CTL_MOD (SOCKController.fd c) ev) ret] /\
    has_event ev EPOLLIN = false /\ has_event ev EPOLLOUT = false.
Proof.
  destruct (w_conn_live (Some 1) None []) as [c Hc].
  destruct (enable_events_lost strict w_cfg exact 1 c (w_conn (Some 1) None []) (w_conn_inv _ _ _) Hc)
    as (s1 & r & s2 & s3 & ep & ev & ret & H1 & H2 & H3 & Ht & Hi & Ho & _).
  exists c, s1, r, s2, s3. split; [exact Hc|]. split; [exact H1|]. split; [exact H2|]. split; [exact H3|].
  exists ep, ev, ret. split; [exact Ht|]. split; [exact Hi|exact Ho].
Defined.

(** The same server before EventLoop was called. *)
Definition w_fresh (n : Z) : option (list (TPBlockQueue.t SockTaskTcp)) :=
  if 0 <=? n then Some (replicate (Z.to_nat n) (TPBlockQueue.TPBlockQueue 0 0 0 0)) else None.

Definition w_bare : state QuickW SPTcpBufferPool.state (ThreadPool.t SockTaskTcp) (Z * Z) := mkState
  (mk 3 3 (mkLinger 0 0) (mkProc (Some 1) (Some 2) (Some 3) (Some 4)) (mkAlive 0 0 0 0) [] [] [] ∅)
  true (mkGlobals w_srv_cfg default_udp_config (mkWaterMark 0 0xffffffff) LOG_LEVEL_NONE true) true ∅ ∅ 1
  (mkEnv (mkQuick {[3]} ∅ ∅ 0 false []) []) pool_start.1 (ThreadPool.ThreadPool 0) (0, 0).

Lemma w_bare_ok : bare w_srv_cfg w_bare.
Proof.
  split; [|reflexivity|reflexivity|reflexivity|reflexivity|by exists 1, 2|reflexivity|reflexivity].
  constructor; simpl; [done|done|done|by intros a [x Hx]| |done|done].
  apply (pool_lent_start w_srv_cfg w_srv_pool_config).
Qed.

#[local] Instance w_lifecycle : PoolLifecycle (ThreadPool.t SockTaskTcp) :=
  thread_pool_lifecycle (fun _ _ => true) 24 8 w_fresh.

Lemma w_left (s : state QuickW SPTcpBufferPool.state (ThreadPool.t SockTaskTcp) (Z * Z)) r s' :
  leave_loop (mret tt) (Some false) s = Some (r, s') -> r = Some true.
Proof.
  unfold leave_loop.
  repeat (rewrite bind_run; match goal with |- context [mbind _ ?m] => destruct m as [[? ?]|] end;
          cbn [mbind option_bind]; [|done]).
  by intros [= <- _].
Qed.

Lemma event_loop_launches_witness : exists idlefd
  (s1 : state QuickW SPTcpBufferPool.state (ThreadPool.t SockTaskTcp) (Z * Z)), set_up w_srv_cfg 12 1 idlefd s1.
Proof.
  destruct (event_loop_launches w_uninit Some w_srv_cfg (fun _ _ => true) 24 8 w_fresh 0 (mret tt)
              (ThreadPool.ThreadPool 0) 1 1 w_bare (set_env (call Hardware_concurrency (env w_bare)).2 w_bare))
    as [[s' Hs]|[[s' Hs]|(idlefd & last & s1 & Hs & _)]];
    [vm_compute; reflexivity|lia| |exact w_bare_ok|reflexivity|reflexivity|lia|lia| | |].
  - intros n qs. unfold w_fresh. destruct (Z.leb_spec 0 n); [|discriminate]. intros [= <-].
    rewrite length_replicate. split; [lia|]. by apply Forall_replicate.
  - exfalso. vm_compute in Hs. discriminate.
  - exfalso. symmetry in Hs. assert (Hn : (EventLoop w_uninit Some 0 (mret tt) (ThreadPool.ThreadPool 0) w_bare
      ≫= fun x => Some x.1) = Some None) by (vm_compute; reflexivity).
    destruct (EventLoop _ _ _ _ _ w_bare) as [[r s2]|] eqn:E; [|discriminate Hn].
    apply w_left in Hs. rewrite Hs in Hn. discriminate Hn.
  - exists idlefd, s1. exact Hs.
Defined.
