(* ===== verification/StreamProps.v ===== *)
(** * StreamProps: an echo server echoes

    The server of ServerProps with callbacks that relay: in every run every
    connection's bytes come back in order, none lost, doubled or made up. *)

From S2P Require Import Prelude Types State BufferProvider BufferPool BufferPoolSpec BufferPoolProps.
From S2P Require Import Buffer BufferSpec Kernel Epoll Controller ControllerSpec TaskPool BlockQueue.
From S2P Require Import ThreadPool ThreadPoolSpec ThreadPoolInv Task TaskSpec Tcp TcpSpec TcpIo.
From S2P Require Import TcpMain TcpFrame Callback CallbackSpec Stream StreamSpec Server ServerSpec ServerInv.
From S2P Require Import TcpProps ServerProps.
Import SPSockTcp Server.

(** ** The main thread *)

Section main.
Context {W P U : Type} {cap : BUFFER_TYPE -> Z}.
Context `{HK : KernelLaws W} `{HP : BufferProviderLaws P cap} `{HC : Callbacks U} `{HE : !EpollKernel W}.
Context (uninit : BUFFER_TYPE -> list byte) (stale : SOCKController.t -> option SOCKController.t).
Context (cfg : SPTcpConfig).
Implicit Types s : state W P (ThreadPool.t SockTaskTcp) U.

Lemma view_fd O R s a c :
  view cfg O R s -> nodes s !! a = Some c ->
  0 < SOCKController.fd c /\ SOCKController.fd c ∈ kopen (kw (env s)) /\
  connections (inst s) !! SOCKController.fd c = Some a.
Proof.
  intros Hv Hc. destruct (ci_node _ _ _ (vw_inv _ _ _ _ Hv) a c Hc) as (Hcn & _).
  destruct (vw_conn _ _ _ _ Hv _ _ Hcn). auto.
Qed.

Lemma view_conn_at O R s a : view cfg O R s -> live s a -> conn_at s a.
Proof. intros Hv [c Hc]. exists c. split; [done|]. destruct (view_fd O R s a c Hv Hc). lia. Qed.

(** [accept] has returned [fd], which no controller has, or only a new one
    with nothing in its buffers. *)
Lemma relayed_accept s s' fd :
  relayed s -> (forall a c, nodes s !! a = Some c -> SOCKController.fd c <> fd) ->
  (forall g, flow g (env s') = if decide (fd = g) then Some ([], []) else flow g (env s)) ->
  nodes s' = nodes s \/
    (exists a c, nodes s' = <[a := c]> (nodes s) /\ SOCKController.fd c = fd /\ ctl_wf c /\ unsent c = []) ->
  relayed s'.
Proof.
  intros [Hp Hr Ha] Hfresh Hflow Hn.
  assert (Hold : forall a c, nodes s !! a = Some c -> SOCKController.fd c <> 0 ->
            ctl_wf c /\ exists tx, flow (SOCKController.fd c) (env s') = Some (tx ++ unsent c, tx)).
  { intros a c Hc Hnz. rewrite Hflow, decide_False; [by apply (Hr a)|]. intros E. by apply (Hfresh a c). }
  assert (Hpre : forall g rx tx, flow g (env s') = Some (rx, tx) -> tx `prefix_of` rx).
  { intros g rx tx. rewrite Hflow. case_decide; [by intros [= <- <-]|apply Hp]. }
  destruct Hn as [Hn|(a & c & Hn & Hfd & Hwf & Hu)]; split; rewrite ?Hn; try done.
  - intros b c' [[<- <-]|[_ Hb]]%lookup_insert_Some Hnz; [|by apply (Hold b)].
    split; [done|]. exists []. by rewrite Hflow, Hfd, decide_True, Hu.
  - intros b b' c1 c2 Hb Hb' Hnz E.
    apply lookup_insert_Some in Hb as [[<- <-]|[Hne Hb]]; apply lookup_insert_Some in Hb' as [[<- <-]|[Hne' Hb']].
    + done.
    + exfalso. apply (Hfresh b' c2); [done|]. congruence.
    + exfalso. apply (Hfresh b c1); [done|]. congruence.
    + by apply (Ha b b' c1 c2).
Qed.

(** No controller has a descriptor that [accept] can return. *)
Lemma fresh_fd O R s e cl l fd x :
  view cfg O R s -> shuts (env s) e cl -> Forall (fun f => connections (inst s) !! f = None) cl ->
  (call (Accept l) e).1 = inr (fd, x) -> forall a c, nodes s !! a = Some c -> SOCKController.fd c <> fd.
Proof.
  intros Hv [Hcl Heff] Hnone Hacc a c Hc <-. destruct (call_accept _ _ _ _ Hacc) as (_ & Hno & _).
  destruct (view_fd O R s a c Hv Hc) as (_ & Ho & Hcn). apply Hno.
  apply (effect_open _ _ _ _ cl _ Heff Hcl Ho). intros Hin. rewrite Forall_forall in Hnone.
  specialize (Hnone _ Hin). congruence.
Qed.

(** When the process is out of descriptors. *)
Lemma relayed_give_up O R idlefd l s s' x :
  view cfg O (idlefd :: R) s -> relayed s ->
  (_ ← sys_ (Close idlefd); r ← SPSockTcp.sys (Accept l); _ ← sys_ (Close (fd_or r)); sys_ Open_devnull) s = Some (x, s') ->
  relayed s'.
Proof.
  intros Hv Hs. rewrite (bind_some _ _ _ _ _ (sys__run _ s)). set (e1 := (call (Close idlefd) (env s)).2).
  rewrite (bind_some _ _ _ _ _ (sys_run _ _)). cbn [env set_env]. set (s2 := set_env (call (Accept l) e1).2 _).
  intros Hrun.
  assert (Hq : silent s2 s').
  { eapply (respects_bind silent); [..|exact Hrun]; unfold sys_; intros;
      (apply respects_bind; [apply _|by apply silent_sys|intros; apply respects_ret, _]). }
  assert (Hn : nodes s' = nodes s).
  { rewrite (bind_some _ _ _ _ _ (sys__run _ s2)), sys__run in Hrun. by injection Hrun as _ <-. }
  assert (Hidle : connections (inst s) !! idlefd = None).
  { pose proof (vw_keep _ _ _ _ Hv) as Hk. by apply Forall_cons in Hk as [(_ & _ & ?) _]. }
  assert (Hflow : forall g, flow g (env s') = flow g (call (Accept l) e1).2) by (intros g; by rewrite Hq).
  destruct (call (Accept l) e1).1 as [err|[fd y]] eqn:E.
  - apply (silent_relaying s); [by rewrite Hn| |done]. intros g. rewrite Hflow, flow_accept, E.
    by apply (flow_plain (Close idlefd)).
  - apply (relayed_accept s s' fd Hs); [| |by left].
    + apply (fresh_fd O (idlefd :: R) s e1 [idlefd] l fd y Hv); [|by apply Forall_singleton|done].
      by apply (shuts_call (Close idlefd)).
    + intros g. rewrite Hflow, flow_accept, E. case_decide; [done|]. by apply (flow_plain (Close idlefd)).
Qed.
Context (Hstale : faithful stale).
Context (Hcap : forall ty, cap ty = match ty with
                  | BUFFER_TYPE_READ => READ_BSIZE cfg | BUFFER_TYPE_WRITE => WRITE_BSIZE cfg end).
Context (Hbounds : tcp_config_bounds cfg) (Hint : tcp_config_int cfg).
Context (Huninit : forall ty, Z.of_nat (length (uninit ty)) = cap ty).
Context (Hmem : forall ty (p p' : P), get_buffer ty p <> Some (None, p')).

Lemma relayed_connect O R idlefd s x s' :
  view cfg O (idlefd :: R) s -> relayed s -> can_lend 2 (bufp s) -> Z.of_nat (size (nodes s)) < 2 ^ 31 - 2 ->
  HandleConnect uninit stale idlefd s = Some (x, s') -> relayed s'.
Proof.
  intros Hv Hs Hcan Hsz Hrun. pose proof (vw_inv _ _ _ _ Hv) as Hi.
  destruct (HandleConnect_spec uninit stale cfg Hcap Hbounds Hint Huninit idlefd s Hi (view_zero _ _ _ _ Hv)
              (vw_loops _ _ _ _ Hv) Hcan Hsz) as (b & s2 & Hrun' & Hout).
  { intros fd y Hx. by apply (call_accept _ _ _ _ Hx). }
  rewrite Hrun in Hrun'. injection Hrun' as -> <-. unfold accept_answer in Hout. revert Hrun. unfold HandleConnect.
  rewrite (bind_some _ _ _ _ _ (field_run _ s)). set (acc := Accept (listenfd (inst s))) in *.
  rewrite (bind_some _ _ _ _ _ (sys_run acc s)). set (s1 := set_env (call acc (env s)).2 s).
  destruct (call acc (env s)).1 as [err|[fd [ip port]]] eqn:E.
  - assert (Hs1 : relayed s1).
    { apply (silent_relaying s); [done| |done]. intros g. unfold s1. cbn [env set_env].
      unfold acc in *. by rewrite flow_accept, E. }
    rewrite bind_run. destruct (bool_decide _); cbn [when]; [|intros [= _ <-]; exact Hs1].
    destruct ((_ ← sys_ (Close idlefd); _) s1) as [[y s3]|] eqn:Eg; [|done]. intros [= _ <-].
    apply (relayed_give_up O R idlefd (listenfd (inst s)) s1 s3 y); [|exact Hs1|exact Eg].
    apply view_calls; [done|]. by apply (shuts_call acc).
  - rewrite (bind_some _ _ _ _ _ (field_run _ s1)). intros Hrest.
    pose proof (silent_accepted uninit stale fd ip port _ _ _ _ Hrest) as Hq.
    destruct Hout as [_ Hout]. apply (relayed_accept s s' fd Hs).
    + apply (fresh_fd O (idlefd :: R) s (env s) [] (listenfd (inst s)) fd (ip, port) Hv); [|constructor|exact E].
      apply shuts_refl.
    + intros g. rewrite Hq. unfold s1, acc in *. cbn [env set_env]. by rewrite flow_accept, E.
    + destruct Hout as [Hn|c i info _ _ [_ Hwf Hr Hw Hfd] _ _ _ _ Hn|c ty p1 p2 Hget].
      * by left.
      * right. exists (next_node s), c. split_and!; [done|done|done|]. unfold unsent. by rewrite Hr, Hw.
      * by destruct (Hmem ty p1 p2).
Qed.

Lemma relayed_main_round O R idlefd last s x s' :
  view cfg O (idlefd :: R) s -> relayed s -> can_lend 2 (bufp s) -> Z.of_nat (size (nodes s)) < 2 ^ 31 - 2 ->
  main_round uninit stale idlefd last s = Some (x, s') -> relayed s'.
Proof.
  intros Hv Hs Hcan Hsz.
  destruct (main_round_cases uninit stale idlefd last s) as (e & go & He & Hq & Hcases). cbv zeta in Hcases.
  set (s0 := set_exitFlag go (set_env e s)) in *.
  assert (Hs0 : relayed s0) by (by apply (silent_relaying s)).
  assert (Hleave : forall (b : Z + bool) s1, relayed s1 ->
            (_ ← sys_ (Close idlefd); mret b) s1 = Some (x, s') -> relayed s').
  { intros b s1 Hs1. rewrite (bind_some _ _ _ _ _ (sys__run _ s1)). intros [= _ <-].
    apply (silent_relaying s1); [done| |done]. intros g. by apply (flow_plain (Close idlefd)). }
  destruct Hcases as [->|[[b ->]|(due & acc & last' & ->)]]; [by intros [= _ <-]|by apply Hleave|].
  assert (Hv0 : view cfg O (idlefd :: R) s0) by (by apply (calm_view cfg O _ s)).
  intros Hserve.
  assert (exists s1, when due (HandleCloseList stale) s0 = Some (tt, s1) /\ view cfg O (idlefd :: R) s1 /\
    nodes s1 ⊆ nodes s0 /\ can_lend 2 (bufp s1)) as (s1 & Hrun1 & Hv1 & Hsub & Hcan1).
  { destruct due; [|exists s0; by split_and!].
    destruct (close_list_view stale cfg Hstale O _ s0 Hv0) as [[Hn _]|(s1 & Hrun1 & Hv1 & _ & _ & Hsub & Hl)].
    - exfalso. unfold serve in Hserve. cbn [when] in Hserve. by rewrite bind_run, Hn in Hserve.
    - exists s1. split_and!; auto. }
  revert Hserve.
  assert (Hs1 : relayed s1).
  { apply (silent_relaying s0); [done| |done].
    apply (respects_when silent due _ (silent_HandleCloseList stale) s0 tt s1 Hrun1). }
  unfold serve. rewrite (bind_some _ _ _ _ _ Hrun1), bind_run.
  destruct ((if acc then HandleConnect uninit stale idlefd else mret true) s1) as [[b s2]|] eqn:Eacc; [|done]. cbn [mbind option_bind].
  assert (Hs2 : relayed s2).
  { destruct acc; [|by injection Eacc as _ <-]. apply (relayed_connect O R idlefd s1 b s2); try done.
    apply subseteq_dom, subseteq_size in Hsub. rewrite !size_dom in Hsub. change (nodes s0) with (nodes s) in Hsub. lia. }
  destruct b; [by intros [= _ <-]|by apply Hleave].
Qed.
End main.

(** ** The threads together *)

Section relay.
Context {W P U : Type} {cap : BUFFER_TYPE -> Z}.
Context `{HK : KernelLaws W} `{HP : BufferProviderLaws P cap} `{HC : Callbacks U} `{HE : !EpollKernel W}.
Context (ifuel : nat) `{HPat : !Patient W ifuel}.
Context (uninit : BUFFER_TYPE -> list byte) (stale : SOCKController.t -> option SOCKController.t).
Context (body : Z -> Callback.prog U) (cfg : SPTcpConfig).
Abbreviation state := (state W P (ThreadPool.t SockTaskTcp) U).
Abbreviation sys := (Server.sys W P U).
Abbreviation b := (THREADPOOL_BATCH_SIZE_SUBMIT cfg).
Abbreviation L := (Z.to_nat (THREADPOOL_QUEUE_LENGTH cfg)).
Implicit Types (s : state) (x : sys).

(** Every callback that is running relays, as far as it has still to go. *)
Definition worker_relays (w : worker_thread U) : Prop :=
  forall a fr, wt_call w = Some (a, fr) -> relays (Callback.rest fr).

Definition relay_ok x : Prop := relayed (srv x) /\ Forall worker_relays (wks x).

Context (Hset : setting (cap := cap) (P := P) uninit stale body cfg) (Hrelays : forall f, relays (body f)).

(** A connection somebody works on. *)
Lemma at_work_conn l x n off a :
  server_inv_at cfg b L n off l x -> a ∈ at_work b l x -> conn_at (srv x) a.
Proof.
  intros [_ _ _ Hv _ _ _ _] Ha. apply (view_conn_at cfg _ _ _ a Hv), (view_live cfg _ _ _ a Hv).
  apply elem_of_app. by left.
Qed.

Lemma relayed_io_step l x n off t t' s' :
  server_inv_at cfg b L n off l x -> relayed (srv x) ->
  io_step ifuel stale t (srv x) = Some (t', s') -> relayed s'.
Proof.
  intros Hx Hs. pose proof (sv_view _ _ _ _ _ _ _ Hx) as Hv. unfold io_step. destruct (io_at t) as [|[|[fd events] evs]|].
  - rewrite (bind_some _ _ _ _ _ (gets_run _ (srv x))). rewrite (bind_some _ _ _ _ _ (sys_run _ (srv x))).
    intros [= _ <-]. apply (silent_relaying (srv x)); [done| |done]. intros g. by apply flow_plain.
  - rewrite bind_run. destruct (flush _ _ _) as [[u s1]|] eqn:E; [|done]. intros [= _ <-].
    by apply (relaying_flush stale _ (srv x) u s1 E).
  - rewrite bind_run. destruct (io_event _ _ _ _ _ _) as [[r s1]|] eqn:E; [|done]. intros [= _ <-].
    apply (relayed_io_event ifuel stale (io_exitfd t) fd events (io_util t) (srv x) r s1); [done| |done].
    intros a Ha. apply (view_conn_at cfg _ _ _ a Hv).
    destruct (ci_conn _ _ _ (vw_inv _ _ _ _ Hv) fd a Ha) as (c & Hc & _). by exists c.
  - by intros [= _ <-].
Qed.

Lemma relayed_worker_step l x n off j w late r s' :
  server_inv_at cfg b L n off l x -> relay_ok x -> wks x !! j = Some w ->
  worker_step ifuel stale body late w (srv x) = Some (r, s') ->
  relayed s' /\ match r with Ready w' => worker_relays w' | Blocked => True end.
Proof.
  intros Hx [Hs Hw] Hj. pose proof (Forall_lookup_1 _ _ _ _ Hw Hj) as Hwr. unfold worker_step.
  destruct (wt_call w) as [[a fr]|] eqn:Hcall.
  - destruct (Callback.finished fr); [by intros [= <- <-]|]. rewrite bind_run.
    destruct (Callback.user_step _ _ _ _ _) as [[fr' s1]|] eqn:E; [|done]. intros [= <- <-].
    destruct (relayed_user_step ifuel stale a fr (srv x) fr' s1) as [Hs1 Hr]; [done| |by apply (Hwr a)|done|].
    + intros Hrest. apply (at_work_conn l x n off a Hx). unfold at_work. rewrite !elem_of_app. right. right.
      apply list_elem_of_bind. exists w. split; [by apply (worker_has_call w a fr)|by eapply list_elem_of_lookup_2].
    + split; [done|]. by intros a' fr'' [= _ <-].
  - destruct (ThreadPool.process _ _ _ _) as [[|[[w' p'] y]]|]; [by intros [= <- <-]| |done].
    intros [= <- <-]. split; [by apply (relaying_tpool p' (srv x))|].
    intros a fr. simpl. destruct y as [t|]; [|done]. intros [= _ <-]. apply Hrelays.
Qed.

Lemma act_relays a x x' n :
  server_ok cfg b L n x -> admissible L a x -> relay_ok x ->
  act ifuel uninit stale body a x = Some (Ready x') -> relay_ok x'.
Proof.
  intros (off & l & Hx) Hadm Hok. pose proof Hok as [Hs Hw]. pose proof Hset as [Hcap Hcfg Hint Hun Hst Hmem _].
  pose proof (tcp_config_ok_bounds _ Hcfg) as Hbd. pose proof Hbd as [_ _ _ _ _ _ _ Hq _ _].
  destruct a as [|k|j late|sg]; cbn [act].
  - destruct (main_step _ _ _ _ _) as [[[|m] s1]|] eqn:Hstep; [done| |done]. intros [= <-]. split; [|exact Hw].
    apply main_step_state in Hstep. unfold admissible in Hadm. destruct (main_at x) as [idlefd last| |k|] eqn:Hm;
      [|destruct Hstep as [p ->]; by apply (relaying_tpool p (srv x))..]. destruct Hstep as [r E].
    destruct Hadm as [Hroom Hcan]. pose proof (sv_view _ _ _ _ _ _ _ Hx) as Hv. unfold idle_of in Hv. rewrite Hm in Hv.
    apply (relayed_main_round uninit stale cfg Hst Hcap Hbd Hint Hun Hmem _ _ idlefd last (srv x) r s1 Hv Hs Hcan);
      [lia|exact E].
  - destruct (ios x !! k) as [t|]; [|done]. destruct (io_step _ _ _ _) as [[t' s1]|] eqn:E; [|done].
    intros [= <-]. split; [|exact Hw]. by apply (relayed_io_step l x n off t t' s1).
  - destruct (wks x !! j) as [w|] eqn:Hj; [|done]. destruct (worker_step _ _ _ _ _ _) as [[[|w'] s1]|] eqn:E; try done.
    intros [= <-]. destruct (relayed_worker_step l x n off j w late (Ready w') s1 Hx Hok Hj E) as [Hs1 Hw'].
    split; [exact Hs1|]. by apply Forall_insert.
  - destruct (HandleExit sg (srv x)) as [[y s1]|] eqn:E; [|done]. intros [= <-]. split; [|exact Hw].
    by apply (aside_relaying (srv x) s1 (aside_HandleExit sg (srv x) y s1 E)).
Qed.

Abbreviation reach := (reach ifuel uninit stale body L).

Lemma launch_relays n idlefd last ts s :
  set_up cfg L n idlefd s -> (forall fd, flow fd (env s) = None) -> relay_ok (launch ts idlefd last s).
Proof.
  intros Hu Hf. pose proof (su_nodes _ _ _ _ _ Hu) as Hn. split.
  - split; simpl; rewrite ?Hn.
    + intros fd rx tx. by rewrite Hf.
    + intros a c. by rewrite lookup_empty.
    + intros a a' c c'. by rewrite lookup_empty.
  - apply Forall_fmap, Forall_forall. by intros w _ a fr.
Qed.

(** What the theorem says of a state. *)
Definition echoing (s : state) : Prop :=
  (forall fd rx tx, flow fd (env s) = Some (rx, tx) -> tx `prefix_of` rx) /\
  (forall a c, nodes s !! a = Some c -> exists tx,
     flow (SOCKController.fd c) (env s) =
       Some (tx ++ contents (SOCKController.writeBuf c) ++ contents (SOCKController.readBuf c), tx)).

Lemma reach_echoing n idlefd last ts s x :
  set_up cfg L n idlefd s -> Z.of_nat (length ts) = b -> (forall fd, flow fd (env s) = None) ->
  reach (launch ts idlefd last s) x -> echoing (srv x).
Proof.
  intros Hu Hts Hf Hr.
  assert (Hok : relay_ok x).
  { induction Hr as [|a x1 x2 Hr IH Ha Hrun]; [by apply (launch_relays n)|].
    apply (act_relays a x1 x2 n); [|done|done|done].
    by apply (reach_server ifuel uninit stale body cfg n idlefd last ts s). }
  destruct Hok as [Hs _].
  destruct (reach_server ifuel uninit stale body cfg n idlefd last ts s x Hset Hu Hts Hr) as (off & l & [_ _ _ Hv _ _ _ _]).
  split; [apply Hs|]. intros a c Hc. destruct (view_fd cfg _ _ _ a c Hv Hc) as [Hpos _].
  destruct (rl_node _ Hs a c Hc) as (_ & tx & Htx); [lia|]. by exists tx.
Qed.

(** C3: The echo of every byte.  Let the callbacks relay: whatever they do, they
    send nothing but what [writeBack], [commitWrite] and [moveToWriteBuffer]
    take from the connection's buffers.  Then in every run of the server's
    threads, on every descriptor [accept] has returned, what was sent since then
    is a prefix of what was received since then; and on each connection that
    exists the rest is what waits in its write buffer followed by what waits in
    its read buffer.  No byte is lost, sent twice, out of order, or to another
    connection, whichever thread received or sent it. *)
Theorem echo_stream n idlefd last ts s x :
  set_up cfg L n idlefd s -> Z.of_nat (length ts) = b -> (forall fd, flow fd (env s) = None) ->
  reach (launch ts idlefd last s) x ->
  (forall fd rx tx, flow fd (env (srv x)) = Some (rx, tx) -> tx `prefix_of` rx) /\
  (forall a c, nodes (srv x) !! a = Some c -> exists tx,
     flow (SOCKController.fd c) (env (srv x)) =
       Some (tx ++ contents (SOCKController.writeBuf c) ++ contents (SOCKController.readBuf c), tx)).
Proof. intros Hu Hts Hf Hr. exact (reach_echoing n idlefd last ts s x Hu Hts Hf Hr). Qed.
End relay.

(** ** Witness: two bytes are received and sent back *)

#[local] Existing Instance w_srv_provider.
#[local] Existing Instance w_srv_laws.
#[local] Existing Instance w_tcp_callbacks.

Lemma echo_stream_witness :
  flow 7 (env (srv (w_run strict w_armed))) = Some ([x68; x69], [x68; x69]) /\ [x68; x69] `prefix_of` [x68; x69].
Proof.
  assert (H : flow 7 (env (srv (w_run strict w_armed))) = Some ([x68; x69], [x68; x69])) by (vm_compute; reflexivity).
  split; [exact H|].
  apply (proj1 (echo_stream 1 w_uninit strict w_body w_srv_cfg w_setting (fun _ => echo_relays) 1 4 0 w_array w_srv
           (w_run strict w_armed) w_set_up eq_refl (fun fd => eq_refl)
           (w_run_reach strict w_armed ltac:(vm_compute; reflexivity))) 7).
  exact H.
Defined.
