(* ===== verification/Udp.v ===== *)
(** * Udp: the UDP server, SPSockUdp of SPSock.h and SPSock.cpp

    One definition per member function, in the monad of [State].  The threads
    of EventLoop that serve the sockets after the first are [others] while the
    first is served; what is left of them is run when they are joined. *)

From S2P Require Import Prelude Types State Kernel Tcp.

(** The user's receive function: context, socket, payload, peer. *)
Class Receiver (U : Type) :=
  rcp_call : Z -> option Z -> Z -> list byte -> string -> Z -> U -> U.

Module SPSockUdp.

Record t := mk {
  ctx : option Z;
  rcp : option Z;
  status : Z;
  fds : list Z }.

(** The constructor sets [status] only. *)
Definition SPSockUdp (ctx0 rcp0 : option Z) : t := mk ctx0 rcp0 0 [].

Definition set_status (v : Z) (s : t) : t := mk (ctx s) (rcp s) v (fds s).
Definition set_fds (v : list Z) (s : t) : t := mk (ctx s) (rcp s) (status s) v.

Section state.
Context {W U : Type}.

Record state := mkState {
  inst : t;
  instance : bool;
  g : Globals;
  exitFlag : bool;
  env : Env W;
  user : U }.

Definition set_inst (v : t) (s : state) : state :=
  mkState v (instance s) (g s) (exitFlag s) (env s) (user s).
Definition set_instance (v : bool) (s : state) : state :=
  mkState (inst s) v (g s) (exitFlag s) (env s) (user s).
Definition set_exitFlag (v : bool) (s : state) : state :=
  mkState (inst s) (instance s) (g s) v (env s) (user s).
Definition set_env (v : Env W) (s : state) : state :=
  mkState (inst s) (instance s) (g s) (exitFlag s) v (user s).
Definition set_user (v : U) (s : state) : state :=
  mkState (inst s) (instance s) (g s) (exitFlag s) (env s) v.
End state.

Arguments state : clear implicits.

Section udp.
Context {W U : Type} `{Kernel W} `{Receiver U} (af : ADDRESS_FAMILY).

Abbreviation state := (state W U).
Abbreviation M := (st state).

Definition field {A} (f : t -> A) : M A := gets (fun s => f (inst s)).
Definition update (f : t -> t) : M unit := modify (fun s => set_inst (f (inst s)) s).
Definition sys {A} (c : syscall A) : M (errno + A) :=
  fun s => let '(r, e) := call c (env s) in Some (r, set_env e s).
Definition sys_ {A} (c : syscall A) : M unit := _ ← sys c; mret tt.

(** ** Signals *)

Definition SetExitFlag : M unit := modify (set_exitFlag false).
Definition HandleExit (sg : Z) : M unit :=
  x ← gets exitFlag; if (x : bool) then SetExitFlag else mret tt.
Definition load_exitFlag : M bool :=
  r ← sys Exit_flag;
  _ ← match r with inr false => SetExitFlag | _ => mret tt end;
  gets exitFlag.

Definition SetSignalExit (sg : Z) : M bool :=
  r ← sys (Sigaction sg);
  match r with
  | inl _ => mret false
  | inr _ => x ← field status; _ ← update (set_status (Z.lor x 0x4)); mret true
  end.

(** ** Bind *)

Definition SetCallback (rcp' ctx' : option Z) : M bool :=
  match rcp' with
  | None => mret false
  | Some _ =>
      x ← field status;
      _ ← update (fun s => mk ctx' rcp' (Z.lor x 0x2) (fds s));
      mret true
  end.

(** The socket options, in order, up to the first that is refused. *)
Fixpoint set_options (sockfd : Z) (opts : list sockopt) : M bool :=
  match opts with
  | [] => mret true
  | o :: opts =>
      r ← sys (Setsockopt sockfd o);
      match r with inl _ => mret false | inr _ => set_options sockfd opts end
  end.

Definition bind_options (cfg : SPUdpConfig) : list sockopt :=
  [SO_REUSEADDR 1; SO_REUSEPORT 1; SO_RCVBUF (RECV_BSIZE cfg); SO_RCVTIMEO 0 (50 * 1000)].

(** One turn of the loop of Bind: [false] is [break]. *)
Definition bind_one (addr : SOCKADDR_IN.TYPE) : M bool :=
  r ← sys (Socket_create af false);
  match r with
  | inl _ => mret false
  | inr sockfd =>
      cfg ← gets (fun s => udpConfig (g s));
      ok ← set_options sockfd (bind_options cfg);
      ok ← (if (ok : bool) then
              r ← sys (Bind sockfd (SOCKADDR_IN.sin_addr addr) (SOCKADDR_IN.sin_port addr));
              mret (match r with inl _ => false | inr _ => true end)
            else mret false);
      if (ok : bool) then
        l ← field fds; _ ← update (set_fds (l ++ [sockfd])); mret true
      else _ ← sys_ (Close sockfd); mret false
  end.

Fixpoint bind_loop (n : nat) (addr : SOCKADDR_IN.TYPE) : M unit :=
  match n with
  | O => mret tt
  | S n => ok ← bind_one addr; if (ok : bool) then bind_loop n addr else mret tt
  end.

(** [for (auto fd : fds) close(fd); fds.clear();]. *)
Definition close_fds : M unit :=
  l ← field fds; _ ← for_each (fun fd => sys_ (Close fd)) l; update (set_fds []).

Definition Bind (port : Z) (ip : option string) : M bool :=
  x ← field status;
  if negb (Z.land x 0x1 =? 0) then mret false else
  e ← gets env;
  let '(addr, e) := SOCKADDR_IN.INIT af ip port e in
  _ ← modify (set_env e);
  match addr with
  | None => mret false
  | Some addr =>
      r ← sys Hardware_concurrency;
      let hardware := match r with inr n => n | inl _ => 0 end in
      if hardware =? 0 then mret false else
      _ ← bind_loop (Z.to_nat hardware) addr;
      l ← field fds;
      _ ← when (negb (Z.of_nat (length l) =? hardware)) close_fds;
      _ ← update (set_status (Z.lor x 0x1));
      mret true
  end.

(** ** Receiving and sending *)

(** One turn of MainEventLoop up to the call of the user's function: whether it
    returns, or the datagram and its sender. *)
Definition recv_wait (sockfd : Z) : M (bool + list byte * (string * Z)) :=
  go ← load_exitFlag;
  if negb (go : bool) then mret (inl true) else
  cfg ← gets (fun s => udpConfig (g s));
  r ← sys (Recvfrom sockfd (MAX_PAYLOAD_SIZE cfg + 48));
  mret (match r with
        | inl EINTR | inl EAGAIN => inl false
        | inl _ => inl true
        | inr d => inr d
        end).

(** One turn of MainEventLoop; [true] is [return]. *)
Definition recv_round (sockfd : Z) : M bool :=
  r ← recv_wait sockfd;
  match r with
  | inl stop => mret stop
  | inr (buf, (ip, port)) =>
      i ← gets inst;
      f ← lift (rcp i);
      _ ← modify (fun s => set_user (rcp_call f (ctx i) sockfd buf ip port (user s)) s);
      mret false
  end.

(** [fuel] turns; [false]: still running. *)
Fixpoint recv_loop (fuel : nat) (others : M unit) (sockfd : Z) : M bool :=
  match fuel with
  | O => mret false
  | S fuel =>
      stop ← recv_round sockfd;
      if (stop : bool) then mret true else _ ← others; recv_loop fuel others sockfd
  end.

(** [buf]: whether [new (std::nothrow)] gave the receive buffer. *)
Definition MainEventLoop (fuel : nat) (others : M unit) (buf : bool) (sockfd : Z) : M bool :=
  if buf then recv_loop fuel others sockfd else lift None.

(** [thread.join()] for each thread. *)
Fixpoint join_all (fuel : nat) (buf : bool) (l : list Z) : M bool :=
  match l with
  | [] => mret true
  | fd :: l =>
      ok ← MainEventLoop fuel (mret tt) buf fd;
      if (ok : bool) then join_all fuel buf l else mret false
  end.

(** [None]: still running. *)
Definition EventLoop (fuel : nat) (others : M unit) (buf : bool) : M (option bool) :=
  x ← field status;
  if Z.land x 0x8 =? 0x8 then mret (Some false) else
  if negb (Z.land x 0x1 =? 0x1) then mret (Some false) else
  if negb (Z.land x 0x2 =? 0x2) then mret (Some false) else
  l ← field fds;
  fd0 ← lift (head l);
  done ← MainEventLoop fuel others buf fd0;
  if negb (done : bool) then mret None else
  done ← join_all fuel buf (tail l);
  if negb (done : bool) then mret None else
  _ ← close_fds;
  mret (Some true).

(** [data] is the memory at the pointer. *)
Definition SendTo (sockfd : Z) (data : option (list byte)) (size : Z) (ip : option string) (port : Z) :
    M bool :=
  x ← field status;
  if negb (Z.land x 0x1 =? 0x1) then mret false else
  match data, ip with
  | Some data, Some ip =>
      if (size =? 0) || (port =? 0) then mret false else
      r ← sys (Inet_pton af ip);
      match r with
      | inl _ => mret false
      | inr addr =>
          payload ← lift (mem_load data 0 size);
          r ← sys (Sendto sockfd payload addr (SOCKADDR_IN.htons port));
          mret (match r with inr n => n =? size | inl _ => false end)
      end
  | _, _ => mret false
  end.

(** ** Life of the instance *)

Definition GetInstance (alloc : bool) (ctx0 rcp0 : option Z) : M bool :=
  here ← gets instance;
  if (here : bool) then mret true else
  if alloc then
    _ ← modify (fun s => set_instance true (set_inst (SPSockUdp ctx0 rcp0) s)); mret true
  else mret false.

Definition Release : M unit :=
  here ← gets instance;
  if (here : bool) then _ ← close_fds; modify (set_instance false) else mret tt.
End udp.

End SPSockUdp.
