(* ===== verification/UdpServer.v ===== *)
(** * UdpServer: the threads of the UDP server together

    EventLoop runs MainEventLoop for each socket in a thread of its own.  A
    step of the system is a turn of one thread up to the call of the user's
    function ([recv_wait]), or one call the user's function makes.  The function
    is a program [prog] over the member a receiver may use, [SendTo]. *)

From S2P Require Import Prelude Types State Kernel Tcp Udp.
Import SPSockUdp.

Module UdpServer.

Section prog.
Context {U : Type}.

(** [Own] is the user's own state. *)
Inductive prog : Type :=
  | Return
  | Send (sockfd : Z) (data : list byte) (ip : string) (port : Z) (k : bool -> prog)
  | Own (f : U -> U) (k : U -> prog).

Inductive pc := Waiting | Calling (p : prog) | Done.

Record thread := mkThread { th_fd : Z; th_at : pc }.
End prog.

Arguments prog : clear implicits.
Arguments pc : clear implicits.
Arguments thread : clear implicits.

Section server.
Context {W U : Type} `{Kernel W} (af : ADDRESS_FAMILY).

(** The user's functions, by their pointers: context, socket, payload, peer. *)
Context (body : Z -> option Z -> Z -> list byte -> string -> Z -> prog U).

Abbreviation state := (state W U).
Abbreviation M := (st state).

Definition call_step (p : prog U) : M (pc U) :=
  match p with
  | Return => mret Waiting
  | Send sockfd data ip port k =>
      ok ← SendTo af sockfd (Some data) (Z.of_nat (length data)) (Some ip) port; mret (Calling (k ok))
  | Own f k => u ← gets user; _ ← modify (fun s => set_user (f (user s)) s); mret (Calling (k u))
  end.

(** The next step of a thread of MainEventLoop. *)
Definition step (t : thread U) : M (thread U) :=
  match th_at t with
  | Waiting =>
      r ← recv_wait (th_fd t);
      match r with
      | inl stop => mret (mkThread (th_fd t) (if stop : bool then Done else Waiting))
      | inr (buf, (ip, port)) =>
          i ← gets inst;
          f ← lift (rcp i);
          mret (mkThread (th_fd t) (Calling (body f (ctx i) (th_fd t) buf ip port)))
      end
  | Calling p => at' ← call_step p; mret (mkThread (th_fd t) at')
  | Done => mret t
  end.

Record system := mkSystem { srv : state; threads : list (thread U) }.

Inductive action := AThread (k : nat) | ASignal (sg : Z).

Definition act (a : action) (x : system) : option system :=
  match a with
  | AThread k =>
      match threads x !! k with
      | None => Some x
      | Some t => '(t, s) ← step t (srv x); Some (mkSystem s (<[k := t]> (threads x)))
      end
  | ASignal sg => '(_, s) ← HandleExit sg (srv x); Some (mkSystem s (threads x))
  end.

Inductive reach (x : system) : system -> Prop :=
  | reach_refl : reach x x
  | reach_step a x1 x2 : reach x x1 -> act a x1 = Some x2 -> reach x x2.

(** A run from a list of actions, for examples. *)
Definition run (l : list action) (x : system) : option system := foldl (fun o a => x ← o; act a x) (Some x) l.

(** What EventLoop starts: a thread for each socket. *)
Definition launch (s : state) : system := mkSystem s ((fun fd => mkThread fd Waiting) <$> fds (inst s)).
End server.

Arguments system : clear implicits.

(** ** The receiver of example/example_udp.cpp *)

(** [ctx] is the server itself; [bump] is [sum++]. *)
Definition echo_rcp {U} (bump : U -> U) (ctx : option Z) (fd : Z) (data : list byte) (ip : string) (port : Z) :
    prog U :=
  Send fd data ip port (fun _ => Own bump (fun _ => Return)).

End UdpServer.
