(* ===== verification/UdpProps.v ===== *)
(** * UdpProps: the correctness theorems of the UDP server *)

From S2P Require Import Prelude Types State Kernel Controller Tcp TcpSpec TcpLoops TcpProps Udp.
Import SPSockUdp.

(** The datagrams received: socket, payload, peer. *)
Definition dgram_ev (ev : sysev) : list (Z * list byte * string * Z) :=
  match ev with
  | @Ev A c r =>
      match c in syscall A return (errno + A) -> list (Z * list byte * string * Z) with
      | Recvfrom fd _ => fun r =>
          match r with inr (d, (ip, port)) => [(fd, d, ip, port)] | inl _ => [] end
      | _ => fun _ => []
      end r
  end.

Definition dgrams {W} (e : Env W) : list (Z * list byte * string * Z) := tr e ≫= dgram_ev.

Section lemmas.
Context {W U : Type} `{HW : Kernel W} `{HR : Receiver U}.
Implicit Types s : state W U.

Lemma dgrams_call {A} (c : syscall A) (e : Env W) :
  dgrams (call c e).2 = dgrams e ++ dgram_ev (Ev c (call c e).1).
Proof. unfold dgrams. rewrite call_tr, bind_app. simpl. by rewrite app_nil_r. Qed.

Lemma usys_run {A} (c : syscall A) s :
  sys c s = Some ((call c (env s)).1, set_env (call c (env s)).2 s).
Proof. unfold sys. by destruct (call c (env s)). Qed.

Lemma ufield_run {A} (f : t -> A) s : field f s = Some (f (inst s), s).
Proof. done. Qed.

Lemma usys_fds {A} (c : syscall A) s :
  exists r e, sys c s = Some (r, set_env e s) /\ fds_step (env s) e (opened_ev (Ev c r)) (closes c).
Proof. eexists _, _. split; [apply usys_run|apply fds_call]. Qed.

Lemma uclose_fds fd s :
  exists e, sys_ (Close fd) s = Some (tt, set_env e s) /\ fds_step (env s) e [] [fd].
Proof.
  destruct (usys_fds (Close fd) s) as (r & e & Hrun & He). exists e.
  unfold sys_. by rewrite (bind_some _ _ _ _ _ Hrun).
Qed.

Lemma close_each l s :
  exists e, for_each (fun fd => sys_ (Close fd)) l s = Some (tt, set_env e s) /\
    fds_step (env s) e [] l.
Proof.
  revert s. induction l as [|fd l IH]; intros s; simpl.
  { exists (env s). split; [by destruct s|apply fds_refl]. }
  destruct (uclose_fds fd s) as (e1 & Hrun1 & He1). rewrite (bind_some _ _ _ _ _ Hrun1).
  destruct (IH (set_env e1 s)) as (e2 & Hrun2 & He2). exists e2. split; [exact Hrun2|].
  exact (fds_trans _ _ _ _ _ _ _ He1 He2).
Qed.

Lemma close_fds_spec s :
  exists e, close_fds s = Some (tt, set_inst (set_fds [] (inst s)) (set_env e s)) /\
    fds_step (env s) e [] (fds (inst s)).
Proof.
  unfold close_fds. rewrite (bind_some _ _ _ _ _ (ufield_run _ s)).
  destruct (close_each (fds (inst s)) s) as (e & Hrun & He). exists e.
  by rewrite (bind_some _ _ _ _ _ Hrun).
Qed.

(** ** Receiving *)

(** What the user sees of the datagrams [l]. *)
Definition deliver (f : Z) (c : option Z) (l : list (Z * list byte * string * Z)) (u : U) : U :=
  foldl (fun u '(fd, d, ip, port) => rcp_call f c fd d ip port u) u l.

(** [s'] is [s] after the datagrams [l] of the socket [fd] were received and
    delivered; no descriptor was closed. *)
Record received (f fd : Z) s s' (l : list (Z * list byte * string * Z)) : Prop := {
  rv_inst : inst s' = inst s;
  rv_global : g s' = g s /\ instance s' = instance s;
  rv_dgrams : dgrams (env s') = dgrams (env s) ++ l;
  rv_socket : Forall (fun d => d.1.1.1 = fd) l;
  rv_user : user s' = deliver f (ctx (inst s)) l (user s);
  rv_closed : closed (env s') = closed (env s) }.

Lemma received_refl f fd s : received f fd s s [].
Proof. by constructor; rewrite ?app_nil_r. Qed.

Lemma received_trans f fd s1 s2 s3 l1 l2 :
  received f fd s1 s2 l1 -> received f fd s2 s3 l2 -> received f fd s1 s3 (l1 ++ l2).
Proof.
  intros [I1 [G1 N1] D1 S1 U1 C1] [I2 [G2 N2] D2 S2 U2 C2]. constructor; try congruence.
  - split; congruence.
  - by rewrite D2, D1, app_assoc.
  - by apply Forall_app.
  - unfold deliver. rewrite foldl_app. rewrite U2, I1, U1. done.
Qed.

(** A system call that receives nothing and closes nothing. *)
Lemma received_env {A} (c : syscall A) f fd s :
  dgram_ev (Ev c (call c (env s)).1) = [] -> closes c = [] ->
  received f fd s (set_env (call c (env s)).2 s) [].
Proof.
  intros Hd Hc. constructor; simpl; try done.
  - by rewrite dgrams_call, Hd.
  - rewrite closed_closes, Hc. by rewrite app_nil_r.
Qed.

Lemma load_exitFlag_spec f fd s :
  exists b s', load_exitFlag s = Some (b, s') /\ received f fd s s' [].
Proof.
  unfold load_exitFlag. rewrite (bind_some _ _ _ _ _ (usys_run Exit_flag s)).
  pose proof (received_env Exit_flag f fd s eq_refl eq_refl) as Hr.
  set (s1 := set_env _ s) in *. destruct (call Exit_flag (env s)).1 as [?|[]].
  - eexists _, s1. by split.
  - eexists _, s1. by split.
  - eexists _, (set_exitFlag false s1). split; [done|]. by destruct Hr.
Qed.

(** Up to the call: nothing is delivered yet. *)
Lemma recv_wait_spec f fd s :
  exists r s', recv_wait fd s = Some (r, s') /\
    match r with
    | inl _ => received f fd s s' []
    | inr (d, (ip, port)) => inst s' = inst s /\ g s' = g s /\ instance s' = instance s /\ user s' = user s /\
        dgrams (env s') = dgrams (env s) ++ [(fd, d, ip, port)] /\ closed (env s') = closed (env s)
    end.
Proof.
  unfold recv_wait.
  destruct (load_exitFlag_spec f fd s) as (go & s1 & Hrun & Hr1). rewrite (bind_some _ _ _ _ _ Hrun).
  destruct go; [|by exists (inl true), s1]. cbn [negb].
  rewrite (bind_some _ _ _ _ _ (gets_run _ s1)). set (c := Recvfrom fd _).
  rewrite (bind_some _ _ _ _ _ (usys_run c s1)).
  pose proof (dgrams_call c (env s1)) as Hd.
  assert (Hc : closed (call c (env s1)).2 = closed (env s1)).
  { rewrite closed_closes. by rewrite app_nil_r. }
  assert (Hnone : dgram_ev (Ev c (call c (env s1)).1) = [] ->
                  received f fd s (set_env (call c (env s1)).2 s1) []).
  { intros Hn. apply (received_trans _ _ _ s1 _ [] []); [done|]. by apply received_env. }
  destruct (call c (env s1)) as [r e]. simpl in Hd, Hc, Hnone |- *. eexists _, _. split; [reflexivity|].
  destruct r as [err|[buf [ip port]]]; [destruct err; by apply Hnone|].
  destruct Hr1 as [Hi [Hg Hin] Hdg _ Hu Hcl]. simpl. rewrite Hd, Hdg, app_nil_r, Hc. by split_and!.
Qed.

Lemma recv_round_spec f fd s :
  rcp (inst s) = Some f ->
  exists stop s' l, recv_round fd s = Some (stop, s') /\ received f fd s s' l.
Proof.
  intros Hf. unfold recv_round. destruct (recv_wait_spec f fd s) as (r & s1 & Hrun & Hr).
  rewrite (bind_some _ _ _ _ _ Hrun). destruct r as [stop|[d [ip port]]]; [by exists stop, s1, []|].
  destruct Hr as (Hi & Hg & Hin & Hu & Hd & Hc).
  rewrite (bind_some _ _ _ _ _ (gets_run _ s1)), Hi, Hf, (bind_some _ _ s1 f s1) by done.
  eexists _, _, [(fd, d, ip, port)]. split; [done|]. constructor; simpl; try done; [by repeat constructor|].
  by rewrite Hu.
Qed.

Lemma recv_loop_spec f fd fuel s :
  rcp (inst s) = Some f ->
  exists done s' l, recv_loop fuel (mret tt) fd s = Some (done, s') /\ received f fd s s' l.
Proof.
  revert s. induction fuel as [|fuel IH]; intros s Hf; simpl.
  { exists false, s, []. split; [done|apply received_refl]. }
  destruct (recv_round_spec f fd s Hf) as (stop & s1 & l1 & Hrun & Hr1).
  rewrite (bind_some _ _ _ _ _ Hrun). destruct stop; [by exists true, s1, l1|].
  rewrite (bind_some _ _ s1 tt s1) by done.
  destruct (IH s1) as (d & s2 & l2 & Hrun2 & Hr2); [by rewrite (rv_inst _ _ _ _ _ Hr1)|].
  exists d, s2, (l1 ++ l2). split; [done|]. by apply received_trans with s1.
Qed.

Lemma join_all_spec f fuel l s :
  rcp (inst s) = Some f ->
  exists done s', join_all fuel true l s = Some (done, s') /\
    inst s' = inst s /\ closed (env s') = closed (env s).
Proof.
  revert s. induction l as [|fd l IH]; intros s Hf; simpl; [by exists true, s|].
  destruct (recv_loop_spec f fd fuel s Hf) as (d & s1 & l1 & Hrun & Hr).
  rewrite (bind_some _ _ _ _ _ Hrun). destruct Hr as [Hi _ _ _ _ Hc].
  destruct d; [|by exists false, s1].
  destruct (IH s1) as (d & s2 & Hrun2 & Hi2 & Hc2); [by rewrite Hi|].
  exists d, s2. split; [done|]. split; congruence.
Qed.

(** ** Binding *)

(** [s] with other sockets and another kernel. *)
Definition rebound l e s : state W U := set_inst (set_fds l (inst s)) (set_env e s).

Lemma set_options_spec fd opts s :
  exists ok e, set_options fd opts s = Some (ok, set_env e s) /\ fds_step (env s) e [] [].
Proof.
  revert s. induction opts as [|o opts IH]; intros s; simpl.
  { exists true, (env s). split; [by destruct s|apply fds_refl]. }
  destruct (usys_fds (Setsockopt fd o) s) as (r & e & Hrun & He). rewrite (bind_some _ _ _ _ _ Hrun).
  destruct r as [?|[]]; [by exists false, e|].
  destruct (IH (set_env e s)) as (ok & e2 & Hrun2 & He2). exists ok, e2. split; [exact Hrun2|].
  exact (fds_trans _ _ _ _ _ _ _ He He2).
Qed.

Lemma bind_one_spec af addr l e s :
  exists ok e' op cl l', bind_one af addr (rebound l e s) = Some (ok, rebound (l ++ l') e' s) /\
    fds_step e e' op cl /\
    if (ok : bool) then op = l' /\ cl = [] /\ length l' = 1%nat else l' = [] /\ op = cl.
Proof.
  unfold bind_one. destruct (usys_fds (Socket_create af false) (rebound l e s)) as (r & e1 & Hrun1 & He1).
  rewrite (bind_some _ _ _ _ _ Hrun1). change (set_env e1 (rebound l e s)) with (rebound l e1 s).
  change (env (rebound l e s)) with e in He1.
  destruct r as [?|fd]; [exists false, e1, [], [], []; by rewrite app_nil_r|].
  rewrite (bind_some _ _ _ _ _ (gets_run _ _)).
  destruct (set_options_spec fd (bind_options (udpConfig (g (rebound l e1 s)))) (rebound l e1 s))
    as (ok & e2 & Hrun2 & He2).
  rewrite (bind_some _ _ _ _ _ Hrun2). change (set_env e2 _) with (rebound l e2 s).
  pose proof (fds_trans _ _ _ _ _ _ _ He1 He2) as He3. simpl in He3.
  assert (Hb : exists ok' e4, (if ok then
      r ← sys (Kernel.Bind fd (SOCKADDR_IN.sin_addr addr) (SOCKADDR_IN.sin_port addr));
      mret (match r with inl _ => false | inr _ => true end) else mret false) (rebound l e2 s)
      = Some (ok', rebound l e4 s) /\ fds_step e e4 [fd] []).
  { destruct ok; [|by exists false, e2]. set (c := Kernel.Bind _ _ _).
    destruct (usys_fds c (rebound l e2 s)) as (r & e4 & Hrun4 & He4).
    rewrite (bind_some _ _ _ _ _ Hrun4). eexists _, e4. split; [done|].
    exact (fds_trans _ _ _ _ _ _ _ He3 He4). }
  destruct Hb as (ok' & e4 & Hrun4 & He4). rewrite (bind_some _ _ _ _ _ Hrun4). destruct ok'.
  - rewrite (bind_some _ _ _ _ _ (ufield_run _ _)). exists true, e4, [fd], [], [fd]. by split_and!.
  - destruct (uclose_fds fd (rebound l e4 s)) as (e5 & Hrun5 & He5).
    rewrite (bind_some _ _ _ _ _ Hrun5). exists false, e5, [fd], [fd], []. rewrite app_nil_r.
    split; [done|]. split; [exact (fds_trans _ _ _ _ _ _ _ He4 He5)|done].
Qed.

Lemma bind_loop_spec af addr n l e s :
  exists e' x l', bind_loop af n addr (rebound l e s) = Some (tt, rebound (l ++ l') e' s) /\
    fds_step e e' (l' ++ x) x /\ (length l' <= n)%nat /\ (length l' = n -> x = []).
Proof.
  revert l e. induction n as [|n IH]; intros l e; simpl.
  { exists e, [], []. rewrite app_nil_r. split_and!; try done. apply fds_refl. }
  destruct (bind_one_spec af addr l e s) as (ok & e1 & op & cl & l1 & Hrun & He & Hok).
  rewrite (bind_some _ _ _ _ _ Hrun). destruct ok.
  - destruct Hok as (-> & -> & Hl). destruct (IH (l ++ l1) e1) as (e2 & x & l2 & Hrun2 & He2 & Hn & Hall).
    exists e2, x, (l1 ++ l2). rewrite app_assoc, length_app. split; [done|].
    pose proof (fds_trans _ _ _ _ _ _ _ He He2) as He3. simpl in He3.
    rewrite <- app_assoc. split_and!; [done|lia|]. intros ?. apply Hall. lia.
  - destruct Hok as [-> ->]. exists e1, cl, []. split_and!; [done|done|simpl; lia|done].
Qed.

(** What [Bind] may end with. *)
Inductive bind_outcome s : bool -> state W U -> Prop :=
  | Bind_refused e : fds_step (env s) e [] [] -> bind_outcome s false (set_env e s)
  | Bound l e :
      l <> [] -> fds_step (env s) e l [] ->
      bind_outcome s true (set_inst (mk (ctx (inst s)) (rcp (inst s)) (Z.lor (status (inst s)) 0x1) l)
                             (set_env e s))
  | Bound_nothing e op cl :
      op ≡ₚ cl -> fds_step (env s) e op cl ->
      bind_outcome s true (set_inst (mk (ctx (inst s)) (rcp (inst s)) (Z.lor (status (inst s)) 0x1) [])
                             (set_env e s)).

Lemma Bind_spec af port ip s :
  fds (inst s) = [] -> (forall (e : Env W) n, (call Hardware_concurrency e).1 = inr n -> 0 <= n) ->
  exists b s', Bind af port ip s = Some (b, s') /\ bind_outcome s b s'.
Proof.
  intros Hl Hhw. unfold Bind. rewrite (bind_some _ _ _ _ _ (ufield_run _ s)).
  destruct (negb _).
  { exists false, s. split; [done|]. replace s with (set_env (env s) s) at 2 by (by destruct s).
    apply Bind_refused, fds_refl. }
  rewrite (bind_some _ _ _ _ _ (gets_run _ s)).
  pose proof (INIT_fds af ip port (env s)) as He.
  destruct (SOCKADDR_IN.INIT af ip port (env s)) as [addr e]. simpl in He.
  rewrite (bind_some _ _ _ _ _ (modify_run _ s)).
  destruct addr as [addr|]; [|eexists false, _; split; [done|]; exact (Bind_refused s e He)].
  rewrite (bind_some _ _ _ _ _ (usys_run Hardware_concurrency (set_env e s))).
  change (env (set_env e s)) with e. specialize (Hhw e).
  pose proof (fds_trans _ _ _ _ _ _ _ He (fds_call Hardware_concurrency e)) as He1. simpl in He1.
  destruct (call Hardware_concurrency e) as [r e1]. simpl in He1, Hhw |- *.
  set (n := match r with inr n => n | inl _ => 0 end).
  assert (Hn : 0 <= n) by (destruct r; subst n; simpl; [lia|by apply Hhw]).
  destruct (Z.eqb_spec n 0); [eexists false, _; split; [done|]; exact (Bind_refused s e1 He1)|].
  assert (Hs : set_env e1 (set_env e s) = rebound [] e1 s).
  { destruct s as [[] ? ? ? ? ?]. simpl in Hl. by subst. }
  rewrite Hs. destruct (bind_loop_spec af addr (Z.to_nat n) [] e1 s) as (e2 & x & l & Hrun & He2 & Hln & Hall).
  simpl in Hrun. rewrite (bind_some _ _ _ _ _ Hrun), (bind_some _ _ _ _ _ (ufield_run _ _)).
  change (fds (inst (rebound l e2 s))) with l.
  pose proof (fds_trans _ _ _ _ _ _ _ He1 He2) as He3. simpl in He3.
  destruct (Z.eqb_spec (Z.of_nat (length l)) n) as [E|E]; cbn [negb].
  - rewrite (bind_some _ _ (rebound l e2 s) tt (rebound l e2 s)) by done.
    rewrite Hall, app_nil_r in He3 by lia. eexists true, _. split; [done|].
    apply (Bound s l e2); [|done]. intros ->. simpl in E. lia.
  - destruct (close_fds_spec (rebound l e2 s)) as (e4 & Hrun4 & He4).
    rewrite (bind_some _ _ _ _ _ (Hrun4 : when true _ _ = _)).
    eexists true, _. split; [done|]. apply (Bound_nothing s e4 (l ++ x) (x ++ l)).
    + apply Permutation_app_comm.
    + pose proof (fds_trans _ _ _ _ _ _ _ He3 He4) as He5. by rewrite app_nil_r in He5.
Qed.
End lemmas.

Section props.
Context {W U : Type} `{HW : Kernel W} `{HR : Receiver U}.
Implicit Types s : state W U.

(** Receiving.  However many turns the loop of a socket makes and whatever
    the kernel answers, the user's function is called once for each datagram
    received on that socket, with its payload and peer, in order, and for
    nothing else; no socket is closed by it. *)
Theorem udp_delivery f fd fuel s :
  rcp (inst s) = Some f ->
  exists done s' l, MainEventLoop fuel (mret tt) true fd s = Some (done, s') /\
    dgrams (env s') = dgrams (env s) ++ l /\ Forall (fun d => d.1.1.1 = fd) l /\
    user s' = deliver f (ctx (inst s)) l (user s) /\ closed (env s') = closed (env s) /\
    inst s' = inst s.
Proof.
  intros Hf. destruct (recv_loop_spec f fd fuel s Hf) as (d & s' & l & Hrun & []).
  exists d, s', l. by split_and!.
Qed.

(** Binding.  Bind opens one socket for each processor, or closes every
    socket it had opened exactly once.  In the second case it still returns
    [true] and records that it succeeded, without a socket. *)
Theorem udp_bind af port ip s :
  fds (inst s) = [] -> (forall (e : Env W) n, (call Hardware_concurrency e).1 = inr n -> 0 <= n) ->
  exists b s', Bind af port ip s = Some (b, s') /\ bind_outcome s b s'.
Proof. apply Bind_spec. Qed.

(** After such a Bind the server has no socket to serve: EventLoop reads
    the first element of an empty vector. *)
Theorem udp_loop_without_sockets fuel others buf s :
  Z.land (status (inst s)) 0x8 = 0 -> Z.land (status (inst s)) 0x1 = 0x1 ->
  Z.land (status (inst s)) 0x2 = 0x2 -> fds (inst s) = [] -> EventLoop fuel others buf s = None.
Proof.
  intros H8 H1 H2 Hl. unfold EventLoop. rewrite (bind_some _ _ _ _ _ (ufield_run _ s)), H8, H1, H2.
  change (0 =? 0x8) with false. rewrite !Z.eqb_refl. cbn [negb]. rewrite (bind_some _ _ _ _ _ (ufield_run _ s)), Hl. done.
Qed.

(** The event loop.  With a callback and a socket EventLoop is defined;
    when it returns it has closed each socket once and forgotten them. *)
Theorem udp_event_loop f fuel fd l s :
  Z.land (status (inst s)) 0x8 = 0 -> Z.land (status (inst s)) 0x1 = 0x1 ->
  Z.land (status (inst s)) 0x2 = 0x2 -> rcp (inst s) = Some f -> fds (inst s) = fd :: l ->
  exists r s', EventLoop fuel (mret tt) true s = Some (r, s') /\
    match r with
    | Some b => b = true /\ closed (env s') = closed (env s) ++ fds (inst s) /\ fds (inst s') = []
    | None => closed (env s') = closed (env s) /\ inst s' = inst s
    end.
Proof.
  intros H8 H1 H2 Hf Hl. unfold EventLoop.
  rewrite (bind_some _ _ _ _ _ (ufield_run _ s)), H8, H1, H2.
  change (0 =? 0x8) with false. rewrite !Z.eqb_refl. cbn [negb].
  rewrite (bind_some _ _ _ _ _ (ufield_run _ s)), Hl.
  rewrite (bind_some _ _ s fd s) by done.
  destruct (recv_loop_spec f fd fuel s Hf) as (d & s1 & l1 & Hrun & [Hi _ _ _ _ Hc]).
  rewrite (bind_some _ _ _ _ _ Hrun). destruct d; cbn [negb]; [|by exists None, s1].
  destruct (join_all_spec f fuel l s1) as (d & s2 & Hrun2 & Hi2 & Hc2); [by rewrite Hi|].
  simpl tail. rewrite (bind_some _ _ _ _ _ Hrun2).
  destruct d; cbn [negb]; [|exists None, s2; split; [done|]; split; congruence].
  destruct (close_fds_spec s2) as (e & Hrun3 & [_ Hc3]). rewrite (bind_some _ _ _ _ _ Hrun3).
  exists (Some true). eexists. split; [done|]. simpl. split_and!; [done| |done].
  rewrite Hc3, Hi2, Hi, Hl. congruence.
Qed.
End props.

(** ** Witnesses *)

#[local] Instance w_udp_receiver : Receiver (list (list byte)) := fun f c fd d ip port u => u ++ [d].

Definition w_udp (st : Z) (l : list Z) : state Script (list (list byte)) := mkState
  (mk None (Some 1) st l) true
  (mkGlobals default_tcp_config default_udp_config (mkWaterMark 0 0) LOG_LEVEL_NONE true) true
  (mkEnv (well (inl EAGAIN)) []) [].

Lemma udp_delivery_witness :
  exists done s', MainEventLoop 3 (mret tt) true 9 (w_udp 3 [9]) = Some (done, s') /\ user s' = [[]; []; []].
Proof.
  destruct (udp_delivery 1 9 3 (w_udp 3 [9]) eq_refl) as (d & s' & l & Hrun & _).
  exists d, s'. split; [exact Hrun|]. vm_compute in Hrun. by injection Hrun as <- <-.
Defined.

Definition w_udp_loop : state LoopW (list (list byte)) := mkState
  (mk None (Some 1) 2 []) true
  (mkGlobals default_tcp_config default_udp_config (mkWaterMark 0 0) LOG_LEVEL_NONE true) true
  (mkEnv (mkLoopW [] 4 false 20) []) [].

(** The second call is interrupted: Bind succeeds without a socket. *)
Lemma udp_bind_witness :
  exists s', Bind ADDRESS_FAMILY_INET 80 None w_udp_loop = Some (true, s') /\ fds (inst s') = [].
Proof.
  destruct (udp_bind ADDRESS_FAMILY_INET 80 None w_udp_loop) as (b & s' & Hrun & _).
  - reflexivity.
  - intros [[ki kc ks kn] t] n. destruct ks; [discriminate|]. intros [= <-]. lia.
  - assert (Hb : b = true) by (vm_compute in Hrun; congruence). subst b.
    exists s'. split; [exact Hrun|]. vm_compute in Hrun. by injection Hrun as <-.
Defined.

Lemma udp_loop_without_sockets_witness :
  EventLoop 3 (mret tt) true (w_udp 3 []) = None.
Proof.
  apply (udp_loop_without_sockets 3 (mret tt) true (w_udp 3 [])); reflexivity.
Defined.

Lemma udp_event_loop_witness :
  exists r s', EventLoop 3 (mret tt) true (w_udp 3 [9; 10]) = Some (r, s').
Proof.
  destruct (udp_event_loop 1 3 9 [10] (w_udp 3 [9; 10]) eq_refl eq_refl eq_refl eq_refl eq_refl)
    as (r & s' & Hrun & _).
  exists r, s'. exact Hrun.
Defined.
