(* ===== verification/UdpServerProps.v ===== *)
(** * UdpServerProps: the UDP echo server, its threads together *)

From S2P Require Import Prelude Types State Kernel Epoll Controller Tcp TcpSpec TcpLoops Udp UdpProps UdpServer.
Import SPSockUdp UdpServer.

(** What came in on a socket, and what was handed to the kernel to go out. *)
Abbreviation incoming := (list byte * (string * Z))%type (only parsing).
Abbreviation outgoing := (list byte * list byte * Z)%type (only parsing).

Definition inbox_ev (fd : Z) (ev : sysev) : list incoming :=
  match ev with
  | @Ev A c r =>
      match c in syscall A return (errno + A) -> list incoming with
      | Recvfrom fd' _ => fun r => match r with inr d => if fd' =? fd then [d] else [] | inl _ => [] end
      | _ => fun _ => []
      end r
  end.

Definition outbox_ev (fd : Z) (ev : sysev) : list outgoing :=
  match ev with
  | @Ev A c r => match c with Sendto fd' d a p => if fd' =? fd then [(d, a, p)] else [] | _ => [] end
  end.

Definition inbox {W} (fd : Z) (e : Env W) : list incoming := tr e ≫= inbox_ev fd.
Definition outbox {W} (fd : Z) (e : Env W) : list outgoing := tr e ≫= outbox_ev fd.

Section echo.
Context {W U : Type} `{HW : Kernel W} (af : ADDRESS_FAMILY) (bump : U -> U).

(** [inet_pton] is a function of the address. *)
Context (pton : string -> option (list byte)).
Context (Hpton : forall ip (e : Env W),
  match (call (Inet_pton af ip) e).1 with inr a => pton ip = Some a | inl _ => pton ip = None end).

Implicit Types s : state W U.

(** The answer to a datagram: the same payload to its sender, whose port goes
    over the wire in network order; none to an empty datagram, to port 0 or to
    an address that cannot be read. *)
Definition echo_of (d : incoming) : list outgoing :=
  let '(data, (ip, port)) := d in
  if (Z.of_nat (length data) =? 0) || (port =? 0) then []
  else match pton ip with Some a => [(data, a, SOCKADDR_IN.htons port)] | None => [] end.

(** ** What went through a socket *)

(** [s'] is [s] after [i] came in and [o] went out, on [fd] only. *)
Record mail (fd : Z) (i : list incoming) (o : list outgoing) s s' : Prop := {
  ml_inst : inst s' = inst s;
  ml_in g : inbox g (env s') = inbox g (env s) ++ if g =? fd then i else [];
  ml_out g : outbox g (env s') = outbox g (env s) ++ if g =? fd then o else [] }.

Lemma if_nothing {A} (b : bool) : (if b then [] else []) = @nil A.
Proof. by destruct b. Qed.

Lemma mail_same fd s s' : inst s' = inst s -> env s' = env s -> mail fd [] [] s s'.
Proof. intros Hi He. split; [done|..]; intros g; by rewrite He, if_nothing, app_nil_r. Qed.

Lemma mail_trans fd i1 o1 i2 o2 s1 s2 s3 :
  mail fd i1 o1 s1 s2 -> mail fd i2 o2 s2 s3 -> mail fd (i1 ++ i2) (o1 ++ o2) s1 s3.
Proof.
  intros [I1 N1 O1] [I2 N2 O2]. split; [congruence|..]; intros g; rewrite ?N2, ?N1, ?O2, ?O1, <- app_assoc;
    by destruct (g =? fd).
Qed.

Lemma mail_call {A} (c : syscall A) fd i o s :
  (forall g, inbox_ev g (Ev c (call c (env s)).1) = if g =? fd then i else []) ->
  (forall g, outbox_ev g (Ev c (call c (env s)).1) = if g =? fd then o else []) ->
  mail fd i o s (set_env (call c (env s)).2 s).
Proof.
  intros Hi Ho. split; [done|..]; intros g; unfold inbox, outbox; cbn [env set_env]; rewrite call_tr, bind_app;
    cbn [mbind list_bind]; rewrite app_nil_r; [by rewrite Hi|by rewrite Ho].
Qed.

(** A call that is neither. *)
Lemma mail_quiet {A} (c : syscall A) fd s :
  match c with Recvfrom _ _ | Sendto _ _ _ _ => False | _ => True end ->
  mail fd [] [] s (set_env (call c (env s)).2 s).
Proof. intros Hc. apply mail_call; intros g; rewrite if_nothing; by destruct c. Qed.

Lemma recv_wait_mail fd s :
  exists r s', recv_wait fd s = Some (r, s') /\
    mail fd (match r with inl _ => [] | inr d => [d] end) [] s s'.
Proof.
  unfold recv_wait, load_exitFlag.
  assert (exists s1 b, (r ← sys Exit_flag; _ ← match r with inr false => SetExitFlag | _ => mret tt end; gets exitFlag) s
            = Some (b, s1) /\ mail fd [] [] s s1) as (s1 & go & Hrun & H1).
  { rewrite (bind_some _ _ _ _ _ (usys_run Exit_flag s)). pose proof (mail_quiet Exit_flag fd s I) as Hm.
    destruct (call Exit_flag (env s)).1 as [?|[]]; eexists _, _; (split; [reflexivity|]); try exact Hm.
    apply (mail_trans fd [] [] [] [] _ _ _ Hm). by apply mail_same. }
  rewrite (bind_some _ _ _ _ _ Hrun). destruct go; cbn [negb]; [|by exists (inl true), s1].
  rewrite (bind_some _ _ _ _ _ (gets_run _ s1)). set (c := Recvfrom fd _).
  rewrite (bind_some _ _ _ _ _ (usys_run c s1)). eexists _, _. split; [reflexivity|].
  apply (mail_trans fd [] [] _ [] _ _ _ H1). apply mail_call; intros g; [|by rewrite if_nothing].
  simpl. rewrite (Z.eqb_sym fd g).
  destruct (call c (env s1)).1 as [err|d]; [|done]. destruct err; by rewrite if_nothing.
Qed.

Lemma SendTo_mail fd data ip port s :
  Z.land (status (inst s)) 0x1 = 0x1 ->
  exists ok s', SendTo af fd (Some data) (Z.of_nat (length data)) (Some ip) port s = Some (ok, s') /\
    mail fd [] (echo_of (data, (ip, port))) s s'.
Proof.
  intros Hst. unfold SendTo, echo_of. rewrite (bind_some _ _ _ _ _ (ufield_run _ s)), Hst. cbn [Z.eqb Pos.eqb negb].
  destruct (_ || _); [exists false, s; split; [done|by apply mail_same]|].
  rewrite (bind_some _ _ _ _ _ (usys_run (Inet_pton af ip) s)). pose proof (Hpton ip (env s)) as Hp.
  pose proof (mail_quiet (Inet_pton af ip) fd s I) as H1. set (s1 := set_env _ s) in *.
  destruct (call (Inet_pton af ip) (env s)).1 as [err|a]; rewrite Hp; [by exists false, s1|].
  assert (Hload : mem_load data 0 (Z.of_nat (length data)) = Some data).
  { rewrite mem_load_in by lia. by rewrite Nat2Z.id, firstn_all. }
  rewrite Hload, (bind_some _ _ s1 data s1) by done. set (c := Sendto _ _ _ _).
  rewrite (bind_some _ _ _ _ _ (usys_run c s1)). eexists _, _. split; [reflexivity|].
  apply (mail_trans fd [] [] [] [_] _ _ _ H1). apply mail_call; intros g; [by rewrite if_nothing|].
  simpl. by rewrite (Z.eqb_sym fd g).
Qed.
(** ** The threads *)

Context (rcp0 : Z -> option Z -> Z -> list byte -> string -> Z -> prog U).
Context (Hrcp : forall f c fd d ip port, rcp0 f c fd d ip port = echo_rcp bump c fd d ip port).
Abbreviation act := (act af rcp0).
Abbreviation reach := (reach af rcp0).
Implicit Types x : system W U.

(** Where a thread is: the datagrams before the last are answered, the last one
    is unless the call of [SendTo] is still to come. *)
Inductive settled (e : Env W) (fd : Z) : pc U -> Prop :=
  | Idle at' : at' = Waiting \/ at' = Done -> outbox fd e = inbox fd e ≫= echo_of -> settled e fd at'
  | Answering c d ip port l :
      inbox fd e = l ++ [(d, (ip, port))] -> outbox fd e = l ≫= echo_of ->
      settled e fd (Calling (echo_rcp bump c fd d ip port))
  | Answered p :
      p = Own bump (fun _ => Return) \/ p = Return -> outbox fd e = inbox fd e ≫= echo_of ->
      settled e fd (Calling p).

Record udp_inv x : Prop := {
  ui_bound : Z.land (status (inst (srv x))) 0x1 = 0x1;
  ui_rcp : is_Some (rcp (inst (srv x)));
  ui_apart : NoDup (th_fd <$> threads x);
  ui_settled : Forall (fun t => settled (env (srv x)) (th_fd t) (th_at t)) (threads x) }.

Lemma settled_other fd g i o s s' at' :
  mail fd i o s s' -> g <> fd -> settled (env s) g at' -> settled (env s') g at'.
Proof.
  intros [_ Hi Ho] Hne. specialize (Hi g). specialize (Ho g). rewrite (proj2 (Z.eqb_neq _ _) Hne), app_nil_r in Hi, Ho.
  intros [a Ha E|c d ip port l Hin E|p Hp E].
  - apply Idle; [done|congruence].
  - apply (Answering _ _ c d ip port l); congruence.
  - apply Answered; [done|congruence].
Qed.

(** One step of a thread. *)
Lemma step_settled t s :
  Z.land (status (inst s)) 0x1 = 0x1 -> is_Some (rcp (inst s)) -> settled (env s) (th_fd t) (th_at t) ->
  exists at' s' i o, step af rcp0 t s = Some (mkThread (th_fd t) at', s') /\
    mail (th_fd t) i o s s' /\ settled (env s') (th_fd t) at'.
Proof.
  intros Hst [f Hf] Hs. destruct t as [fd at0]. unfold step. simpl in *. revert Hs.
  destruct at0 as [|p|]; intros Hs.
  - assert (E : outbox fd (env s) = inbox fd (env s) ≫= echo_of) by (by inversion Hs).
    destruct (recv_wait_mail fd s) as (r & s' & Hrun & Hm). rewrite (bind_some _ _ _ _ _ Hrun).
    pose proof (ml_in _ _ _ _ _ Hm fd) as Hi. pose proof (ml_out _ _ _ _ _ Hm fd) as Ho.
    rewrite Z.eqb_refl in Hi, Ho. destruct r as [stop|[d [ip port]]].
    + exists (if stop then Done else Waiting), s', [], []. split; [done|]. split; [done|].
      rewrite app_nil_r in Hi, Ho. apply Idle; [destruct stop; auto|congruence].
    + rewrite (bind_some _ _ _ _ _ (gets_run _ s')), (ml_inst _ _ _ _ _ Hm), Hf.
      rewrite (bind_some _ _ s' f s') by done. rewrite Hrcp. eexists _, s', _, _. split; [done|]. split; [exact Hm|].
      apply (Answering _ _ _ _ _ _ (inbox fd (env s))); [done|]. by rewrite Ho, app_nil_r.
  - inversion Hs as [? [|]|c d ip port l Hin E|q [->| ->] E]; subst; try done.
    + destruct (SendTo_mail fd d ip port s Hst) as (ok & s' & Hrun & Hm). unfold call_step, echo_rcp.
      rewrite bind_run, (bind_some _ _ _ _ _ Hrun). eexists _, s', _, _. split; [done|]. split; [exact Hm|].
      pose proof (ml_in _ _ _ _ _ Hm fd) as Hi. pose proof (ml_out _ _ _ _ _ Hm fd) as Ho.
      rewrite Z.eqb_refl in Hi, Ho. rewrite app_nil_r in Hi. apply Answered; [by left|].
      rewrite Ho, Hi, Hin, E, bind_app. simpl. by rewrite app_nil_r.
    + eexists (Calling Return), _, [], []. split; [done|]. split; [by apply mail_same|].
      apply Answered; [by right|done].
    + exists Waiting, s, [], []. split; [done|]. split; [by apply mail_same|]. apply Idle; [by left|done].
  - exists Done, s, [], []. split; [done|]. split; [by apply mail_same|]. by inversion Hs; apply Idle; [right|].
Qed.

Lemma udp_act_inv a x : udp_inv x -> exists x', act a x = Some x' /\ udp_inv x'.
Proof.
  intros [Hb Hr Ha Hs]. destruct a as [k|sg]; simpl.
  - destruct (threads x !! k) as [t|] eqn:Hk; [|by exists x].
    pose proof (Forall_lookup_1 _ _ _ _ Hs Hk) as Ht.
    destruct (step_settled t (srv x) Hb Hr Ht) as (at' & s' & i & o & -> & Hm & Ht').
    eexists. split; [done|]. split; simpl; rewrite ?(ml_inst _ _ _ _ _ Hm); try done.
    + rewrite list_fmap_insert. simpl. by rewrite list_insert_id by (by rewrite list_lookup_fmap, Hk).
    + apply Forall_lookup. intros j t' Hj. destruct (decide (j = k)) as [->|Hne].
      * rewrite list_lookup_insert_eq in Hj by (by eapply lookup_lt_Some). by injection Hj as <-.
      * rewrite list_lookup_insert_ne in Hj by done. pose proof (Forall_lookup_1 _ _ _ _ Hs Hj) as Hold.
        apply (settled_other (th_fd t) _ i o (srv x)); [done| |done]. intros E. apply Hne.
        eapply (NoDup_lookup _ _ _ (th_fd t) Ha); rewrite list_lookup_fmap; [by rewrite Hj, <- E|by rewrite Hk].
  - unfold HandleExit. rewrite (bind_some _ _ _ _ _ (gets_run _ (srv x))).
    destruct (exitFlag (srv x)); eexists; (split; [done|]); by split.
Qed.

Lemma udp_reach_inv x x' : udp_inv x -> reach x x' -> udp_inv x'.
Proof.
  intros Hx. induction 1 as [|a x1 x2 _ IH Hrun]; [done|].
  destruct (udp_act_inv a x1 IH) as (x3 & Hrun' & Hx3). rewrite Hrun in Hrun'. by injection Hrun' as <-.
Qed.

(** What the theorem says of a state. *)
Definition echoing x : Prop :=
  (forall a, exists x', act a x = Some x') /\
  (forall k t, threads x !! k = Some t ->
     let i := inbox (th_fd t) (env (srv x)) in let o := outbox (th_fd t) (env (srv x)) in
     o = i ≫= echo_of \/
     exists p l d, th_at t = Calling p /\ i = l ++ [d] /\ o = l ≫= echo_of).

Lemma udp_reach_echoing s x :
  Z.land (status (inst s)) 0x1 = 0x1 -> is_Some (rcp (inst s)) -> NoDup (fds (inst s)) ->
  (forall fd, inbox fd (env s) = [] /\ outbox fd (env s) = []) -> reach (launch s) x -> echoing x.
Proof.
  intros Hst Hf Hnd Hbox Hr.
  assert (Hx : udp_inv x).
  { apply (udp_reach_inv (launch s)); [|done]. unfold launch. split; simpl; [done|done| |].
    - by rewrite <- list_fmap_compose, list_fmap_id.
    - apply Forall_fmap, Forall_forall. intros fd _. simpl. destruct (Hbox fd) as [Hi Ho].
      apply Idle; [by left|]. by rewrite Hi, Ho. }
  split.
  - intros a. destruct (udp_act_inv a x Hx) as (x' & Hrun & _). by exists x'.
  - intros k t Hk. destruct (Forall_lookup_1 _ _ _ _ (ui_settled _ Hx) Hk) as [at' _ E|c d ip port l Hi Ho|p _ E].
    + by left.
    + right. by eexists _, l, _.
    + by left.
Qed.

(** C23: The UDP echo server.  Start the threads of EventLoop on a server that is
    bound and has the receiver of the example, and let them and signals act in
    any order.  Then every next step is defined, and on every socket what was
    handed to the kernel is the answers to the datagrams that came in, in
    order, each to its own sender with its own payload: all of them, but for
    the last one while its thread has not yet called SendTo. *)
Theorem udp_echo s x :
  Z.land (status (inst s)) 0x1 = 0x1 -> is_Some (rcp (inst s)) -> NoDup (fds (inst s)) ->
  (forall fd, inbox fd (env s) = [] /\ outbox fd (env s) = []) -> reach (launch s) x ->
  (forall a, exists x', act a x = Some x') /\
  (forall k t, threads x !! k = Some t ->
     let i := inbox (th_fd t) (env (srv x)) in let o := outbox (th_fd t) (env (srv x)) in
     o = i ≫= echo_of \/
     exists p l d, th_at t = Calling p /\ i = l ++ [d] /\ o = l ≫= echo_of).
Proof. exact (udp_reach_echoing s x). Qed.
End echo.

(** A run from a list of actions. *)
Lemma udp_run_reach {W U} `{Kernel W} af (body : Z -> option Z -> Z -> list byte -> string -> Z -> prog U) l
    (x0 x : system W U) :
  run af body l x0 = Some x -> reach af body x0 x.
Proof.
  unfold run. assert (Hgo : forall x1, reach af body x0 x1 ->
    foldl (fun o a => y ← o; act af body a y) (Some x1) l = Some x -> reach af body x0 x); [|apply Hgo, reach_refl].
  induction l as [|a l IH]; intros x1 Hr; cbn [foldl]; [by intros [= <-]|]. cbn [mbind option_bind].
  destruct (act af body a x1) as [x2|] eqn:E; [apply IH; by apply (reach_step _ _ _ a x1)|].
  clear. by induction l as [|b l IH].
Qed.

(** ** Witness: two sockets, a datagram on the first *)

Definition w_pton (ip : string) : option (list byte) := Some [].
Definition w_rcp (f : Z) : option Z -> Z -> list byte -> string -> Z -> prog Z := echo_rcp Z.succ.

Definition w_two : state QuickW Z := mkState
  (mk None (Some 1) 3 [9; 10]) true
  (mkGlobals default_tcp_config default_udp_config (mkWaterMark 0 0) LOG_LEVEL_NONE true) true
  (mkEnv (mkQuick {[9; 10]} ∅ ∅ 0 false [x68; x69]) []) 0.

Definition w_turns : list action := [AThread 0; AThread 1; AThread 0; AThread 1; AThread 0].

Lemma w_turns_reach : exists x, reach ADDRESS_FAMILY_INET w_rcp (launch w_two) x /\
  threads x !! 0%nat = Some (mkThread 9 (Calling Return)).
Proof.
  eexists. split; [apply (udp_run_reach _ _ w_turns); vm_compute; reflexivity|vm_compute; reflexivity].
Qed.

Lemma udp_echo_witness : exists x, reach ADDRESS_FAMILY_INET w_rcp (launch w_two) x /\
  (outbox 9 (env (srv x)) = inbox 9 (env (srv x)) ≫= echo_of w_pton \/
   exists p l d, Calling Return = Calling (U := Z) p /\ inbox 9 (env (srv x)) = l ++ [d] /\
     outbox 9 (env (srv x)) = l ≫= echo_of w_pton).
Proof.
  destruct w_turns_reach as (x & Hr & Ht). exists x. split; [exact Hr|].
  assert (Hp : forall ip (e : Env QuickW),
    match (call (Inet_pton ADDRESS_FAMILY_INET ip) e).1 with
    | inr a => w_pton ip = Some a | inl _ => w_pton ip = None end) by (intros; reflexivity).
  assert (Hn : NoDup [9; 10]) by (repeat constructor; set_solver).
  destruct (udp_echo (HW := quick_kernel) ADDRESS_FAMILY_INET Z.succ w_pton Hp w_rcp (fun _ _ _ _ _ _ => eq_refl) w_two x
              eq_refl ltac:(by exists 1) Hn (fun fd => conj eq_refl eq_refl) Hr) as [_ Hall].
  exact (Hall 0%nat _ Ht).
Defined.
