(* ===== verification/Clients.v ===== *)
(** * Clients: the programs of src/example and src/test

    Their callbacks, as programs of calls to the controller, and their [main],
    from [Config] to [Release]; the exit code is the result, [None] that the
    server still runs.  The TCP programs have the same [main] but for what they
    configure ([tcp_main]). *)

From S2P Require Import Prelude Types State BufferProvider Kernel Controller TaskPool Task Tcp Callback Udp UdpServer.
Import Callback.

(** [0.9f], and the number of the signal. *)
Definition float_0_9 : spec_float := S754_finite false 15099494 (-24).
Definition SIGINT : Z := 2.

(** ** The TCP programs *)

Section tcp.
Import SPSockTcp.
Context {W P TP U : Type} `{Kernel W} `{BufferProvider P} `{TaskPool SockTaskTcp TP}.
Context `{PoolLifecycle TP} `{BufferReset P} `{Callbacks U}.
Context (uninit : BUFFER_TYPE -> list byte) (stale : SOCKController.t -> option SOCKController.t).
Abbreviation M := (st (state W P TP U)).

(** [Config], a failed [assert] being undefined. *)
Definition Config (config : SPTcpConfig) : M unit := fun s =>
  g' ← TcpConfig config (g s); Some (tt, set_g g' s).

(** [ins->]: a null pointer must not be followed. *)
Definition the_instance : M unit := fun s => if instance s then Some (tt, s) else None.

(** [if (... == false) return -1;]. *)
Definition check (m : M bool) (next : M (option Z)) : M (option Z) :=
  ok ← m; if (ok : bool) then next else mret (Some (-1)).

(** After EventLoop: [Release] and the exit code. *)
Definition finish (r : option bool) : M (option Z) :=
  match r with None => mret None | Some _ => _ ← Release; mret (Some 0) end.

(** The callback is the function 1. *)
Definition tcp_main (config : SPTcpConfig) (marks : M unit) (alloc : bool) (proc0 : SPSockProc)
    (fuel : nat) (others : M unit) (pool0 : TP) : M (option Z) :=
  _ ← Config config;
  _ ← GetInstance alloc proc0;
  _ ← the_instance;
  check (EnableKeepAlive true 120 2 10) (
  check (SetCallback None None (Some 1) (Some 1)) (
  check (SetSignalExit SIGINT) (
  check (Listen ADDRESS_FAMILY_INET 4567 None) (
    _ ← marks;
    r ← EventLoop uninit stale fuel others pool0;
    finish r)))).
End tcp.

Module ExampleTcp.
Definition config : SPTcpConfig :=
  mkTcpConfig (16 * 1024) (32 * 1024) 16 64 10000 EPOLLIN 20000 10 5 float_0_9 LOG_LEVEL_INFO.
Definition main {W P TP U} `{Kernel W} `{BufferProvider P} `{TaskPool SockTaskTcp TP}
    `{PoolLifecycle TP} `{BufferReset P} `{Callbacks U} uninit stale :=
  tcp_main (W := W) (P := P) (TP := TP) (U := U) uninit stale config (mret tt).
End ExampleTcp.

(** The same text as the example. *)
Module EchoTest.
Definition config : SPTcpConfig :=
  mkTcpConfig (16 * 1024) (32 * 1024) 16 64 10000 EPOLLIN 20000 10 5 float_0_9 LOG_LEVEL_INFO.
Definition echo_read_write_proc {U} : prog U :=
  IsPeerClosed (fun closed =>
    if closed then CloseIt Return else
    WriteBack (fun n =>
      if n <? 0 then CloseIt Return else
      GetReadBufferSize (fun size =>
        let done ret := if (ret : bool) then Return else CloseIt Return in
        if negb (size =? 0) then EnableEvents false true done else EnableEvents true false done))).
Definition main {W P TP U} `{Kernel W} `{BufferProvider P} `{TaskPool SockTaskTcp TP}
    `{PoolLifecycle TP} `{BufferReset P} `{Callbacks U} uninit stale :=
  tcp_main (W := W) (P := P) (TP := TP) (U := U) uninit stale config (mret tt).
End EchoTest.

(** What comes in is read and thrown away. *)
Module RecvTest.
Definition config : SPTcpConfig :=
  mkTcpConfig (16 * 1024) (32 * 1024) 16 64 10000 EPOLLIN 20000 10 5 float_0_9 LOG_LEVEL_INFO.
Definition echo_read_write_proc {U} : prog U :=
  IsPeerClosed (fun closed =>
    if closed then CloseIt Return else
    Read (1024 * 32) (fun r =>
      if r.1 =? 0 then CloseIt Return else
      EnableEvents true false (fun ret => if ret then Return else CloseIt Return))).
Definition main {W P TP U} `{Kernel W} `{BufferProvider P} `{TaskPool SockTaskTcp TP}
    `{PoolLifecycle TP} `{BufferReset P} `{Callbacks U} uninit stale :=
  tcp_main (W := W) (P := P) (TP := TP) (U := U) uninit stale config (mret tt).
End RecvTest.

(** Zeros are sent for ever. *)
Module WriteTest.
Definition buf : list byte := replicate (Z.to_nat (1024 * 32)) x00.
Definition config : SPTcpConfig :=
  mkTcpConfig (16 * 1024) (32 * 1024) 16 64 10000 EPOLLOUT 20000 10 5 float_0_9 LOG_LEVEL_INFO.
Definition echo_read_write_proc {U} : prog U :=
  IsPeerClosed (fun closed =>
    if closed then CloseIt Return else
    WriteTemp buf (fun _ =>
      CommitWrite (fun n =>
        if n =? -1 then CloseIt Return else
        EnableEvents false true (fun ret => if ret then Return else CloseIt Return)))).
Definition main {W P TP U} `{Kernel W} `{BufferProvider P} `{TaskPool SockTaskTcp TP}
    `{PoolLifecycle TP} `{BufferReset P} `{Callbacks U} uninit stale :=
  tcp_main (W := W) (P := P) (TP := TP) (U := U) uninit stale config (SPSockTcp.SetWaterMark 0 4096).
End WriteTest.

(** Connections are only kept open; what [main] does besides, the tracing of
    allocations, is MemoryTracer. *)
Module MemoryTest.
Definition echo_read_write_proc {U} : prog U :=
  IsPeerClosed (fun closed =>
    if closed then CloseIt Return else
    EnableEvents true false (fun ret => if ret then Return else CloseIt Return)).
End MemoryTest.

(** ** The UDP example *)

Module ExampleUdp.
Section main.
Import SPSockUdp.
Context {W U : Type} `{Kernel W} `{Receiver U}.
Abbreviation M := (st (state W U)).

Definition Config (config : SPUdpConfig) : M unit := fun s =>
  g' ← UdpConfig config (g s);
  Some (tt, mkState (inst s) (instance s) g' (exitFlag s) (env s) (user s)).
Definition the_instance : M unit := fun s => if instance s then Some (tt, s) else None.
Definition check (m : M bool) (next : M (option Z)) : M (option Z) :=
  ok ← m; if (ok : bool) then next else mret (Some (-1)).

(** [echo_rcp] is the function 1, [ins] the context 0; [sum] is in the user's
    state. *)
Definition main (alloc : bool) (ctx0 rcp0 : option Z) (fuel : nat) (others : M unit) (buf : bool) : M (option Z) :=
  _ ← Config default_udp_config;
  _ ← GetInstance alloc ctx0 rcp0;
  _ ← the_instance;
  check (SPSockUdp.Bind ADDRESS_FAMILY_INET 4567 None) (
  check (SetCallback (Some 1) (Some 0)) (
  check (SetSignalExit SIGINT) (
    r ← EventLoop fuel others buf;
    match r with None => mret None | Some _ => _ ← Release; mret (Some 0) end))).
End main.
End ExampleUdp.
