(* ===== verification/ClientsProps.v ===== *)
(** * ClientsProps: the example and test programs, from main to every later state *)

From S2P Require Import Prelude Types State BufferProvider BufferPool BufferPoolSpec BufferPoolProps.
From S2P Require Import Buffer BufferSpec Kernel Epoll Controller ControllerSpec TaskPool BlockQueue.
From S2P Require Import ThreadPool ThreadPoolSpec ThreadPoolInv Task TaskSpec Tcp TcpSpec TcpIo TcpMain TcpFrame.
From S2P Require Import TcpLoops TcpProps Callback CallbackSpec Stream Server ServerSpec ServerInv ServerStart.
From S2P Require Import ServerProps StreamProps Udp UdpServer Clients.
Import SPSockTcp Server.

(** ** The programs *)

Inductive program := PExample | PEcho | PRecv | PWrite.

Definition config_of (p : program) : SPTcpConfig :=
  match p with
  | PExample => ExampleTcp.config | PEcho => EchoTest.config | PRecv => RecvTest.config | PWrite => WriteTest.config
  end.
Definition callback_of {U} (p : program) : Callback.prog U :=
  match p with
  | PExample => Callback.echo_read_write_proc | PEcho => EchoTest.echo_read_write_proc
  | PRecv => RecvTest.echo_read_write_proc | PWrite => WriteTest.echo_read_write_proc
  end.
Definition echoes (p : program) : bool := match p with PExample | PEcho => true | _ => false end.

Lemma config_of_ok p : tcp_config_ok (config_of p) = true.
Proof. destruct p; vm_compute; reflexivity. Qed.

Lemma config_of_int p : tcp_config_int (config_of p).
Proof. destruct p; repeat split; vm_compute; reflexivity. Qed.

Lemma callback_of_disciplined {U} p : Callback.disciplined (U := U) (callback_of p).
Proof.
  destruct p; [apply Callback.echo_disciplined|..]; (intros [|]; [done|]).
  - intros n. destruct (n <? 0); [done|]. intros size. by destruct (negb (size =? 0)).
  - intros r. by destruct (r.1 =? 0).
  - intros _ n. by destruct (n =? -1).
Qed.

Lemma callback_of_relays {U} p : echoes p = true -> relays (U := U) (callback_of p).
Proof.
  destruct p; intros E; try discriminate E; [apply echo_relays|].
  intros [|]; [done|]. intros n. destruct (n <? 0); [done|]. intros size.
  by destruct (negb (size =? 0)); intros [].
Qed.

(** With this ratio there is at least one thread of each kind. *)
Definition split_ok (p : program) (hw : Z) : bool :=
  match split_threads hw (WORKER_THREAD_RATIO (config_of p)) with
  | Some (io, wk) => (0 <? io) && (0 <? wk) && (wk <? 2 ^ 31)
  | None => false
  end.

Lemma split_ok_all p hw : 1 <= hw <= 1024 ->
  exists io wk, split_threads hw (WORKER_THREAD_RATIO (config_of p)) = Some (io, wk) /\ 0 < io /\ 0 < wk < 2 ^ 31.
Proof.
  intros Hhw. assert (Hall : forallb (split_ok p) (seqZ 1 1024) = true) by (destruct p; vm_compute; reflexivity).
  rewrite forallb_forall in Hall. specialize (Hall hw).
  assert (Hin : In hw (seqZ 1 1024)) by (apply list_elem_of_In, elem_of_seqZ; lia).
  specialize (Hall Hin). unfold split_ok in Hall. destruct (split_threads _ _) as [[io wk]|]; [|discriminate].
  apply andb_true_iff in Hall as [[?%Z.ltb_lt ?%Z.ltb_lt]%andb_true_iff ?%Z.ltb_lt].
  exists io, wk. split; [done|lia].
Qed.

(** ** From main to EventLoop *)

Section main.
Context {W P U : Type} {cap : BUFFER_TYPE -> Z}.
Context `{HK : KernelLaws W} `{HP : BufferProviderLaws P cap} `{HC : Callbacks U} `{HE : !EpollKernel W}.
Context `{HB : BufferReset P}.
Context (ifuel : nat) `{HPat : !Patient W ifuel}.
Context (uninit : BUFFER_TYPE -> list byte) (stale : SOCKController.t -> option SOCKController.t).
Context (grant : nat -> Z -> bool) (sizeofNode cores : Z).
Context (fresh : Z -> option (list (TPBlockQueue.t SockTaskTcp))).
Abbreviation state := (state W P (ThreadPool.t SockTaskTcp) U).
Implicit Types s : state.

#[local] Instance client_lifecycle : PoolLifecycle (ThreadPool.t SockTaskTcp) :=
  thread_pool_lifecycle grant sizeofNode cores fresh.

(** The process when [main] begins. *)
Record process_start s : Prop := {
  ps_inst : instance s = false;
  ps_nodes : nodes s = ∅;
  ps_lent : lent (bufp s) (held_all (nodes s));
  ps_watch : kwatch (kw (env s)) = ∅;
  ps_signal : ksignal (kw (env s)) = ∅;
  ps_flow fd : flow fd (env s) = None }.

(** Configured and listening. *)
Record listening cfg s : Prop := {
  li_bare : bare cfg s;
  li_status : Z.land (status (inst s)) 0xb = 0x3;
  li_flow fd : flow fd (env s) = None }.

(** Calls that arm nothing and touch no stream. *)
Definition mute s s' : Prop := unarmed s s' /\ silent s s'.

#[local] Instance mute_preorder : PreOrder mute.
Proof.
  pose proof (@unarmed_preorder W P (ThreadPool.t SockTaskTcp) U _) as Hu. split.
  - intros s. split; reflexivity.
  - intros s1 s2 s3 [U1 S1] [U2 S2]. split; by etransitivity.
Qed.

Lemma mute_env s s' : env s' = env s -> mute s s'.
Proof. intros E. split; [by apply unarmed_env|by apply silent_env]. Qed.

Lemma mute_sys {A} (c : syscall A) : tame c = true -> plain c = true -> respects mute (SPSockTcp.sys c).
Proof. intros Ht Hp s x s' Hrun. split; [by apply (unarmed_sys c Ht s x)|by apply (silent_sys c Hp s x)]. Qed.

Ltac mute_tac :=
  repeat first [respects_step | by apply mute_sys | apply respects_modify; intros ?; by apply mute_env].

Lemma mute_Listen af port : respects mute (Listen (W := W) (P := P) (TP := ThreadPool.t SockTaskTcp) (U := U) af port None).
Proof.
  intros s x s'. unfold Listen. rewrite (bind_some _ _ _ _ _ (field_run _ s)).
  case_match; [by intros [= _ <-]|]. rewrite (bind_some _ _ _ _ _ (gets_run _ s)). cbn [SOCKADDR_IN.INIT].
  rewrite (bind_some _ _ _ _ _ (modify_run _ s)). intros Hrun.
  transitivity (set_env (env s) s); [by apply mute_env|].
  match type of Hrun with ?m _ = _ => assert (Hm : respects mute m); [|exact (Hm _ _ _ Hrun)] end.
  unfold bind_listen, listen_failed, field, update, sys_. mute_tac.
Qed.

Lemma mute_SetSignalExit sg : respects mute (SetSignalExit (W := W) (P := P) (TP := ThreadPool.t SockTaskTcp) (U := U) sg).
Proof. unfold SetSignalExit, field, update. mute_tac. Qed.

(** The instance once the callbacks are set. *)
Definition with_callbacks (proc0 : SPSockProc) (x : Z) : SPSockTcp.t :=
  set_status x (set_proc (mkProc (Some 1) (Some 1) None None)
    (set_alive (mkAlive 1 120 2 10) (SPSockTcp.SPSockTcp proc0))).

Definition configured (config : SPTcpConfig) (g0 : Globals) : Globals :=
  mkGlobals config (udpConfig g0) (mkWaterMark 0 0) (MIN_LOG_LEVEL config) true.

(** The state in which SetSignalExit is called. *)
Definition called_back config proc0 s : state :=
  set_inst (with_callbacks proc0 0x2) (set_instance true (set_g (configured config (g s)) s)).

Lemma signal_exit_run config proc0 s :
  exists e, mute (called_back config proc0 s) (set_env e (called_back config proc0 s)) /\
    (SetSignalExit SIGINT (called_back config proc0 s) = Some (false, set_env e (called_back config proc0 s)) \/
     SetSignalExit SIGINT (called_back config proc0 s)
       = Some (true, set_inst (with_callbacks proc0 0x6) (set_env e (called_back config proc0 s)))).
Proof.
  set (s1 := called_back config proc0 s). exists (call (Sigaction SIGINT) (env s1)).2.
  split; [exact (mute_sys (Sigaction SIGINT) eq_refl eq_refl _ _ _ (sys_run _ s1))|].
  unfold SetSignalExit. rewrite (bind_some _ _ _ _ _ (field_run _ s1)). change (Z.land _ 0x4 =? 0x4) with false. cbv iota.
  rewrite (bind_some _ _ _ _ _ (sys_run (Sigaction SIGINT) s1)).
  destruct (call (Sigaction SIGINT) (env s1)).1; [by left|by right].
Qed.

(** Up to Listen. *)
Lemma main_to_listen config marks proc0 fuel others pool0 s :
  tcp_config_ok config = true -> instance s = false ->
  (exists s', tcp_main uninit stale config marks true proc0 fuel others pool0 s = Some (Some (-1), s')) \/
  (exists e s1, s1 = set_inst (with_callbacks proc0 0x6) (set_env e (called_back config proc0 s)) /\ mute s s1 /\
     tcp_main uninit stale config marks true proc0 fuel others pool0 s =
       check (Listen ADDRESS_FAMILY_INET 4567 None)
         (_ ← marks; r ← EventLoop uninit stale fuel others pool0; finish r) s1).
Proof.
  intros Hok Hi. destruct (signal_exit_run config proc0 s) as (e & He & Hsig).
  assert (Hpre : tcp_main uninit stale config marks true proc0 fuel others pool0 s =
    check (SetSignalExit SIGINT) (check (Listen ADDRESS_FAMILY_INET 4567 None)
      (_ ← marks; r ← EventLoop uninit stale fuel others pool0; finish r)) (called_back config proc0 s)).
  { unfold tcp_main, Config, TcpConfig. rewrite Hok.
    rewrite (bind_some _ _ _ tt (set_g (configured config (g s)) s)) by done.
    rewrite (bind_some _ _ _ true (set_instance true (set_inst (SPSockTcp.SPSockTcp proc0) (set_g (configured config (g s)) s)))).
    - done.
    - unfold GetInstance. rewrite (bind_some _ _ _ _ _ (gets_run _ _)). cbn [instance set_g]. by rewrite Hi. }
  rewrite Hpre. unfold check at 1 3. destruct Hsig as [Hrun|Hrun]; rewrite (bind_some _ _ _ _ _ Hrun);
    [left; by eexists|right]. exists e. eexists. split; [done|]. split; [|done].
  transitivity (called_back config proc0 s); [by apply mute_env|].
  transitivity (set_env e (called_back config proc0 s)); [done|by apply mute_env].
Qed.

Lemma mute_still s s' : mute s s' -> kwatch (kw (env s)) = ∅ -> ksignal (kw (env s)) = ∅ ->
  (forall fd, flow fd (env s) = None) ->
  kwatch (kw (env s')) = ∅ /\ ksignal (kw (env s')) = ∅ /\ forall fd, flow fd (env s') = None.
Proof.
  intros [[un Heff] Hq] Hw Hs Hf. pose proof (effect_signal _ _ _ _ Heff) as Hs'. rewrite Hs in Hs'.
  pose proof (effect_watch _ _ _ _ Heff ltac:(by intros ? ?%not_elem_of_nil)) as Hw'. rewrite Hw in Hw'.
  split_and!; [set_solver|set_solver|]. intros fd. by rewrite Hq.
Qed.

Lemma listen_ready config proc0 s s1 b s2 :
  process_start s -> (exists e, s1 = set_inst (with_callbacks proc0 0x6) (set_env e (called_back config proc0 s))) ->
  mute s s1 -> Listen ADDRESS_FAMILY_INET 4567 None s1 = Some (b, s2) -> listen_outcome s1 b s2 -> b = true ->
  listening config s2.
Proof.
  intros [Hi Hn Hl Hw Hs Hf] [e Hs1] Hm Hrun Hout ->.
  assert (Hm2 : mute s s2) by (transitivity s1; [done|exact (mute_Listen _ _ _ _ _ Hrun)]).
  destruct (mute_still s s2 Hm2 Hw Hs Hf) as (Hw2 & Hs2 & Hf2).
  inversion Hout as [| |fd e' Hfd E1 E2]. clear Hout. subst s2.
  split; [|by subst s1|exact Hf2].
  split; try (by subst s1); [|by exists 1, 1; subst s1].
  constructor; subst s1; simpl; rewrite ?Hn; try done.
  - by intros a [x Hx].
  - by rewrite Hn in Hl.
Qed.

(** Up to EventLoop. *)
Lemma main_to_loop config marks proc0 fuel others pool0 s :
  tcp_config_ok config = true -> process_start s ->
  (forall s1, listening config s1 -> exists s2, marks s1 = Some (tt, s2) /\ listening config s2) ->
  (exists s', tcp_main uninit stale config marks true proc0 fuel others pool0 s = Some (Some (-1), s')) \/
  (exists s1, listening config s1 /\
     tcp_main uninit stale config marks true proc0 fuel others pool0 s =
       (r ← EventLoop uninit stale fuel others pool0; finish r) s1).
Proof.
  intros Hok Hps Hmarks.
  destruct (main_to_listen config marks proc0 fuel others pool0 s Hok (ps_inst _ Hps))
    as [Hf|(e & s1 & Hs1 & Hm & Hpre)]; [by left|]. rewrite Hpre. unfold check.
  destruct (Listen_spec ADDRESS_FAMILY_INET 4567 None s1) as (b & s2 & Hrun & Hout).
  rewrite (bind_some _ _ _ _ _ Hrun). destruct b; [right|left; by eexists].
  destruct (Hmarks s2) as (s3 & Hrun3 & Hl3); [by eapply listen_ready; eauto|].
  exists s3. split; [done|]. by rewrite (bind_some _ _ _ _ _ Hrun3).
Qed.

Lemma marks_listening r w config s :
  listening config s -> exists s', SetWaterMark r w s = Some (tt, s') /\ listening config s'.
Proof.
  intros [[Hi Hn Hl Hin Hlo Hp Hw Hs] Hst Hf]. eexists. split; [done|].
  split; [split|..]; try done. by destruct Hi; constructor.
Qed.

(** ** From EventLoop to every later state *)

Definition main_of (p : program) : bool -> SPSockProc -> nat -> st state unit -> ThreadPool.t SockTaskTcp ->
    st state (option Z) :=
  match p with
  | PExample => ExampleTcp.main uninit stale
  | PEcho => EchoTest.main uninit stale
  | PRecv => RecvTest.main uninit stale
  | PWrite => WriteTest.main uninit stale
  end.

Context (p : program).
Context (Hhw : forall (e : Env W) n, (call Hardware_concurrency e).1 = inr n -> 0 <= n <= 1024).
Context (Hnode : 0 < sizeofNode <= 4032).
Context (Hfresh : forall n qs, fresh n = Some qs -> Z.of_nat (length qs) = n /\
  Forall (fun q => TPBlockQueue.memoryBlock q = None /\ TPBlockQueue.isStopped q = 0) qs).

Lemma main_of_loop proc0 fuel others pool0 s :
  process_start s ->
  (exists s', main_of p true proc0 fuel others pool0 s = Some (Some (-1), s')) \/
  (exists s1, listening (config_of p) s1 /\
     main_of p true proc0 fuel others pool0 s = (r ← EventLoop uninit stale fuel others pool0; finish r) s1).
Proof.
  intros Hps. pose proof (config_of_ok p) as Hok. destruct p; apply main_to_loop; try done.
  1-3: intros s1 Hs1; by exists s1.
  intros s1 Hs1. by apply marks_listening.
Qed.

Lemma counts_cases s :
  tcpConfig (g s) = config_of p ->
  (exists s', CalculateOptimalThreadCounts s = Some (None, s')) \/
  (exists io wk s', CalculateOptimalThreadCounts s = Some (Some (io, wk), s') /\ 0 < io /\ 0 < wk < 2 ^ 31).
Proof.
  intros Hcfg. unfold CalculateOptimalThreadCounts.
  rewrite (bind_some _ _ _ _ _ (sys_run Hardware_concurrency s)). set (r := (call Hardware_concurrency (env s)).1).
  set (hw := match r with inr n => n | inl _ => 0 end).
  assert (Hr : 0 <= hw <= 1024).
  { unfold hw, r. destruct ((call Hardware_concurrency (env s)).1) eqn:E; [lia|]. exact (Hhw _ _ E). }
  destruct (Z.eqb_spec hw 0) as [|Hne]; [left; by eexists|right].
  rewrite (bind_some _ _ _ _ _ (gets_run _ _)). cbn [g set_env]. rewrite Hcfg.
  destruct (split_ok_all p hw ltac:(lia)) as (io & wk & Hsp & Hio & Hwk). rewrite Hsp.
  exists io, wk. eexists. by split.
Qed.

(** What [main] does: it fails, or the server could not be started, or it goes
    into the main loop from a state in which everything is set up. *)
Lemma main_of_cases proc0 fuel others pool0 s :
  process_start s ->
  (exists s', main_of p true proc0 fuel others pool0 s = Some (Some (-1), s')) \/
  (exists s', main_of p true proc0 fuel others pool0 s = finish (Some false) s') \/
  (exists s', main_of p true proc0 fuel others pool0 s = (r ← leave_loop others (Some false); finish r) s') \/
  (exists idlefd last n s1,
     set_up (config_of p) (Z.to_nat (THREADPOOL_QUEUE_LENGTH (config_of p))) n idlefd s1 /\
     (forall fd, flow fd (env s1) = None) /\
     main_of p true proc0 fuel others pool0 s =
       (r ← main_loop uninit stale fuel others idlefd last; r ← leave_loop others r; finish r) s1).
Proof.
  intros Hps. destruct (main_of_loop proc0 fuel others pool0 s Hps) as [Hf|(s1 & [Hb Hst Hfl] & Hmain)]; [by left|right].
  rewrite Hmain. destruct (counts_cases s1 (ci_cfg _ _ _ (ba_inv _ _ Hb))) as [[s0 Hc]|(io & wk & s0 & Hc & Hio & Hwk)].
  - left. exists s0.
    by rewrite bind_run, (event_loop_checked grant sizeofNode cores fresh _ _ _ _ _ _ Hst), (bind_some _ _ _ _ _ Hc).
  - destruct (event_loop_cases (config_of p) grant sizeofNode cores fresh Hnode Hfresh
                (tcp_config_ok_bounds _ (config_of_ok p)) uninit stale fuel others pool0 io wk s1 s0 Hb Hst Hc Hio Hwk)
      as [[s' He]|[[s' He]|(idlefd & last & s2 & Hu & Hq & He)]];
      unfold lifecycle in He; fold client_lifecycle in He.
    + left. exists s'. by rewrite (bind_some _ _ _ _ _ He).
    + right. left. exists s'. by rewrite (bind_run (EventLoop _ _ _ _ _)), He, (bind_run (leave_loop _ _)).
    + right. right. exists idlefd, last, (Z.to_nat wk), s2. split; [done|]. split; [intros fd; by rewrite Hq|].
      rewrite (bind_run (EventLoop _ _ _ _ _)), He, !(bind_run (main_loop _ _ _ _ _ _)). destruct (main_loop _ _ _ _ _ _ s2) as [[r s3]|]; [|done].
      cbn [mbind option_bind]. by rewrite bind_run.
Qed.

Context (Hcap : forall ty, cap ty = match ty with
                  | BUFFER_TYPE_READ => READ_BSIZE (config_of p) | BUFFER_TYPE_WRITE => WRITE_BSIZE (config_of p) end).
Context (Huninit : forall ty, Z.of_nat (length (uninit ty)) = cap ty).
Context (Hstale : faithful stale).
Context (Hmem : forall ty (q q' : P), get_buffer ty q <> Some (None, q')).
Abbreviation b := (THREADPOOL_BATCH_SIZE_SUBMIT (config_of p)).
Abbreviation L := (Z.to_nat (THREADPOOL_QUEUE_LENGTH (config_of p))).
Abbreviation body := (fun _ : Z => callback_of (U := U) p).

Lemma client_setting : setting (cap := cap) uninit stale body (config_of p).
Proof.
  split; try done; [apply config_of_ok|apply config_of_int|]. intros _. apply callback_of_disciplined.
Qed.

(** Everything is as it should be. *)
Record well (n : nat) (x : Server.sys W P U) : Prop := {
  we_owner : exists l, pool_live L n (halted n x) (tpool (srv x)) l /\ owners b l x ≡ₚ existing (srv x) /\ NoDup (owners b l x);
  we_defined a : admissible L a x ->
    is_Some (act ifuel uninit stale body a x) \/
    act ifuel uninit stale body a x = None /\ uses_freed a x /\ ~ resilient stale;
  we_echo : echoes p = true -> echoing (srv x) }.

(** C7: the programs of the examples and tests, from [main] on.  On a machine of
    at most 1024 processors and with memory that suffices, started in a new
    process, example_tcp, echo_test, recv_test and write_test return -1 when a
    step of the configuration fails, or return 0 because the server could not
    be started, or come into the main loop.  From there on, in whatever order
    the threads act (a turn of the main loop being taken with fewer connections
    than a queue of the pool has places, 20000, and two free buffers): each
    connection has one owner; every next step is defined, save that a turn of
    the main loop reads controllers it has just destroyed, and that a callback
    may write to one that was destroyed, both undefined unless that memory
    still holds its old contents; and in the two echo servers, what was sent on
    a descriptor is a prefix of what was received on it, and of an open
    connection the rest waits, in order, in its two buffers. *)
Theorem client_programs proc0 fuel others pool0 s :
  process_start s ->
  (exists s', main_of p true proc0 fuel others pool0 s = Some (Some (-1), s')) \/
  (exists s', main_of p true proc0 fuel others pool0 s = finish (Some false) s') \/
  (exists s', main_of p true proc0 fuel others pool0 s = (r ← leave_loop others (Some false); finish r) s') \/
  (exists idlefd last n s1,
     main_of p true proc0 fuel others pool0 s =
       (r ← main_loop uninit stale fuel others idlefd last; r ← leave_loop others r; finish r) s1 /\
     forall ts x, Z.of_nat (length ts) = b -> reach ifuel uninit stale body L (launch ts idlefd last s1) x -> well n x).
Proof.
  intros Hps. destruct (main_of_cases proc0 fuel others pool0 s Hps)
    as [Hf|[Hf|[Hf|(idlefd & last & n & s1 & Hu & Hfl & Hrun)]]]; [by left|by right; left|by right; right; left|].
  right. right. right. exists idlefd, last, n, s1. split; [done|]. intros ts x Hts Hr.
  pose proof (reach_server ifuel uninit stale body (config_of p) n idlefd last ts s1 x client_setting Hu Hts Hr) as Hx.
  split.
  - destruct Hx as (off & l & [[-> _] _ Hp Hv _ _ _ _]). exists l. split; [done|]. split; [apply Hv|]. by apply (view_nodup _ _ _ _ Hv).
  - intros a Ha. destruct (server_next ifuel uninit stale body (config_of p) n a x client_setting Hx Ha) as [?|(r & Hr' & _)];
      [by right|left; by exists r].
  - intros He. by apply (reach_echoing ifuel uninit stale body (config_of p) client_setting
      (fun _ => callback_of_relays p He) n idlefd last ts s1 x).
Qed.
End main.

(** ** Witness: example_tcp on the kernel of [Epoll] *)

Definition w_client_cfg : SPTcpConfig := config_of PExample.
#[local] Instance w_client_provider : BufferProvider SPTcpBufferPool.state := pool_provider (fun _ _ => true) w_client_cfg.
#[local] Instance w_client_laws : BufferProviderLaws SPTcpBufferPool.state (buf_cap w_client_cfg) :=
  pool_laws (fun _ _ => true) w_client_cfg.
#[local] Existing Instance w_tcp_callbacks.
#[local] Instance w_client_lifecycle : PoolLifecycle (ThreadPool.t SockTaskTcp) :=
  thread_pool_lifecycle (fun _ _ => true) 24 8 w_fresh.

Definition w_client_uninit (ty : BUFFER_TYPE) : list byte := replicate (Z.to_nat (buf_cap w_client_cfg ty)) x00.

Definition w_process : state QuickW SPTcpBufferPool.state (ThreadPool.t SockTaskTcp) (Z * Z) := mkState
  (SPSockTcp.SPSockTcp (mkProc None None None None)) false
  (mkGlobals w_client_cfg default_udp_config (mkWaterMark 0 0) LOG_LEVEL_INFO false) true ∅ ∅ 1
  (mkEnv (mkQuick {[0; 1; 2]} ∅ ∅ 0 false [x68; x69]) []) pool_start.1 (ThreadPool.ThreadPool 0) (0, 0).

Lemma w_process_start : process_start w_process.
Proof.
  split; try done. apply (pool_lent_start w_client_cfg). repeat split; vm_compute; congruence.
Qed.

Abbreviation w_client := (main_of (HB := pool_reset) w_client_uninit strict (fun _ _ => true) 24 8 w_fresh PExample true
  (mkProc None None None None) 0 (mret tt) (ThreadPool.ThreadPool 0)).

(** It comes into the main loop, of which no turn is taken here. *)
Lemma w_client_runs : fst <$> w_client w_process = Some None.
Proof. vm_compute. reflexivity. Qed.

Abbreviation w_client_state := (state QuickW SPTcpBufferPool.state (ThreadPool.t SockTaskTcp) (Z * Z)).

Lemma w_finished (s : w_client_state) b : fst <$> finish (Some b) s <> Some None.
Proof. unfold finish. rewrite bind_run. by destruct (Release s) as [[]|]. Qed.

Lemma w_ended (s : w_client_state) : fst <$> (r ← leave_loop (mret tt) (Some false); finish r) s <> Some None.
Proof.
  rewrite (bind_run (leave_loop _ _)). destruct (leave_loop (mret tt) (Some false) s) as [[r s1]|] eqn:E; [|done].
  rewrite (w_left s r s1 E). apply w_finished.
Qed.

(** The state in which it does. *)
Definition w_entered : w_client_state := match w_client w_process with Some (_, s) => s | None => w_process end.

Lemma w_entered_eq idlefd last s1 :
  w_client w_process = (r ← main_loop w_client_uninit strict 0 (mret tt) idlefd last;
                        r ← leave_loop (mret tt) r; finish r) s1 -> s1 = w_entered.
Proof. unfold w_entered. by intros ->. Qed.

(** Whatever the time of the last visit to the empty close list, the first turn
    accepts a connection. *)
Lemma w_first_turn idlefd last (s : w_client_state) :
  exitFlag s = true -> cList (inst s) = [] -> exists timeout last',
    let e := mkEnv (mkQuick (q_open (kw (env s))) (q_watch (kw (env s))) (q_signal (kw (env s)))
                      (q_ticks (kw (env s)) + 1 + 1) (q_hup (kw (env s))) (q_in (kw (env s))))
      ((((tr (env s) ++ [Ev Exit_flag (inr true)]) ++ [Ev Steady_clock_ns (inr (q_ticks (kw (env s)) * 50000000))])
        ++ [Ev (Poll_in (listenfd (inst s)) timeout) (inr 1)])
        ++ [Ev Steady_clock_ns (inr ((q_ticks (kw (env s)) + 1) * 50000000))]) in
    main_round w_client_uninit strict idlefd last s =
      (ok ← HandleConnect w_client_uninit strict idlefd;
       if (ok : bool) then mret (inl last') else _ ← sys_ (Close idlefd); mret (inr false)) (set_env e s).
Proof.
  intros Hflag Hl. unfold main_round.
  set (e1 := mkEnv (kw (env s)) (tr (env s) ++ [Ev Exit_flag (inr true)])).
  rewrite (bind_some _ _ s true (set_env e1 s)) by (rewrite <- Hflag; reflexivity). cbn [negb].
  set (now := q_ticks (kw (env s)) * 50000000). set (e2 := (call Steady_clock_ns e1).2).
  rewrite (bind_some _ _ (set_env e1 s) now (set_env e2 s)) by reflexivity.
  rewrite (bind_some _ _ _ (listenfd (inst s)) (set_env e2 s)) by reflexivity. cbv zeta.
  set (timeout := if _ <? 0 then 0 else _). set (poll := Poll_in _ timeout).
  rewrite (bind_some _ _ _ (inr 1) (set_env (call poll e2).2 s)) by reflexivity.
  set (now' := (q_ticks (kw (env s)) + 1) * 50000000). set (e3 := (call Steady_clock_ns (call poll e2).2).2).
  rewrite (bind_some _ _ _ now' (set_env e3 s)) by reflexivity.
  set (due := 50 <=? _). rewrite (bind_some _ _ _ tt (set_env e3 s)).
  - exists timeout, (if due then now' else last). reflexivity.
  - destruct due; [|reflexivity]. cbn [when]. unfold HandleCloseList.
    rewrite (bind_some _ _ _ [] (set_env e3 s)) by (rewrite <- Hl; reflexivity).
    assert (Hi : set_cList [] (inst s) = inst s) by (rewrite <- Hl; by destruct (inst s)).
    change (update (set_cList []) (set_env e3 s) = Some (tt, set_env e3 s)).
    unfold update. rewrite modify_run. simpl. by rewrite Hi.
Qed.

Abbreviation w_client_sys := (Server.sys QuickW SPTcpBufferPool.state (Z * Z)).
Abbreviation w_client_run := (run (W := QuickW) 1 w_client_uninit strict (fun _ => callback_of PExample)).
Abbreviation w_client_reach := (reach (W := QuickW) 1 w_client_uninit strict (fun _ => callback_of PExample)
  (Z.to_nat (THREADPOOL_QUEUE_LENGTH w_client_cfg))).

Lemma w_run_reach_client l (x0 x y : w_client_sys) :
  w_client_reach x0 x -> Forall (fun a => a <> AMain) l -> w_client_run l x = Some (Ready y) -> w_client_reach x0 y.
Proof.
  intros Hx Hl. revert x Hx. induction Hl as [|a l Ha _ IH]; intros x Hx; cbn [run]; [by intros [= <-]|].
  destruct (act _ _ _ _ a x) as [[|x']|] eqn:E; cbn [mbind option_bind]; [done| |done].
  apply IH. eapply reach_step; [exact Hx| |exact E]. by destruct a.
Qed.
(** Two bytes come in on it, are handed to a worker and sent back. *)
Definition w_client_rest : list action :=
  [AIo 0; AIo 0; AIo 0; AWorker 0 false; AWorker 0 false; AWorker 0 false; AWorker 0 false; AWorker 0 false].

#[local] Existing Instance pool_can_lend_dec.
#[local] Instance w_byte_eq : EqDecision Byte.byte := Byte.byte_eq_dec.

Definition w_echoed (r : option (waited w_client_sys)) : bool :=
  match r with
  | Some (Ready y) => match (wks y !! 0%nat) ≫= wt_call with Some (1, _) => true | _ => false end &&
      bool_decide (flow 7 (env (srv y)) = Some ([x68; x69], [x68; x69]))
  | _ => false
  end.

(** The first turn, then the rest. *)
Lemma w_client_goes idlefd last : exists y,
  w_client_reach (launch w_array idlefd last w_entered) y /\
  (exists fr, (wks y !! 0%nat) ≫= wt_call = Some (1, fr)) /\ flow 7 (env (srv y)) = Some ([x68; x69], [x68; x69]).
Proof.
  destruct (w_first_turn idlefd last w_entered) as (timeout & last' & Hturn); [vm_compute; reflexivity..|]. cbv zeta in Hturn.
  set (s0 := set_env _ w_entered) in Hturn.
  set (r := HandleConnect w_client_uninit strict idlefd s0).
  set (x1 := mkSys (match r with Some (_, s') => s' | None => s0 end) (Looping idlefd last')
               (ios (launch w_array idlefd last w_entered)) (wks (launch w_array idlefd last w_entered))).
  assert (Hact : act (W := QuickW) 1 w_client_uninit strict (fun _ => callback_of PExample) AMain
                   (launch w_array idlefd last w_entered) = Some (Ready x1)).
  { cbn [act launch main_at srv main_step]. rewrite bind_run, Hturn, bind_run. fold r.
    assert (Hr : (match r with Some (b, _) => b | None => false end) = true) by (vm_compute; reflexivity).
    unfold x1. destruct r as [[[|] s']|]; [|discriminate Hr..]. reflexivity. }
  assert (He : w_echoed (w_client_run w_client_rest x1) = true) by (vm_compute; reflexivity).
  destruct (w_client_run w_client_rest x1) as [[|y]|] eqn:Ey; [discriminate He| |discriminate He].
  exists y. split.
  - apply (w_run_reach_client w_client_rest _ x1); [|repeat constructor; discriminate|exact Ey].
    assert (Hn : size (nodes w_entered) = 0%nat) by (vm_compute; reflexivity).
    assert (Hl : bool_decide (pool_can_lend w_client_cfg 2 (bufp w_entered)) = true) by (vm_compute; reflexivity).
    apply bool_decide_eq_true in Hl.
    eapply reach_step; [apply reach_refl| |exact Hact]. split; [|exact Hl].
    cbn [launch srv]. rewrite Hn. change (THREADPOOL_QUEUE_LENGTH w_client_cfg) with 20000. lia.
  - unfold w_echoed in He. apply andb_true_iff in He as [Hc Hf%bool_decide_eq_true]. split; [|exact Hf].
    destruct ((wks y !! 0%nat) ≫= wt_call) as [[a fr]|]; [|discriminate Hc]. exists fr.
    destruct a as [|[| |]|]; (discriminate Hc || reflexivity).
Qed.

Lemma client_programs_witness : exists idlefd last n y,
  w_client_reach (launch w_array idlefd last w_entered) y /\
  (exists fr, (wks y !! 0%nat) ≫= wt_call = Some (1, fr)) /\
  flow 7 (env (srv y)) = Some ([x68; x69], [x68; x69]) /\ well 1 w_client_uninit strict PExample n y.
Proof.
  destruct (client_programs 1 w_client_uninit strict (fun _ _ => true) 24 8 w_fresh PExample) with
    (proc0 := mkProc None None None None) (fuel := 0%nat) (others := mret (M := st w_client_state) tt)
    (pool0 := ThreadPool.ThreadPool (T := SockTaskTcp) 0) (s := w_process)
    as [[s' H]|[[s' H]|[[s' H]|(idlefd & last & n & s1 & Hs1 & H)]]].
  - intros [w t0] m [= <-]. lia.
  - lia.
  - intros n qs. unfold w_fresh. destruct (Z.leb_spec 0 n); [|discriminate]. intros [= <-].
    rewrite length_replicate. split; [lia|]. by apply Forall_replicate.
  - by intros [].
  - intros ty. unfold w_client_uninit. rewrite length_replicate, Z2Nat.id; [done|]. by destruct ty.
  - intros c. by left.
  - intros ty q q'. by apply granted_memory.
  - exact w_process_start.
  - exfalso. pose proof w_client_runs as Hw. rewrite H in Hw. discriminate Hw.
  - exfalso. pose proof w_client_runs as Hw. rewrite H in Hw. exact (w_finished s' false Hw).
  - exfalso. pose proof w_client_runs as Hw. rewrite H in Hw. exact (w_ended s' Hw).
  - apply w_entered_eq in Hs1. subst s1. destruct (w_client_goes idlefd last) as (y & Hy & Hc & Hf).
    exists idlefd, last, n, y. split; [exact Hy|]. split; [exact Hc|]. split; [exact Hf|].
    apply (H w_array); [reflexivity|exact Hy].
Defined.
