(* ===== verification/ClientsUdpProps.v ===== *)
(** * ClientsUdpProps: the UDP example, from main to every later state *)

From S2P Require Import Prelude Types State Kernel Epoll Controller Tcp TcpSpec TcpLoops TcpFrame.
From S2P Require Import Udp UdpProps UdpServer UdpServerProps Clients.
Import SPSockUdp UdpServer.

(** ** Calls that open sockets *)

Section path.
Context {W : Type} `{HE : EpollKernel W}.

Lemma opens_few ev : opened_ev ev = [] \/ exists f, opened_ev ev = [f].
Proof.
  destruct ev as [A [] r]; simpl; try (by left); destruct r as [|x]; try (by left); try (by right; eexists).
  destruct x. by right; eexists.
Qed.

(** Descriptors opened while none is closed are all different. *)
Lemma path_opened (e : Env W) evs e' :
  path e evs e' -> evs ≫= closed_ev = [] ->
  NoDup (evs ≫= opened_ev) /\ forall f, f ∈ (evs ≫= opened_ev) -> f ∉ kopen (kw e).
Proof.
  induction 1 as [e|A c e evs e' Hp IH]; [split; [constructor|by intros f ?%not_elem_of_nil]|].
  rewrite !bind_cons. intros [Hc1 Hc2]%app_eq_nil. destruct (IH Hc2) as [Hnd Hnew]. clear IH.
  destruct (call_kernel c e) as [Hr Hw].
  assert (Hop : forall f, f ∈ opened_ev (Ev c (call c e).1) -> f ∉ kopen (kw e) /\ f ∈ kopen (kw (call c e).2)).
  { intros f. rewrite Hr, Hw. intros Hf. apply open_law in Hf as (_ & ? & ?). done. }
  split.
  - apply NoDup_app. split; [|split; [|done]].
    + destruct (opens_few (Ev c (call c e).1)) as [->|[f ->]]; [constructor|apply NoDup_singleton].
    + intros f Hf Hin. apply (Hnew f Hin), Hop, Hf.
  - intros f [Hf|Hf]%elem_of_app; [by apply Hop|]. intros Hk. apply (Hnew f Hf). rewrite Hw.
    apply kopen_law; [done|]. rewrite <- Hr, Hc1. apply not_elem_of_nil.
Qed.
End path.

Section setup.
Context {W U : Type} `{HE : EpollKernel W} `{HR : Receiver U}.
Implicit Types s : state W U.

(** From [s] to [s'] by calls that receive and send nothing. *)
Definition setting_up s s' : Prop := exists evs, path (env s) evs (env s') /\
  forall fd, evs ≫= inbox_ev fd = [] /\ evs ≫= outbox_ev fd = [].

#[local] Instance setting_up_preorder : PreOrder setting_up.
Proof.
  split; [intros s; exists []; split; [constructor|done]|].
  intros s1 s2 s3 (l1 & P1 & B1) (l2 & P2 & B2). exists (l1 ++ l2). split; [by eapply path_app|].
  intros fd. rewrite !bind_app. destruct (B1 fd) as [-> ->], (B2 fd) as [-> ->]. done.
Qed.

Lemma setting_env s s' : env s' = env s -> setting_up s s'.
Proof. intros E. exists []. rewrite E. split; [constructor|done]. Qed.

Lemma setting_sys {A} (c : syscall A) :
  match c with Recvfrom _ _ | Sendto _ _ _ _ => False | _ => True end -> respects setting_up (SPSockUdp.sys c).
Proof.
  intros Hc s x s'. rewrite usys_run. intros [= _ <-]. 
  exists [Ev c (call c (env s)).1]. split; [exact (path_cons c _ _ _ (path_nil _))|].
  intros fd. rewrite !bind_cons, !app_nil_r. by destruct c.
Qed.

Abbreviation sets_up := (respects setting_up).
Ltac setting_tac :=
  repeat first [respects_step | by apply setting_sys | apply respects_modify; intros ?; by apply setting_env].

Lemma sets_up_options fd opts : sets_up (set_options fd opts).
Proof. induction opts as [|o opts IH]; cbn [set_options]; [apply respects_ret, _|setting_tac]. Qed.
#[local] Hint Resolve sets_up_options : respects.

Lemma sets_up_bind_one af addr : sets_up (bind_one af addr).
Proof. unfold bind_one, field, update, sys_. setting_tac. Qed.
#[local] Hint Resolve sets_up_bind_one : respects.

Lemma sets_up_bind_loop af n addr : sets_up (bind_loop af n addr).
Proof. induction n as [|n IH]; cbn [bind_loop]; [apply respects_ret, _|setting_tac]. Qed.
#[local] Hint Resolve sets_up_bind_loop : respects.

Lemma sets_up_Bind af port : sets_up (Bind af port None).
Proof.
  intros s x s'. unfold Bind. rewrite (bind_some _ _ _ _ _ (ufield_run _ s)).
  destruct (negb _); [by intros [= _ <-]|]. rewrite (bind_some _ _ _ _ _ (gets_run _ s)). cbn [SOCKADDR_IN.INIT].
  rewrite (bind_some _ _ _ _ _ (modify_run _ s)). intros Hrun.
  transitivity (set_env (env s) s); [by apply setting_env|].
  match type of Hrun with ?m _ = _ => assert (Hm : sets_up m); [|exact (Hm _ _ _ Hrun)] end.
  unfold close_fds, field, update, sys_. setting_tac.
Qed.


(** ** From main to EventLoop *)

Record process_start s : Prop := {
  us_inst : instance s = false;
  us_mail fd : inbox fd (env s) = [] /\ outbox fd (env s) = [] }.

(** Bound, with [echo_rcp] as the receiver. *)
Record serving s : Prop := {
  sv_status : Z.land (status (inst s)) 0xb = 0x3;
  sv_rcp : rcp (inst s) = Some 1;
  sv_ctx : ctx (inst s) = Some 0;
  sv_fds : NoDup (fds (inst s));
  sv_mail fd : inbox fd (env s) = [] /\ outbox fd (env s) = [] }.

Lemma setting_mail s s' : setting_up s s' ->
  (forall fd, inbox fd (env s) = [] /\ outbox fd (env s) = []) ->
  forall fd, inbox fd (env s') = [] /\ outbox fd (env s') = [].
Proof.
  intros (evs & Hp & Hq) Hm fd. destruct (Hm fd) as [Hi Ho], (Hq fd) as [Hi' Ho'].
  unfold inbox, outbox in *. by rewrite (path_tr _ _ _ Hp), !bind_app, Hi, Ho, Hi', Ho'.
Qed.

Lemma setting_fds s s' l : setting_up s s' -> fds_step (env s) (env s') l [] -> NoDup l.
Proof.
  intros (evs & Hp & _) [Ho Hc].
  assert (E1 : evs ≫= closed_ev = []) by exact (path_closed _ _ _ _ Hp Hc).
  assert (E2 : evs ≫= opened_ev = l).
  { unfold opened in Ho. rewrite (path_tr _ _ _ Hp), bind_app in Ho. by apply app_inv_head in Ho. }
  rewrite <- E2. by apply (path_opened _ _ _ Hp).
Qed.

Definition made (ctx0 rcp0 : option Z) s : state W U :=
  mkState (SPSockUdp.SPSockUdp ctx0 rcp0) true
    (mkGlobals (tcpConfig (g s)) default_udp_config (markGlobal (g s)) LOG_LEVEL_WARNING (hooks (g s)))
    (exitFlag s) (env s) (user s).

(** SetCallback and SetSignalExit on a server that is bound. *)
Definition armed_with l s : state W U := set_inst (mk (Some 0) (Some 1) 0x3 l) s.

Lemma callback_run l s c0 r0 :
  inst s = mk c0 r0 0x1 l -> SPSockUdp.SetCallback (Some 1) (Some 0) s = Some (true, armed_with l s).
Proof.
  intros Hi. unfold SPSockUdp.SetCallback. rewrite (bind_some _ _ _ _ _ (ufield_run _ s)), Hi.
  unfold armed_with. unfold update. rewrite (bind_some _ _ _ _ _ (modify_run _ s)). by rewrite Hi.
Qed.

Lemma signal_run l s :
  exists b s', SPSockUdp.SetSignalExit SIGINT (armed_with l s) = Some (b, s') /\ setting_up s s' /\
    (b = true -> inst s' = mk (Some 0) (Some 1) 0x7 l).
Proof.
  assert (Hq : setting_up s (set_env (call (Sigaction SIGINT) (env s)).2 (armed_with l s))).
  { transitivity (armed_with l s); [by apply setting_env|].
    exact (setting_sys (Sigaction SIGINT) I _ _ _ (usys_run _ (armed_with l s))). }
  unfold SPSockUdp.SetSignalExit. rewrite (bind_some _ _ _ _ _ (usys_run (Sigaction SIGINT) _)).
  cbn [armed_with env set_inst]. destruct (call (Sigaction SIGINT) (env s)).1; [by eexists false, _|].
  eexists true, _. split; [reflexivity|]. split; [|done]. etransitivity; [exact Hq|]. by apply setting_env.
Qed.

Context (Hhw : forall (e : Env W) n, (call Hardware_concurrency e).1 = inr n -> 0 <= n).
Abbreviation udp_main := (ExampleUdp.main (W := W) (U := U) true).

(** EventLoop and what follows. *)
Definition rest (fuel : nat) (others : st (state W U) unit) (buf : bool) : st (state W U) (option Z) :=
  r ← EventLoop fuel others buf;
  match r with None => mret None | Some _ => _ ← Release; mret (Some 0) end.

Lemma main_made ctx0 rcp0 fuel others buf s :
  instance s = false ->
  udp_main ctx0 rcp0 fuel others buf s =
    ExampleUdp.check (Bind ADDRESS_FAMILY_INET 4567 None)
      (ExampleUdp.check (SPSockUdp.SetCallback (Some 1) (Some 0))
        (ExampleUdp.check (SPSockUdp.SetSignalExit SIGINT) (rest fuel others buf))) (made ctx0 rcp0 s).
Proof.
  intros Hi. unfold ExampleUdp.main, ExampleUdp.Config, UdpConfig.
  rewrite default_udp_config_ok. 
  set (g1 := mkGlobals (tcpConfig (g s)) default_udp_config (markGlobal (g s)) LOG_LEVEL_WARNING (hooks (g s))).
  set (s0 := mkState (inst s) (instance s) g1 (exitFlag s) (env s) (user s)).
  rewrite (bind_some _ _ _ tt s0) by done.
  rewrite (bind_some _ _ _ true (made ctx0 rcp0 s)); [done|].
  unfold GetInstance. rewrite (bind_some _ _ _ _ _ (gets_run _ s0)). unfold s0 at 1. cbn [instance]. by rewrite Hi.
Qed.

(** With the sockets [l]. *)
Lemma main_bound l c0 r0 fuel others buf s :
  inst s = mk c0 r0 0x1 l -> NoDup l -> (forall fd, inbox fd (env s) = [] /\ outbox fd (env s) = []) ->
  let next := ExampleUdp.check (SPSockUdp.SetCallback (Some 1) (Some 0))
                (ExampleUdp.check (SPSockUdp.SetSignalExit SIGINT) (rest fuel others buf)) in
  (exists s', next s = Some (Some (-1), s')) \/ (l = [] /\ next s = None) \/
  (exists s', serving s' /\ next s = rest fuel others buf s').
Proof.
  intros Hi Hnd Hm next. destruct (signal_run l s) as (b & s' & Hrun & Hq & Hb).
  assert (Hnext : next s = (if b then rest fuel others buf else mret (Some (-1))) s').
  { unfold next, ExampleUdp.check. rewrite (bind_some _ _ _ _ _ (callback_run l s c0 r0 Hi)).
    by rewrite (bind_some _ _ _ _ _ Hrun). }
  rewrite Hnext. destruct b; [|left; by eexists]. right. specialize (Hb eq_refl). destruct l as [|fd l].
  - left. split; [done|]. unfold rest. rewrite bind_run.
    rewrite (udp_loop_without_sockets fuel others buf s'); [done|by rewrite Hb..].
  - right. exists s'. split; [|done]. split; rewrite ?Hb; try done. by apply (setting_mail s).
Qed.

(** C24: the UDP example from [main] on.  Started in a new process,
    example_udp returns -1 when a step fails; or runs into undefined behaviour,
    which happens only when Bind came back without a socket; or calls EventLoop
    on a server that is bound.  From there on, in whatever order the threads
    act, every next step is defined and on every socket the answers that went
    out are those to the datagrams that came in, in order. *)
Theorem udp_program af pton (bump : U -> U) ctx0 rcp0 fuel others buf s :
  (forall ip (e : Env W), match (call (Inet_pton af ip) e).1 with
     | inr a => pton ip = Some a | inl _ => pton ip = None end) ->
  process_start s ->
  (exists s', udp_main ctx0 rcp0 fuel others buf s = Some (Some (-1), s')) \/
  (udp_main ctx0 rcp0 fuel others buf s = None /\ exists s1, fds (inst s1) = [] /\
     Bind ADDRESS_FAMILY_INET 4567 None (made ctx0 rcp0 s) = Some (true, s1)) \/
  (exists s1, udp_main ctx0 rcp0 fuel others buf s = rest fuel others buf s1 /\
     let body (f : Z) := echo_rcp bump in
     forall x, reach af body (launch s1) x -> UdpServerProps.echoing af pton body x).
Proof.
  intros Hpton [Hi Hm]. rewrite (main_made ctx0 rcp0 fuel others buf s Hi).
  destruct (Bind_spec ADDRESS_FAMILY_INET 4567 None (made ctx0 rcp0 s) eq_refl Hhw) as (b & s1 & Hrun & Hout).
  pose proof (sets_up_Bind _ _ _ _ _ Hrun) as Hq.
  assert (Hm1 : forall fd, inbox fd (env s1) = [] /\ outbox fd (env s1) = []) by (by apply (setting_mail _ _ Hq)).
  unfold ExampleUdp.check at 1 4 7. rewrite (bind_some _ _ _ _ _ Hrun). destruct b; [|left; by eexists].
  assert (exists c0 r0 l, inst s1 = mk c0 r0 0x1 l /\ NoDup l) as (c0 & r0 & l & Hl & Hnd).
  { inversion Hout as [|l e Hne He|e op cl Hp He]; subst; eexists _, _, _; (split; [reflexivity|]); [|constructor].
    by apply (setting_fds _ _ l Hq). }
  destruct (main_bound l c0 r0 fuel others buf s1 Hl Hnd Hm1) as [Hf|[[-> Hf]|(s2 & Hs & Hf)]]; [by left|right; left|right; right].
  - split; [done|]. exists s1. by rewrite Hl.
  - exists s2. split; [done|]. intros x Hr. destruct Hs as [Hst Hrcp _ Hnd2 Hm2].
    apply (udp_reach_echoing af bump pton Hpton (fun _ => echo_rcp bump) (fun _ _ _ _ _ _ => eq_refl) s2 x); [|by exists 1|done|done|done].
    change 0x1 with (Z.land 0xb 0x1) at 1. by rewrite Z.land_assoc, Hst.
Qed.
End setup.

(** ** Witness: the example on the kernel of [Epoll] *)

#[local] Instance w_count_receiver : Receiver Z := fun _ _ _ _ _ _ n => n + 1.

Definition w_udp_process : state QuickW Z := mkState
  (SPSockUdp.SPSockUdp None None) false
  (mkGlobals default_tcp_config default_udp_config (mkWaterMark 0 0) LOG_LEVEL_INFO false) true
  (mkEnv (mkQuick {[0; 1; 2]} ∅ ∅ 0 false [x68; x69]) []) 0.

(** Two sockets are opened; no turn of the loops is taken here. *)
Lemma w_udp_runs : fst <$> ExampleUdp.main true None None 0 (mret tt) true w_udp_process = Some None.
Proof. vm_compute. reflexivity. Qed.

Lemma udp_program_witness : exists s1 : state QuickW Z,
  UdpServerProps.echoing ADDRESS_FAMILY_INET w_pton (fun _ => echo_rcp Z.succ) (launch s1).
Proof.
  assert (Hn : forall (e : Env QuickW) n, (call Hardware_concurrency e).1 = inr n -> 0 <= n)
    by (intros [w t0] n [= <-]; lia).
  assert (Hp : forall ip (e : Env QuickW),
    match (call (Inet_pton ADDRESS_FAMILY_INET ip) e).1 with
    | inr a => w_pton ip = Some a | inl _ => w_pton ip = None end) by (intros; reflexivity).
  destruct (udp_program Hn ADDRESS_FAMILY_INET w_pton Z.succ None None 0 (mret tt) true w_udp_process Hp)
    as [[s' H]|[[H _]|(s1 & _ & H)]].
  - split; [reflexivity|]. intros fd. split; reflexivity.
  - exfalso. pose proof w_udp_runs as Hw. rewrite H in Hw. discriminate Hw.
  - exfalso. pose proof w_udp_runs as Hw. rewrite H in Hw. discriminate Hw.
  - exists s1. apply H, UdpServer.reach_refl.
Defined.
